(** * Scanner engine: planner, dedupe index, task interpreter, batch executor

    A shallow embedding of the scan runner of the scanner plugin
    ([createRunnable] and the task executor of engine/src/core), of the
    CSP header parser and of the [csp-untrusted-script] check, together with
    the properties of the specification that were checked against them.
    The other checks that read the policy header with the same parser, the
    cache of parsed documents of the runner and the store of the sessions of
    the frontend follow, with properties read off their code.

    Conventions of the embedding.
    - JavaScript strings are [string]s of 8-bit code units; the white space
      class of [trim] and of the [\s] escape is restricted to that range.
    - A JavaScript [Map] is an association list in insertion order
      ([JsMap.t]); [set] on a present key replaces the value in place.
    - The dedupe index is a [Map<string, Set<string>>]: both the map and the
      sets are mutable objects that can be aliased (a snapshot, an index
      installed from outside), so they live in an explicit store and are
      referred to by address.
    - Promises are run one at a time: the pools run with one task in flight,
      and an [await] is a point where the outside world (a [cancel] call, the
      scan timer) can act.  Real time is an oracle that gives the elapsed
      milliseconds at every such point.  The timeout that the pool of a
      batch puts on each task ([checkTimeout]) and the request queue are
      left out, and so are the listeners of the events: the events emitted
      are kept in a list.  The pools of the model are therefore those of
      the code for [concurrentTargets = concurrentChecks = 1] and for runs
      in which no check outlives its timer; the statements about a run
      that depend on what else is in flight say so with the hypotheses
      [sequentialPools] and [checkTimerQuiet]. *)

From Stdlib Require Import List String Ascii Bool Arith ZArith Lia.
From Stdlib Require Import DecimalString.
From Stdlib Require Import Relations ListDec Permutation Sorted.
Import ListNotations.

Local Open Scope string_scope.
Local Open Scope list_scope.

(* ===================================================================== *)
(** ** JavaScript strings *)
(* ===================================================================== *)

Module JsStr.

(** White space of [String.prototype.trim] and of [\s], for code units
    below 256: TAB, LF, VT, FF, CR, SPACE and NO-BREAK SPACE. *)
Definition isWhitespace (c : ascii) : bool :=
  let n := nat_of_ascii c in
  ((9 <=? n)%nat && (n <=? 13)%nat) || (n =? 32)%nat || (n =? 160)%nat.

Fixpoint dropWhile {A} (p : A -> bool) (l : list A) : list A :=
  match l with
  | [] => []
  | x :: r => if p x then dropWhile p r else l
  end.

(** [s.trim()] *)
Definition trim (s : string) : string :=
  string_of_list_ascii
    (rev (dropWhile isWhitespace
            (rev (dropWhile isWhitespace (list_ascii_of_string s))))).

(** Puts a character in front of the first piece of a split. *)
Definition consHead (c : ascii) (l : list string) : list string :=
  match l with
  | [] => [String c EmptyString]
  | h :: t => String c h :: t
  end.

(** [s.split(sep)] for a separator of one character. *)
Fixpoint splitChar (sep : ascii) (s : string) : list string :=
  match s with
  | EmptyString => [EmptyString]
  | String c r =>
      if Ascii.eqb c sep then EmptyString :: splitChar sep r
      else consHead c (splitChar sep r)
  end.

(** [s.split(/\s+/)]: the pieces between maximal runs of white space.
    [inSep] tells that the previous character belonged to a separator. *)
Fixpoint splitWsFrom (inSep : bool) (s : string) : list string :=
  match s with
  | EmptyString => [EmptyString]
  | String c r =>
      if isWhitespace c then
        if inSep then splitWsFrom true r
        else EmptyString :: splitWsFrom true r
      else consHead c (splitWsFrom false r)
  end.

Definition splitWhitespace (s : string) : list string := splitWsFrom false s.

(** [s.startsWith(p)] *)
Definition startsWith (s p : string) : bool := String.prefix p s.

(** [s.includes(sub)] *)
Fixpoint includes (s sub : string) : bool :=
  String.prefix sub s
  || match s with
     | EmptyString => false
     | String _ r => includes r sub
     end.

(** [arr.includes(x)] on an array of strings. *)
Definition arrayIncludes (arr : list string) (x : string) : bool :=
  existsb (String.eqb x) arr.

(** [arr.join(sep)] *)
Definition join (sep : string) (arr : list string) : string :=
  String.concat sep arr.

Definition nonEmpty (s : string) : bool := negb (String.eqb s "").

End JsStr.

(* ===================================================================== *)
(** ** JavaScript maps *)
(* ===================================================================== *)

Module JsMap.

Definition t (V : Type) : Type := list (string * V).

Definition empty {V} : t V := [].

Fixpoint get {V} (k : string) (m : t V) : option V :=
  match m with
  | [] => None
  | (k', v) :: r => if String.eqb k k' then Some v else get k r
  end.

Definition has {V} (k : string) (m : t V) : bool :=
  match get k m with Some _ => true | None => false end.

(** [m.set(k, v)]: a present key keeps its place, a new one goes last. *)
Fixpoint set {V} (k : string) (v : V) (m : t V) : t V :=
  match m with
  | [] => [(k, v)]
  | (k', v') :: r =>
      if String.eqb k k' then (k', v) :: r else (k', v') :: set k v r
  end.

Fixpoint delete {V} (k : string) (m : t V) : t V :=
  match m with
  | [] => []
  | (k', v') :: r =>
      if String.eqb k k' then r else (k', v') :: delete k r
  end.

Definition keys {V} (m : t V) : list string := map fst m.
Definition values {V} (m : t V) : list V := map snd m.

(** [new Map(entries)] *)
Definition ofEntries {V} (entries : list (string * V)) : t V :=
  fold_left (fun m kv => set (fst kv) (snd kv) m) entries empty.

End JsMap.

(* ===================================================================== *)
(** ** Data model *)
(* ===================================================================== *)

(** [JSONSerializable]: the state and the output of a check. *)
#[warnings="-register-all"]
Inductive JSONValue : Type :=
| JNull
| JBool (b : bool)
| JNumber (z : Z)
| JString (s : string)
| JArray (items : list JSONValue)
| JObject (fields : list (string * JSONValue)).

(** [CheckOutput = JSONSerializable | undefined] *)
Definition CheckOutput : Type := option JSONValue.

(** The [Severity] of the engine, as the sources declare it beside
    [Finding]: info, low, medium, high, critical. *)
Inductive Severity : Type :=
| INFO | LOW | MEDIUM | HIGH | CRITICAL.

Definition Severity_eqb (a b : Severity) : bool :=
  match a, b with
  | INFO, INFO | LOW, LOW | MEDIUM, MEDIUM | HIGH, HIGH
  | CRITICAL, CRITICAL => true
  | _, _ => false
  end.

Record Location : Type := mkLocation {
  loc_start : Z;
  loc_end : Z;
  loc_hint : option string
}.

Record Correlation : Type := mkCorrelation {
  requestID : string;
  locations : list Location
}.

Record Finding : Type := mkFinding {
  name : string;
  description : string;
  severity : Severity;
  correlation : Correlation
}.

(** The part of the host's [Request] and [Response] that the engine and the
    checks read. *)
Record Request : Type := mkRequest {
  getId : string;
  getHost : string;
  getPort : Z;
  getPath : string;
  getQuery : string;
  getMethod : string
}.

Record Response : Type := mkResponse {
  getCode : Z;
  getHeader : string -> option (list string);
  getBody : option string
}.

Record ScanTarget : Type := mkScanTarget {
  request : Request;
  response : option Response
}.

Inductive InterruptReason : Type := Cancelled | Timeout.

(** Modelled from the spec: the [ScanConfig] that the runner reads (section
    3); the sources only hold an earlier declaration of it.  Timeouts are in
    seconds; a [scanTimeout] of 0 disables the scan timer. *)
Record ScanConfig : Type := mkScanConfig {
  aggressivity : Z;
  severities : list Severity;
  inScopeOnly : bool;
  concurrentTargets : nat;
  concurrentChecks : nat;
  concurrentRequests : nat;
  requestsDelayMs : Z;
  scanTimeout : Z;
  checkTimeout : Z
}.

(* ===================================================================== *)
(** ** The CSP header parser ([CSPParser.parse]) *)
(* ===================================================================== *)

Module CSPParser.

Record CSPDirective : Type := mkDirective {
  dname : string;
  values : list string
}.

Record ParsedCSP : Type := mkParsed {
  directives : list CSPDirective;
  raw : string
}.

(** One directive string, already trimmed and not empty:
    [parts = directiveString.split(/\s+/)], the name is [parts[0].trim()],
    the values are the other parts, trimmed, the empty ones dropped. *)
Definition parseDirective (directiveString : string) : option CSPDirective :=
  match JsStr.splitWhitespace directiveString with
  | [] => None
  | p0 :: rest =>
      Some {| dname := JsStr.trim p0;
              values := filter JsStr.nonEmpty (map JsStr.trim rest) |}
  end.

Fixpoint collectDirectives (l : list string) : list CSPDirective :=
  match l with
  | [] => []
  | d :: r =>
      match parseDirective d with
      | Some dir => dir :: collectDirectives r
      | None => collectDirectives r
      end
  end.

Definition parse (cspHeader : string) : ParsedCSP :=
  if String.eqb cspHeader "" || String.eqb (JsStr.trim cspHeader) "" then
    {| directives := []; raw := cspHeader |}
  else
    let directiveStrings :=
      filter JsStr.nonEmpty
        (map JsStr.trim (JsStr.splitChar ";"%char cspHeader)) in
    {| directives := collectDirectives directiveStrings; raw := cspHeader |}.

End CSPParser.

(* ===================================================================== *)
(** ** Checks and check tasks *)
(* ===================================================================== *)

(** Modelled from the spec: the error codes of [ScanRunnableErrorCode]
    (core/errors is not among the sources); section 7 of the specification
    lists them. *)
Inductive ScanRunnableErrorCode : Type :=
| REQUEST_NOT_FOUND
| UNKNOWN_DEPENDENCY
| CYCLIC_DEPENDENCIES
| CHECK_TIMEOUT
| UNKNOWN_CHECK_ERROR
| SCAN_ALREADY_RUNNING.

(** What a step of a check can throw, as the [catch] of the interpreter's
    [tick] tells the values apart. *)
Inductive StepThrown : Type :=
| ThrowsScanRunnableError (message : string) (code : ScanRunnableErrorCode)
| ThrowsError (message : string)
| ThrowsValue (v : JSONValue).

Inductive CheckType : Type := passive | active.

(** Modelled from the spec: the declaration of [CheckMetadata] (types/check is
    not among the sources).  [skipIfFoundBy] is optional and refers to a
    check id; the runner only tests it for truthiness. *)
Record CheckMetadata : Type := mkMetadata {
  id : string;
  md_name : string;
  md_description : string;
  md_type : CheckType;
  md_tags : list string;
  md_severities : list Severity;
  md_aggressivity : option (Z * Z);
  minAggressivity : option Z;
  dependsOn : option (list string);
  skipIfFoundBy : option string
}.

(** [RuntimeContext]: the target and the configuration.  The [sdk] and the
    HTML cache are the host's; [runtime.dependencies.get] reads the runner's
    map and is given to a step as [sc_dependencies]. *)
Record RuntimeContext : Type := mkContext {
  target : ScanTarget;
  config : ScanConfig
}.

Record StepContext : Type := mkStepContext {
  sc_target : ScanTarget;
  sc_config : ScanConfig;
  sc_dependencies : string -> CheckOutput
}.

(** Modelled from the spec: the actions of a step (section 6; types/check is
    not among the sources), [done({state?, findings?, output?})] and
    [continueWith({nextStep, state, findings?})]. *)
Inductive StepAction : Type :=
| done (state : option JSONValue) (findings : option (list Finding))
       (output : CheckOutput)
| continueWith (nextStep : string) (state : JSONValue)
               (findings : option (list Finding)).

Inductive StepOutcome : Type :=
| Returns (a : StepAction)
| Throws (e : StepThrown).

Definition StepHandler : Type := JSONValue -> StepContext -> StepOutcome.

(** Modelled from the spec: what [defineCheck] is given (section 6): the
    metadata, the initial state, the two optional predicates and the named
    steps in the order of registration. *)
Record CheckDefinition : Type := mkCheck {
  metadata : CheckMetadata;
  initState : JSONValue;
  when : option (ScanTarget -> bool);
  dedupeKey : option (ScanTarget -> string);
  steps : list (string * StepHandler)
}.

(** Modelled from the spec: the task object that [defineCheck] builds
    (core/define-check is not among the sources).  Sections 3 and 9 of the
    specification: a task holds the current step name, the mutable state and
    the accumulated output, and each tick runs the current step. *)
Record CheckTask : Type := mkTask {
  task_metadata : CheckMetadata;
  task_context : RuntimeContext;
  task_steps : list (string * StepHandler);
  currentStepName : option string;
  currentState : JSONValue;
  taskOutput : CheckOutput
}.

Definition getTarget (t : CheckTask) : ScanTarget := target (task_context t).

(** Modelled from the spec: [check.create(context)].  The first registered
    step is the current one. *)
Definition create (check : CheckDefinition) (context : RuntimeContext)
  : CheckTask :=
  {| task_metadata := metadata check;
     task_context := context;
     task_steps := steps check;
     currentStepName :=
       match steps check with
       | [] => None
       | (n, _) :: _ => Some n
       end;
     currentState := initState check;
     taskOutput := None |}.

Inductive StepStatus : Type := StatusDone | StatusContinue.

(** [StepResult = {status, findings?}], as [tick] reads it. *)
Record StepResult : Type := mkStepResult {
  sr_status : StepStatus;
  sr_findings : option (list Finding)
}.

Inductive TickOutcome : Type :=
| TickReturned (r : StepResult)
| TickThrew (e : StepThrown).

(** Modelled from the spec: [task.tick()].  The current step is run on the
    current state; [done] stores the output (and the state when one is
    given), [continueWith] moves to the next step with the new state.  A
    task whose current step is not registered throws. *)
Definition taskTick (deps : string -> CheckOutput) (t : CheckTask)
  : TickOutcome * CheckTask :=
  match currentStepName t with
  | None => (TickThrew (ThrowsError "No steps defined"), t)
  | Some n =>
      match JsMap.get n (task_steps t) with
      | None => (TickThrew (ThrowsError ("Step " ++ n ++ " not found")), t)
      | Some handler =>
          let ctx := {| sc_target := getTarget t;
                        sc_config := config (task_context t);
                        sc_dependencies := deps |} in
          match handler (currentState t) ctx with
          | Throws e => (TickThrew e, t)
          | Returns (done st fs out) =>
              (TickReturned {| sr_status := StatusDone; sr_findings := fs |},
               {| task_metadata := task_metadata t;
                  task_context := task_context t;
                  task_steps := task_steps t;
                  currentStepName := currentStepName t;
                  currentState :=
                    match st with Some v => v | None => currentState t end;
                  taskOutput := out |})
          | Returns (continueWith next st fs) =>
              (TickReturned
                 {| sr_status := StatusContinue; sr_findings := fs |},
               {| task_metadata := task_metadata t;
                  task_context := task_context t;
                  task_steps := task_steps t;
                  currentStepName := Some next;
                  currentState := st;
                  taskOutput := taskOutput t |})
          end
      end
  end.

(* ===================================================================== *)
(** ** The [csp-untrusted-script] check *)
(* ===================================================================== *)

Module CspUntrustedScript.

Definition findingName : string :=
  "Content security policy: allows untrusted script execution".

Definition finding (cspValue directive : string) (context : StepContext)
  (intro label unsafe impact recommendation : string) (sev : Severity)
  : Finding :=
  {| name := findingName;
     description :=
       intro ++ "

**CSP Header:** `" ++ cspValue ++ "`

**Directive:** `" ++ directive ++ "`

**" ++ label ++ ":** `" ++ unsafe ++ "`

**Impact:** 
" ++ impact ++ "

**Recommendation:** " ++ recommendation;
     severity := sev;
     correlation :=
       {| requestID := getId (request (sc_target context));
          locations := [] |} |}.

Definition pushIf (c : bool) (f : Finding) : list Finding :=
  if c then [f] else [].

(** The only step of the check, [checkCspUntrustedScript]. *)
Definition checkCspUntrustedScript : StepHandler :=
  fun state context =>
  match response (sc_target context) with
  | None => Returns (done (Some state) None None)
  | Some response =>
      (* Only check HTML responses *)
      let contentType :=
        match getHeader response "content-type" with
        | Some (h :: _) => h
        | _ => ""
        end in
      if negb (JsStr.includes contentType "text/html") then
        Returns (done (Some state) None None)
      else
        match getHeader response "content-security-policy" with
        | None | Some [] => Returns (done (Some state) None None)
        | Some (cspValue :: _) =>
            let parsedCsp := CSPParser.parse cspValue in
            let byName n :=
              find (fun d => String.eqb (CSPParser.dname d) n)
                   (CSPParser.directives parsedCsp) in
            let effectiveDirective :=
              match byName "script-src" with
              | Some d => Some d
              | None => byName "default-src"
              end in
            match effectiveDirective with
            | None => Returns (done (Some state) None None)
            | Some eff =>
                let vals := CSPParser.values eff in
                let mk := finding cspValue (CSPParser.dname eff) context in
                let unsafeSources :=
                  filter (fun v => JsStr.startsWith v "data:"
                                   || JsStr.startsWith v "blob:") vals in
                let httpSources :=
                  filter (fun v => JsStr.startsWith v "http:"
                                   && negb (JsStr.startsWith v "https:"))
                         vals in
                let findings :=
                  pushIf (JsStr.arrayIncludes vals "'unsafe-inline'")
                    (mk "The Content Security Policy allows inline scripts with 'unsafe-inline', which can lead to XSS attacks."
                        "Unsafe Values" "'unsafe-inline'"
                        "- XSS attacks can execute malicious inline scripts
- Inline event handlers can be exploited
- Data exfiltration through malicious scripts"
                        "Remove 'unsafe-inline' from script-src and use nonces or hashes for inline scripts, or move inline scripts to external files."
                        HIGH)
                  ++ pushIf (JsStr.arrayIncludes vals "'unsafe-eval'")
                    (mk "The Content Security Policy allows eval() and similar functions with 'unsafe-eval', which can lead to code injection attacks."
                        "Unsafe Values" "'unsafe-eval'"
                        "- Code injection attacks can execute arbitrary JavaScript
- Dynamic code execution vulnerabilities
- Bypass of CSP protections"
                        "Remove 'unsafe-eval' from script-src unless absolutely necessary for legitimate use cases like templating engines."
                        HIGH)
                  ++ pushIf (JsStr.arrayIncludes vals "*")
                    (mk "The Content Security Policy allows scripts from any source with wildcard (*), which can lead to XSS attacks."
                        "Unsafe Values" "*"
                        "- Any external script can be loaded, including malicious ones
- XSS attacks can load scripts from any domain
- Complete bypass of CSP script restrictions"
                        "Replace wildcard (*) with specific trusted domains or use 'self' for same-origin resources only."
                        CRITICAL)
                  ++ pushIf (negb (Nat.eqb (List.length unsafeSources) 0))
                    (mk "The Content Security Policy allows scripts from data: and blob: sources, which can lead to XSS attacks."
                        "Unsafe Sources" (JsStr.join ", " unsafeSources)
                        "- Data URLs can contain malicious JavaScript
- Blob URLs can be used to inject malicious scripts
- XSS attacks can execute arbitrary code"
                        "Remove data: and blob: sources from script-src unless absolutely necessary for legitimate use cases."
                        HIGH)
                  ++ pushIf (negb (Nat.eqb (List.length httpSources) 0))
                    (mk "The Content Security Policy allows scripts from HTTP sources, which can be intercepted and modified."
                        "HTTP Sources" (JsStr.join ", " httpSources)
                        "- HTTP resources can be intercepted and modified by attackers
- Man-in-the-middle attacks can inject malicious scripts
- Insecure transmission of JavaScript files"
                        "Use HTTPS sources only or ensure HTTP sources are from trusted, internal networks."
                        MEDIUM) in
                Returns (done (Some state) (Some findings) None)
            end
        end
  end.

(** The dedupe key of the check: [keyStrategy().withHost().withPort()
    .withPath().build()].  The builder is not among the sources; the key is
    a function of the host, the port and the path and is left abstract. *)
Definition check (key : ScanTarget -> string) : CheckDefinition :=
  {| metadata :=
       {| id := "csp-untrusted-script";
          md_name := findingName;
          md_description :=
            "Checks for Content Security Policy directives that allow untrusted script execution, which can lead to XSS attacks";
          md_type := passive;
          md_tags :=
            ["csp"; "security-headers"; "xss"; "script-src"; "injection"];
          md_severities := [MEDIUM; HIGH; CRITICAL];
          md_aggressivity := Some (0%Z, 0%Z);
          minAggressivity := None;
          dependsOn := None;
          skipIfFoundBy := None |};
     initState := JObject [];
     when :=
       Some (fun context =>
               match response context with
               | None => false
               | Some response =>
                   let contentType :=
                     match getHeader response "content-type" with
                     | Some (h :: _) => h
                     | _ => ""
                     end in
                   JsStr.includes contentType "text/html"
               end);
     dedupeKey := Some key;
     steps := [("checkCspUntrustedScript", checkCspUntrustedScript)] |}.

End CspUntrustedScript.

(* ===================================================================== *)
(** ** The runner's state *)
(* ===================================================================== *)

(** The store of the dedupe objects.  A [Map<string, Set<string>>] holds,
    for a check id, the address of the set of keys of that check. *)
Record Store : Type := mkStore {
  maps : list (JsMap.t nat);
  sets : list (list string)
}.

Fixpoint replaceNth {A} (n : nat) (x : A) (l : list A) : list A :=
  match l, n with
  | [], _ => []
  | _ :: r, O => x :: r
  | y :: r, S n' => y :: replaceNth n' x r
  end.

Definition mapAt (h : Store) (a : nat) : JsMap.t nat := nth a (maps h) [].
Definition setAt (h : Store) (r : nat) : list string := nth r (sets h) [].

(** [new Map()] and [new Set(content)] *)
Definition newMap (h : Store) : nat * Store :=
  (List.length (maps h), {| maps := maps h ++ [[]]; sets := sets h |}).
Definition newSet (content : list string) (h : Store) : nat * Store :=
  (List.length (sets h), {| maps := maps h; sets := sets h ++ [content] |}).

(** [map.set(k, ref)], [set.has(key)], [set.add(key)] on the objects at an
    address. *)
Definition mapSet (a : nat) (k : string) (r : nat) (h : Store) : Store :=
  {| maps := replaceNth a (JsMap.set k r (mapAt h a)) (maps h);
     sets := sets h |}.
Definition setHas (h : Store) (r : nat) (key : string) : bool :=
  existsb (String.eqb key) (setAt h r).
Definition setAdd (r : nat) (key : string) (h : Store) : Store :=
  if setHas h r key then h
  else {| maps := maps h;
          sets := replaceNth r (setAt h r ++ [key]) (sets h) |}.

Inductive StepResultKind : Type :=
| ResultDone
| ResultContinue (nextStep : string).

Record StepExecutionRecord : Type := mkStepRecord {
  stepName : string;
  stateBefore : JSONValue;
  stateAfter : JSONValue;
  stepFindings : list Finding;
  result : StepResultKind
}.

Inductive RecordStatus : Type :=
| completed (finalOutput : CheckOutput)
| failed (code : ScanRunnableErrorCode) (message : string).

Record CheckExecutionRecord : Type := mkCheckRecord {
  checkId : string;
  targetRequestId : string;
  recSteps : list StepExecutionRecord;
  status : RecordStatus
}.

(** An entry of [activeCheckRecords]. *)
Record ActiveRecord : Type := mkActive {
  ar_checkId : string;
  ar_targetRequestId : string;
  ar_steps : list StepExecutionRecord
}.

(** The events of the runner that the model emits: those of [run], of the
    pools and of [tick].  The events about requests ([scan:request-pending]
    and the like), which the wrapped SDK and the request queue emit when a
    step sends a request, are not part of the model: a step is a function
    of its state and context and sends nothing. *)
Inductive ScanEvent : Type :=
| scan_started
| scan_finished
| scan_interrupted (reason : InterruptReason)
| scan_finding (targetRequestID checkID : string) (finding : Finding)
| scan_check_started (checkID targetRequestID : string)
| scan_check_finished (checkID targetRequestID : string)
| scan_check_failed (checkID targetRequestID : string)
    (errorCode : ScanRunnableErrorCode) (errorMessage : string).

(** The variables that [createRunnable] closes over and mutates, the store
    of the dedupe objects, the events emitted so far and the number of
    suspension points passed. *)
Record State : Type := mkState {
  findings : JsMap.t (list Finding);
  dependencies : JsMap.t CheckOutput;
  store : Store;
  dedupeKeys : nat;
  interruptReason : option InterruptReason;
  hasRun : bool;
  executionHistory : list CheckExecutionRecord;
  activeCheckRecords : JsMap.t ActiveRecord;
  events : list ScanEvent;
  clock : nat
}.

Definition setFindings (v : JsMap.t (list Finding)) (s : State) : State :=
  mkState v (dependencies s) (store s) (dedupeKeys s) (interruptReason s)
    (hasRun s) (executionHistory s) (activeCheckRecords s) (events s)
    (clock s).
Definition setDependencies (v : JsMap.t CheckOutput) (s : State) : State :=
  mkState (findings s) v (store s) (dedupeKeys s) (interruptReason s)
    (hasRun s) (executionHistory s) (activeCheckRecords s) (events s)
    (clock s).
Definition setStore (v : Store) (s : State) : State :=
  mkState (findings s) (dependencies s) v (dedupeKeys s) (interruptReason s)
    (hasRun s) (executionHistory s) (activeCheckRecords s) (events s)
    (clock s).
Definition setDedupeKeys (v : nat) (s : State) : State :=
  mkState (findings s) (dependencies s) (store s) v (interruptReason s)
    (hasRun s) (executionHistory s) (activeCheckRecords s) (events s)
    (clock s).
Definition setInterruptReason (v : option InterruptReason) (s : State)
  : State :=
  mkState (findings s) (dependencies s) (store s) (dedupeKeys s) v
    (hasRun s) (executionHistory s) (activeCheckRecords s) (events s)
    (clock s).
Definition setHasRun (v : bool) (s : State) : State :=
  mkState (findings s) (dependencies s) (store s) (dedupeKeys s)
    (interruptReason s) v (executionHistory s) (activeCheckRecords s)
    (events s) (clock s).
Definition setExecutionHistory (v : list CheckExecutionRecord) (s : State)
  : State :=
  mkState (findings s) (dependencies s) (store s) (dedupeKeys s)
    (interruptReason s) (hasRun s) v (activeCheckRecords s) (events s)
    (clock s).
Definition setActiveCheckRecords (v : JsMap.t ActiveRecord) (s : State)
  : State :=
  mkState (findings s) (dependencies s) (store s) (dedupeKeys s)
    (interruptReason s) (hasRun s) (executionHistory s) v (events s)
    (clock s).
Definition setEvents (v : list ScanEvent) (s : State) : State :=
  mkState (findings s) (dependencies s) (store s) (dedupeKeys s)
    (interruptReason s) (hasRun s) (executionHistory s)
    (activeCheckRecords s) v (clock s).
Definition setClock (v : nat) (s : State) : State :=
  mkState (findings s) (dependencies s) (store s) (dedupeKeys s)
    (interruptReason s) (hasRun s) (executionHistory s)
    (activeCheckRecords s) (events s) v.

(** [emit(event, data)] *)
Definition emit (e : ScanEvent) (s : State) : State :=
  setEvents (events s ++ [e]) s.

(** The state of a runner that [createRunnable] has just built: the dedupe
    index is a new, empty map. *)
Definition initialState : State :=
  {| findings := JsMap.empty;
     dependencies := JsMap.empty;
     store := {| maps := [[]]; sets := [] |};
     dedupeKeys := 0;
     interruptReason := None;
     hasRun := false;
     executionHistory := [];
     activeCheckRecords := JsMap.empty;
     events := [];
     clock := 0 |}.

(** What the runner and the interpreter throw. *)
Inductive Thrown : Type :=
| JsError (message : string)
| ScanRunnableError (message : string) (code : ScanRunnableErrorCode)
| ScanRunnableInterruptedError (reason : InterruptReason).

(** The outcome of a piece of the runner: it returns, it throws, the scan
    timer fires while it is suspended (the promise of [run] is then settled
    by the timer), or the budget of ticks is used up. *)
Inductive Res (A : Type) : Type :=
| Ret (a : A) (s : State)
| Raise (e : Thrown) (s : State)
| TimerFired (s : State)
| OutOfFuel.
Arguments Ret {A} a s.
Arguments Raise {A} e s.
Arguments TimerFired {A} s.
Arguments OutOfFuel {A}.

Definition bind {A B} (m : Res A) (k : A -> State -> Res B) : Res B :=
  match m with
  | Ret a s => k a s
  | Raise e s => Raise e s
  | TimerFired s => TimerFired s
  | OutOfFuel => OutOfFuel
  end.

Notation "x <- m ;; k" := (bind m (fun x => k))
  (at level 61, m at next level, right associativity).

(* ===================================================================== *)
(** ** The runner ([createRunnable]) and the task interpreter *)
(* ===================================================================== *)

(** The part of the host SDK that the runner calls: [sdk.requests.get]. *)
Record SDK : Type := mkSDK {
  requests_get : string -> option ScanTarget
}.

(** The outside world at the suspension points of a run, numbered from 0:
    the milliseconds elapsed since [run] was entered, and the [cancel] call
    that arrives there, if any. *)
Record World : Type := mkWorld {
  elapsedMs : nat -> Z;
  cancelCall : nat -> option InterruptReason
}.

Inductive TaskExecutionResult : Type :=
| resultOk (st : StepStatus) (fs : option (list Finding)) (out : CheckOutput)
| resultFailed (fs : option (list Finding))
    (errorCode : ScanRunnableErrorCode) (errorMessage : string).

Definition resultFindings (r : TaskExecutionResult)
  : option (list Finding) :=
  match r with
  | resultOk _ fs _ => fs
  | resultFailed fs _ _ => fs
  end.

Inductive ScanResult : Type :=
| Finished (fs : list Finding)
| Interrupted (reason : InterruptReason) (fs : list Finding)
| Error (error : string).

Inductive ScanEstimateResult : Type :=
| EstimateSuccess (checksTotal : nat)
| EstimateError (error : string).

(** [value || []] *)
Definition orEmpty {A} (o : option (list A)) : list A :=
  match o with Some l => l | None => [] end.

(** The key of [activeCheckRecords]: the check id, a dash, the request id. *)
Definition recordKey (checkID targetRequestID : string) : string :=
  checkID ++ "-" ++ targetRequestID.

(** [Array.from(findings.values()).flat()] *)
Definition allFindings (s : State) : list Finding :=
  List.concat (JsMap.values (findings s)).

(** [dependencies.get(key)] of [createRuntimeContext]. *)
Definition dependenciesGet (s : State) (key : string) : CheckOutput :=
  match JsMap.get key (dependencies s) with
  | Some out => out
  | None => None
  end.

(** The test of [isCheckApplicable] on the dedupe index at the address
    [targetDedupeKeys]. *)
Definition isCheckApplicable (check : CheckDefinition)
  (context : RuntimeContext) (targetDedupeKeys : nat) (h : Store)
  : bool * Store :=
  if negb (existsb
             (fun sv => existsb (Severity_eqb sv)
                          (severities (config context)))
             (md_severities (metadata check)))
  then (false, h)
  else if match minAggressivity (metadata check) with
          | Some m => (aggressivity (config context) <? m)%Z
          | None => false
          end
  then (false, h)
  else if match when check with
          | Some w => negb (w (target context))
          | None => false
          end
  then (false, h)
  else
    match dedupeKey check with
    | None => (true, h)
    | Some keyOf =>
        let checkId := id (metadata check) in
        let key := keyOf (target context) in
        let '(checkCache, h1) :=
          match JsMap.get checkId (mapAt h targetDedupeKeys) with
          | Some r => (r, h)
          | None =>
              let '(r, h') := newSet [] h in
              (r, mapSet targetDedupeKeys checkId r h')
          end in
        if setHas h1 checkCache key then (false, h1)
        else (true, setAdd checkCache key h1)
    end.

(** [batch.filter((check) => isCheckApplicable(check, context, keys))] *)
Fixpoint filterApplicable (batch : list CheckDefinition)
  (context : RuntimeContext) (keys : nat) (h : Store)
  : list CheckDefinition * Store :=
  match batch with
  | [] => ([], h)
  | check :: rest =>
      let '(b, h1) := isCheckApplicable check context keys h in
      let '(sel, h2) := filterApplicable rest context keys h1 in
      (if b then check :: sel else sel, h2)
  end.

(** The loop of [createDedupeKeysSnapshot] over the entries of the index. *)
Fixpoint copyEntries (entries : JsMap.t nat) (snapshot : nat) (h : Store)
  : Store :=
  match entries with
  | [] => h
  | (checkId, keySet) :: rest =>
      let '(r, h1) := newSet (setAt h keySet) h in
      copyEntries rest snapshot (mapSet snapshot checkId r h1)
  end.

Definition createDedupeKeysSnapshot (s : State) : nat * Store :=
  let '(snapshot, h1) := newMap (store s) in
  (snapshot, copyEntries (mapAt (store s) (dedupeKeys s)) snapshot h1).

(** [externalDedupeKeys(map)]: the runner keeps the caller's map itself. *)
Definition externalDedupeKeys (external : nat) (s : State)
  : Thrown + State :=
  if hasRun s then
    inl (ScanRunnableError "Cannot set dedupe keys after scan has started"
           SCAN_ALREADY_RUNNING)
  else inr (setDedupeKeys external s).

(** [cancel(reason)], without the wait for [scan:interrupted]. *)
Definition cancel (reason : InterruptReason) (s : State) : State :=
  match interruptReason s with
  | Some _ => s
  | None => if hasRun s then setInterruptReason (Some reason) s else s
  end.

Section Runnable.

Variable sdk : SDK.
Variable cfg : ScanConfig.
Variable batches : list (list CheckDefinition).
Variable world : World.

Definition createRuntimeContext (t : ScanTarget) : RuntimeContext :=
  {| target := t; config := cfg |}.

(** What the outside world does to the runner while it is suspended: time
    passes and a [cancel] call may arrive. *)
Definition resume (s : State) : State :=
  let s1 := setClock (S (clock s)) s in
  match cancelCall world (clock s) with
  | Some r => cancel r s1
  | None => s1
  end.

(** A suspension point of a run.  When the scan timer is armed
    ([scanTimeout > 0]) and its delay has elapsed, the timer sets the
    interrupt reason and settles the promise of [run]. *)
Definition suspend (s : State) : Res unit :=
  let s2 := resume s in
  if ((0 <? scanTimeout cfg)%Z
      && (scanTimeout cfg * 1000 <=? elapsedMs world (clock s))%Z)
  then TimerFired (match interruptReason s2 with
                   | Some _ => s2
                   | None => setInterruptReason (Some Timeout) s2
                   end)
  else Ret tt s2.

(** [recordStepExecution(checkId, targetRequestId, record)] *)
Definition recordStepExecution (checkID targetRequestID : string)
  (record : StepExecutionRecord) (s : State) : State :=
  let key := recordKey checkID targetRequestID in
  match JsMap.get key (activeCheckRecords s) with
  | Some activeRecord =>
      setActiveCheckRecords
        (JsMap.set key
           {| ar_checkId := ar_checkId activeRecord;
              ar_targetRequestId := ar_targetRequestId activeRecord;
              ar_steps := ar_steps activeRecord ++ [record] |}
           (activeCheckRecords s)) s
  | None => s
  end.

(** The [catch] of [tick]. *)
Definition failedResult (e : StepThrown) : TaskExecutionResult :=
  match e with
  | ThrowsScanRunnableError message code =>
      resultFailed (Some []) code message
  | ThrowsError message =>
      resultFailed (Some []) UNKNOWN_CHECK_ERROR message
  | ThrowsValue _ =>
      resultFailed (Some []) UNKNOWN_CHECK_ERROR "Unknown error occurred"
  end.

(** The loop of [tick] that emits [scan:finding] for every finding of the
    step, in order. *)
Definition emitFindings (targetID checkID : string) (fs : list Finding)
  (s : State) : State :=
  fold_left (fun st f => emit (scan_finding targetID checkID f) st) fs s.

(** The [StepExecutionRecord] that [tick] builds. *)
Definition stepRecordOf (before : CheckTask) (res : StepResult)
  (after : CheckTask) : StepExecutionRecord :=
  {| stepName :=
       match currentStepName before with Some n => n | None => "unknown" end;
     stateBefore := currentState before;
     stateAfter := currentState after;
     stepFindings := orEmpty (sr_findings res);
     result :=
       match sr_status res with
       | StatusDone => ResultDone
       | StatusContinue =>
           ResultContinue
             (match currentStepName after with
              | Some n => n
              | None => "unknown"
              end)
       end |}.

(** What [tick] does once [task.tick()] has returned [res]. *)
Definition tickReturned (task : CheckTask) (res : StepResult)
  (task' : CheckTask) (s : State) : TaskExecutionResult * State :=
  let targetID := getId (request (getTarget task')) in
  let checkID := id (task_metadata task') in
  (resultOk (sr_status res) (sr_findings res)
     (match sr_status res with
      | StatusDone => taskOutput task'
      | StatusContinue => None
      end),
   recordStepExecution checkID targetID (stepRecordOf task res task')
     (emitFindings targetID checkID (orEmpty (sr_findings res)) s)).

(** [tick(task)] of the task executor.  The task is an object that the tick
    mutates: its new value is returned with the result.  The dependencies
    that the step can read are those stored when it runs. *)
Definition tick (task : CheckTask) (s : State)
  : Res (TaskExecutionResult * CheckTask) :=
  match interruptReason s with
  | Some reason => Raise (ScanRunnableInterruptedError reason) s
  | None =>
      let '(outcome, task') := taskTick (dependenciesGet s) task in
      _ <- suspend s ;; fun s1 =>
      match outcome with
      | TickThrew e => Ret (failedResult e, task') s1
      | TickReturned res =>
          let '(r, s2) := tickReturned task res task' s1 in
          Ret (r, task') s2
      end
  end.

(** The loop of [tickUntilDone]; [acc] is its [allFindings].  The budget
    bounds the number of ticks of one task. *)
Fixpoint tickLoop (fuel : nat) (task : CheckTask) (acc : list Finding)
  (s : State) : Res (TaskExecutionResult * CheckTask) :=
  match fuel with
  | O => OutOfFuel
  | S fuel' =>
      rt <- tick task s ;; fun s1 =>
      let '(res, task') := rt in
      let acc' := acc ++ orEmpty (resultFindings res) in
      match res with
      | resultOk StatusContinue _ _ => tickLoop fuel' task' acc' s1
      | resultOk StatusDone _ out =>
          Ret (resultOk StatusDone (Some acc') out, task') s1
      | resultFailed _ errorCode errorMessage =>
          Ret (resultFailed (Some acc') errorCode errorMessage, task') s1
      end
  end.

Definition tickUntilDone (fuel : nat) (task : CheckTask) (s : State)
  : Res (TaskExecutionResult * CheckTask) :=
  tickLoop fuel task [] s.

(** JavaScript truthiness of [task.metadata.skipIfFoundBy]. *)
Definition truthy (o : option string) : bool :=
  match o with
  | Some v => JsStr.nonEmpty v
  | None => false
  end.

(** The guard at the head of the callback of [processBatch]: the check is
    skipped when the findings stored under its id are not empty. *)
Definition skipsTask (task : CheckTask) (s : State) : bool :=
  truthy (skipIfFoundBy (task_metadata task))
  && negb (Nat.eqb
             (List.length
                (orEmpty (JsMap.get (id (task_metadata task)) (findings s))))
             0).

(** Closes the active record of a task and appends it to the history. *)
Definition closeRecord (key : string) (st : RecordStatus) (s : State)
  : State :=
  match JsMap.get key (activeCheckRecords s) with
  | Some activeRecord =>
      setActiveCheckRecords (JsMap.delete key (activeCheckRecords s))
        (setExecutionHistory
           (executionHistory s
            ++ [ {| checkId := ar_checkId activeRecord;
                    targetRequestId := ar_targetRequestId activeRecord;
                    recSteps := ar_steps activeRecord;
                    status := st |} ]) s)
  | None => s
  end.

(** What the callback of [processBatch] does with the result of
    [tickUntilDone]. *)
Definition storeResult (task : CheckTask) (context : RuntimeContext)
  (res : TaskExecutionResult) (s : State) : State :=
  let checkID := id (task_metadata task) in
  let targetID := getId (request (target context)) in
  let s1 :=
    match resultFindings res with
    | Some fs =>
        let existingFindings := orEmpty (JsMap.get checkID (findings s)) in
        setFindings (JsMap.set checkID (existingFindings ++ fs) (findings s)) s
    | None => s
    end in
  match res with
  | resultOk StatusDone _ out =>
      closeRecord (recordKey checkID targetID) (completed out)
        (setDependencies (JsMap.set checkID out (dependencies s1)) s1)
  | resultOk StatusContinue _ _ => s1
  | resultFailed _ errorCode errorMessage =>
      emit (scan_check_failed checkID targetID errorCode errorMessage)
        (closeRecord (recordKey checkID targetID)
           (failed errorCode errorMessage) s1)
  end.

(** The callback given to [process] in [processBatch]; [None] is the
    [undefined] that a skipped check returns. *)
Definition processTask (fuel : nat) (task : CheckTask)
  (context : RuntimeContext) (s : State)
  : Res (option TaskExecutionResult) :=
  if skipsTask task s then Ret None s
  else
    rt <- tickUntilDone fuel task s ;; fun s1 =>
    let '(res, task') := rt in
    Ret (Some res) (storeResult task' context res s1).

Definition onTaskStarted (task : CheckTask) (context : RuntimeContext)
  (s : State) : State :=
  let checkID := id (task_metadata task) in
  let targetID := getId (request (target context)) in
  emit (scan_check_started checkID targetID)
    (setActiveCheckRecords
       (JsMap.set (recordKey checkID targetID)
          {| ar_checkId := checkID;
             ar_targetRequestId := targetID;
             ar_steps := [] |}
          (activeCheckRecords s)) s).

Definition onTaskFinished (task : CheckTask) (context : RuntimeContext)
  (s : State) : State :=
  emit (scan_check_finished (id (task_metadata task))
          (getId (request (target context)))) s.

(** One task of the pool of [processBatch]: the started handlers, the
    callback, the finished handlers (which run whether it failed or not). *)
Definition runTask (fuel : nat) (task : CheckTask)
  (context : RuntimeContext) (s : State)
  : Res (option TaskExecutionResult) :=
  match processTask fuel task context (onTaskStarted task context s) with
  | Ret r s1 => Ret r (onTaskFinished task context s1)
  | Raise e s1 => Raise e (onTaskFinished task context s1)
  | TimerFired s1 => TimerFired s1
  | OutOfFuel => OutOfFuel
  end.

(** The promise pool with one task in flight.  The error handler of both
    pools of the runner stops the pool on an interruption, and the
    processing then resolves; it throws any other error again, and the
    processing then rejects with it.  With a handler installed the pool
    collects no error, so its [errors] are empty.

    This is the pool of the code for [concurrentChecks = 1] and as long as
    no task outlives the timer of [withTaskTimeout(checkTimeout * 1000)]:
    tasks in flight together and a task that the timer rejects are not
    modelled.  The statements about runs that depend on either carry
    [sequentialPools] and [checkTimerQuiet] as hypotheses. *)
Fixpoint poolTasks (fuel : nat) (tasks : list CheckTask)
  (context : RuntimeContext) (s : State) : Res unit :=
  match tasks with
  | [] => Ret tt s
  | task :: rest =>
      match runTask fuel task context s with
      | Ret _ s1 => poolTasks fuel rest context s1
      | Raise (ScanRunnableInterruptedError _) s1 => Ret tt s1
      | Raise e s1 => Raise e s1
      | TimerFired s1 => TimerFired s1
      | OutOfFuel => OutOfFuel
      end
  end.

(** [processBatch(batch, context)] *)
Definition processBatch (fuel : nat) (batch : list CheckDefinition)
  (context : RuntimeContext) (s : State) : Res unit :=
  let '(selected, h) :=
    filterApplicable batch context (dedupeKeys s) (store s) in
  let tasks := map (fun check => create check context) selected in
  poolTasks fuel tasks context (setStore h s).

(** The loop of [processTarget] over the batches of the plan. *)
Fixpoint processBatches (fuel : nat) (bs : list (list CheckDefinition))
  (context : RuntimeContext) (s : State) : Res unit :=
  match bs with
  | [] => Ret tt s
  | batch :: rest =>
      match interruptReason s with
      | Some reason => Raise (ScanRunnableInterruptedError reason) s
      | None =>
          _ <- processBatch fuel batch context s ;;
          processBatches fuel rest context
      end
  end.

Definition processTarget (fuel : nat) (requestID : string) (s : State)
  : Res unit :=
  _ <- suspend s ;; fun s1 =>
  match requests_get sdk requestID with
  | None =>
      Raise (ScanRunnableError ("Request " ++ requestID ++ " not found")
               REQUEST_NOT_FOUND) s1
  | Some t =>
      processBatches fuel batches
        (createRuntimeContext {| request := request t;
                                 response := response t |}) s1
  end.

(** The pool of [run] over the request ids, with the same error handler.
    It is the pool of the code for [concurrentTargets = 1]: a second target
    in flight while the first awaits or fails is not modelled. *)
Fixpoint poolTargets (fuel : nat) (requestIDs : list string) (s : State)
  : Res unit :=
  match requestIDs with
  | [] => Ret tt s
  | requestID :: rest =>
      match processTarget fuel requestID s with
      | Ret _ s1 => poolTargets fuel rest s1
      | Raise (ScanRunnableInterruptedError _) s1 => Ret tt s1
      | Raise e s1 => Raise e s1
      | TimerFired s1 => TimerFired s1
      | OutOfFuel => OutOfFuel
      end
  end.

Definition runScan (fuel : nat) (requestIDs : list string) (s : State)
  : Res ScanResult :=
  let s1 := emit scan_started (setHasRun true s) in
  match poolTargets fuel requestIDs s1 with
  | Ret _ s2 => Ret (Finished (allFindings s2)) (emit scan_finished s2)
  | Raise (ScanRunnableInterruptedError reason) s2 =>
      let s3 := emit (scan_interrupted reason) s2 in
      Ret (Interrupted reason (allFindings s3)) (emit scan_finished s3)
  | Raise (JsError message) s2
  | Raise (ScanRunnableError message _) s2 =>
      Ret (Error message) (emit scan_finished s2)
  | TimerFired s2 => TimerFired s2
  | OutOfFuel => OutOfFuel
  end.

(** [run(requestIDs)].  When the timer fires first, the promise of [run]
    resolves with the findings gathered so far; the state returned is the
    one the caller then observes. *)
Definition run (fuel : nat) (requestIDs : list string) (s : State)
  : Res ScanResult :=
  if hasRun s then Ret (Error "Scan is already running") s
  else if (0 <? scanTimeout cfg)%Z then
    match runScan fuel requestIDs s with
    | TimerFired s1 => Ret (Interrupted Timeout (allFindings s1)) s1
    | r => r
    end
  else runScan fuel requestIDs s.

(** [batches.map((batch) => batch.filter((check) =>
    isCheckApplicable(check, context, keys)))] *)
Fixpoint filterBatches (bs : list (list CheckDefinition))
  (context : RuntimeContext) (keys : nat) (h : Store)
  : list (list CheckDefinition) * Store :=
  match bs with
  | [] => ([], h)
  | batch :: rest =>
      let '(sel, h1) := filterApplicable batch context keys h in
      let '(sels, h2) := filterBatches rest context keys h1 in
      (sel :: sels, h2)
  end.

(** The loop of [estimate] over the request ids. *)
Fixpoint estimateLoop (requestIDs : list string) (snapshot : nat)
  (checksTotal : nat) (h : Store) : ScanEstimateResult * Store :=
  match requestIDs with
  | [] => (EstimateSuccess checksTotal, h)
  | requestID :: rest =>
      match requests_get sdk requestID with
      | None =>
          (EstimateError ("Request " ++ requestID ++ " not found"), h)
      | Some t =>
          let context :=
            createRuntimeContext {| request := request t;
                                    response := response t |} in
          let '(tasks, h1) := filterBatches batches context snapshot h in
          estimateLoop rest snapshot
            (checksTotal + List.length (List.concat tasks)) h1
      end
  end.

(** [estimate(requestIDs)] *)
Definition estimate (requestIDs : list string) (s : State)
  : ScanEstimateResult * State :=
  let '(snapshot, h) := createDedupeKeysSnapshot s in
  let '(r, h1) := estimateLoop requestIDs snapshot 0 h in
  (r, setStore h1 s).

(** [getExecutionHistory()] *)
Definition getExecutionHistory (s : State) : list CheckExecutionRecord :=
  executionHistory s.

End Runnable.

(* ===================================================================== *)
(** ** The planner ([getCheckBatches]) *)
(* ===================================================================== *)

(** The [dag] of [getCheckBatches]: for a check id, the ids of the checks
    that depend on it.  The code keeps it in a plain object, which is this
    map when no id is [__proto__] (the assignment then sets the prototype
    and makes no key); the statements that depend on it carry [ordinaryIds].
    An object enumerates the keys that are array indices first, in numeric
    order: the order of the keys is not modelled, and no statement is about
    the order of the checks inside a batch. *)
Definition Dag : Type := JsMap.t (list string).

Definition dependents (dag : Dag) (u : string) : list string :=
  orEmpty (JsMap.get u dag).

(** Modelled from the spec: [batchingToposort] of the package
    batching-toposort-ts, which is not part of the repository.  Section 4.A:
    batch 0 is all the nodes with in-degree 0; they are removed; batch 1 is
    the new nodes with in-degree 0; and so on; a graph with a cycle fails
    with [CYCLIC_DEPENDENCIES].  The in-degree of a node counts the edges
    that come from the nodes not yet removed. *)
Definition inDegree (dag : Dag) (remaining : list string) (v : string)
  : nat :=
  fold_right
    (fun u n => count_occ string_dec (dependents dag u) v + n) 0 remaining.

(** Modelled from the spec: a node with in-degree 0 (section 4.A). *)
Definition isRoot (dag : Dag) (remaining : list string) (v : string)
  : bool :=
  Nat.eqb (inDegree dag remaining v) 0.

Definition memStr (x : string) (l : list string) : bool :=
  existsb (String.eqb x) l.

(** Modelled from the spec: the rounds of [batchingToposort] (section 4.A).
    A round takes the nodes with in-degree 0 as the next batch and removes
    them; when there is none and nodes remain, the graph has a cycle.  Each
    round removes a node, so as many rounds as there are nodes suffice. *)
Fixpoint toposortRounds (fuel : nat) (dag : Dag) (remaining : list string)
  : Thrown + list (list string) :=
  match remaining with
  | [] => inr []
  | _ :: _ =>
      match fuel with
      | O => inl (ScanRunnableError "Cyclic dependencies" CYCLIC_DEPENDENCIES)
      | S fuel' =>
          match filter (isRoot dag remaining) remaining with
          | [] =>
              inl (ScanRunnableError "Cyclic dependencies"
                     CYCLIC_DEPENDENCIES)
          | roots =>
              match toposortRounds fuel' dag
                      (filter (fun v => negb (memStr v roots)) remaining)
              with
              | inl e => inl e
              | inr rest => inr (roots :: rest)
              end
          end
      end
  end.

(** Modelled from the spec: [batchingToposort(dag)] (section 4.A); the nodes
    are the keys of the [dag]. *)
Definition batchingToposort (dag : Dag) : Thrown + list (list string) :=
  toposortRounds (List.length (JsMap.keys dag)) dag (JsMap.keys dag).

Definition checkIdOf (check : CheckDefinition) : string :=
  id (metadata check).

(** [check.metadata.dependsOn], with [undefined] read as no dependency. *)
Definition dependenciesOf (check : CheckDefinition) : list string :=
  orEmpty (dependsOn (metadata check)).

(** The inner loop of [getCheckBatches] over the dependencies of one check.
    It returns the error thrown, if any, and the [dag] as it then stands. *)
Fixpoint linkDependencies (checkMap : JsMap.t CheckDefinition)
  (checkID : string) (deps : list string) (dag : Dag)
  : option Thrown * Dag :=
  match deps with
  | [] => (None, dag)
  | dependencyId :: rest =>
      if negb (JsMap.has dependencyId checkMap) then
        (Some (JsError ("Check '" ++ checkID ++ "' has unknown dependency '"
                        ++ dependencyId ++ "'")),
         dag)
      else
        let dag1 :=
          if JsMap.has dependencyId dag then dag
          else JsMap.set dependencyId [] dag in
        linkDependencies checkMap checkID rest
          (JsMap.set dependencyId (dependents dag1 dependencyId ++ [checkID])
             dag1)
  end.

(** The second loop of [getCheckBatches]. *)
Fixpoint linkChecks (checkMap : JsMap.t CheckDefinition)
  (checks : list CheckDefinition) (dag : Dag) : option Thrown * Dag :=
  match checks with
  | [] => (None, dag)
  | check :: rest =>
      match linkDependencies checkMap (checkIdOf check)
              (dependenciesOf check) dag with
      | (Some e, dag1) => (Some e, dag1)
      | (None, dag1) => linkChecks checkMap rest dag1
      end
  end.

Definition buildCheckMap (checks : list CheckDefinition)
  : JsMap.t CheckDefinition :=
  JsMap.ofEntries (map (fun check => (checkIdOf check, check)) checks).

(** The first loop of [getCheckBatches]: an empty list for every check. *)
Definition initDag (checks : list CheckDefinition) : Dag :=
  fold_left (fun dag check => JsMap.set (checkIdOf check) [] dag) checks [].

(** The [dag] when the loops of [getCheckBatches] end or throw. *)
Definition buildDag (checks : list CheckDefinition) : option Thrown * Dag :=
  linkChecks (buildCheckMap checks) checks (initDag checks).

Fixpoint lookupBatch (checkMap : JsMap.t CheckDefinition)
  (batch : list string) : Thrown + list CheckDefinition :=
  match batch with
  | [] => inr []
  | checkID :: rest =>
      match JsMap.get checkID checkMap with
      | None =>
          inl (JsError ("Check '" ++ checkID ++ "' not found in checkMap"))
      | Some check =>
          match lookupBatch checkMap rest with
          | inl e => inl e
          | inr cs => inr (check :: cs)
          end
      end
  end.

Fixpoint lookupBatches (checkMap : JsMap.t CheckDefinition)
  (bs : list (list string)) : Thrown + list (list CheckDefinition) :=
  match bs with
  | [] => inr []
  | batch :: rest =>
      match lookupBatch checkMap batch with
      | inl e => inl e
      | inr cs =>
          match lookupBatches checkMap rest with
          | inl e => inl e
          | inr css => inr (cs :: css)
          end
      end
  end.

Definition getCheckBatches (checks : list CheckDefinition)
  : Thrown + list (list CheckDefinition) :=
  match buildDag checks with
  | (Some e, _) => inl e
  | (None, dag) =>
      match batchingToposort dag with
      | inl e => inl e
      | inr bs => lookupBatches (buildCheckMap checks) bs
      end
  end.

(** The runner of [createRunnable]: the plan is computed once, and a failure
    of the planner is a failure of the construction. *)
Record Runnable : Type := mkRunnable {
  r_sdk : SDK;
  r_config : ScanConfig;
  r_batches : list (list CheckDefinition);
  r_state : State
}.

Definition createRunnable (sdk : SDK) (checks : list CheckDefinition)
  (cfg : ScanConfig) : Thrown + Runnable :=
  match getCheckBatches checks with
  | inl e => inl e
  | inr bs =>
      inr {| r_sdk := sdk; r_config := cfg; r_batches := bs;
             r_state := initialState |}
  end.

(* ===================================================================== *)
(** ** The other checks of the policy header *)
(* ===================================================================== *)

(** The checks [csp-clickjacking], [csp-form-hijacking],
    [csp-malformed-syntax] and [csp-allowlisted-scripts]: as
    [csp-untrusted-script], one step each, on the response of the target. *)

(* ===================================================================== *)
(** ** The [csp-clickjacking] check *)
(* ===================================================================== *)

Module CspClickjacking.

Definition findingName : string :=
  "Content security policy: allows clickjacking".

Definition finding (description : string) (sev : Severity)
  (context : StepContext) : Finding :=
  {| name := findingName;
     description := description;
     severity := sev;
     correlation :=
       {| requestID := getId (request (sc_target context));
          locations := [] |} |}.

(** The only step of the check, [checkCspClickjacking]. *)
Definition checkCspClickjacking : StepHandler :=
  fun state context =>
  match response (sc_target context) with
  | None => Returns (done (Some state) None None)
  | Some response =>
      (* Only check HTML responses *)
      let contentType :=
        match getHeader response "content-type" with
        | Some (h :: _) => h
        | _ => ""
        end in
      if negb (JsStr.includes contentType "text/html") then
        Returns (done (Some state) None None)
      else
        match getHeader response "content-security-policy" with
        | None | Some [] => Returns (done (Some state) None None)
        | Some (cspValue :: _) =>
            let parsedCsp := CSPParser.parse cspValue in
            let frameAncestorsDirective :=
              find (fun d => String.eqb (CSPParser.dname d) "frame-ancestors")
                   (CSPParser.directives parsedCsp) in
            let findings :=
              match frameAncestorsDirective with
              | None =>
                  [ finding
                      ("The Content Security Policy is missing the frame-ancestors directive, which can lead to clickjacking attacks.

**CSP Header:** `" ++ cspValue ++ "`

**Missing Directive:** `frame-ancestors`

**Impact:** 
- The application can be embedded in malicious frames
- Clickjacking attacks can trick users into performing unintended actions
- UI redressing attacks can overlay malicious content
- Cross-site request forgery through iframe embedding

**Recommendation:** Add a frame-ancestors directive to restrict where the application can be embedded. Use 'none' to prevent all framing, or 'self' to allow only same-origin framing.")
                      MEDIUM context ]
              | Some directive =>
                  let vals := CSPParser.values directive in
                  let unsafeSources :=
                    filter (fun v => JsStr.startsWith v "data:"
                                     || JsStr.startsWith v "blob:") vals in
                  let httpSources :=
                    filter (fun v => JsStr.startsWith v "http:"
                                     && negb (JsStr.startsWith v "https:"))
                           vals in
                  CspUntrustedScript.pushIf (JsStr.arrayIncludes vals "*")
                    (finding
                       ("The Content Security Policy allows the application to be embedded in frames from any source with wildcard (*), which can lead to clickjacking attacks.

**CSP Header:** `" ++ cspValue ++ "`

**Directive:** `frame-ancestors`

**Unsafe Values:** `*`

**Impact:** 
- The application can be embedded in malicious frames from any domain
- Complete bypass of frame embedding restrictions
- Clickjacking attacks can be performed from any malicious site

**Recommendation:** Replace wildcard (*) with specific trusted domains or use 'self' for same-origin framing only.")
                       HIGH context)
                  ++ CspUntrustedScript.pushIf
                       (negb (Nat.eqb (List.length unsafeSources) 0))
                       (finding
                          ("The Content Security Policy allows the application to be embedded in frames from data: and blob: sources, which can lead to clickjacking attacks.

**CSP Header:** `" ++ cspValue ++ "`

**Directive:** `frame-ancestors`

**Unsafe Sources:** `" ++ JsStr.join ", " unsafeSources ++ "`

**Impact:** 
- The application can be embedded in data URL frames
- Clickjacking attacks can be performed through data URLs
- Bypass of frame embedding restrictions

**Recommendation:** Remove data: and blob: sources from frame-ancestors unless absolutely necessary for legitimate use cases.")
                          MEDIUM context)
                  ++ CspUntrustedScript.pushIf
                       (negb (Nat.eqb (List.length httpSources) 0))
                       (finding
                          ("The Content Security Policy allows the application to be embedded in frames from HTTP sources, which can be intercepted and modified.

**CSP Header:** `" ++ cspValue ++ "`

**Directive:** `frame-ancestors`

**HTTP Sources:** `" ++ JsStr.join ", " httpSources ++ "`

**Impact:** 
- HTTP frame sources can be intercepted by attackers
- Man-in-the-middle attacks can modify frame content
- Insecure transmission of frame embedding permissions

**Recommendation:** Use HTTPS sources only or ensure HTTP sources are from trusted, internal networks.")
                          LOW context)
              end in
            Returns (done (Some state) (Some findings) None)
        end
  end.

(** The check; the dedupe key is that of the other checks of the policy
    header and is left abstract. *)
Definition check (key : ScanTarget -> string) : CheckDefinition :=
  {| metadata :=
       {| id := "csp-clickjacking";
          md_name := findingName;
          md_description :=
            "Checks for missing or overly permissive frame-ancestors directives in Content Security Policy headers, which can lead to clickjacking attacks";
          md_type := passive;
          md_tags :=
            ["csp"; "security-headers"; "clickjacking"; "frame-ancestors"; "ui-redressing"];
          md_severities := [LOW; MEDIUM; HIGH];
          md_aggressivity := Some (0%Z, 0%Z);
          minAggressivity := None;
          dependsOn := None;
          skipIfFoundBy := None |};
     initState := JObject [];
     when :=
       Some (fun context =>
               match response context with
               | None => false
               | Some response =>
                   let contentType :=
                     match getHeader response "content-type" with
                     | Some (h :: _) => h
                     | _ => ""
                     end in
                   JsStr.includes contentType "text/html"
               end);
     dedupeKey := Some key;
     steps := [("checkCspClickjacking", checkCspClickjacking)] |}.

End CspClickjacking.

(* ===================================================================== *)
(** ** The [csp-form-hijacking] check *)
(* ===================================================================== *)

Module CspFormHijacking.

Definition findingName : string :=
  "Content security policy: allows form hijacking".

Definition finding (description : string) (sev : Severity)
  (context : StepContext) : Finding :=
  {| name := findingName;
     description := description;
     severity := sev;
     correlation :=
       {| requestID := getId (request (sc_target context));
          locations := [] |} |}.

(** The only step of the check, [checkCspFormHijacking]. *)
Definition checkCspFormHijacking : StepHandler :=
  fun state context =>
  match response (sc_target context) with
  | None => Returns (done (Some state) None None)
  | Some response =>
      (* Only check HTML responses *)
      let contentType :=
        match getHeader response "content-type" with
        | Some (h :: _) => h
        | _ => ""
        end in
      if negb (JsStr.includes contentType "text/html") then
        Returns (done (Some state) None None)
      else
        match getHeader response "content-security-policy" with
        | None | Some [] => Returns (done (Some state) None None)
        | Some (cspValue :: _) =>
            let parsedCsp := CSPParser.parse cspValue in
            let formActionDirective :=
              find (fun d => String.eqb (CSPParser.dname d) "form-action")
                   (CSPParser.directives parsedCsp) in
            let findings :=
              match formActionDirective with
              | None =>
                  [ finding
                      ("The Content Security Policy is missing the form-action directive, which can lead to form hijacking attacks.

**CSP Header:** `" ++ cspValue ++ "`

**Missing Directive:** `form-action`

**Impact:** 
- Forms can be submitted to malicious endpoints
- CSRF attacks can redirect form submissions
- Data exfiltration through form redirection
- Unauthorized data submission to external domains

**Recommendation:** Add a form-action directive to restrict where forms can be submitted. Use 'self' to allow only same-origin submissions, or specify trusted domains.")
                      MEDIUM context ]
              | Some directive =>
                  let vals := CSPParser.values directive in
                  let unsafeSources :=
                    filter (fun v => JsStr.startsWith v "data:"
                                     || JsStr.startsWith v "blob:") vals in
                  let httpSources :=
                    filter (fun v => JsStr.startsWith v "http:"
                                     && negb (JsStr.startsWith v "https:"))
                           vals in
                  CspUntrustedScript.pushIf (JsStr.arrayIncludes vals "*")
                    (finding
                       ("The Content Security Policy allows forms to be submitted to any destination with wildcard (*), which can lead to form hijacking attacks.

**CSP Header:** `" ++ cspValue ++ "`

**Directive:** `form-action`

**Unsafe Values:** `*`

**Impact:** 
- Forms can be submitted to any malicious endpoint
- Complete bypass of form submission restrictions
- Data exfiltration through form redirection

**Recommendation:** Replace wildcard (*) with specific trusted domains or use 'self' for same-origin submissions only.")
                       HIGH context)
                  ++ CspUntrustedScript.pushIf
                       (negb (Nat.eqb (List.length unsafeSources) 0))
                       (finding
                          ("The Content Security Policy allows forms to be submitted to data: and blob: sources, which can lead to form hijacking attacks.

**CSP Header:** `" ++ cspValue ++ "`

**Directive:** `form-action`

**Unsafe Sources:** `" ++ JsStr.join ", " unsafeSources ++ "`

**Impact:** 
- Forms can be submitted to data URLs
- Data exfiltration through malicious form actions
- Bypass of form submission restrictions

**Recommendation:** Remove data: and blob: sources from form-action unless absolutely necessary for legitimate use cases.")
                          MEDIUM context)
                  ++ CspUntrustedScript.pushIf
                       (negb (Nat.eqb (List.length httpSources) 0))
                       (finding
                          ("The Content Security Policy allows forms to be submitted to HTTP sources, which can be intercepted and modified.

**CSP Header:** `" ++ cspValue ++ "`

**Directive:** `form-action`

**HTTP Sources:** `" ++ JsStr.join ", " httpSources ++ "`

**Impact:** 
- HTTP form submissions can be intercepted by attackers
- Man-in-the-middle attacks can modify form data
- Insecure transmission of sensitive form data

**Recommendation:** Use HTTPS sources only or ensure HTTP sources are from trusted, internal networks.")
                          LOW context)
              end in
            Returns (done (Some state) (Some findings) None)
        end
  end.

(** The check; the dedupe key is that of the other checks of the policy
    header and is left abstract. *)
Definition check (key : ScanTarget -> string) : CheckDefinition :=
  {| metadata :=
       {| id := "csp-form-hijacking";
          md_name := findingName;
          md_description :=
            "Checks for missing or overly permissive form-action directives in Content Security Policy headers, which can lead to form hijacking attacks";
          md_type := passive;
          md_tags :=
            ["csp"; "security-headers"; "form-hijacking"; "csrf"; "form-action"];
          md_severities := [LOW; MEDIUM; HIGH];
          md_aggressivity := Some (0%Z, 0%Z);
          minAggressivity := None;
          dependsOn := None;
          skipIfFoundBy := None |};
     initState := JObject [];
     when :=
       Some (fun context =>
               match response context with
               | None => false
               | Some response =>
                   let contentType :=
                     match getHeader response "content-type" with
                     | Some (h :: _) => h
                     | _ => ""
                     end in
                   JsStr.includes contentType "text/html"
               end);
     dedupeKey := Some key;
     steps := [("checkCspFormHijacking", checkCspFormHijacking)] |}.

End CspFormHijacking.

(* ===================================================================== *)
(** ** The [csp-malformed-syntax] check *)
(* ===================================================================== *)

Module CspMalformedSyntax.

Definition findingName : string :=
  "Content security policy: malformed syntax".

Definition finding (description : string) (sev : Severity)
  (context : StepContext) : Finding :=
  {| name := findingName;
     description := description;
     severity := sev;
     correlation :=
       {| requestID := getId (request (sc_target context));
          locations := [] |} |}.

Definition validDirectives : list string :=
  ["default-src"; "script-src"; "style-src"; "img-src"; "font-src"; "connect-src"; "media-src"; "object-src"; "child-src"; "frame-src"; "worker-src"; "manifest-src"; "form-action"; "frame-ancestors"; "base-uri"; "upgrade-insecure-requests"; "block-all-mixed-content"; "require-sri-for"; "sandbox"; "report-uri"; "report-to"].

(** [names.indexOf(name)]: the first position of the name, or -1. *)
Fixpoint indexOf (names : list string) (name : string) : Z :=
  match names with
  | [] => (-1)%Z
  | n :: rest =>
      if String.eqb n name then 0%Z
      else
        let i := indexOf rest name in
        if (i <? 0)%Z then (-1)%Z else (i + 1)%Z
  end.

(** [arr.filter((x, index) => p(x, index))], from the position [index]. *)
Fixpoint filterFrom (p : string -> Z -> bool) (index : Z) (arr : list string)
  : list string :=
  match arr with
  | [] => []
  | x :: rest =>
      if p x index then x :: filterFrom p (index + 1)%Z rest
      else filterFrom p (index + 1)%Z rest
  end.

(** The only step of the check, [checkCspMalformedSyntax]. *)
Definition checkCspMalformedSyntax : StepHandler :=
  fun state context =>
  match response (sc_target context) with
  | None => Returns (done (Some state) None None)
  | Some response =>
      (* Only check HTML responses *)
      let contentType :=
        match getHeader response "content-type" with
        | Some (h :: _) => h
        | _ => ""
        end in
      if negb (JsStr.includes contentType "text/html") then
        Returns (done (Some state) None None)
      else
        match getHeader response "content-security-policy" with
        | None | Some [] => Returns (done (Some state) None None)
        | Some (cspValue :: _) =>
            let parsedCsp := CSPParser.parse cspValue in
            let directives := CSPParser.directives parsedCsp in
            (* Check for empty directives (malformed) *)
            let emptyName :=
              CspUntrustedScript.pushIf
                (existsb
                   (fun directive =>
                      String.eqb (CSPParser.dname directive) ""
                      || String.eqb (JsStr.trim (CSPParser.dname directive))
                           "")
                   directives)
                (finding
                   ("The Content Security Policy header contains malformed syntax with empty directive names.

**CSP Header:** `" ++ cspValue ++ "`

**Issue:** Empty directive name detected

**Impact:** Malformed CSP headers may be ignored by browsers, leaving the application vulnerable to XSS and code injection attacks.

**Recommendation:** Fix the CSP syntax by ensuring all directives have valid names and proper formatting.")
                   MEDIUM context) in
            (* Check for invalid directive names (common typos) *)
            let invalidName :=
              match find (fun directive =>
                            negb (JsStr.arrayIncludes validDirectives
                                    (CSPParser.dname directive)))
                         directives with
              | Some directive =>
                  [ finding
                      ("The Content Security Policy header contains an invalid directive name.

**CSP Header:** `" ++ cspValue ++ "`

**Invalid Directive:** `" ++ CSPParser.dname directive ++ "`

**Impact:** Invalid directive names may be ignored by browsers, reducing the effectiveness of the CSP.

**Recommendation:** Use valid CSP directive names. Common valid directives include: default-src, script-src, style-src, img-src, etc.")
                      MEDIUM context ]
              | None => []
              end in
            (* Check for duplicate directives *)
            let directiveNames := map CSPParser.dname directives in
            let duplicateDirectives :=
              filterFrom
                (fun name index =>
                   negb (Z.eqb (indexOf directiveNames name) index))
                0%Z directiveNames in
            let duplicates :=
              CspUntrustedScript.pushIf
                (negb (Nat.eqb (List.length duplicateDirectives) 0))
                (finding
                   ("The Content Security Policy header contains duplicate directives.

**CSP Header:** `" ++ cspValue ++ "`

**Duplicate Directives:** `" ++ JsStr.join ", " duplicateDirectives ++ "`

**Impact:** Duplicate directives may cause unexpected behavior as browsers typically use the last occurrence.

**Recommendation:** Remove duplicate directives and consolidate their values into a single directive.")
                   LOW context) in
            Returns
              (done (Some state) (Some (emptyName ++ invalidName ++ duplicates))
                 None)
        end
  end.

Definition check (key : ScanTarget -> string) : CheckDefinition :=
  {| metadata :=
       {| id := "csp-malformed-syntax";
          md_name := findingName;
          md_description :=
            "Checks for malformed Content Security Policy headers that may be ignored by browsers";
          md_type := passive;
          md_tags :=
            ["csp"; "security-headers"; "syntax"; "validation"];
          md_severities := [LOW; MEDIUM];
          md_aggressivity := Some (0%Z, 0%Z);
          minAggressivity := None;
          dependsOn := None;
          skipIfFoundBy := None |};
     initState := JObject [];
     when :=
       Some (fun context =>
               match response context with
               | None => false
               | Some response =>
                   let contentType :=
                     match getHeader response "content-type" with
                     | Some (h :: _) => h
                     | _ => ""
                     end in
                   JsStr.includes contentType "text/html"
               end);
     dedupeKey := Some key;
     steps := [("checkCspMalformedSyntax", checkCspMalformedSyntax)] |}.

End CspMalformedSyntax.

(* ===================================================================== *)
(** ** The [csp-allowlisted-scripts] check *)
(* ===================================================================== *)

Module CspAllowlistedScripts.

Definition findingName : string :=
  "Content security policy: allowlisted script resources".

Definition finding (description : string) (sev : Severity)
  (context : StepContext) : Finding :=
  {| name := findingName;
     description := description;
     severity := sev;
     correlation :=
       {| requestID := getId (request (sc_target context));
          locations := [] |} |}.

(** A length written in a template literal: the decimal digits. *)
Definition numberToString (n : nat) : string :=
  NilEmpty.string_of_uint (Nat.to_uint n).

(** The only step of the check, [checkCspAllowlistedScripts]. *)
Definition checkCspAllowlistedScripts : StepHandler :=
  fun state context =>
  match response (sc_target context) with
  | None => Returns (done (Some state) None None)
  | Some response =>
      (* Only check HTML responses *)
      let contentType :=
        match getHeader response "content-type" with
        | Some (h :: _) => h
        | _ => ""
        end in
      if negb (JsStr.includes contentType "text/html") then
        Returns (done (Some state) None None)
      else
        match getHeader response "content-security-policy" with
        | None | Some [] => Returns (done (Some state) None None)
        | Some (cspValue :: _) =>
            let parsedCsp := CSPParser.parse cspValue in
            let byName n :=
              find (fun d => String.eqb (CSPParser.dname d) n)
                   (CSPParser.directives parsedCsp) in
            let effectiveDirective :=
              match byName "script-src" with
              | Some d => Some d
              | None => byName "default-src"
              end in
            match effectiveDirective with
            | None => Returns (done (Some state) None None)
            | Some eff =>
                let scriptSources := CSPParser.values eff in
                (* Check for too many external domains (more than 5) *)
                let externalDomains :=
                  filter (fun source =>
                            JsStr.startsWith source "http://"
                            || JsStr.startsWith source "https://"
                            || JsStr.startsWith source "//")
                         scriptSources in
                (* Check for CDN domains that might be overly permissive *)
                let cdnDomains :=
                  filter (fun source =>
                            JsStr.includes source "cdn"
                            || JsStr.includes source "cloudflare"
                            || JsStr.includes source "jsdelivr"
                            || JsStr.includes source "unpkg"
                            || JsStr.includes source "cdnjs")
                         scriptSources in
                (* Check for wildcard subdomains *)
                let wildcardSubdomains :=
                  filter (fun source =>
                            JsStr.includes source "*."
                            || JsStr.includes source "*.com"
                            || JsStr.includes source "*.org")
                         scriptSources in
                (* Check for non-HTTPS sources *)
                let httpSources :=
                  filter (fun source =>
                            JsStr.startsWith source "http://"
                            && negb (JsStr.startsWith source "https://"))
                         scriptSources in
                (* Check for overly broad domains *)
                let broadDomains :=
                  filter (fun source =>
                            JsStr.includes source "*.google.com"
                            || JsStr.includes source "*.microsoft.com"
                            || JsStr.includes source "*.amazon.com"
                            || JsStr.includes source "*.cloudflare.com")
                         scriptSources in
                let findings :=
                  CspUntrustedScript.pushIf
                    (5 <? List.length externalDomains)%nat
                    (finding
                       ("The Content Security Policy allows scripts from too many external domains, which increases the attack surface.

**CSP Header:** `" ++ cspValue ++ "`

**Directive:** `" ++ CSPParser.dname eff ++ "`

**External Domains:** `" ++ numberToString (List.length externalDomains) ++ "` (" ++ JsStr.join ", " externalDomains ++ ")

**Impact:** 
- Increased attack surface with multiple external script sources
- Higher risk of supply chain attacks
- Difficulty in monitoring and controlling script sources
- Potential for malicious scripts from compromised domains

**Recommendation:** Reduce the number of external script sources to only essential, trusted domains. Consider using a Content Delivery Network (CDN) or self-hosting scripts when possible.")
                       MEDIUM context)
                  ++ CspUntrustedScript.pushIf
                       (3 <? List.length cdnDomains)%nat
                       (finding
                          ("The Content Security Policy allows scripts from multiple CDN domains, which increases the attack surface.

**CSP Header:** `" ++ cspValue ++ "`

**Directive:** `" ++ CSPParser.dname eff ++ "`

**CDN Domains:** `" ++ numberToString (List.length cdnDomains) ++ "` (" ++ JsStr.join ", " cdnDomains ++ ")

**Impact:** 
- Multiple CDN sources increase attack surface
- Risk of supply chain attacks from compromised CDNs
- Difficulty in monitoring script integrity
- Potential for malicious scripts from compromised CDN resources

**Recommendation:** Consolidate CDN usage to a single, trusted CDN provider or self-host critical scripts.")
                          LOW context)
                  ++ CspUntrustedScript.pushIf
                       (0 <? List.length wildcardSubdomains)%nat
                       (finding
                          ("The Content Security Policy allows scripts from wildcard subdomains, which can be overly permissive.

**CSP Header:** `" ++ cspValue ++ "`

**Directive:** `" ++ CSPParser.dname eff ++ "`

**Wildcard Subdomains:** `" ++ JsStr.join ", " wildcardSubdomains ++ "`

**Impact:** 
- Wildcard subdomains can include malicious or compromised subdomains
- Increased attack surface with unlimited subdomain access
- Difficulty in monitoring and controlling script sources
- Potential for subdomain takeover attacks

**Recommendation:** Replace wildcard subdomains with specific, trusted subdomains or use exact domain names.")
                          MEDIUM context)
                  ++ CspUntrustedScript.pushIf
                       (0 <? List.length httpSources)%nat
                       (finding
                          ("The Content Security Policy allows scripts from HTTP sources, which can be intercepted and modified.

**CSP Header:** `" ++ cspValue ++ "`

**Directive:** `" ++ CSPParser.dname eff ++ "`

**HTTP Sources:** `" ++ JsStr.join ", " httpSources ++ "`

**Impact:** 
- HTTP scripts can be intercepted and modified by attackers
- Man-in-the-middle attacks can inject malicious scripts
- Insecure transmission of JavaScript files
- Risk of script tampering

**Recommendation:** Use HTTPS sources only or ensure HTTP sources are from trusted, internal networks.")
                          LOW context)
                  ++ CspUntrustedScript.pushIf
                       (0 <? List.length broadDomains)%nat
                       (finding
                          ("The Content Security Policy allows scripts from overly broad domains, which can be overly permissive.

**CSP Header:** `" ++ cspValue ++ "`

**Directive:** `" ++ CSPParser.dname eff ++ "`

**Broad Domains:** `" ++ JsStr.join ", " broadDomains ++ "`

**Impact:** 
- Broad domains include many subdomains that may not be trusted
- Increased attack surface with unlimited subdomain access
- Risk of scripts from untrusted or compromised subdomains
- Difficulty in monitoring script sources

**Recommendation:** Use specific subdomains instead of broad wildcard domains, or use exact domain names for critical scripts.")
                          LOW context) in
                Returns (done (Some state) (Some findings) None)
            end
        end
  end.

Definition check (key : ScanTarget -> string) : CheckDefinition :=
  {| metadata :=
       {| id := "csp-allowlisted-scripts";
          md_name := findingName;
          md_description :=
            "Checks for overly permissive script-src directives in Content Security Policy headers that allow too many external script sources";
          md_type := passive;
          md_tags :=
            ["csp"; "security-headers"; "script-src"; "supply-chain"; "attack-surface"];
          md_severities := [LOW; MEDIUM];
          md_aggressivity := Some (0%Z, 0%Z);
          minAggressivity := None;
          dependsOn := None;
          skipIfFoundBy := None |};
     initState := JObject [];
     when :=
       Some (fun context =>
               match response context with
               | None => false
               | Some response =>
                   let contentType :=
                     match getHeader response "content-type" with
                     | Some (h :: _) => h
                     | _ => ""
                     end in
                   JsStr.includes contentType "text/html"
               end);
     dedupeKey := Some key;
     steps := [("checkCspAllowlistedScripts", checkCspAllowlistedScripts)] |}.

End CspAllowlistedScripts.

(* ===================================================================== *)
(** ** The cache of parsed documents ([runtime.html.parse]) *)
(* ===================================================================== *)

Section HtmlCache.

(** The parser of utils/html is not among the sources: the parsed document
    and [parseHtmlFromString] are parameters. *)
Variable ParsedHtml : Type.
Variable parseHtmlFromString : string -> ParsedHtml.

(** The part of [runtime.html.parse(requestID)] after
    [await sdk.requests.get(requestID)], for a call that found nothing in
    the cache: the request, its response and its body are looked at, the
    body is read as text and parsed, and the document is put into the cache
    as the cache then is. *)
Definition htmlParseFetched (sdk : SDK) (requestID : string)
  (htmlCache : JsMap.t ParsedHtml)
  : (Thrown + ParsedHtml) * JsMap.t ParsedHtml :=
  match requests_get sdk requestID with
  | None =>
      (inl (ScanRunnableError ("Request " ++ requestID ++ " not found")
              REQUEST_NOT_FOUND),
       htmlCache)
  | Some request =>
      match response request with
      | None =>
          (inl (ScanRunnableError
                  ("Response for request " ++ requestID ++ " not found")
                  REQUEST_NOT_FOUND),
           htmlCache)
      | Some response =>
          match getBody response with
          | None =>
              (inl (ScanRunnableError
                      ("Body for request " ++ requestID ++ " not found")
                      REQUEST_NOT_FOUND),
               htmlCache)
          | Some body =>
              let parsedHtml := parseHtmlFromString body in
              (inr parsedHtml, JsMap.set requestID parsedHtml htmlCache)
          end
      end
  end.

(** [runtime.html.parse(requestID)] of [createRuntimeContext], on the
    [htmlCache] of the runner, for a call during which no other call of
    [parse] runs: the look into the cache and, after the [await], the rest
    of the call see the same cache.  Two calls in flight together (two
    checks of a batch, two targets) both miss the cache and each goes
    through [htmlParseFetched] on the cache as it is when it resumes. *)
Definition htmlParse (sdk : SDK) (requestID : string)
  (htmlCache : JsMap.t ParsedHtml)
  : (Thrown + ParsedHtml) * JsMap.t ParsedHtml :=
  match JsMap.get requestID htmlCache with
  | Some cachedHtml => (inr cachedHtml, htmlCache)
  | None => htmlParseFetched sdk requestID htmlCache
  end.

End HtmlCache.

(* ===================================================================== *)
(** ** The store of the sessions ([useSessionsState]) *)
(* ===================================================================== *)

Module SessionsStore.

Section Store.

(** The [SessionState] of the package shared is not among the sources: a
    session is a parameter, of which the store reads the [id]. *)
Variable SessionState : Type.
Variable sessionId : SessionState -> string.

Inductive SessionsState : Type :=
| Idle
| Error (error : string)
| Success (sessions : list SessionState)
| Loading.

Inductive Message : Type :=
| MsgStart
| MsgError (error : string)
| MsgSuccess (sessions : list SessionState)
| MsgAddSession (session : SessionState)
| MsgUpdateSession (session : SessionState)
| MsgClear.

Definition processIdle (state : SessionsState) (message : Message)
  : SessionsState :=
  match message with
  | MsgStart => Loading
  | _ => state
  end.

Definition processError (state : SessionsState) (message : Message)
  : SessionsState :=
  match message with
  | MsgStart => Loading
  | MsgClear => Idle
  | _ => state
  end.

(** [state] is the [Success] state with the sessions [sessions]. *)
Definition processSuccess (state : SessionsState)
  (sessions : list SessionState) (message : Message) : SessionsState :=
  match message with
  | MsgAddSession session => Success (sessions ++ [session])
  | MsgUpdateSession session' =>
      Success
        (map (fun session =>
                if String.eqb (sessionId session) (sessionId session')
                then session' else session)
             sessions)
  | MsgClear => Idle
  | _ => state
  end.

Definition processLoading (state : SessionsState) (message : Message)
  : SessionsState :=
  match message with
  | MsgError error => Error error
  | MsgSuccess sessions => Success sessions
  | _ => state
  end.

(** [send(message)]: the new state of the store. *)
Definition send (currState : SessionsState) (message : Message)
  : SessionsState :=
  match currState with
  | Idle => processIdle currState message
  | Error _ => processError currState message
  | Success sessions => processSuccess currState sessions message
  | Loading => processLoading currState message
  end.

(** The ids of the sessions that the store shows. *)
Definition shownIds (state : SessionsState) : list string :=
  match state with
  | Success sessions => map sessionId sessions
  | _ => []
  end.

Definition isStart (message : Message) : bool :=
  match message with
  | MsgStart => true
  | _ => false
  end.

End Store.

End SessionsStore.

(* ===================================================================== *)
(** ** Vocabulary of the statements *)
(* ===================================================================== *)

(** The scan timer does not fire at the suspension point [n]. *)
Definition timerQuiet (cfg : ScanConfig) (world : World) (n : nat) : Prop :=
  ((0 <? scanTimeout cfg)%Z
   && (scanTimeout cfg * 1000 <=? elapsedMs world n)%Z) = false.



(** No check id is [__proto__], the one property name for which the plain
    object of [getCheckBatches] is not a map. *)
Definition ordinaryIds (ids : list string) : Prop :=
  ~ In "__proto__" ids.

(** A property of the state in which a piece of the runner leaves off,
    however it ends. *)
Definition holds {A} (P : State -> Prop) (r : Res A) : Prop :=
  match r with
  | Ret _ s | Raise _ s | TimerFired s => P s
  | OutOfFuel => True
  end.

(** The part of the state that the task interpreter never writes. *)
Record sameData (s s' : State) : Prop := mkSameData {
  same_findings : findings s' = findings s;
  same_dependencies : dependencies s' = dependencies s;
  same_store : store s' = store s;
  same_dedupeKeys : dedupeKeys s' = dedupeKeys s;
  same_hasRun : hasRun s' = hasRun s;
  same_history : executionHistory s' = executionHistory s
}.

(** The number of findings in the steps of a record, and in the records of
    a history. *)
Definition stepsFindings (steps : list StepExecutionRecord) : nat :=
  list_sum (map (fun st => List.length (stepFindings st)) steps).


Definition isCompleted (r : CheckExecutionRecord) : bool :=
  match status r with
  | completed _ => true
  | failed _ _ => false
  end.


(** The key of the active record of a task. *)
Definition activeKey (task : CheckTask) : string :=
  recordKey (id (task_metadata task)) (getId (request (getTarget task))).

(** What the [catch] of [tick] reports for a thrown value: the code and the
    message of a [ScanRunnableError], [UNKNOWN_CHECK_ERROR] otherwise. *)
Definition reportedAs (e : StepThrown) (code : ScanRunnableErrorCode)
  (message : string) : Prop :=
  match e with
  | ThrowsScanRunnableError m c => code = c /\ message = m
  | ThrowsError m => code = UNKNOWN_CHECK_ERROR /\ message = m
  | ThrowsValue _ =>
      code = UNKNOWN_CHECK_ERROR /\ message = "Unknown error occurred"
  end.

(** Sample data for the scenarios. *)
Module Sample.

Definition request1 : Request :=
  {| getId := "1"; getHost := "example.com"; getPort := 443;
     getPath := "/"; getQuery := ""; getMethod := "GET" |}.

Definition request2 : Request :=
  {| getId := "2"; getHost := "example.com"; getPort := 443;
     getPath := "/"; getQuery := ""; getMethod := "GET" |}.

Definition htmlResponse (csp : option (list string)) : Response :=
  {| getCode := 200;
     getHeader :=
       fun h =>
         if String.eqb h "content-type" then Some ["text/html"]
         else if String.eqb h "content-security-policy" then csp
         else None;
     getBody := Some "<html><body>Test</body></html>" |}.

Definition target1 : ScanTarget :=
  {| request := request1; response := Some (htmlResponse None) |}.

Definition target2 : ScanTarget :=
  {| request := request2; response := Some (htmlResponse None) |}.

Definition wildcardTarget : ScanTarget :=
  {| request := request1;
     response := Some (htmlResponse (Some ["script-src *"])) |}.

Definition sdk : SDK :=
  {| requests_get :=
       fun i =>
         if String.eqb i "1" then Some target1
         else if String.eqb i "2" then Some target2
         else None |}.

(** All severities, no timeout, one target and one check at a time. *)
Definition config : ScanConfig :=
  {| aggressivity := 0;
     severities := [INFO; LOW; MEDIUM; HIGH; CRITICAL];
     inScopeOnly := false;
     concurrentTargets := 1;
     concurrentChecks := 1;
     concurrentRequests := 1;
     requestsDelayMs := 0;
     scanTimeout := 0;
     checkTimeout := 0 |}.

(** Nobody cancels. *)
Definition world : World :=
  {| elapsedMs := fun n => Z.of_nat n; cancelCall := fun _ => None |}.

Definition meta (i : string) (deps : option (list string))
  (skip : option string) : CheckMetadata :=
  {| id := i; md_name := i; md_description := ""; md_type := passive;
     md_tags := []; md_severities := [HIGH]; md_aggressivity := None;
     minAggressivity := None; dependsOn := deps; skipIfFoundBy := skip |}.

Definition aFinding (n : string) (t : ScanTarget) : Finding :=
  {| name := n; description := ""; severity := HIGH;
     correlation :=
       {| requestID := getId (request t); locations := [] |} |}.


(** A check of one step that reports a finding and outputs the id of the
    request of its target. *)
Definition reports (i : string) (deps : option (list string))
  (skip : option string) (key : option (ScanTarget -> string))
  : CheckDefinition :=
  {| metadata := meta i deps skip;
     initState := JNull;
     when := None;
     dedupeKey := key;
     steps :=
       [ ("report",
          fun st ctx =>
            Returns (done (Some st)
                       (Some [aFinding i (sc_target ctx)])
                       (Some (JString (getId (request (sc_target ctx))))))
         ) ] |}.

(** A check whose only step throws a [ScanRunnableError]. *)
Definition throws : CheckDefinition :=
  {| metadata := meta "throws" None None;
     initState := JNull;
     when := None;
     dedupeKey := None;
     steps :=
       [ ("only",
          fun _ _ =>
            Throws (ThrowsScanRunnableError "Request 9 not found"
                      REQUEST_NOT_FOUND)) ] |}.

(** The key of a target: its host. *)
Definition hostKey (t : ScanTarget) : string := getHost (request t).

(** A rank of the check ids for the plan of [a] and [b], where [b] depends
    on [a]. *)
Definition rankAB (x : string) : nat := if String.eqb x "b" then 1 else 0.

(** A check without steps, for the planner. *)
Definition plain (i : string) (deps : option (list string))
  : CheckDefinition :=
  {| metadata := meta i deps None; initState := JNull; when := None;
     dedupeKey := None; steps := [] |}.

End Sample.

(** A configuration that the schema of the backend accepts, with one target
    and one check at a time, and a world in which a run takes less than a
    tenth of a second and nobody cancels. *)
Module Calm.

Definition config : ScanConfig :=
  {| aggressivity := 0;
     severities := [INFO; LOW; MEDIUM; HIGH; CRITICAL];
     inScopeOnly := false;
     concurrentTargets := 1;
     concurrentChecks := 1;
     concurrentRequests := 1;
     requestsDelayMs := 0;
     scanTimeout := 600;
     checkTimeout := 30 |}.

Definition world : World :=
  {| elapsedMs := fun n => Z.of_nat (Nat.min n 100);
     cancelCall := fun _ => None |}.

End Calm.

(** The first three tests of [isCheckApplicable]: the severities, the
    aggressivity and the [when] predicate of the check. *)
Definition passesFilters (check : CheckDefinition) (context : RuntimeContext)
  : bool :=
  existsb
    (fun sv => existsb (Severity_eqb sv) (severities (config context)))
    (md_severities (metadata check))
  && negb match minAggressivity (metadata check) with
          | Some m => (aggressivity (config context) <? m)%Z
          | None => false
          end
  && negb match when check with
          | Some w => negb (w (target context))
          | None => false
          end.

(** The key is in the set that the index at [keys] holds for the check. *)
Definition claimed (h : Store) (keys : nat) (checkID key : string) : bool :=
  match JsMap.get checkID (mapAt h keys) with
  | Some r => setHas h r key
  | None => false
  end.

(** The index at [keys] is an object of the store and so are its sets. *)
Definition wfIndex (h : Store) (keys : nat) : Prop :=
  keys < List.length (maps h)
  /\ Forall (fun kv => snd kv < List.length (sets h)) (mapAt h keys).

(** A sequence of applicability tests on the same index, in order. *)
Fixpoint applicabilityTests (tests : list (CheckDefinition * RuntimeContext))
  (keys : nat) (h : Store) : list bool * Store :=
  match tests with
  | [] => ([], h)
  | (check, context) :: rest =>
      let '(b, h1) := isCheckApplicable check context keys h in
      let '(bs, h2) := applicabilityTests rest keys h1 in
      (b :: bs, h2)
  end.

(** The dedupe key of a check for a target, when it has one. *)
Definition keyFor (check : CheckDefinition) (context : RuntimeContext)
  : option string :=
  match dedupeKey check with
  | Some keyOf => Some (keyOf (target context))
  | None => None
  end.

(** The callback of [processBatch] skips the execution of the task: it
    returns [undefined] at once and leaves the state as it is. *)
Definition skipsExecution (cfg : ScanConfig) (world : World) (fuel : nat)
  (task : CheckTask) (context : RuntimeContext) (s : State) : Prop :=
  processTask cfg world fuel task context s = Ret None s.


(** The [code] that an error carries, if it is of a class that has one. *)
Definition errorCodeOf (e : Thrown) : option ScanRunnableErrorCode :=
  match e with
  | ScanRunnableError _ code => Some code
  | JsError _ => None
  | ScanRunnableInterruptedError _ => None
  end.

Definition checkIds (checks : list CheckDefinition) : list string :=
  map checkIdOf checks.

(** The edge from [d] to [c] of the dependency graph: a registered check
    with id [c] lists [d] in its [dependsOn]. *)
Definition dependsDirectly (checks : list CheckDefinition) (d c : string)
  : Prop :=
  exists check,
    In check checks /\ checkIdOf check = c /\ In d (dependenciesOf check).

(** Every [dependsOn] names a registered check. *)
Definition knownDependencies (checks : list CheckDefinition) : Prop :=
  forall check d,
    In check checks -> In d (dependenciesOf check) -> In d (checkIds checks).

(** No check depends on itself through a chain of dependencies. *)
Definition acyclicDependencies (checks : list CheckDefinition) : Prop :=
  forall x, ~ clos_trans string (dependsDirectly checks) x x.

(** The message of the error that [getCheckBatches] throws for a dependency
    that is not registered. *)
Definition unknownDependencyMessage (checkID dependencyId : string)
  : string :=
  "Check '" ++ checkID ++ "' has unknown dependency '" ++ dependencyId ++ "'".

(** The edges of a [dag]. *)
Definition dagEdge (dag : Dag) (u v : string) : Prop :=
  In v (dependents dag u).

(** [h'] has all the objects of [h], unchanged, and maybe new ones. *)
Definition extends (h h' : Store) : Prop :=
  exists ms ss, maps h' = maps h ++ ms /\ sets h' = sets h ++ ss.

(** The index at [keys] and its sets are objects made after [h0]. *)
Definition freshIndex (h0 h : Store) (keys : nat) : Prop :=
  extends h0 h
  /\ List.length (maps h0) <= keys < List.length (maps h)
  /\ Forall (fun kv => List.length (sets h0) <= snd kv < List.length (sets h))
       (mapAt h keys).

(** Two stores that differ by [g] sets, unreachable from the index at
    [keys], that sit at the addresses from [n] on in the second store: the
    addresses of the other sets are shifted accordingly. *)
Definition shiftRef (n g r : nat) : nat :=
  if (r <? n)%nat then r else r + g.

Definition storeShift (n g keys : nat) (h1 h2 : Store) : Prop :=
  n <= List.length (sets h1)
  /\ List.length (sets h2) = List.length (sets h1) + g
  /\ (forall r, r < List.length (sets h1) ->
                setAt h2 (shiftRef n g r) = setAt h1 r)
  /\ keys < List.length (maps h2)
  /\ mapAt h2 keys
     = map (fun kv => (fst kv, shiftRef n g (snd kv))) (mapAt h1 keys)
  /\ wfIndex h1 keys.

(** Two states of the runner that differ by such sets only. *)
Definition simState (n g : nat) (s1 s2 : State) : Prop :=
  setStore (store s1) s2 = s1
  /\ storeShift n g (dedupeKeys s1) (store s1) (store s2).

Definition simRes {A} (n g : nat) (r1 r2 : Res A) : Prop :=
  match r1, r2 with
  | Ret a s1, Ret b s2 => a = b /\ simState n g s1 s2
  | Raise e1 s1, Raise e2 s2 => e1 = e2 /\ simState n g s1 s2
  | TimerFired s1, TimerFired s2 => simState n g s1 s2
  | OutOfFuel, OutOfFuel => True
  | _, _ => False
  end.

(** The same outcome with another store. *)
Definition withStore {A} (h : Store) (r : Res A) : Res A :=
  match r with
  | Ret a s => Ret a (setStore h s)
  | Raise e s => Raise e (setStore h s)
  | TimerFired s => TimerFired (setStore h s)
  | OutOfFuel => OutOfFuel
  end.

(** Two runs end alike: the same result, the same events, history, findings
    and dependencies, and the same claims in the dedupe index. *)
Definition alike (s1 s2 : State) : Prop :=
  events s1 = events s2
  /\ executionHistory s1 = executionHistory s2
  /\ findings s1 = findings s2
  /\ dependencies s1 = dependencies s2
  /\ forall c k,
      claimed (store s1) (dedupeKeys s1) c k
      = claimed (store s2) (dedupeKeys s2) c k.

Definition sameRun (r1 r2 : Res ScanResult) : Prop :=
  match r1, r2 with
  | Ret a s1, Ret b s2 => a = b /\ alike s1 s2
  | Raise e1 s1, Raise e2 s2 => e1 = e2 /\ alike s1 s2
  | TimerFired s1, TimerFired s2 => alike s1 s2
  | OutOfFuel, OutOfFuel => True
  | _, _ => False
  end.

(* ===================================================================== *)
(** ** Vocabulary of the further properties *)
(* ===================================================================== *)

(** Every character of the string satisfies [p]. *)
Definition allChars (p : ascii -> bool) (s : string) : bool :=
  forallb p (list_ascii_of_string s).

(** A character that is neither white space nor a semicolon. *)
Definition tokenChar (c : ascii) : bool :=
  negb (JsStr.isWhitespace c) && negb (Ascii.eqb c ";"%char).

(** A token of a policy: not empty, without white space or semicolon. *)
Definition isToken (s : string) : bool :=
  JsStr.nonEmpty s && allChars tokenChar s.

Definition tokensOnly (d : CSPParser.CSPDirective) : bool :=
  isToken (CSPParser.dname d) && forallb isToken (CSPParser.values d).

(** A policy written out: the name and the values of a directive separated
    by a space, the directives by a semicolon and a space. *)
Definition renderDirective (d : CSPParser.CSPDirective) : string :=
  JsStr.join " " (CSPParser.dname d :: CSPParser.values d).

Definition renderPolicy (ds : list CSPParser.CSPDirective) : string :=
  JsStr.join "; " (map renderDirective ds).

(** The characters of [trim s], as a list. *)
Definition trimmed (l : list ascii) : list ascii :=
  rev (JsStr.dropWhile JsStr.isWhitespace
         (rev (JsStr.dropWhile JsStr.isWhitespace l))).

(** The directives of a header, without the early return for a blank
    header. *)
Definition directivesOf (h : string) : list CSPParser.CSPDirective :=
  CSPParser.collectDirectives
    (filter JsStr.nonEmpty (map JsStr.trim (JsStr.splitChar ";"%char h))).

(** The first value of the [content-type] header of a response, or the
    empty string: [response.getHeader("content-type")?.[0] ?? ""]. *)
Definition contentTypeOf (res : Response) : string :=
  match getHeader res "content-type" with
  | Some (h :: _) => h
  | _ => ""
  end.

(** The value of the policy header that the CSP checks read: the first
    [content-security-policy] header of an HTML response. *)
Definition policyOf (t : ScanTarget) : option string :=
  match response t with
  | None => None
  | Some res =>
      if JsStr.includes (contentTypeOf res) "text/html" then
        match getHeader res "content-security-policy" with
        | Some (cspValue :: _) => Some cspValue
        | _ => None
        end
      else None
  end.

(** The first directive of the given name. *)
Definition directiveNamed (n : string) (p : CSPParser.ParsedCSP)
  : option CSPParser.CSPDirective :=
  find (fun d => String.eqb (CSPParser.dname d) n) (CSPParser.directives p).

(** The directive that governs scripts: [script-src], or [default-src] when
    there is none. *)
Definition scriptDirective (p : CSPParser.ParsedCSP)
  : option CSPParser.CSPDirective :=
  match directiveNamed "script-src" p with
  | Some d => Some d
  | None => directiveNamed "default-src" p
  end.

(** A source that lets content in from anywhere, from a [data:] or [blob:]
    URL, or over plain HTTP. *)
Definition looseSource (v : string) : bool :=
  String.eqb v "*"
  || JsStr.startsWith v "data:" || JsStr.startsWith v "blob:"
  || JsStr.startsWith v "http:".

(** A source value that the [csp-untrusted-script] check reports. *)
Definition untrustedScriptSource (v : string) : bool :=
  String.eqb v "'unsafe-inline'" || String.eqb v "'unsafe-eval'"
  || looseSource v.

(** The findings that a step returns, [undefined] read as none. *)
Definition findingsOf (o : StepOutcome) : list Finding :=
  match o with
  | Returns (done _ fs _) => orEmpty fs
  | Returns (continueWith _ _ fs) => orEmpty fs
  | Throws _ => []
  end.

(** A step that ends the check at once, keeps the state it was given and
    sets no output. *)
Definition endsWith (o : StepOutcome) (state : JSONValue) : Prop :=
  exists fs, o = Returns (done (Some state) fs None).

(** A finding of a check about the request of the target, without
    locations, named as the check and of a severity the check declares. *)
Definition findingOf (check : CheckDefinition) (t : ScanTarget) (f : Finding)
  : Prop :=
  name f = md_name (metadata check)
  /\ In (severity f) (md_severities (metadata check))
  /\ correlation f = {| requestID := getId (request t); locations := [] |}.

(** The policy of the target lets no untrusted script in: there is no policy
    to read, or no directive that governs scripts, or none of the values of
    that directive is one the check reports. *)
Definition trustedScripts (t : ScanTarget) : bool :=
  match policyOf t with
  | None => true
  | Some cspValue =>
      match scriptDirective (CSPParser.parse cspValue) with
      | None => true
      | Some eff =>
          forallb (fun v => negb (untrustedScriptSource v))
            (CSPParser.values eff)
      end
  end.

(** The [when] predicate of a check accepts the target; a check without
    one accepts every target. *)
Definition accepts (check : CheckDefinition) (t : ScanTarget) : bool :=
  match when check with
  | Some w => w t
  | None => true
  end.

(** The checks of the policy header other than [csp-untrusted-script]. *)
Definition policyChecks (key : ScanTarget -> string) : list CheckDefinition :=
  [ CspClickjacking.check key; CspFormHijacking.check key;
    CspMalformedSyntax.check key; CspAllowlistedScripts.check key ].

(** A finding named [n] about the request of the target, without
    locations. *)
Definition findingAbout (n : string) (context : StepContext) (f : Finding)
  : Prop :=
  name f = n
  /\ correlation f
     = {| requestID := getId (request (sc_target context));
          locations := [] |}.

(** The context of a step on an HTML response with the given policy
    headers, and the severities of the findings of a step on one policy. *)
Definition htmlContext (csp : option (list string)) : StepContext :=
  {| sc_target := {| request := Sample.request1;
                     response := Some (Sample.htmlResponse csp) |};
     sc_config := Sample.config;
     sc_dependencies := fun _ => None |}.

Definition severitiesOn (step : StepHandler) (cspValue : string)
  : list Severity :=
  map severity (findingsOf (step JNull (htmlContext (Some [cspValue])))).

(** The tests of [csp-allowlisted-scripts] on a source. *)
Definition externalSource (source : string) : bool :=
  JsStr.startsWith source "http://"
  || JsStr.startsWith source "https://"
  || JsStr.startsWith source "//".

Definition cdnSource (source : string) : bool :=
  JsStr.includes source "cdn"
  || JsStr.includes source "cloudflare"
  || JsStr.includes source "jsdelivr"
  || JsStr.includes source "unpkg"
  || JsStr.includes source "cdnjs".

(** The sources of the directive that governs scripts stay within what
    [csp-allowlisted-scripts] accepts: at most five external ones, at most
    three from a CDN, none with a wildcard subdomain, none over plain
    HTTP. *)
Definition withinAllowlist (t : ScanTarget) : Prop :=
  match policyOf t with
  | None => True
  | Some cspValue =>
      match scriptDirective (CSPParser.parse cspValue) with
      | None => True
      | Some eff =>
          let sources := CSPParser.values eff in
          List.length (filter externalSource sources) <= 5
          /\ List.length (filter cdnSource sources) <= 3
          /\ forallb (fun v => negb (JsStr.includes v "*.")) sources = true
          /\ forallb (fun v => negb (JsStr.startsWith v "http://")) sources
             = true
      end
  end.

(** The names of the directives of the policy of the target are all valid
    and no name comes twice. *)
Definition wellFormedPolicy (t : ScanTarget) : Prop :=
  match policyOf t with
  | None => True
  | Some cspValue =>
      let names :=
        map CSPParser.dname
          (CSPParser.directives (CSPParser.parse cspValue)) in
      forallb (JsStr.arrayIncludes CspMalformedSyntax.validDirectives) names
      = true
      /\ NoDup names
  end.

(** The test of the first loop of [csp-malformed-syntax]. *)
Definition emptyName (d : CSPParser.CSPDirective) : bool :=
  String.eqb (CSPParser.dname d) ""
  || String.eqb (JsStr.trim (CSPParser.dname d)) "".

(** The policy of the target has a directive of the given name and none of
    its values is a loose source. *)
Definition restricts (n : string) (t : ScanTarget) : Prop :=
  match policyOf t with
  | None => True
  | Some cspValue =>
      match directiveNamed n (CSPParser.parse cspValue) with
      | None => False
      | Some d =>
          forallb (fun v => negb (looseSource v)) (CSPParser.values d) = true
      end
  end.

(** The policy of the target has no directive of the given name. *)
Definition lacks (n : string) (t : ScanTarget) : Prop :=
  exists cspValue,
    policyOf t = Some cspValue
    /\ directiveNamed n (CSPParser.parse cspValue) = None.

(** An event about a check or a finding: not one of [scan:started],
    [scan:finished], [scan:interrupted]. *)
Definition checkEvent (e : ScanEvent) : bool :=
  match e with
  | scan_started | scan_finished | scan_interrupted _ => false
  | _ => true
  end.

(** From [s] to [s'] the runner only adds: the events and the history are
    extended at the end, the findings stored under an id too, and a run
    that has started stays started. *)
Definition onlyAdds (s s' : State) : Prop :=
  (exists l, events s' = events s ++ l)
  /\ (exists l, executionHistory s' = executionHistory s ++ l)
  /\ (forall i, exists l,
         orEmpty (JsMap.get i (findings s'))
         = orEmpty (JsMap.get i (findings s)) ++ l)
  /\ (hasRun s = true -> hasRun s' = true).

(** The events added from [s] to [s'] are events about checks and
    findings. *)
Definition addsCheckEvents (s s' : State) : Prop :=
  exists l, events s' = events s ++ l /\ forallb checkEvent l = true.

(** What every piece of a run keeps, from a state [s0] on. *)
Definition runKeeps (s0 s : State) : Prop :=
  onlyAdds s0 s /\ addsCheckEvents s0 s
  /\ (forall r, interruptReason s0 = Some r -> interruptReason s = Some r).

(** Every request id of the list is known to the host. *)
Definition allKnown (sdk : SDK) (requestIDs : list string) : Prop :=
  Forall (fun i => requests_get sdk i <> None) requestIDs.

(** The message of the error for a request that the host does not know. *)
Definition requestNotFound (requestID : string) : string :=
  "Request " ++ requestID ++ " not found".

(** No step has run between [s] and [s']: the data of the runner are the
    same and the interruption still stands. *)
Definition nothingRan (reason : InterruptReason) (s s' : State) : Prop :=
  sameData s s' /\ interruptReason s' = Some reason.

(** The number of checks of a plan. *)
Definition planSize (batches : list (list CheckDefinition)) : nat :=
  List.length (List.concat batches).

(** The index at [keys] is an object of the store whose entries have
    distinct check ids and distinct sets: no set is shared by two checks. *)
Definition separateSets (h : Store) (keys : nat) : Prop :=
  wfIndex h keys
  /\ NoDup (JsMap.keys (mapAt h keys))
  /\ NoDup (map snd (mapAt h keys)).

(** The answer of [isCheckApplicable] as a function of the claims [C] made
    so far, and the claim that the test adds. *)
Definition applicableIn (C : string -> string -> bool)
  (check : CheckDefinition) (context : RuntimeContext) : bool :=
  passesFilters check context
  && match keyFor check context with
     | Some key => negb (C (id (metadata check)) key)
     | None => true
     end.

Definition newClaim (check : CheckDefinition) (context : RuntimeContext)
  (c k : string) : bool :=
  passesFilters check context
  && match keyFor check context with
     | Some key => String.eqb c (id (metadata check)) && String.eqb k key
     | None => false
     end.

(** Two indexes hold the same claims. *)
Definition sameClaims (h1 : Store) (keys1 : nat) (h2 : Store) (keys2 : nat)
  : Prop :=
  forall c k, claimed h1 keys1 c k = claimed h2 keys2 c k.

(** The sets that a snapshot holds mirror those of the index [entries] of
    the store [h0]. *)
Definition mirrors (h0 : Store) (entries : JsMap.t nat) (h : Store)
  (snapshot : nat) : Prop :=
  forall c,
    match JsMap.get c entries with
    | Some r =>
        exists r',
          JsMap.get c (mapAt h snapshot) = Some r'
          /\ setAt h r' = setAt h0 r
    | None => JsMap.get c (mapAt h snapshot) = None
    end.

Definition isStarted (e : ScanEvent) : bool :=
  match e with
  | scan_check_started _ _ => true
  | _ => false
  end.

(** The number of [scan:check-started] events in a list of events. *)
Definition startedCount (l : list ScanEvent) : nat :=
  List.length (filter isStarted l).

(** Between [s0] and [s] no check has started and the dedupe objects are
    the same. *)
Definition noStart (s0 s : State) : Prop :=
  startedCount (events s) = startedCount (events s0)
  /\ store s = store s0 /\ dedupeKeys s = dedupeKeys s0.

(** Between [s0] and [s], [n] checks have started and the dedupe objects
    are the same. *)
Definition startedMore (n : nat) (s0 s : State) : Prop :=
  startedCount (events s) = startedCount (events s0) + n
  /\ store s = store s0 /\ dedupeKeys s = dedupeKeys s0.

(** The definition registered last under a check id. *)
Definition lastRegistered (checks : list CheckDefinition) (i : string)
  : option CheckDefinition :=
  find (fun check => String.eqb (checkIdOf check) i) (rev checks).





(* ===================================================================== *)
(** * Properties *)
(* ===================================================================== *)

(** ** The CSP parser and the [csp-untrusted-script] check *)

(** The parser's own tests. *)
Example parse_simple :
  CSPParser.directives
    (CSPParser.parse "default-src 'self'; script-src 'self' 'unsafe-inline'")
  = [ CSPParser.mkDirective "default-src" ["'self'"];
      CSPParser.mkDirective "script-src" ["'self'"; "'unsafe-inline'"] ].
Proof. reflexivity. Qed.

Example parse_extra_semicolons :
  map CSPParser.dname
    (CSPParser.directives
       (CSPParser.parse "default-src 'self';; script-src 'self';;"))
  = ["default-src"; "script-src"].
Proof. reflexivity. Qed.

Example parse_no_values :
  CSPParser.directives (CSPParser.parse "default-src 'self'; object-src")
  = [ CSPParser.mkDirective "default-src" ["'self'"];
      CSPParser.mkDirective "object-src" [] ].
Proof. reflexivity. Qed.

Example parse_blank :
  CSPParser.directives (CSPParser.parse "   ") = [].
Proof. reflexivity. Qed.


Lemma parse_wildcard :
  CSPParser.directives (CSPParser.parse "script-src *")
  = [ CSPParser.mkDirective "script-src" ["*"] ].
Proof. reflexivity. Qed.

(** The scenarios of the tests of the check: one finding of severity high
    for ['unsafe-inline'], none for a policy that only allows ['self']. *)
Example check_unsafe_inline :
  let context :=
    {| sc_target :=
         {| request := Sample.request1;
            response :=
              Some (Sample.htmlResponse
                      (Some ["script-src 'self' 'unsafe-inline'"])) |};
       sc_config := Sample.config;
       sc_dependencies := fun _ => None |} in
  match CspUntrustedScript.checkCspUntrustedScript (JObject []) context with
  | Returns (done _ (Some fs) _) => map severity fs = [HIGH]
  | _ => False
  end.
Proof. reflexivity. Qed.

Example check_self_only :
  let context :=
    {| sc_target :=
         {| request := Sample.request1;
            response :=
              Some (Sample.htmlResponse (Some ["script-src 'self'"])) |};
       sc_config := Sample.config;
       sc_dependencies := fun _ => None |} in
  match CspUntrustedScript.checkCspUntrustedScript (JObject []) context with
  | Returns (done _ (Some fs) _) => fs = []
  | _ => False
  end.
Proof. reflexivity. Qed.

(** The finding that the check reports for a wildcard source. *)
Lemma wildcard_step (state : JSONValue) (context : StepContext)
  (res : Response) (ct : string) (cts : list string) :
  response (sc_target context) = Some res ->
  getHeader res "content-type" = Some (ct :: cts) ->
  JsStr.includes ct "text/html" = true ->
  getHeader res "content-security-policy" = Some ["script-src *"] ->
  exists f,
    CspUntrustedScript.checkCspUntrustedScript state context
    = Returns (done (Some state) (Some [f]) None)
    /\ severity f = CRITICAL
    /\ name f = CspUntrustedScript.findingName
    /\ requestID (correlation f) = getId (request (sc_target context)).
Proof.
  intros Hres Hct Hinc Hcsp.
  unfold CspUntrustedScript.checkCspUntrustedScript.
  rewrite Hres, Hct, Hinc, Hcsp.
  eexists. split; [reflexivity | repeat split].
Qed.

(** ** Maps *)

Lemma get_set_same {V} (k : string) (v : V) (m : JsMap.t V) :
  JsMap.get k (JsMap.set k v m) = Some v.
Proof.
  induction m as [|[k' v'] r IH]; simpl.
  - now rewrite String.eqb_refl.
  - destruct (String.eqb k k') eqn:E; simpl; rewrite E; auto.
Qed.

Lemma get_set_other {V} (k k' : string) (v : V) (m : JsMap.t V) :
  k <> k' -> JsMap.get k' (JsMap.set k v m) = JsMap.get k' m.
Proof.
  intros Hne. induction m as [|[k0 v0] r IH]; simpl.
  - apply String.eqb_neq in Hne. rewrite String.eqb_sym in Hne.
    now rewrite Hne.
  - destruct (String.eqb k k0) eqn:E; simpl.
    + apply String.eqb_eq in E. subst k0.
      destruct (String.eqb k' k) eqn:E'; auto.
      apply String.eqb_eq in E'. congruence.
    + destruct (String.eqb k' k0); auto.
Qed.

(** ** Suspension points *)

Section Suspension.

Variable cfg : ScanConfig.
Variable world : World.

Lemma resume_frame (s : State) :
  findings (resume world s) = findings s
  /\ dependencies (resume world s) = dependencies s
  /\ store (resume world s) = store s
  /\ dedupeKeys (resume world s) = dedupeKeys s
  /\ hasRun (resume world s) = hasRun s
  /\ executionHistory (resume world s) = executionHistory s
  /\ activeCheckRecords (resume world s) = activeCheckRecords s
  /\ events (resume world s) = events s.
Proof.
  unfold resume, cancel. simpl.
  destruct (cancelCall world (clock s)); simpl;
    [|repeat split; reflexivity].
  destruct (interruptReason s); simpl; [repeat split; reflexivity|].
  destruct (hasRun s) eqn:E; simpl; rewrite ?E; repeat split; reflexivity.
Qed.

Lemma suspend_quiet (s : State) :
  timerQuiet cfg world (clock s) ->
  suspend cfg world s = Ret tt (resume world s).
Proof.
  unfold timerQuiet, suspend. intros ->. reflexivity.
Qed.

End Suspension.


(** ** The task interpreter *)

Lemma sameData_refl (s : State) : sameData s s.
Proof. now constructor. Qed.

Lemma sameData_trans (s1 s2 s3 : State) :
  sameData s1 s2 -> sameData s2 s3 -> sameData s1 s3.
Proof.
  intros [] []. constructor; congruence.
Qed.

Lemma sameData_emit (e : ScanEvent) (s : State) : sameData s (emit e s).
Proof. now constructor. Qed.

Lemma sameData_emitFindings (t c : string) (fs : list Finding) (s : State) :
  sameData s (emitFindings t c fs s).
Proof.
  unfold emitFindings. revert s.
  induction fs as [|f fs IH]; intros s; simpl.
  - apply sameData_refl.
  - eapply sameData_trans; [apply (sameData_emit (scan_finding t c f))|].
    apply IH.
Qed.

Lemma emitFindings_active (t c : string) (fs : list Finding) (s : State) :
  activeCheckRecords (emitFindings t c fs s) = activeCheckRecords s.
Proof.
  unfold emitFindings. revert s.
  induction fs as [|f fs IH]; intros s; simpl; [reflexivity|].
  now rewrite IH.
Qed.

Lemma emitFindings_events (t c : string) (fs : list Finding) (s : State) :
  events (emitFindings t c fs s)
  = events s ++ map (scan_finding t c) fs.
Proof.
  unfold emitFindings. revert s.
  induction fs as [|f fs IH]; intros s; simpl.
  - now rewrite app_nil_r.
  - rewrite IH. simpl. now rewrite <- app_assoc.
Qed.

Lemma sameData_record (c t : string) (r : StepExecutionRecord) (s : State) :
  sameData s (recordStepExecution c t r s).
Proof.
  unfold recordStepExecution.
  destruct (JsMap.get _ _); now constructor.
Qed.

Lemma taskTick_same (deps : string -> CheckOutput) (t t' : CheckTask)
  (o : TickOutcome) :
  taskTick deps t = (o, t') ->
  task_metadata t' = task_metadata t
  /\ task_context t' = task_context t
  /\ task_steps t' = task_steps t.
Proof.
  unfold taskTick.
  destruct (currentStepName t); [|now intros [= <- <-]].
  destruct (JsMap.get _ _); [|now intros [= <- <-]].
  destruct (s0 _ _) as [[st fs out|next st fs]|e];
    intros [= <- <-]; simpl; auto.
Qed.

Lemma activeKey_same (t t' : CheckTask) :
  task_metadata t' = task_metadata t ->
  task_context t' = task_context t ->
  activeKey t' = activeKey t.
Proof.
  unfold activeKey, getTarget. now intros -> ->.
Qed.

Section Interpreter.

Variable cfg : ScanConfig.
Variable world : World.

Lemma sameData_resume (s : State) : sameData s (resume world s).
Proof.
  destruct (resume_frame world s) as (? & ? & ? & ? & ? & ? & ? & ?).
  now constructor.
Qed.

(** The cases of a tick. *)
Lemma tick_cases (task : CheckTask) (s : State) :
  match tick cfg world task s with
  | Ret (r, task') s' =>
      interruptReason s = None
      /\ timerQuiet cfg world (clock s)
      /\ exists o,
          taskTick (dependenciesGet s) task = (o, task')
          /\ match o with
             | TickThrew e => r = failedResult e /\ s' = resume world s
             | TickReturned res =>
                 (r, s') = tickReturned task res task' (resume world s)
             end
  | Raise e s' =>
      s' = s
      /\ exists reason,
          interruptReason s = Some reason
          /\ e = ScanRunnableInterruptedError reason
  | TimerFired s' =>
      interruptReason s = None
      /\ sameData s s'
      /\ activeCheckRecords s' = activeCheckRecords s
  | OutOfFuel => False
  end.
Proof.
  unfold tick.
  destruct (interruptReason s) as [reason|] eqn:Hint.
  - split; [reflexivity|]. exists reason. auto.
  - destruct (taskTick (dependenciesGet s) task) as [o task'] eqn:Htick.
    unfold suspend.
    destruct ((0 <? scanTimeout cfg)%Z
              && (scanTimeout cfg * 1000 <=? elapsedMs world (clock s))%Z)
      eqn:Htimer; simpl.
    + split; [reflexivity|].
      destruct (resume_frame world s) as (? & ? & ? & ? & ? & ? & ? & ?).
      destruct (interruptReason (resume world s)); simpl;
        split; try constructor; simpl; auto.
    + destruct o as [res|e].
      * destruct (tickReturned task res task' (resume world s))
          as [r s2] eqn:Hret.
        repeat split; auto. exists (TickReturned res). auto.
      * repeat split; auto. exists (TickThrew e). auto.
Qed.

End Interpreter.

Section Failures.

Variable cfg : ScanConfig.
Variable world : World.

Lemma failedResult_reported (e : StepThrown) :
  exists code message,
    reportedAs e code message
    /\ failedResult e = resultFailed (Some []) code message.
Proof.
  destruct e as [m c|m|v]; simpl; eauto.
Qed.




End Failures.

Lemma stepsFindings_snoc (steps : list StepExecutionRecord)
  (r : StepExecutionRecord) :
  stepsFindings (steps ++ [r])
  = stepsFindings steps + List.length (stepFindings r).
Proof.
  unfold stepsFindings. rewrite map_app, list_sum_app. simpl. lia.
Qed.

Lemma holds_bind {A B} (P : State -> Prop) (m : Res A)
  (k : A -> State -> Res B) :
  holds P m -> (forall a s, P s -> holds P (k a s)) -> holds P (bind m k).
Proof.
  destruct m; simpl; auto.
Qed.

Lemma holds_weaken {A} (P Q : State -> Prop) (r : Res A) :
  (forall s, P s -> Q s) -> holds P r -> holds Q r.
Proof.
  destruct r; simpl; auto.
Qed.

Section Loop.

Variable cfg : ScanConfig.
Variable world : World.

(** What a returned step does to the state. *)
Lemma tickReturned_spec (task task' : CheckTask) (res : StepResult)
  (s0 s' : State) (r : TaskExecutionResult) :
  (r, s') = tickReturned task res task' s0 ->
  sameData s0 s'
  /\ resultFindings r = sr_findings res
  /\ (exists out, r = resultOk (sr_status res) (sr_findings res) out
                  /\ (sr_status res = StatusDone -> out = taskOutput task'))
  /\ match JsMap.get (activeKey task') (activeCheckRecords s0) with
     | Some ar =>
         activeCheckRecords s'
         = JsMap.set (activeKey task')
             {| ar_checkId := ar_checkId ar;
                ar_targetRequestId := ar_targetRequestId ar;
                ar_steps := ar_steps ar ++ [stepRecordOf task res task'] |}
             (activeCheckRecords s0)
     | None => activeCheckRecords s' = activeCheckRecords s0
     end.
Proof.
  unfold tickReturned. intros [= -> ->]. split; [|split; [|split]].
  - eapply sameData_trans; [apply sameData_emitFindings|].
    apply sameData_record.
  - reflexivity.
  - eexists. split; [reflexivity|]. now intros ->.
  - unfold recordStepExecution, activeKey.
    rewrite emitFindings_active.
    destruct (JsMap.get _ (activeCheckRecords s0)) as [ar|].
    + reflexivity.
    + apply emitFindings_active.
Qed.

(** The loop of [tickUntilDone]: it writes neither the findings, the
    dependencies, the dedupe index nor the history; it ends with status done
    or failed; and the steps it has recorded in the active record of the
    task hold as many findings as the result it returns. *)
Lemma tickLoop_spec (fuel : nat) :
  forall (task : CheckTask) (acc : list Finding) (s : State)
         (ar : ActiveRecord),
    JsMap.get (activeKey task) (activeCheckRecords s) = Some ar ->
    stepsFindings (ar_steps ar) = List.length acc ->
    match tickLoop cfg world fuel task acc s with
    | Ret (res, task') s' =>
        sameData s s'
        /\ task_metadata task' = task_metadata task
        /\ task_context task' = task_context task
        /\ exists ar' fs,
            JsMap.get (activeKey task) (activeCheckRecords s') = Some ar'
            /\ ar_checkId ar' = ar_checkId ar
            /\ ar_targetRequestId ar' = ar_targetRequestId ar
            /\ stepsFindings (ar_steps ar') = List.length fs
            /\ ((exists out, res = resultOk StatusDone (Some fs) out)
                \/ (exists c m, res = resultFailed (Some fs) c m))
    | Raise _ s' | TimerFired s' => sameData s s'
    | OutOfFuel => True
    end.
Proof.
  induction fuel as [|fuel IH]; intros task acc s ar Hget Hlen; simpl;
    [exact I|].
  pose proof (tick_cases cfg world task s) as Hc.
  destruct (tick cfg world task s) as [[r task1] s1|e s1|s1|]; simpl.
  - destruct Hc as (Hint & Hquiet & o & Htick & Ho).
    destruct (taskTick_same _ _ _ _ Htick) as (Hm & Hx & Hs).
    pose proof (activeKey_same _ _ Hm Hx) as Hk.
    destruct o as [res|e].
    + destruct (tickReturned_spec _ _ _ _ _ _ Ho)
        as (Hsame & Hfs & (out & -> & Hout) & Hact).
      pose proof (sameData_trans _ _ _ (sameData_resume world s) Hsame)
        as Hsame'.
      rewrite Hk in Hact.
      destruct (resume_frame world s) as (_ & _ & _ & _ & _ & _ & Ha & _).
      rewrite Ha, Hget in Hact.
      set (ar1 := {| ar_checkId := ar_checkId ar;
                     ar_targetRequestId := ar_targetRequestId ar;
                     ar_steps :=
                       ar_steps ar ++ [stepRecordOf task res task1] |})
        in Hact.
      assert (Hget1 : JsMap.get (activeKey task1) (activeCheckRecords s1)
                      = Some ar1).
      { rewrite Hk, Hact. apply get_set_same. }
      assert (Hlen1 : stepsFindings (ar_steps ar1)
                      = List.length (acc ++ orEmpty (sr_findings res))).
      { subst ar1. simpl. rewrite stepsFindings_snoc, length_app, Hlen.
        reflexivity. }
      simpl resultFindings.
      destruct (sr_status res).
      * split; [exact Hsame'|]. split; [exact Hm|]. split; [exact Hx|].
        exists ar1, (acc ++ orEmpty (sr_findings res)).
        rewrite <- Hk. split; [exact Hget1|].
        repeat split; auto. left. eauto.
      * specialize (IH task1 (acc ++ orEmpty (sr_findings res)) s1 ar1
                      Hget1 Hlen1).
        destruct (tickLoop cfg world fuel task1 _ s1)
          as [[r2 task2] s2|e2 s2|s2|]; simpl in *; auto.
        -- destruct IH as (Hs2 & Hm2 & Hx2 & ar' & fs & Hg & Hc1 & Hc2
                           & Hl & Hres).
           split; [eapply sameData_trans; eauto|].
           split; [congruence|]. split; [congruence|].
           exists ar', fs. rewrite <- Hk. repeat split; auto.
        -- eapply sameData_trans; eauto.
        -- eapply sameData_trans; eauto.
    + destruct Ho as [-> ->].
      destruct (failedResult_reported e) as (c & m & _ & ->).
      simpl. split; [apply sameData_resume|].
      split; [exact Hm|]. split; [exact Hx|].
      exists ar, acc.
      destruct (resume_frame world s) as (_ & _ & _ & _ & _ & _ & Ha & _).
      rewrite Ha, app_nil_r. repeat split; auto. right. eauto.
  - destruct Hc as [-> _]. apply sameData_refl.
  - destruct Hc as (_ & Hsame & _). exact Hsame.
  - exact I.
Qed.

End Loop.

(** ** The batch executor *)

Section Batch.

Variable cfg : ScanConfig.
Variable world : World.

Lemma skipsTask_started (task : CheckTask) (context : RuntimeContext)
  (s : State) :
  skipsTask task (onTaskStarted task context s) = skipsTask task s.
Proof. reflexivity. Qed.

Lemma sameData_started (task : CheckTask) (context : RuntimeContext)
  (s : State) :
  sameData s (onTaskStarted task context s).
Proof. now constructor. Qed.

Lemma sameData_finished (task : CheckTask) (context : RuntimeContext)
  (s : State) :
  sameData s (onTaskFinished task context s).
Proof. now constructor. Qed.

(** The cases of the run of one task of a batch. *)
Lemma runTask_cases (fuel : nat) (task : CheckTask)
  (context : RuntimeContext) (s : State) :
  task_context task = context ->
  match runTask cfg world fuel task context s with
  | Ret None s' =>
      skipsTask task s = true
      /\ s' = onTaskFinished task context (onTaskStarted task context s)
  | Ret (Some res) s' =>
      skipsTask task s = false
      /\ exists task' s1 ar fs,
          tickUntilDone cfg world fuel task (onTaskStarted task context s)
          = Ret (res, task') s1
          /\ s' = onTaskFinished task context
                    (storeResult task' context res s1)
          /\ sameData s s1
          /\ task_metadata task' = task_metadata task
          /\ JsMap.get
               (recordKey (id (task_metadata task))
                  (getId (request (target context))))
               (activeCheckRecords s1) = Some ar
          /\ ar_checkId ar = id (task_metadata task)
          /\ ar_targetRequestId ar = getId (request (target context))
          /\ stepsFindings (ar_steps ar) = List.length fs
          /\ ((exists out, res = resultOk StatusDone (Some fs) out)
              \/ (exists c m, res = resultFailed (Some fs) c m))
  | Raise _ s' | TimerFired s' => sameData s s'
  | OutOfFuel => True
  end.
Proof.
  intros Hctx. unfold runTask, processTask.
  rewrite skipsTask_started.
  destruct (skipsTask task s) eqn:Hskip; [now split|].
  unfold tickUntilDone.
  set (s0 := onTaskStarted task context s).
  set (ar0 := {| ar_checkId := id (task_metadata task);
                 ar_targetRequestId := getId (request (target context));
                 ar_steps := [] |}).
  assert (Hk : activeKey task
               = recordKey (id (task_metadata task))
                   (getId (request (target context)))).
  { unfold activeKey, getTarget. now rewrite Hctx. }
  assert (Hget : JsMap.get (activeKey task) (activeCheckRecords s0)
                 = Some ar0).
  { rewrite Hk. subst s0. unfold onTaskStarted. simpl.
    apply get_set_same. }
  pose proof (tickLoop_spec cfg world fuel task [] s0 ar0 Hget eq_refl)
    as Hloop.
  pose proof (sameData_started task context s) as Hst. fold s0 in Hst.
  destruct (tickLoop cfg world fuel task [] s0)
    as [[res task'] s1|e s1|s1|]; simpl.
  - destruct Hloop as (Hsame & Hm & Hx & ar' & fs & Hg & Hc & Ht & Hl & Hr).
    split; [reflexivity|].
    exists task', s1, ar', fs. rewrite <- Hk.
    split; [reflexivity|]. split; [reflexivity|].
    split; [eapply sameData_trans; eauto|].
    repeat split; auto.
  - eapply sameData_trans; [eauto|].
    eapply sameData_trans; [eauto|]. apply sameData_finished.
  - eapply sameData_trans; eauto.
  - exact I.
Qed.

End Batch.

(** ** The dedupe index *)

Lemma length_replaceNth {A} (n : nat) (x : A) (l : list A) :
  List.length (replaceNth n x l) = List.length l.
Proof.
  revert n. induction l as [|y r IH]; intros [|n]; simpl; auto.
Qed.

Lemma nth_replaceNth_same {A} (n : nat) (x d : A) (l : list A) :
  n < List.length l -> nth n (replaceNth n x l) d = x.
Proof.
  revert n. induction l as [|y r IH]; intros [|n]; simpl; intros H;
    try lia; auto.
  apply IH. lia.
Qed.

Lemma nth_replaceNth_other {A} (n m : nat) (x d : A) (l : list A) :
  n <> m -> nth m (replaceNth n x l) d = nth m l d.
Proof.
  revert n m.
  induction l as [|y r IH]; intros [|n] [|m] H; simpl; auto;
    try congruence.
Qed.

Lemma get_In {V} (k : string) (v : V) (m : JsMap.t V) :
  JsMap.get k m = Some v -> In (k, v) m.
Proof.
  induction m as [|[k' v'] r IH]; simpl; [discriminate|].
  destruct (String.eqb k k') eqn:E.
  - apply String.eqb_eq in E. subst. intros [= ->]. now left.
  - intros H. right. auto.
Qed.

Lemma Forall_set {V} (P : string * V -> Prop) (k : string) (v : V)
  (m : JsMap.t V) :
  (forall k', P (k', v)) -> Forall P m -> Forall P (JsMap.set k v m).
Proof.
  intros Hv. induction 1 as [|[k' v'] r Hx Hr IH]; simpl.
  - constructor; auto.
  - destruct (String.eqb k k'); constructor; auto.
Qed.

Lemma existsb_snoc (key : string) (l : list string) :
  existsb (String.eqb key) (l ++ [key]) = true.
Proof.
  rewrite existsb_app. simpl. rewrite String.eqb_refl.
  now rewrite orb_true_r.
Qed.

Lemma isCheckApplicable_filters (check : CheckDefinition)
  (context : RuntimeContext) (keys : nat) (h : Store) :
  passesFilters check context = false ->
  isCheckApplicable check context keys h = (false, h).
Proof.
  unfold passesFilters, isCheckApplicable.
  destruct (existsb _ (md_severities (metadata check))); simpl; auto.
  destruct (match minAggressivity (metadata check) with
            | Some m => _ | None => false end); simpl; auto.
  destruct (match when check with Some w => _ | None => false end);
    simpl; auto.
  discriminate.
Qed.

Lemma isCheckApplicable_passes (check : CheckDefinition)
  (context : RuntimeContext) (keys : nat) (h : Store) :
  passesFilters check context = true ->
  isCheckApplicable check context keys h
  = match dedupeKey check with
    | None => (true, h)
    | Some keyOf =>
        let checkId := id (metadata check) in
        let key := keyOf (target context) in
        let '(checkCache, h1) :=
          match JsMap.get checkId (mapAt h keys) with
          | Some r => (r, h)
          | None =>
              let '(r, h') := newSet [] h in
              (r, mapSet keys checkId r h')
          end in
        if setHas h1 checkCache key then (false, h1)
        else (true, setAdd checkCache key h1)
    end.
Proof.
  unfold passesFilters, isCheckApplicable.
  destruct (existsb _ (md_severities (metadata check))); simpl;
    [|discriminate].
  destruct (match minAggressivity (metadata check) with
            | Some m => _ | None => false end); simpl; [discriminate|].
  destruct (match when check with Some w => _ | None => false end);
    simpl; [discriminate|].
  reflexivity.
Qed.

(** One applicability test on a well-formed index: the index stays
    well-formed, no claim is lost, and a check with a dedupe key that passes
    the filters is applicable exactly when its key was not claimed, and it
    claims it. *)
Lemma isCheckApplicable_spec (check : CheckDefinition)
  (context : RuntimeContext) (keys : nat) (h h' : Store) (b : bool) :
  wfIndex h keys ->
  isCheckApplicable check context keys h = (b, h') ->
  wfIndex h' keys
  /\ (forall c k, claimed h keys c k = true -> claimed h' keys c k = true)
  /\ (passesFilters check context = false -> b = false /\ h' = h)
  /\ (passesFilters check context = true ->
      match keyFor check context with
      | None => b = true /\ h' = h
      | Some key =>
          b = negb (claimed h keys (id (metadata check)) key)
          /\ claimed h' keys (id (metadata check)) key = true
      end).
Proof.
  intros [Ha Hwf] Happ.
  destruct (passesFilters check context) eqn:Hp.
  2:{ rewrite isCheckApplicable_filters in Happ by exact Hp.
      injection Happ as <- <-.
      repeat split; auto; discriminate. }
  rewrite isCheckApplicable_passes in Happ by exact Hp.
  unfold keyFor.
  destruct (dedupeKey check) as [keyOf|].
  2:{ injection Happ as <- <-. repeat split; auto; discriminate. }
  cbv zeta in Happ.
  set (cid := id (metadata check)) in *.
  set (key := keyOf (target context)) in *.
  unfold claimed at 3.
  destruct (JsMap.get cid (mapAt h keys)) as [r|] eqn:Hget.
  - (* the check already has a set *)
    assert (Hr : r < List.length (sets h)).
    { apply get_In in Hget.
      rewrite Forall_forall in Hwf. apply (Hwf _ Hget). }
    destruct (setHas h r key) eqn:Hhas.
    + injection Happ as <- <-.
      repeat split; auto; try discriminate.
      unfold claimed. now rewrite Hget.
    + injection Happ as <- <-.
      unfold setAdd. rewrite Hhas.
      assert (Hset : forall r2,
                 setAt {| maps := maps h;
                          sets := replaceNth r (setAt h r ++ [key]) (sets h) |}
                       r2
                 = if Nat.eqb r2 r then setAt h r ++ [key] else setAt h r2).
      { intros r2. unfold setAt at 1. simpl.
        destruct (Nat.eqb r2 r) eqn:E.
        - apply Nat.eqb_eq in E. subst r2.
          now apply nth_replaceNth_same.
        - apply Nat.eqb_neq in E. apply nth_replaceNth_other. congruence. }
      split; [|split; [|split]].
      * split; simpl; [exact Ha|].
        rewrite length_replaceNth. exact Hwf.
      * intros c k. unfold claimed, mapAt. simpl. fold (mapAt h keys).
        destruct (JsMap.get c (mapAt h keys)) as [r2|]; auto.
        unfold setHas. rewrite Hset.
        destruct (Nat.eqb r2 r) eqn:E; auto.
        apply Nat.eqb_eq in E. subst r2.
        rewrite existsb_app. intros ->. reflexivity.
      * discriminate.
      * intros _. split; [reflexivity|].
        unfold claimed, mapAt. simpl. fold (mapAt h keys). rewrite Hget.
        unfold setHas. rewrite Hset, Nat.eqb_refl.
        apply existsb_snoc.
  - (* a new set is made for the check *)
    unfold newSet in Happ.
    set (r := List.length (sets h)) in *.
    set (h1 := mapSet keys cid r
                 {| maps := maps h; sets := sets h ++ [[]] |}) in *.
    assert (Hm1 : mapAt h1 keys = JsMap.set cid r (mapAt h keys)).
    { unfold h1, mapSet, mapAt. simpl. now apply nth_replaceNth_same. }
    assert (Hs1 : forall r2, r2 < r -> setAt h1 r2 = setAt h r2).
    { intros r2 Hlt. unfold h1, mapSet, setAt. simpl.
      now rewrite app_nth1. }
    assert (Hsr : setAt h1 r = []).
    { unfold h1, mapSet, setAt. simpl. subst r.
      rewrite app_nth2 by lia. now rewrite Nat.sub_diag. }
    assert (Hhas : setHas h1 r key = false).
    { unfold setHas. now rewrite Hsr. }
    rewrite Hhas in Happ. injection Happ as <- <-.
    unfold setAdd. rewrite Hhas.
    assert (Hset : forall r2,
               setAt {| maps := maps h1;
                        sets := replaceNth r (setAt h1 r ++ [key])
                                  (sets h1) |} r2
               = if Nat.eqb r2 r then [key] else setAt h1 r2).
    { intros r2. unfold setAt at 1. simpl.
      destruct (Nat.eqb r2 r) eqn:E.
      - apply Nat.eqb_eq in E. subst r2. rewrite Hsr. simpl.
        apply nth_replaceNth_same. unfold h1, mapSet. simpl.
        rewrite length_app. simpl. lia.
      - apply Nat.eqb_neq in E. apply nth_replaceNth_other. congruence. }
    assert (Hlen : List.length (sets h1) = S r).
    { unfold h1, mapSet. simpl. rewrite length_app. simpl. lia. }
    split; [|split; [|split]].
    + unfold wfIndex. split; cbn [maps sets].
      * unfold h1, mapSet. simpl. now rewrite length_replaceNth.
      * rewrite length_replaceNth, Hlen.
        change (mapAt {| maps := maps h1; sets := _ |} keys)
          with (mapAt h1 keys).
        rewrite Hm1.
        apply Forall_set; [simpl; lia|].
        eapply Forall_impl; [|exact Hwf]. simpl. intros. lia.
    + intros c k. unfold claimed.
      change (mapAt {| maps := maps h1; sets := _ |} keys)
        with (mapAt h1 keys).
      rewrite Hm1.
      destruct (String.eqb cid c) eqn:E.
      * apply String.eqb_eq in E. subst c. now rewrite Hget.
      * apply String.eqb_neq in E. rewrite get_set_other by exact E.
        destruct (JsMap.get c (mapAt h keys)) as [r2|] eqn:Hg2; auto.
        assert (Hr2 : r2 < r).
        { apply get_In in Hg2. rewrite Forall_forall in Hwf.
          apply (Hwf _ Hg2). }
        unfold setHas. rewrite Hset.
        destruct (Nat.eqb r2 r) eqn:E2.
        -- apply Nat.eqb_eq in E2. lia.
        -- now rewrite Hs1.
    + discriminate.
    + intros _. split; [reflexivity|].
      unfold claimed.
      change (mapAt {| maps := maps h1; sets := _ |} keys)
        with (mapAt h1 keys).
      rewrite Hm1, get_set_same. unfold setHas.
      rewrite Hset, Nat.eqb_refl. simpl. now rewrite String.eqb_refl.
Qed.

Lemma applicabilityTests_app (l1 l2 : list (CheckDefinition * RuntimeContext))
  (keys : nat) (h : Store) :
  applicabilityTests (l1 ++ l2) keys h
  = (fst (applicabilityTests l1 keys h)
     ++ fst (applicabilityTests l2 keys
               (snd (applicabilityTests l1 keys h))),
     snd (applicabilityTests l2 keys (snd (applicabilityTests l1 keys h)))).
Proof.
  revert h. induction l1 as [|[c x] l1 IH]; intros h; simpl.
  - now destruct (applicabilityTests l2 keys h).
  - destruct (isCheckApplicable c x keys h) as [b h1].
    rewrite IH.
    destruct (applicabilityTests l1 keys h1) as [bs h2]. simpl.
    reflexivity.
Qed.

Lemma applicabilityTests_length (l : list (CheckDefinition * RuntimeContext))
  (keys : nat) (h : Store) :
  List.length (fst (applicabilityTests l keys h)) = List.length l.
Proof.
  revert h. induction l as [|[c x] l IH]; intros h; simpl; auto.
  destruct (isCheckApplicable c x keys h) as [b h1].
  specialize (IH h1).
  destruct (applicabilityTests l keys h1) as [bs h2]. simpl in *. lia.
Qed.

(** A sequence of tests keeps the index well-formed and loses no claim. *)
Lemma applicabilityTests_keeps (l : list (CheckDefinition * RuntimeContext))
  (keys : nat) (h : Store) :
  wfIndex h keys ->
  wfIndex (snd (applicabilityTests l keys h)) keys
  /\ forall c k,
      claimed h keys c k = true ->
      claimed (snd (applicabilityTests l keys h)) keys c k = true.
Proof.
  revert h. induction l as [|[c x] l IH]; intros h Hwf; simpl; auto.
  destruct (isCheckApplicable c x keys h) as [b h1] eqn:Happ.
  destruct (isCheckApplicable_spec _ _ _ _ _ _ Hwf Happ)
    as (Hwf1 & Hkeep & _ & _).
  destruct (IH h1 Hwf1) as [Hwf2 Hkeep2].
  destruct (applicabilityTests l keys h1) as [bs h2]. simpl in *.
  split; auto.
Qed.

(** Once a key is claimed for a check, every test of that check that
    produces the key reports it not applicable. *)
Lemma claimed_blocks (l : list (CheckDefinition * RuntimeContext))
  (keys : nat) (h : Store) (c : string) (key : string) :
  wfIndex h keys ->
  claimed h keys c key = true ->
  forall j cj xj,
    nth_error l j = Some (cj, xj) ->
    id (metadata cj) = c ->
    keyFor cj xj = Some key ->
    nth j (fst (applicabilityTests l keys h)) true = false.
Proof.
  revert h. induction l as [|[c0 x0] l IH]; intros h Hwf Hcl j cj xj Hj Hid Hk.
  - destruct j; discriminate.
  - simpl.
    destruct (isCheckApplicable c0 x0 keys h) as [b h1] eqn:Happ.
    destruct (isCheckApplicable_spec _ _ _ _ _ _ Hwf Happ)
      as (Hwf1 & Hkeep & Hno & Hyes).
    specialize (IH h1 Hwf1 (Hkeep _ _ Hcl)).
    destruct (applicabilityTests l keys h1) as [bs h2] eqn:Hrest.
    destruct j as [|j]; simpl in *.
    + injection Hj as -> ->.
      destruct (passesFilters cj xj).
      * specialize (Hyes eq_refl). rewrite Hk in Hyes.
        destruct Hyes as [-> _]. subst c. now rewrite Hcl.
      * now destruct (Hno eq_refl).
    + eapply IH; eauto.
Qed.

(** C4. A check with a dedupe key is selected at most once for a pair of
    its id and a key.  In any sequence of applicability tests on the index
    of a scan, the first test that produces the pair finds the key absent:
    it reports the check applicable and puts the key into the index, where
    it stays; every later test of the check that produces the same key
    reports the check not applicable. *)
Theorem dedupe_at_most_once (keys : nat)
  (tests : list (CheckDefinition * RuntimeContext)) (h : Store) (i : nat)
  (ci : CheckDefinition) (xi : RuntimeContext) (key : string) :
  wfIndex h keys ->
  nth_error tests i = Some (ci, xi) ->
  passesFilters ci xi = true ->
  keyFor ci xi = Some key ->
  claimed (snd (applicabilityTests (firstn i tests) keys h)) keys
    (id (metadata ci)) key = false ->
  let outcome := applicabilityTests tests keys h in
  nth i (fst outcome) false = true
  /\ claimed (snd (applicabilityTests (firstn (S i) tests) keys h)) keys
       (id (metadata ci)) key = true
  /\ claimed (snd outcome) keys (id (metadata ci)) key = true
  /\ forall j cj xj,
      i < j ->
      nth_error tests j = Some (cj, xj) ->
      id (metadata cj) = id (metadata ci) ->
      keyFor cj xj = Some key ->
      nth j (fst outcome) true = false.
Proof.
  intros Hwf Hi Hp Hk Hfirst outcome.
  destruct (nth_error_split _ _ Hi) as (l1 & l2 & Htests & Hlen).
  assert (Hf : firstn i tests = l1).
  { subst tests i. rewrite firstn_app, Nat.sub_diag, firstn_all. simpl.
    apply app_nil_r. }
  assert (Hf' : firstn (S i) tests = l1 ++ [(ci, xi)]).
  { subst tests i.
    change ((ci, xi) :: l2) with ([(ci, xi)] ++ l2).
    rewrite app_assoc, firstn_app.
    assert (HL : List.length (l1 ++ [(ci, xi)]) = S (List.length l1)).
    { rewrite length_app. simpl. lia. }
    rewrite HL, Nat.sub_diag, firstn_all2 by lia.
    simpl. apply app_nil_r. }
  rewrite Hf in Hfirst. rewrite Hf'.
  destruct (applicabilityTests_keeps l1 keys h Hwf) as [Hwf1 _].
  set (h1 := snd (applicabilityTests l1 keys h)) in *.
  destruct (isCheckApplicable ci xi keys h1) as [b h2] eqn:Happ.
  destruct (isCheckApplicable_spec _ _ _ _ _ _ Hwf1 Happ)
    as (Hwf2 & _ & _ & Hyes).
  specialize (Hyes Hp). rewrite Hk in Hyes. destruct Hyes as [Hb Hcl].
  rewrite Hfirst in Hb. simpl in Hb. subst b.
  assert (Hone : applicabilityTests [(ci, xi)] keys h1 = ([true], h2)).
  { simpl. now rewrite Happ. }
  assert (Hout : outcome
                 = (fst (applicabilityTests l1 keys h)
                    ++ true :: fst (applicabilityTests l2 keys h2),
                    snd (applicabilityTests l2 keys h2))).
  { unfold outcome. rewrite Htests, applicabilityTests_app. fold h1.
    simpl. rewrite Happ.
    now destruct (applicabilityTests l2 keys h2). }
  pose proof (applicabilityTests_length l1 keys h) as Hl1.
  split; [|split; [|split]].
  - rewrite Hout. simpl. rewrite app_nth2 by lia.
    replace (i - _) with 0 by lia. reflexivity.
  - rewrite applicabilityTests_app. fold h1. rewrite Hone. exact Hcl.
  - rewrite Hout. simpl.
    now apply (applicabilityTests_keeps l2 keys h2 Hwf2).
  - intros j cj xj Hij Hj Hid Hkj.
    rewrite Hout. simpl. rewrite app_nth2 by lia.
    rewrite Hl1.
    destruct (j - List.length l1) as [|j'] eqn:Hd; [lia|].
    simpl.
    apply (claimed_blocks l2 keys h2 (id (metadata ci)) key Hwf2 Hcl
             j' cj xj); auto.
    rewrite Htests in Hj.
    rewrite nth_error_app2 in Hj by lia. rewrite Hd in Hj. exact Hj.
Qed.

(** ** Skipping, dependencies *)

Section Skipping.

Variable cfg : ScanConfig.
Variable world : World.

Lemma skipsTask_iff (task : CheckTask) (s : State) :
  truthy (skipIfFoundBy (task_metadata task)) = true ->
  (skipsTask task s = true
   <-> orEmpty (JsMap.get (id (task_metadata task)) (findings s)) <> []).
Proof.
  intros Ht. unfold skipsTask. rewrite Ht. simpl.
  destruct (orEmpty _) as [|f fs]; simpl; split; intros H;
    try discriminate; try congruence; auto.
Qed.

(** C2, as the code has it.  For a check whose metadata sets
    [skipIfFoundBy], and for every target, the batch executor skips the
    execution of the check if and only if the findings stored under the id
    of the check itself are not empty when it is dispatched. *)
Theorem skipIfFoundBy_own_findings (fuel : nat) (task : CheckTask)
  (context : RuntimeContext) (s : State) :
  truthy (skipIfFoundBy (task_metadata task)) = true ->
  (skipsExecution cfg world fuel task context s
   <-> orEmpty (JsMap.get (id (task_metadata task)) (findings s)) <> []).
Proof.
  intros Ht. rewrite <- (skipsTask_iff task s Ht).
  unfold skipsExecution, processTask.
  destruct (skipsTask task s); split; auto; try discriminate.
  destruct (tickUntilDone cfg world fuel task s) as [[r t] s1|e s1|s1|];
    simpl; discriminate.
Qed.

(** C10. A check with [skipIfFoundBy] set that is dispatched while findings
    exist under the inspected id: [scan:check-started] and
    [scan:check-finished] are emitted for it, no record is appended to the
    history, the findings and the dependencies are left as they are, and so
    is the dedupe index, so the key that the check has claimed when it was
    found applicable stays claimed. *)
Theorem skipped_check_frame (fuel : nat) (check : CheckDefinition)
  (context : RuntimeContext) (s : State) :
  truthy (skipIfFoundBy (metadata check)) = true ->
  orEmpty (JsMap.get (id (metadata check)) (findings s)) <> [] ->
  let started :=
    scan_check_started (id (metadata check))
      (getId (request (target context))) in
  let finished :=
    scan_check_finished (id (metadata check))
      (getId (request (target context))) in
  (exists s',
      runTask cfg world fuel (create check context) context s = Ret None s'
      /\ events s' = events s ++ [started; finished]
      /\ executionHistory s' = executionHistory s
      /\ findings s' = findings s
      /\ dependencies s' = dependencies s
      /\ store s' = store s
      /\ dedupeKeys s' = dedupeKeys s)
  /\ (forall h1,
        wfIndex (store s) (dedupeKeys s) ->
        isCheckApplicable check context (dedupeKeys s) (store s)
        = (true, h1) ->
        exists s',
          processBatch cfg world fuel [check] context s = Ret tt s'
          /\ events s' = events s ++ [started; finished]
          /\ executionHistory s' = executionHistory s
          /\ findings s' = findings s
          /\ dependencies s' = dependencies s
          /\ (forall key,
                keyFor check context = Some key ->
                claimed (store s') (dedupeKeys s') (id (metadata check)) key
                = true)).
Proof.
  intros Ht Hne started finished.
  assert (Hskip : forall st, findings st = findings s ->
                  skipsTask (create check context) st = true).
  { intros st Hf. apply skipsTask_iff; simpl; [exact Ht|].
    now rewrite Hf. }
  assert (Hrun : forall st, findings st = findings s ->
            runTask cfg world fuel (create check context) context st
            = Ret None (onTaskFinished (create check context) context
                          (onTaskStarted (create check context) context st))).
  { intros st Hf. unfold runTask, processTask.
    rewrite skipsTask_started, (Hskip st Hf). reflexivity. }
  split.
  - eexists. split; [apply Hrun; reflexivity|].
    simpl. rewrite <- app_assoc. repeat split; reflexivity.
  - intros h1 Hwf Happ.
    unfold processBatch. simpl filterApplicable. rewrite Happ.
    simpl map. simpl poolTasks.
    rewrite (Hrun (setStore h1 s)) by reflexivity.
    eexists. split; [reflexivity|].
    simpl. rewrite <- app_assoc.
    repeat split; try reflexivity.
    intros key Hkey.
    destruct (isCheckApplicable_spec _ _ _ _ _ _ Hwf Happ)
      as (_ & _ & Hno & Hyes).
    destruct (passesFilters check context).
    + specialize (Hyes eq_refl). rewrite Hkey in Hyes. apply Hyes.
    + now destruct (Hno eq_refl).
Qed.

(** C9. The outputs of the dependencies are kept in one map keyed by the
    check id alone.  An execution of a check that ends with status done, for
    whatever target, overwrites the entry of the check with its output, and
    [dependencies.get] then returns that output to every caller; executions
    that do not end with status done leave the entry as it is.  So with two
    targets the output read need not be the one produced for the target of
    the caller: after the sample check has run on the first and then on the
    second target, the entry holds the output for the second. *)
Theorem dependencies_keyed_by_check_id (fuel : nat) (task : CheckTask)
  (context : RuntimeContext) (s s' : State)
  (r : option TaskExecutionResult) :
  task_context task = context ->
  runTask cfg world fuel task context s = Ret r s' ->
  match r with
  | Some (resultOk StatusDone _ out) =>
      dependencies s'
      = JsMap.set (id (task_metadata task)) out (dependencies s)
      /\ dependenciesGet s' (id (task_metadata task)) = out
  | _ => dependencies s' = dependencies s
  end
  /\ (let check := Sample.reports "c" None None None in
      let context1 := createRuntimeContext Sample.config Sample.target1 in
      let context2 := createRuntimeContext Sample.config Sample.target2 in
      exists s1 s2 r1 r2,
        runTask Sample.config Sample.world 1 (create check context1)
          context1 initialState = Ret r1 s1
        /\ dependenciesGet s1 "c" = Some (JString "1")
        /\ runTask Sample.config Sample.world 1 (create check context2)
             context2 s1 = Ret r2 s2
        /\ dependenciesGet s2 "c" = Some (JString "2")).
Proof.
  intros Hctx Hrun. split.
  - pose proof (runTask_cases cfg world fuel task context s Hctx) as Hc.
    rewrite Hrun in Hc.
    destruct r as [res|].
    + destruct Hc as (_ & task' & s1 & ar & fs & _ & -> & Hsame & Hm & Hg
                      & _ & _ & _ & Hres).
      destruct Hsame as [Hf Hd _ _ _ _].
      destruct Hres as [[out ->]|[c [m ->]]].
      * unfold storeResult. simpl resultFindings. cbv iota.
        unfold closeRecord. rewrite Hm. simpl activeCheckRecords.
        rewrite Hg. simpl. rewrite Hd. split; [reflexivity|].
        unfold dependenciesGet. simpl. now rewrite get_set_same.
      * unfold storeResult. simpl resultFindings. cbv iota.
        unfold closeRecord. rewrite Hm. simpl activeCheckRecords.
        rewrite Hg. simpl. exact Hd.
    + destruct Hc as [_ ->]. reflexivity.
  - do 4 eexists.
    split; [vm_compute; reflexivity|].
    split; [vm_compute; reflexivity|].
    split; [vm_compute; reflexivity|].
    vm_compute; reflexivity.
Qed.

End Skipping.

(** C2 as the specification states it fails: the check refers to another
    check under whose id there are findings, there are none under its own
    id, and it is executed. *)
Lemma skipIfFoundBy_referenced_id_fails :
  let check := Sample.reports "c" None (Some "d") None in
  let context := createRuntimeContext Sample.config Sample.target1 in
  let task := create check context in
  let s :=
    setFindings [("d", [Sample.aFinding "d" Sample.target2])] initialState in
  skipIfFoundBy (task_metadata task) = Some "d"
  /\ ~ (skipsExecution Sample.config Sample.world 1 task context s
        <-> orEmpty (JsMap.get "d" (findings s)) <> []).
Proof.
  intros check context task s. split; [reflexivity|].
  intros [_ H].
  assert (Hne : orEmpty (JsMap.get "d" (findings s)) <> [])
    by (vm_compute; discriminate).
  specialize (H Hne). unfold skipsExecution in H.
  vm_compute in H. discriminate.
Qed.

(** ** Findings and history *)




Section History.

Variable sdk : SDK.
Variable cfg : ScanConfig.
Variable batches : list (list CheckDefinition).
Variable world : World.











End History.


(** ** The planner *)

Lemma has_true_iff {V} (k : string) (m : JsMap.t V) :
  JsMap.has k m = true <-> In k (JsMap.keys m).
Proof.
  unfold JsMap.has, JsMap.keys.
  induction m as [|[k' v] r IH]; simpl.
  - split; [discriminate | tauto].
  - destruct (String.eqb k k') eqn:E.
    + apply String.eqb_eq in E. subst. split; auto.
    + apply String.eqb_neq in E. rewrite IH. split; auto.
      intros [H|H]; [congruence | exact H].
Qed.

Lemma keys_set {V} (k : string) (v : V) (m : JsMap.t V) :
  JsMap.keys (JsMap.set k v m)
  = if JsMap.has k m then JsMap.keys m else JsMap.keys m ++ [k].
Proof.
  unfold JsMap.has, JsMap.keys.
  induction m as [|[k' v'] r IH]; simpl; auto.
  destruct (String.eqb k k') eqn:E; simpl; auto.
  rewrite IH. now destruct (JsMap.get k r).
Qed.

Lemma NoDup_keys_set {V} (k : string) (v : V) (m : JsMap.t V) :
  NoDup (JsMap.keys m) -> NoDup (JsMap.keys (JsMap.set k v m)).
Proof.
  intros Hnd. rewrite keys_set.
  destruct (JsMap.has k m) eqn:E; auto.
  apply NoDup_app; auto.
  - constructor; [tauto | constructor].
  - intros a Ha [<-|[]]. apply has_true_iff in Ha. congruence.
Qed.

Lemma get_keys {V} (k : string) (m : JsMap.t V) :
  In k (JsMap.keys m) -> exists v, JsMap.get k m = Some v.
Proof.
  intros H. apply has_true_iff in H. unfold JsMap.has in H.
  destruct (JsMap.get k m); [eauto | discriminate].
Qed.

(** The entries of [new Map(entries)]: the keys are those of the entries,
    and the value of a key is one of those given for it. *)
Lemma ofEntries_spec {V} (entries : list (string * V)) :
  forall acc : JsMap.t V,
    let m := fold_left (fun m kv => JsMap.set (fst kv) (snd kv) m)
               entries acc in
    (forall k, In k (JsMap.keys m)
               <-> In k (JsMap.keys acc) \/ In k (map fst entries))
    /\ (forall k v, JsMap.get k m = Some v ->
                    JsMap.get k acc = Some v \/ In (k, v) entries)
    /\ (NoDup (JsMap.keys acc) -> NoDup (JsMap.keys m)).
Proof.
  induction entries as [|[k0 v0] r IH]; intros acc; simpl.
  - repeat split; auto. tauto.
  - destruct (IH (JsMap.set k0 v0 acc)) as (Hk & Hv & Hn).
    split; [|split].
    + intros k. rewrite Hk, keys_set.
      destruct (JsMap.has k0 acc) eqn:E.
      * apply has_true_iff in E. split; [tauto|].
        intros [H|[<-|H]]; auto.
      * rewrite in_app_iff. simpl. tauto.
    + intros k v H. destruct (Hv k v H) as [H1|H1]; auto.
      destruct (String.eqb k0 k) eqn:E.
      * apply String.eqb_eq in E. subst k0.
        rewrite get_set_same in H1. injection H1 as ->. auto.
      * apply String.eqb_neq in E.
        rewrite get_set_other in H1 by exact E. auto.
    + intros H. apply Hn. now apply NoDup_keys_set.
Qed.

Lemma checkMap_keys (checks : list CheckDefinition) (k : string) :
  JsMap.has k (buildCheckMap checks) = true <-> In k (checkIds checks).
Proof.
  rewrite has_true_iff. unfold buildCheckMap, JsMap.ofEntries.
  destruct (ofEntries_spec
              (map (fun check => (checkIdOf check, check)) checks)
              JsMap.empty) as (Hk & _ & _).
  rewrite Hk. simpl. rewrite map_map. simpl. unfold checkIds. tauto.
Qed.

Lemma checkMap_get (checks : list CheckDefinition) (k : string)
  (c : CheckDefinition) :
  JsMap.get k (buildCheckMap checks) = Some c ->
  In c checks /\ checkIdOf c = k.
Proof.
  unfold buildCheckMap, JsMap.ofEntries. intros H.
  destruct (ofEntries_spec
              (map (fun check => (checkIdOf check, check)) checks)
              JsMap.empty) as (_ & Hv & _).
  destruct (Hv k c H) as [H1|H1]; [discriminate|].
  apply in_map_iff in H1. destruct H1 as (c' & [= <- <-] & Hin). auto.
Qed.

(** The first loop gives every check id an empty list, once. *)
Lemma initDag_spec (checks : list CheckDefinition) :
  (forall k, In k (JsMap.keys (initDag checks)) <-> In k (checkIds checks))
  /\ NoDup (JsMap.keys (initDag checks))
  /\ forall u, dependents (initDag checks) u = [].
Proof.
  unfold initDag.
  assert (H : forall acc : Dag,
             let m := fold_left
                        (fun dag check => JsMap.set (checkIdOf check) [] dag)
                        checks acc in
             (forall k, In k (JsMap.keys m)
                        <-> In k (JsMap.keys acc) \/ In k (checkIds checks))
             /\ (NoDup (JsMap.keys acc) -> NoDup (JsMap.keys m))
             /\ ((forall u, dependents acc u = []) ->
                 forall u, dependents m u = [])).
  { induction checks as [|c r IH]; intros acc; simpl.
    - repeat split; auto. tauto.
    - destruct (IH (JsMap.set (checkIdOf c) [] acc)) as (Hk & Hn & Hd).
      split; [|split].
      + intros k. rewrite Hk, keys_set.
        destruct (JsMap.has (checkIdOf c) acc) eqn:E.
        * apply has_true_iff in E. split; [tauto|].
          intros [H|[<-|H]]; auto.
        * rewrite in_app_iff. simpl. tauto.
      + intros H. apply Hn. now apply NoDup_keys_set.
      + intros H. apply Hd. intros u. unfold dependents.
        destruct (String.eqb (checkIdOf c) u) eqn:E.
        * apply String.eqb_eq in E. subst u. now rewrite get_set_same.
        * apply String.eqb_neq in E. rewrite get_set_other by exact E.
          apply H. }
  destruct (H []) as (Hk & Hn & Hd).
  split; [|split].
  - intros k. rewrite Hk. simpl. tauto.
  - apply Hn. constructor.
  - apply Hd. reflexivity.
Qed.

Lemma dependents_set (dag : Dag) (d u : string) (l : list string) :
  dependents (JsMap.set d l dag) u
  = if String.eqb d u then l else dependents dag u.
Proof.
  unfold dependents. destruct (String.eqb d u) eqn:E.
  - apply String.eqb_eq in E. subst u. now rewrite get_set_same.
  - apply String.eqb_neq in E. now rewrite get_set_other.
Qed.

Lemma dependents_stub (dag : Dag) (d u : string) :
  dependents (if JsMap.has d dag then dag else JsMap.set d [] dag) u
  = dependents dag u.
Proof.
  destruct (JsMap.has d dag) eqn:E; auto.
  rewrite dependents_set. destruct (String.eqb d u) eqn:E'; auto.
  apply String.eqb_eq in E'. subst u.
  unfold JsMap.has in E. unfold dependents.
  now destruct (JsMap.get d dag).
Qed.

(** The inner loop of the planner. *)
Lemma linkDependencies_spec (cm : JsMap.t CheckDefinition) (cid : string)
  (deps : list string) :
  forall dag : Dag,
    let r := linkDependencies cm cid deps dag in
    (forall k, In k (JsMap.keys (snd r)) ->
               In k (JsMap.keys dag) \/ JsMap.has k cm = true)
    /\ (forall k, In k (JsMap.keys dag) -> In k (JsMap.keys (snd r)))
    /\ (NoDup (JsMap.keys dag) -> NoDup (JsMap.keys (snd r)))
    /\ match fst r with
       | Some e =>
           exists d,
             In d deps /\ JsMap.has d cm = false
             /\ e = JsError (unknownDependencyMessage cid d)
       | None =>
           (forall d, In d deps -> JsMap.has d cm = true)
           /\ forall u v,
               In v (dependents (snd r) u)
               <-> In v (dependents dag u) \/ (v = cid /\ In u deps)
       end.
Proof.
  induction deps as [|d rest IH]; intros dag; simpl.
  - repeat split; auto; try tauto; intros [H|[_ []]]; exact H.
  - destruct (JsMap.has d cm) eqn:Hd; simpl.
    + set (dag1 := if JsMap.has d dag then dag else JsMap.set d [] dag).
      set (dag2 := JsMap.set d (dependents dag1 d ++ [cid]) dag1).
      destruct (IH dag2) as (Hk & Hk' & Hn & Hr).
      assert (Hkeys1 : forall k, In k (JsMap.keys dag1)
                                 <-> In k (JsMap.keys dag) \/ k = d).
      { intros k. unfold dag1.
        destruct (JsMap.has d dag) eqn:E.
        - apply has_true_iff in E. split; [tauto|]. intros [H| ->]; auto.
        - rewrite keys_set, E, in_app_iff. simpl. intuition. }
      assert (Hkeys2 : forall k, In k (JsMap.keys dag2)
                                 <-> In k (JsMap.keys dag) \/ k = d).
      { intros k. unfold dag2. rewrite keys_set.
        destruct (JsMap.has d dag1) eqn:E; [apply Hkeys1|].
        rewrite in_app_iff, Hkeys1. simpl. intuition. }
      split; [|split; [|split]].
      * intros k H. destruct (Hk k H) as [H1|H1]; auto.
        apply Hkeys2 in H1. destruct H1 as [H1| ->]; auto.
      * intros k H. apply Hk', Hkeys2. auto.
      * intros H. apply Hn. unfold dag2. apply NoDup_keys_set.
        unfold dag1. destruct (JsMap.has d dag); auto.
        now apply NoDup_keys_set.
      * destruct (fst (linkDependencies cm cid rest dag2)) as [e|].
        -- destruct Hr as (d' & Hin & Hno & ->). exists d'. auto.
        -- destruct Hr as [Hall Hdep]. split.
           ++ intros d' [<-|H]; auto.
           ++ intros u v. rewrite Hdep. unfold dag2.
              rewrite dependents_set. unfold dag1.
              destruct (String.eqb d u) eqn:E.
              ** apply String.eqb_eq in E. subst u.
                 rewrite in_app_iff, dependents_stub. simpl. intuition.
              ** apply String.eqb_neq in E. rewrite dependents_stub.
                 intuition.
    + repeat split; auto. exists d. auto.
Qed.

(** The second loop of the planner. *)
Lemma linkChecks_spec (cm : JsMap.t CheckDefinition)
  (checks : list CheckDefinition) :
  forall dag : Dag,
    let r := linkChecks cm checks dag in
    (forall k, In k (JsMap.keys (snd r)) ->
               In k (JsMap.keys dag) \/ JsMap.has k cm = true)
    /\ (forall k, In k (JsMap.keys dag) -> In k (JsMap.keys (snd r)))
    /\ (NoDup (JsMap.keys dag) -> NoDup (JsMap.keys (snd r)))
    /\ match fst r with
       | Some e =>
           exists c d,
             In c checks /\ In d (dependenciesOf c)
             /\ JsMap.has d cm = false
             /\ e = JsError (unknownDependencyMessage (checkIdOf c) d)
       | None =>
           (forall c d, In c checks -> In d (dependenciesOf c) ->
                        JsMap.has d cm = true)
           /\ forall u v,
               In v (dependents (snd r) u)
               <-> In v (dependents dag u)
                   \/ exists c, In c checks /\ checkIdOf c = v
                                /\ In u (dependenciesOf c)
       end.
Proof.
  induction checks as [|c rest IH]; intros dag; simpl.
  - repeat split; auto; try tauto.
    intros [H|(c & [] & _)]; exact H.
  - pose proof (linkDependencies_spec cm (checkIdOf c) (dependenciesOf c)
                  dag) as H1.
    destruct (linkDependencies cm (checkIdOf c) (dependenciesOf c) dag)
      as [[e|] dag1]; simpl in H1; destruct H1 as (Hk & Hk' & Hn & Hr).
    + simpl. repeat split; auto.
      destruct Hr as (d & Hin & Hno & ->). exists c, d. auto.
    + destruct (IH dag1) as (Hk2 & Hk2' & Hn2 & Hr2).
      split; [|split; [|split]].
      * intros k H. destruct (Hk2 k H); auto.
      * auto.
      * auto.
      * destruct Hr as [Hall Hdep].
        destruct (fst (linkChecks cm rest dag1)) as [e|].
        -- destruct Hr2 as (c' & d & Hin & Hd & Hno & ->).
           exists c', d. auto.
        -- destruct Hr2 as [Hall2 Hdep2]. split.
           ++ intros c' d [<-|H]; eauto.
           ++ intros u v. rewrite Hdep2, Hdep. split.
              ** intros [[H|[Hv H]]|(c' & Hin & Hid & Hd)].
                 --- left. exact H.
                 --- right. exists c. auto.
                 --- right. exists c'. auto.
              ** intros [H|(c' & [Hc|Hin] & Hid & Hd)].
                 --- left. left. exact H.
                 --- subst c'. left. right. auto.
                 --- right. exists c'. auto.
Qed.

(** The graph that the planner builds: it fails exactly when a dependency
    is not registered; otherwise its nodes are the check ids, each once, and
    its edges are the declared dependencies. *)
Lemma buildDag_spec (checks : list CheckDefinition) :
  (forall k, In k (JsMap.keys (snd (buildDag checks)))
             <-> In k (checkIds checks))
  /\ NoDup (JsMap.keys (snd (buildDag checks)))
  /\ match fst (buildDag checks) with
     | Some e =>
         exists c d,
           In c checks /\ In d (dependenciesOf c)
           /\ ~ In d (checkIds checks)
           /\ e = JsError (unknownDependencyMessage (checkIdOf c) d)
     | None =>
         knownDependencies checks
         /\ forall u v,
             dagEdge (snd (buildDag checks)) u v
             <-> dependsDirectly checks u v
     end.
Proof.
  unfold buildDag.
  destruct (initDag_spec checks) as (Hik & Hin & Hid).
  destruct (linkChecks_spec (buildCheckMap checks) checks (initDag checks))
    as (Hk & Hk' & Hn & Hr).
  split; [|split].
  - intros k. split.
    + intros H. destruct (Hk k H) as [H1|H1].
      * now apply Hik.
      * now apply checkMap_keys.
    + intros H. apply Hk', Hik, H.
  - auto.
  - destruct (fst (linkChecks (buildCheckMap checks) checks (initDag checks)))
      as [e|].
    + destruct Hr as (c & d & Hc & Hd & Hno & ->).
      exists c, d. repeat split; auto.
      intros H. apply checkMap_keys in H. congruence.
    + destruct Hr as [Hall Hdep]. split.
      * intros c d Hc Hd. apply checkMap_keys. eauto.
      * intros u v. unfold dagEdge. rewrite Hdep, Hid.
        unfold dependsDirectly. split.
        -- intros [[]|(c & H1 & H2 & H3)]. eauto.
        -- intros (c & H1 & H2 & H3). eauto.
Qed.

(** One round of the sort on a set that has a node with in-degree 0. *)
Lemma toposortRounds_step (fuel : nat) (dag : Dag)
  (remaining : list string) :
  filter (isRoot dag remaining) remaining <> [] ->
  toposortRounds (S fuel) dag remaining
  = match toposortRounds fuel dag
            (filter
               (fun v =>
                  negb (memStr v (filter (isRoot dag remaining) remaining)))
               remaining)
    with
    | inl e => inl e
    | inr rest => inr (filter (isRoot dag remaining) remaining :: rest)
    end.
Proof.
  intros Hr. destruct remaining as [|r0 rs]; [now destruct Hr|].
  cbn [toposortRounds].
  destruct (filter (isRoot dag (r0 :: rs)) (r0 :: rs));
    [congruence | reflexivity].
Qed.

Lemma string_decidable : decidable_eq string.
Proof.
  intros x y. destruct (string_dec x y); [now left | now right].
Qed.

Section Toposort.

Variable dag : Dag.

Lemma inDegree_zero (remaining : list string) (v : string) :
  inDegree dag remaining v = 0
  <-> forall u, In u remaining -> ~ dagEdge dag u v.
Proof.
  unfold inDegree, dagEdge.
  induction remaining as [|u0 r IH]; simpl.
  - split; auto.
  - split.
    + intros H u [<-|Hu].
      * apply (count_occ_not_In string_dec). lia.
      * apply IH; [lia | exact Hu].
    + intros H.
      assert (H0 : count_occ string_dec (dependents dag u0) v = 0).
      { apply (count_occ_not_In string_dec). apply H. now left. }
      rewrite H0. simpl. apply IH. intros u Hu. apply H. now right.
Qed.

Lemma not_root_has_predecessor (remaining : list string) (v : string) :
  isRoot dag remaining v = false ->
  exists u, In u remaining /\ dagEdge dag u v.
Proof.
  unfold isRoot, inDegree, dagEdge.
  induction remaining as [|u0 r IH]; simpl; [discriminate|].
  intros H.
  destruct (in_dec string_dec v (dependents dag u0)) as [Hin|Hno].
  - exists u0. auto.
  - apply (count_occ_not_In string_dec) in Hno. rewrite Hno in H.
    simpl in H. destruct (IH H) as (u & Hu & He). exists u. auto.
Qed.

Lemma root_has_no_predecessor (remaining : list string) (u v : string) :
  isRoot dag remaining v = true -> In u remaining -> ~ dagEdge dag u v.
Proof.
  unfold isRoot. intros H. apply Nat.eqb_eq in H.
  now apply inDegree_zero.
Qed.

Lemma memStr_In (x : string) (l : list string) :
  memStr x l = true <-> In x l.
Proof.
  unfold memStr. rewrite existsb_exists. split.
  - intros (y & Hy & E). apply String.eqb_eq in E. now subst.
  - intros H. exists x. split; auto. apply String.eqb_refl.
Qed.

(** A chain of edges leads from its head to each of its other nodes. *)
Lemma chain_reaches (x : string) (l : list string) :
  Sorted (dagEdge dag) (x :: l) ->
  forall y, In y l -> clos_trans string (dagEdge dag) x y.
Proof.
  revert x. induction l as [|z l IH]; intros x Hs y Hy; [destruct Hy|].
  inversion Hs as [|? ? Hs' Hhd]; subst.
  inversion Hhd as [|? ? Hxz]; subst.
  destruct Hy as [<-|Hy].
  - now apply t_step.
  - eapply t_trans; [apply t_step; exact Hxz|]. now apply IH.
Qed.

Lemma sorted_suffix (l1 l2 : list string) :
  Sorted (dagEdge dag) (l1 ++ l2) -> Sorted (dagEdge dag) l2.
Proof.
  induction l1 as [|x l1 IH]; simpl; auto.
  intros H. inversion H; subst. auto.
Qed.

(** When every node of a set has a predecessor in the set, there are chains
    of any length in it. *)
Lemma long_chain (remaining : list string) (v0 : string) :
  In v0 remaining ->
  (forall v, In v remaining ->
             exists u, In u remaining /\ dagEdge dag u v) ->
  forall n,
    exists l,
      List.length l = S n /\ incl l remaining
      /\ Sorted (dagEdge dag) l.
Proof.
  intros Hv0 Hpred. induction n as [|n IH].
  - exists [v0]. repeat split; auto.
    intros x [<-|[]]. exact Hv0.
  - destruct IH as (l & Hlen & Hincl & Hs).
    destruct l as [|v l]; [discriminate|].
    destruct (Hpred v (Hincl v (or_introl eq_refl))) as (u & Hu & He).
    exists (u :: v :: l). repeat split.
    + simpl in *. lia.
    + intros x [<-|Hx]; auto.
    + constructor; auto.
Qed.

Hypothesis acyclic : forall x, ~ clos_trans string (dagEdge dag) x x.

(** A set of nodes that is not empty has a node with in-degree 0. *)
Lemma exists_root (remaining : list string) :
  remaining <> [] -> filter (isRoot dag remaining) remaining <> [].
Proof.
  intros Hne Hnil.
  destruct remaining as [|v0 r] eqn:HR; [congruence|]. rewrite <- HR in *.
  assert (Hpred : forall v, In v remaining ->
                            exists u, In u remaining /\ dagEdge dag u v).
  { intros v Hv. apply not_root_has_predecessor.
    destruct (isRoot dag remaining v) eqn:E; auto.
    assert (In v (filter (isRoot dag remaining) remaining))
      by (apply filter_In; auto).
    rewrite Hnil in H. destruct H. }
  assert (Hv0 : In v0 remaining) by (rewrite HR; now left).
  destruct (long_chain remaining v0 Hv0 Hpred (List.length remaining))
    as (l & Hlen & Hincl & Hs).
  assert (Hdup : ~ NoDup l).
  { intros Hnd. pose proof (NoDup_incl_length Hnd Hincl). lia. }
  destruct (not_NoDup string_decidable Hdup) as (a & l1 & l2 & l3 & ->).
  apply sorted_suffix in Hs.
  apply (acyclic a).
  apply (chain_reaches a (l2 ++ a :: l3) Hs).
  apply in_or_app. right. now left.
Qed.

Lemma filter_shorter (p : string -> bool) (l : list string) (x : string) :
  In x l -> p x = false -> List.length (filter p l) < List.length l.
Proof.
  induction l as [|y r IH]; simpl; [tauto|].
  intros [<-|Hx] Hp.
  - rewrite Hp. pose proof (filter_length_le p r). lia.
  - specialize (IH Hx Hp). destruct (p y); simpl; lia.
Qed.

Lemma in_concat_nth (bs : list (list string)) (x : string) :
  In x (List.concat bs) -> exists j, In x (nth j bs []).
Proof.
  intros H. apply in_concat in H. destruct H as (l & Hl & Hx).
  destruct (In_nth bs l [] Hl) as (j & _ & Hj).
  exists j. now rewrite Hj.
Qed.

Lemma in_nth_concat (bs : list (list string)) (x : string) (j : nat) :
  In x (nth j bs []) -> In x (List.concat bs).
Proof.
  intros H. apply in_concat.
  destruct (Nat.lt_ge_cases j (List.length bs)) as [Hlt|Hge].
  - exists (nth j bs []). split; [now apply nth_In | exact H].
  - rewrite nth_overflow in H by exact Hge. destruct H.
Qed.

(** The rounds of the sort when the graph has no cycle. *)
Lemma toposortRounds_spec (fuel : nat) :
  forall remaining : list string,
    NoDup remaining ->
    List.length remaining <= fuel ->
    exists bs,
      toposortRounds fuel dag remaining = inr bs
      /\ NoDup (List.concat bs)
      /\ (forall x, In x (List.concat bs) <-> In x remaining)
      /\ (forall x, In x (nth 0 bs [])
                    <-> In x remaining /\ isRoot dag remaining x = true)
      /\ (forall u v,
            In u remaining -> In v remaining -> dagEdge dag u v ->
            exists i j,
              i < j /\ In u (nth i bs []) /\ In v (nth j bs [])).
Proof.
  induction fuel as [|fuel IH]; intros remaining Hnd Hlen.
  - destruct remaining; [|simpl in Hlen; lia].
    exists []. simpl. repeat split; try tauto; try constructor;
      intros u v [].
  - destruct remaining as [|r0 rs] eqn:HR.
    { exists []. simpl. repeat split; try tauto; try constructor;
        intros u v []. }
    rewrite <- HR in *.
    assert (Hne : remaining <> []) by (rewrite HR; discriminate).
    pose proof (exists_root remaining Hne) as Hroot.
    set (roots := filter (isRoot dag remaining) remaining) in *.
    set (rest := filter (fun v => negb (memStr v roots)) remaining).
    assert (Hrest : forall x, In x rest <-> In x remaining /\ ~ In x roots).
    { intros x. unfold rest. rewrite filter_In. split.
      - intros [Hx Hm]. split; auto. intros Hr. apply memStr_In in Hr.
        rewrite Hr in Hm. discriminate.
      - intros [Hx Hn]. split; auto.
        destruct (memStr x roots) eqn:E; auto.
        apply memStr_In in E. tauto. }
    assert (Hroots : forall x, In x roots
                               <-> In x remaining
                                   /\ isRoot dag remaining x = true).
    { intros x. unfold roots. apply filter_In. }
    assert (Hshort : List.length rest <= fuel).
    { assert (Hex : exists a, In a roots).
      { destruct roots as [|a l]; [congruence|]. exists a. now left. }
      destruct Hex as (a & Har).
      assert (Ha : In a remaining) by (now apply Hroots).
      pose proof (filter_shorter (fun v => negb (memStr v roots))
                    remaining a Ha) as Hs.
      apply memStr_In in Har. cbv beta in Hs. rewrite Har in Hs.
      specialize (Hs eq_refl). fold rest in Hs. lia. }
    destruct (IH rest (NoDup_filter _ Hnd) Hshort)
      as (bs & Hrun & Hnd' & Hall & _ & Hedge).
    exists (roots :: bs).
    assert (Hdef : toposortRounds (S fuel) dag remaining
                   = inr (roots :: bs)).
    { rewrite toposortRounds_step by exact Hroot.
      fold roots. fold rest. now rewrite Hrun. }
    split; [exact Hdef|]. split; [|split; [|split]].
    + cbn [List.concat]. apply NoDup_app; auto.
      * now apply NoDup_filter.
      * intros x Hx Hx'. apply Hall, Hrest in Hx'. tauto.
    + intros x. cbn [List.concat]. rewrite in_app_iff. split.
      * intros [H|H]; [apply Hroots in H | apply Hall, Hrest in H]; tauto.
      * intros Hx. destruct (in_dec string_dec x roots) as [Hr|Hr];
          [now left | right].
        apply Hall, Hrest. auto.
    + intros x. cbn [nth]. apply Hroots.
    + intros u v Hu Hv He.
      assert (Hv' : In v rest).
      { apply Hrest. split; auto. intros Hr. apply Hroots in Hr.
        destruct Hr as [_ Hr].
        exact (root_has_no_predecessor remaining u v Hr Hu He). }
      destruct (in_dec string_dec u roots) as [Hur|Hur].
      * apply Hall in Hv'. destruct (in_concat_nth bs v Hv') as (j & Hj).
        exists 0, (S j). cbn [nth]. repeat split; auto. lia.
      * assert (Hu' : In u rest) by (apply Hrest; auto).
        destruct (Hedge u v Hu' Hv' He) as (i & j & Hij & Hi & Hj).
        exists (S i), (S j). cbn [nth]. repeat split; auto. lia.
Qed.

End Toposort.

Lemma unique_batch (bs : list (list string)) (x : string) :
  NoDup (List.concat bs) ->
  forall i j, In x (nth i bs []) -> In x (nth j bs []) -> i = j.
Proof.
  induction bs as [|b bs IH]; intros Hnd i j Hi Hj.
  - destruct i; destruct Hi.
  - simpl in Hnd. apply NoDup_app_remove_l in Hnd as Hnd'.
    assert (Hdisj : forall k, In x b -> In x (nth k bs []) -> False).
    { intros k Hb Hk. apply in_nth_concat in Hk.
      revert Hb Hk. clear -Hnd. revert x.
      induction b as [|y b IHb]; intros x Hb Hk; [destruct Hb|].
      simpl in Hnd. inversion Hnd as [|? ? Hy Hnd']; subst.
      destruct Hb as [<-|Hb].
      - apply Hy. apply in_or_app. now right.
      - eapply IHb; eauto. }
    destruct i as [|i], j as [|j]; cbn [nth] in Hi, Hj.
    + reflexivity.
    + exfalso. eapply Hdisj; eauto.
    + exfalso. eapply Hdisj; eauto.
    + f_equal. now apply IH.
Qed.

Lemma lookupBatch_spec (checks : list CheckDefinition)
  (batch : list string) :
  incl batch (checkIds checks) ->
  exists cs,
    lookupBatch (buildCheckMap checks) batch = inr cs
    /\ map checkIdOf cs = batch
    /\ forall c, In c cs -> In c checks.
Proof.
  induction batch as [|k rest IH]; intros Hincl; simpl.
  - exists []. repeat split. intros c [].
  - assert (Hk : In k (checkIds checks)) by (apply Hincl; now left).
    apply checkMap_keys, has_true_iff, get_keys in Hk.
    destruct Hk as (c & Hc). rewrite Hc.
    destruct IH as (cs & -> & Hids & Hin).
    { intros x Hx. apply Hincl. now right. }
    destruct (checkMap_get _ _ _ Hc) as [Hin' Hid].
    exists (c :: cs). simpl. rewrite Hid, Hids. repeat split.
    intros c' [<-|H]; auto.
Qed.

Lemma lookupBatches_spec (checks : list CheckDefinition)
  (bs : list (list string)) :
  (forall x, In x (List.concat bs) -> In x (checkIds checks)) ->
  exists css,
    lookupBatches (buildCheckMap checks) bs = inr css
    /\ map (map checkIdOf) css = bs
    /\ forall c, In c (List.concat css) -> In c checks.
Proof.
  induction bs as [|b rest IH]; intros Hincl; simpl.
  - exists []. repeat split. intros c [].
  - destruct (lookupBatch_spec checks b) as (cs & -> & Hids & Hin).
    { intros x Hx. apply Hincl. simpl. apply in_or_app. now left. }
    destruct IH as (css & -> & Hidss & Hinn).
    { intros x Hx. apply Hincl. simpl. apply in_or_app. now right. }
    exists (cs :: css). simpl. rewrite Hids, Hidss. repeat split.
    intros c Hc. apply in_app_or in Hc. destruct Hc; auto.
Qed.

Lemma concat_map_ids (css : list (list CheckDefinition)) :
  map checkIdOf (List.concat css) = List.concat (map (map checkIdOf) css).
Proof.
  induction css as [|cs r IH]; simpl; auto.
  now rewrite map_app, IH.
Qed.

(** The layers of the check ids.  When every [dependsOn] names a registered
    check and the graph of the dependencies has no cycle, [getCheckBatches]
    returns batches whose ids are layered: batch 0 holds exactly the ids
    without dependency, every check id is in one batch and in one only, and
    a dependency is in a batch strictly before the id that depends on it.
    The checks returned are registered checks and, when the ids are
    distinct, the batches are a permutation of the list of checks. *)
Lemma getCheckBatches_layers_of_ids (checks : list CheckDefinition) :
  knownDependencies checks ->
  acyclicDependencies checks ->
  exists batches,
    getCheckBatches checks = inr batches
    /\ let ids := map (map checkIdOf) batches in
       (forall x,
           In x (nth 0 ids [])
           <-> In x (checkIds checks)
               /\ forall check,
                   In check checks -> checkIdOf check = x ->
                   dependenciesOf check = [])
       /\ NoDup (List.concat ids)
       /\ (forall x, In x (checkIds checks) <-> In x (List.concat ids))
       /\ (forall x i j,
              In x (nth i ids []) -> In x (nth j ids []) -> i = j)
       /\ (forall d c,
              dependsDirectly checks d c ->
              exists i j,
                i < j /\ In d (nth i ids []) /\ In c (nth j ids []))
       /\ (forall check, In check (List.concat batches) -> In check checks)
       /\ (NoDup (checkIds checks) ->
           Permutation (List.concat batches) checks).
Proof.
  intros Hknown Hacyc. unfold getCheckBatches.
  destruct (buildDag_spec checks) as (Hkeys & Hnd & Hres).
  destruct (buildDag checks) as [[e|] dag]; simpl in *.
  { destruct Hres as (c & d & Hc & Hd & Hno & _).
    exfalso. apply Hno. eapply Hknown; eauto. }
  destruct Hres as [_ Hedge].
  assert (Hacyc' : forall x, ~ clos_trans string (dagEdge dag) x x).
  { assert (Hct : forall a b,
               clos_trans string (dagEdge dag) a b ->
               clos_trans string (dependsDirectly checks) a b).
    { intros a b Hab. induction Hab as [a b H|a b c _ IH1 _ IH2].
      - apply t_step. apply Hedge. exact H.
      - eapply t_trans; eauto. }
    intros x Hx. apply (Hacyc x), Hct, Hx. }
  destruct (toposortRounds_spec dag Hacyc' (List.length (JsMap.keys dag))
              (JsMap.keys dag) Hnd (le_n _))
    as (bs & Hrun & Hnd' & Hall & Hzero & Hlayer).
  unfold batchingToposort. rewrite Hrun.
  destruct (lookupBatches_spec checks bs) as (css & -> & Hids & Hin).
  { intros x Hx. apply Hkeys, Hall, Hx. }
  exists css. split; [reflexivity|].
  cbv zeta. rewrite Hids.
  split; [|split; [|split; [|split; [|split; [|split]]]]].
  - intros x. rewrite Hzero, Hkeys. split.
    + intros [Hx Hr]. split; auto. intros check Hc Hid.
      destruct (dependenciesOf check) as [|d ds] eqn:E; auto.
      exfalso.
      assert (Hd : In d (checkIds checks)).
      { apply (Hknown check d Hc). rewrite E. now left. }
      apply (root_has_no_predecessor dag (JsMap.keys dag) d x Hr).
      * now apply Hkeys.
      * apply Hedge. exists check. rewrite E. repeat split; auto.
        now left.
    + intros [Hx Hno]. split; auto.
      unfold isRoot. apply Nat.eqb_eq. apply inDegree_zero.
      intros u _ He. apply Hedge in He.
      destruct He as (check & Hc & Hid & Hd).
      rewrite (Hno check Hc Hid) in Hd. destruct Hd.
  - exact Hnd'.
  - intros x. rewrite Hall. symmetry. apply Hkeys.
  - intros x i j. now apply unique_batch.
  - intros d c Hdc.
    assert (Hc : In c (JsMap.keys dag)).
    { destruct Hdc as (check & Hin' & <- & _). apply Hkeys.
      unfold checkIds. now apply in_map. }
    assert (Hd : In d (JsMap.keys dag)).
    { destruct Hdc as (check & Hin' & _ & Hd). apply Hkeys. eauto. }
    apply Hlayer; auto. now apply Hedge.
  - exact Hin.
  - intros Huniq.
    assert (Hcnd : NoDup (List.concat css)).
    { apply (NoDup_map_inv checkIdOf). now rewrite concat_map_ids, Hids. }
    apply NoDup_Permutation; auto.
    + now apply NoDup_map_inv with (f := checkIdOf).
    + intros c. split; [apply Hin|].
      intros Hc.
      assert (Hx : In (checkIdOf c) (List.concat bs)).
      { apply Hall, Hkeys. unfold checkIds. now apply in_map. }
      rewrite <- Hids, <- concat_map_ids in Hx.
      apply in_map_iff in Hx. destruct Hx as (c' & Hid & Hc').
      assert (c' = c); [|now subst].
      pose proof (Hin c' Hc') as Hc''.
      clear -Huniq Hid Hc Hc''. unfold checkIds in Huniq.
      induction checks as [|c0 r IH]; [destruct Hc|].
      simpl in Huniq. inversion Huniq as [|? ? Hno Hr]; subst.
      destruct Hc as [<-|Hc], Hc'' as [<-|Hc'']; auto.
      * exfalso. apply Hno. rewrite <- Hid. now apply in_map.
      * exfalso. apply Hno. rewrite Hid. now apply in_map.
Qed.

(** C7 as the specification states it fails: the planner throws a plain
    [Error], which has no code. *)
Lemma unknown_dependency_has_no_code :
  let checks := [Sample.plain "a" (Some ["zz"])] in
  ~ In "zz" (checkIds checks)
  /\ createRunnable Sample.sdk checks Sample.config
     = inl (JsError "Check 'a' has unknown dependency 'zz'")
  /\ forall message,
      createRunnable Sample.sdk checks Sample.config
      <> inl (ScanRunnableError message UNKNOWN_DEPENDENCY).
Proof.
  intros checks. split; [|split].
  - simpl. intros [H|[]]. discriminate.
  - reflexivity.
  - intros message H. vm_compute in H. discriminate.
Qed.

(** C7, as the code has it.  When some check lists a dependency that is
    not the id of a registered check, the construction of the plan, and
    with it that of the runner, fails: an [Error] is thrown whose message
    names such a check and its unknown dependency and which carries no
    code.  The graph has then no node but the registered check ids: none
    was made for the missing dependency. *)
Theorem unknown_dependency_fails (sdk : SDK) (cfg : ScanConfig)
  (checks : list CheckDefinition) (check : CheckDefinition) (d : string) :
  In check checks ->
  In d (dependenciesOf check) ->
  ~ In d (checkIds checks) ->
  exists check' d',
    In check' checks /\ In d' (dependenciesOf check')
    /\ ~ In d' (checkIds checks)
    /\ getCheckBatches checks
       = inl (JsError (unknownDependencyMessage (checkIdOf check') d'))
    /\ createRunnable sdk checks cfg
       = inl (JsError (unknownDependencyMessage (checkIdOf check') d'))
    /\ errorCodeOf
         (JsError (unknownDependencyMessage (checkIdOf check') d')) = None
    /\ forall k,
        In k (JsMap.keys (snd (buildDag checks))) -> In k (checkIds checks).
Proof.
  intros Hc Hd Hno.
  destruct (buildDag_spec checks) as (Hkeys & _ & Hres).
  unfold createRunnable, getCheckBatches.
  destruct (buildDag checks) as [[e|] dag]; simpl in *.
  - destruct Hres as (c' & d' & Hc' & Hd' & Hno' & ->).
    exists c', d'. repeat split; auto. apply Hkeys.
  - destruct Hres as [Hknown _]. exfalso. apply Hno. eauto.
Qed.

(** ** Estimation *)

Lemma replaceNth_app_r {A} (n : nat) (x : A) (l l' : list A) :
  List.length l <= n ->
  replaceNth n x (l ++ l') = l ++ replaceNth (n - List.length l) x l'.
Proof.
  revert n. induction l as [|y l IH]; intros n Hn; simpl.
  - now rewrite Nat.sub_0_r.
  - destruct n as [|n]; simpl in *; [lia|].
    rewrite IH by lia. reflexivity.
Qed.

Lemma extends_refl (h : Store) : extends h h.
Proof. exists [], []. now rewrite !app_nil_r. Qed.

Lemma extends_trans (h1 h2 h3 : Store) :
  extends h1 h2 -> extends h2 h3 -> extends h1 h3.
Proof.
  intros (ms & ss & Hm & Hs) (ms' & ss' & Hm' & Hs').
  exists (ms ++ ms'), (ss ++ ss').
  rewrite Hm', Hs', Hm, Hs, !app_assoc. auto.
Qed.

Lemma extends_length (h h' : Store) :
  extends h h' ->
  List.length (maps h) <= List.length (maps h')
  /\ List.length (sets h) <= List.length (sets h').
Proof.
  intros (ms & ss & -> & ->). rewrite !length_app. lia.
Qed.

(** Writing to objects made after [h0] leaves those of [h0] as they are. *)
Lemma extends_newSet (h0 h : Store) (content : list string) :
  extends h0 h -> extends h0 (snd (newSet content h)).
Proof.
  intros (ms & ss & Hm & Hs). exists ms, (ss ++ [content]). simpl.
  rewrite Hm, Hs, app_assoc. auto.
Qed.

Lemma extends_mapSet (h0 h : Store) (a r : nat) (k : string) :
  extends h0 h -> List.length (maps h0) <= a ->
  extends h0 (mapSet a k r h).
Proof.
  intros (ms & ss & Hm & Hs) Ha. unfold extends, mapSet. simpl.
  exists (replaceNth (a - List.length (maps h0))
            (JsMap.set k r (mapAt h a)) ms), ss.
  split; [|exact Hs].
  rewrite <- replaceNth_app_r by exact Ha. now rewrite <- Hm.
Qed.

Lemma extends_setAdd (h0 h : Store) (r : nat) (key : string) :
  extends h0 h -> List.length (sets h0) <= r ->
  extends h0 (setAdd r key h).
Proof.
  intros (ms & ss & Hm & Hs) Hr. unfold setAdd.
  destruct (setHas h r key); [now exists ms, ss|].
  unfold extends. simpl.
  exists ms, (replaceNth (r - List.length (sets h0))
                (setAt h r ++ [key]) ss).
  split; [exact Hm|].
  rewrite <- replaceNth_app_r by exact Hr. now rewrite <- Hs.
Qed.

Lemma mapAt_mapSet (h : Store) (a r : nat) (k : string) :
  a < List.length (maps h) ->
  mapAt (mapSet a k r h) a = JsMap.set k r (mapAt h a).
Proof.
  intros Ha. unfold mapSet, mapAt. simpl. now apply nth_replaceNth_same.
Qed.

Lemma setAdd_lengths (h : Store) (r : nat) (key : string) :
  maps (setAdd r key h) = maps h
  /\ List.length (sets (setAdd r key h)) = List.length (sets h).
Proof.
  unfold setAdd. destruct (setHas h r key); simpl; auto.
  now rewrite length_replaceNth.
Qed.

(** An applicability test on a fresh index writes to fresh objects only. *)
Lemma isCheckApplicable_fresh (h0 : Store) (check : CheckDefinition)
  (context : RuntimeContext) (keys : nat) (h : Store) :
  freshIndex h0 h keys ->
  freshIndex h0 (snd (isCheckApplicable check context keys h)) keys.
Proof.
  intros Hfresh.
  destruct (passesFilters check context) eqn:Hp.
  2:{ now rewrite isCheckApplicable_filters by exact Hp. }
  rewrite isCheckApplicable_passes by exact Hp.
  destruct (dedupeKey check) as [keyOf|]; [|exact Hfresh].
  cbv zeta.
  destruct Hfresh as (Hext & [Ha0 Ha] & Hrefs).
  destruct (JsMap.get (id (metadata check)) (mapAt h keys)) as [r|] eqn:Hg.
  - assert (Hr : List.length (sets h0) <= r < List.length (sets h)).
    { apply get_In in Hg. rewrite Forall_forall in Hrefs.
      apply (Hrefs _ Hg). }
    assert (Hadd : freshIndex h0 (setAdd r (keyOf (target context)) h) keys).
    { destruct (setAdd_lengths h r (keyOf (target context))) as [Hm Hl].
      split; [apply extends_setAdd; [exact Hext | lia]|].
      unfold mapAt. rewrite Hm, Hl. split; [lia | exact Hrefs]. }
    destruct (setHas h r (keyOf (target context))); simpl; auto.
    split; auto.
  - unfold newSet.
    set (r := List.length (sets h)).
    set (h1 := mapSet keys (id (metadata check)) r
                 {| maps := maps h; sets := sets h ++ [[]] |}).
    assert (Hlen0 : List.length (sets h0) <= r).
    { apply extends_length in Hext. unfold r. lia. }
    assert (H1 : freshIndex h0 h1 keys).
    { split; [|split].
      - apply extends_mapSet; [|exact Ha0].
        apply (extends_newSet h0 h [] Hext).
      - unfold h1, mapSet. simpl. rewrite length_replaceNth. lia.
      - unfold h1. rewrite mapAt_mapSet by exact Ha.
        unfold mapSet. simpl. rewrite length_app. simpl.
        apply Forall_set; [simpl; unfold r; lia|].
        change (mapAt {| maps := maps h; sets := sets h ++ [[]] |} keys)
          with (mapAt h keys).
        eapply Forall_impl; [|exact Hrefs]. simpl. intros. lia. }
    assert (Hadd : freshIndex h0 (setAdd r (keyOf (target context)) h1) keys).
    { destruct (setAdd_lengths h1 r (keyOf (target context))) as [Hm Hl].
      destruct H1 as (Hext1 & Ha1 & Hrefs1).
      split; [apply extends_setAdd; [exact Hext1 | lia]|].
      unfold mapAt. rewrite Hm, Hl. split; [exact Ha1 | exact Hrefs1]. }
    destruct (setHas h1 r (keyOf (target context))); simpl; auto.
Qed.

Lemma filterApplicable_fresh (h0 : Store) (batch : list CheckDefinition)
  (context : RuntimeContext) (keys : nat) :
  forall h,
    freshIndex h0 h keys ->
    freshIndex h0 (snd (filterApplicable batch context keys h)) keys.
Proof.
  induction batch as [|c rest IH]; intros h Hf; simpl; auto.
  pose proof (isCheckApplicable_fresh h0 c context keys h Hf) as H1.
  destruct (isCheckApplicable c context keys h) as [b h1].
  specialize (IH h1 H1).
  destruct (filterApplicable rest context keys h1) as [sel h2]. exact IH.
Qed.

Lemma filterBatches_fresh (h0 : Store) (bs : list (list CheckDefinition))
  (context : RuntimeContext) (keys : nat) :
  forall h,
    freshIndex h0 h keys ->
    freshIndex h0 (snd (filterBatches bs context keys h)) keys.
Proof.
  induction bs as [|b rest IH]; intros h Hf; simpl; auto.
  pose proof (filterApplicable_fresh h0 b context keys h Hf) as H1.
  destruct (filterApplicable b context keys h) as [sel h1].
  specialize (IH h1 H1).
  destruct (filterBatches rest context keys h1) as [sels h2]. exact IH.
Qed.

Lemma copyEntries_fresh (h0 : Store) (entries : JsMap.t nat)
  (snapshot : nat) :
  forall h,
    freshIndex h0 h snapshot ->
    freshIndex h0 (copyEntries entries snapshot h) snapshot.
Proof.
  induction entries as [|[k keySet] rest IH]; intros h Hf; simpl; auto.
  apply IH.
  destruct Hf as (Hext & [Ha0 Ha] & Hrefs).
  assert (Hlen0 : List.length (sets h0) <= List.length (sets h)).
  { apply extends_length in Hext. lia. }
  split; [|split].
  - apply extends_mapSet; [|exact Ha0].
    apply (extends_newSet h0 h _ Hext).
  - unfold mapSet. simpl. rewrite length_replaceNth. lia.
  - rewrite mapAt_mapSet by exact Ha.
    unfold mapSet. simpl. rewrite length_app. simpl.
    apply Forall_set; [simpl; lia|].
    change (mapAt {| maps := maps h; sets := sets h ++ [setAt h keySet] |}
              snapshot) with (mapAt h snapshot).
    eapply Forall_impl; [|exact Hrefs]. simpl. intros. lia.
Qed.

Section Estimate.

Variable sdk : SDK.
Variable cfg : ScanConfig.
Variable batches : list (list CheckDefinition).

Lemma estimateLoop_fresh (h0 : Store) (requestIDs : list string)
  (snapshot : nat) :
  forall total h,
    freshIndex h0 h snapshot ->
    freshIndex h0
      (snd (estimateLoop sdk cfg batches requestIDs snapshot total h))
      snapshot.
Proof.
  induction requestIDs as [|i rest IH]; intros total h Hf; simpl; auto.
  destruct (requests_get sdk i) as [t|]; simpl; auto.
  pose proof (filterBatches_fresh h0 batches
                (createRuntimeContext cfg
                   {| request := request t; response := response t |})
                snapshot h Hf) as H1.
  destruct (filterBatches batches _ snapshot h) as [tasks h1].
  now apply IH.
Qed.

(** [estimate] changes nothing in the runner but the store, and there it
    only makes new objects. *)
Lemma estimate_frame (requestIDs : list string) (s : State) :
  let s' := snd (estimate sdk cfg batches requestIDs s) in
  setStore (store s) s' = s /\ extends (store s) (store s').
Proof.
  unfold estimate, createDedupeKeysSnapshot, newMap.
  set (snapshot := List.length (maps (store s))).
  set (h1 := {| maps := maps (store s) ++ [[]]; sets := sets (store s) |}).
  assert (H1 : freshIndex (store s) h1 snapshot).
  { split; [|split].
    - exists [[]], []. simpl. now rewrite app_nil_r.
    - unfold h1, snapshot. simpl. rewrite length_app. simpl. lia.
    - unfold h1, mapAt, snapshot. simpl.
      rewrite app_nth2, Nat.sub_diag by lia. constructor. }
  pose proof (copyEntries_fresh (store s)
                (mapAt (store s) (dedupeKeys s)) snapshot h1 H1) as H2.
  pose proof (estimateLoop_fresh (store s) requestIDs snapshot 0 _ H2) as H3.
  destruct (estimateLoop sdk cfg batches requestIDs snapshot 0 _)
    as [r h3].
  simpl. split; [now destruct s | apply H3].
Qed.

End Estimate.

(** *** The interpreter and the pool of a batch do not look at the store *)

Lemma setStore_same (s : State) : setStore (store s) s = s.
Proof. now destruct s. Qed.

Lemma withStore_bind {A B} (h : Store) (m : Res A)
  (k k' : A -> State -> Res B) :
  (forall a s, k' a (setStore h s) = withStore h (k a s)) ->
  bind (withStore h m) k' = withStore h (bind m k).
Proof.
  intros Hk. destruct m; simpl; auto.
Qed.

Section Oblivious.

Variable cfg : ScanConfig.
Variable world : World.

Lemma resume_setStore (h : Store) (s : State) :
  resume world (setStore h s) = setStore h (resume world s).
Proof.
  unfold resume, cancel. simpl.
  destruct (cancelCall world (clock s)); [|reflexivity]. simpl.
  destruct (interruptReason s); [reflexivity|].
  destruct (hasRun s); reflexivity.
Qed.

Lemma suspend_setStore (h : Store) (s : State) :
  suspend cfg world (setStore h s) = withStore h (suspend cfg world s).
Proof.
  unfold suspend. rewrite resume_setStore. simpl.
  destruct (_ && _); simpl; [|reflexivity].
  destruct (interruptReason (resume world s)); reflexivity.
Qed.

Lemma emitFindings_setStore (t c : string) (fs : list Finding) (h : Store)
  (s : State) :
  emitFindings t c fs (setStore h s) = setStore h (emitFindings t c fs s).
Proof.
  unfold emitFindings. revert s.
  induction fs as [|f fs IH]; intros s; simpl; [reflexivity|].
  rewrite <- IH. reflexivity.
Qed.

Lemma recordStepExecution_setStore (c t : string) (r : StepExecutionRecord)
  (h : Store) (s : State) :
  recordStepExecution c t r (setStore h s)
  = setStore h (recordStepExecution c t r s).
Proof.
  unfold recordStepExecution. simpl.
  destruct (JsMap.get _ (activeCheckRecords s)); reflexivity.
Qed.

Lemma tick_setStore (task : CheckTask) (h : Store) (s : State) :
  tick cfg world task (setStore h s) = withStore h (tick cfg world task s).
Proof.
  unfold tick. simpl interruptReason.
  destruct (interruptReason s); [reflexivity|].
  change (dependenciesGet (setStore h s)) with (dependenciesGet s).
  destruct (taskTick (dependenciesGet s) task) as [o task'].
  rewrite suspend_setStore.
  apply withStore_bind. intros [] s1.
  destruct o as [res|e]; [|reflexivity].
  unfold tickReturned.
  rewrite emitFindings_setStore, recordStepExecution_setStore.
  reflexivity.
Qed.

Lemma tickLoop_setStore (fuel : nat) :
  forall (task : CheckTask) (acc : list Finding) (h : Store) (s : State),
    tickLoop cfg world fuel task acc (setStore h s)
    = withStore h (tickLoop cfg world fuel task acc s).
Proof.
  induction fuel as [|fuel IH]; intros task acc h s; simpl; [reflexivity|].
  rewrite tick_setStore.
  apply withStore_bind. intros [res task'] s1.
  destruct res as [[|] fs out|fs c m]; auto.
Qed.

Lemma storeResult_setStore (task : CheckTask) (context : RuntimeContext)
  (res : TaskExecutionResult) (h : Store) (s : State) :
  storeResult task context res (setStore h s)
  = setStore h (storeResult task context res s).
Proof.
  unfold storeResult, closeRecord.
  destruct res as [[|] [fs|] out|[fs|] c m]; simpl;
    try destruct (JsMap.get _ (activeCheckRecords s)); reflexivity.
Qed.

Lemma runTask_setStore (fuel : nat) (task : CheckTask)
  (context : RuntimeContext) (h : Store) (s : State) :
  runTask cfg world fuel task context (setStore h s)
  = withStore h (runTask cfg world fuel task context s).
Proof.
  unfold runTask, processTask.
  change (onTaskStarted task context (setStore h s))
    with (setStore h (onTaskStarted task context s)).
  change (skipsTask task (setStore h (onTaskStarted task context s)))
    with (skipsTask task (onTaskStarted task context s)).
  destruct (skipsTask task (onTaskStarted task context s));
    [reflexivity|].
  unfold tickUntilDone. rewrite tickLoop_setStore.
  destruct (tickLoop cfg world fuel task [] (onTaskStarted task context s))
    as [[res task'] s1|e s1|s1|]; simpl; try reflexivity.
  now rewrite storeResult_setStore.
Qed.

Lemma poolTasks_setStore (fuel : nat) (tasks : list CheckTask)
  (context : RuntimeContext) (h : Store) :
  forall s,
    poolTasks cfg world fuel tasks context (setStore h s)
    = withStore h (poolTasks cfg world fuel tasks context s).
Proof.
  induction tasks as [|task rest IH]; intros s; simpl; [reflexivity|].
  rewrite runTask_setStore.
  destruct (runTask cfg world fuel task context s) as [r s1|e s1|s1|];
    simpl; auto.
  destruct e; reflexivity.
Qed.

Lemma storeResult_index (task : CheckTask) (context : RuntimeContext)
  (res : TaskExecutionResult) (s : State) :
  store (storeResult task context res s) = store s
  /\ dedupeKeys (storeResult task context res s) = dedupeKeys s.
Proof.
  unfold storeResult, closeRecord.
  destruct res as [[|] [fs|] out|[fs|] c m]; simpl;
    try destruct (JsMap.get _ (activeCheckRecords s)); auto.
Qed.

(** The tasks of a batch leave the dedupe index as it is. *)
Lemma poolTasks_index (fuel : nat) (tasks : list CheckTask)
  (context : RuntimeContext) :
  Forall (fun t => task_context t = context) tasks ->
  forall s,
    holds (fun s' => store s' = store s /\ dedupeKeys s' = dedupeKeys s)
      (poolTasks cfg world fuel tasks context s).
Proof.
  induction 1 as [|task rest Hctx Hrest IH]; intros s; simpl; auto.
  pose proof (runTask_cases cfg world fuel task context s Hctx) as Hc.
  destruct (runTask cfg world fuel task context s)
    as [[res|] s1|e s1|s1|]; simpl; auto.
  - destruct Hc as (_ & task' & s0 & ar & fs & _ & -> & Hsame & _).
    destruct Hsame as [_ _ Hst Hdk _ _].
    destruct (storeResult_index task' context res s0) as [H1 H2].
    eapply holds_weaken; [|apply IH]. simpl.
    intros s' [-> ->]. split; congruence.
  - destruct Hc as [_ ->].
    eapply holds_weaken; [|apply IH]. simpl. auto.
  - destruct Hc as [_ _ Hst Hdk _ _].
    destruct e; simpl; auto.
  - destruct Hc as [_ _ Hst Hdk _ _]. auto.
Qed.

End Oblivious.

(** *** Sets that the index does not reach change no test *)

Lemma shiftRef_lt (n g r len : nat) :
  r < len -> shiftRef n g r < len + g.
Proof.
  unfold shiftRef. destruct (Nat.ltb_spec r n); lia.
Qed.

Lemma shiftRef_inj (n g r1 r2 : nat) :
  shiftRef n g r1 = shiftRef n g r2 -> r1 = r2.
Proof.
  unfold shiftRef.
  destruct (Nat.ltb_spec r1 n), (Nat.ltb_spec r2 n); lia.
Qed.

Lemma shiftRef_top (n g r : nat) : n <= r -> shiftRef n g r = r + g.
Proof.
  unfold shiftRef. destruct (Nat.ltb_spec r n); lia.
Qed.

Lemma get_map_refs (f : nat -> nat) (k : string) (m : JsMap.t nat) :
  JsMap.get k (map (fun kv => (fst kv, f (snd kv))) m)
  = option_map f (JsMap.get k m).
Proof.
  induction m as [|[k' v] r IH]; simpl; auto.
  destruct (String.eqb k k'); auto.
Qed.

Lemma set_map_refs (f : nat -> nat) (k : string) (v : nat)
  (m : JsMap.t nat) :
  JsMap.set k (f v) (map (fun kv => (fst kv, f (snd kv))) m)
  = map (fun kv => (fst kv, f (snd kv))) (JsMap.set k v m).
Proof.
  induction m as [|[k' v'] r IH]; simpl; auto.
  destruct (String.eqb k k'); simpl; auto.
  now rewrite IH.
Qed.

Lemma setAt_replace (h : Store) (r r' : nat) (l : list string) :
  r < List.length (sets h) ->
  setAt {| maps := maps h; sets := replaceNth r l (sets h) |} r'
  = if Nat.eqb r' r then l else setAt h r'.
Proof.
  intros Hr. unfold setAt. simpl.
  destruct (Nat.eqb r' r) eqn:E.
  - apply Nat.eqb_eq in E. subst. now apply nth_replaceNth_same.
  - apply Nat.eqb_neq in E. apply nth_replaceNth_other. congruence.
Qed.

Lemma storeShift_setAdd (n g keys : nat) (h1 h2 : Store) (r : nat)
  (key : string) :
  storeShift n g keys h1 h2 ->
  r < List.length (sets h1) ->
  setHas h2 (shiftRef n g r) key = setHas h1 r key
  /\ storeShift n g keys (setAdd r key h1) (setAdd (shiftRef n g r) key h2).
Proof.
  intros (Hn & Hlen & Hsets & Hk2 & Hmap & Hk1 & Hwf) Hr.
  assert (Hhas : setHas h2 (shiftRef n g r) key = setHas h1 r key).
  { unfold setHas. now rewrite Hsets. }
  split; [exact Hhas|].
  unfold setAdd. rewrite Hhas.
  destruct (setHas h1 r key); [repeat split; auto|].
  assert (Hr2 : shiftRef n g r < List.length (sets h2)).
  { rewrite Hlen. now apply shiftRef_lt. }
  split; [|split; [|split; [|split; [|split]]]]; simpl.
  - now rewrite length_replaceNth.
  - now rewrite !length_replaceNth.
  - rewrite length_replaceNth. intros r' Hr'.
    rewrite !setAt_replace by assumption.
    destruct (Nat.eqb r' r) eqn:E.
    + apply Nat.eqb_eq in E. subst r'.
      rewrite Nat.eqb_refl. now rewrite Hsets.
    + destruct (Nat.eqb (shiftRef n g r') (shiftRef n g r)) eqn:E'.
      * apply Nat.eqb_eq, shiftRef_inj in E'. subst r'.
        now rewrite Nat.eqb_refl in E.
      * now apply Hsets.
  - exact Hk2.
  - exact Hmap.
  - split; simpl; [exact Hk1|]. now rewrite length_replaceNth.
Qed.

(** Related stores give the same answer to an applicability test and stay
    related. *)
Lemma isCheckApplicable_shift (n g keys : nat) (check : CheckDefinition)
  (context : RuntimeContext) (h1 h2 : Store) :
  storeShift n g keys h1 h2 ->
  fst (isCheckApplicable check context keys h1)
  = fst (isCheckApplicable check context keys h2)
  /\ storeShift n g keys (snd (isCheckApplicable check context keys h1))
       (snd (isCheckApplicable check context keys h2)).
Proof.
  intros Hrel.
  destruct (passesFilters check context) eqn:Hp.
  2:{ rewrite !isCheckApplicable_filters by exact Hp. auto. }
  rewrite !isCheckApplicable_passes by exact Hp.
  destruct (dedupeKey check) as [keyOf|]; [|auto].
  cbv zeta.
  set (cid := id (metadata check)).
  set (key := keyOf (target context)).
  pose proof Hrel as (Hn & Hlen & Hsets & Hk2 & Hmap & Hk1 & Hwf).
  rewrite Hmap, get_map_refs.
  destruct (JsMap.get cid (mapAt h1 keys)) as [r|] eqn:Hget; simpl.
  - assert (Hr : r < List.length (sets h1)).
    { apply get_In in Hget. rewrite Forall_forall in Hwf.
      apply (Hwf _ Hget). }
    destruct (storeShift_setAdd n g keys h1 h2 r key Hrel Hr)
      as [Hhas Hadd].
    rewrite Hhas. destruct (setHas h1 r key); simpl; auto.
  - unfold newSet.
    set (r1 := List.length (sets h1)).
    set (r2 := List.length (sets h2)).
    set (a1 := {| maps := maps h1; sets := sets h1 ++ [[]] |}).
    set (a2 := {| maps := maps h2; sets := sets h2 ++ [[]] |}).
    assert (Hr12 : r2 = shiftRef n g r1).
    { unfold r1, r2. rewrite shiftRef_top by exact Hn. exact Hlen. }
    assert (Hb : storeShift n g keys (mapSet keys cid r1 a1)
                   (mapSet keys cid r2 a2)).
    { split; [|split; [|split; [|split; [|split]]]].
      - unfold mapSet, a1. simpl. rewrite length_app. lia.
      - unfold mapSet, a1, a2. simpl. rewrite !length_app. simpl.
        fold r1 r2. lia.
      - unfold mapSet, a1, a2, setAt. simpl. rewrite length_app. simpl.
        fold r1. intros r' Hr'.
        destruct (Nat.eq_dec r' r1) as [->|Hne].
        + rewrite <- Hr12. unfold r1, r2.
          now rewrite !app_nth2, !Nat.sub_diag by lia.
        + assert (Hlt : r' < r1) by lia.
          pose proof (shiftRef_lt n g r' r1 Hlt) as Hs.
          rewrite !app_nth1 by (fold r1 r2; lia).
          now apply Hsets.
      - unfold mapSet. simpl. now rewrite length_replaceNth.
      - rewrite !mapAt_mapSet by assumption.
        change (mapAt a1 keys) with (mapAt h1 keys).
        change (mapAt a2 keys) with (mapAt h2 keys).
        rewrite Hmap, Hr12. apply set_map_refs.
      - split.
        + unfold mapSet. simpl. now rewrite length_replaceNth.
        + rewrite mapAt_mapSet by exact Hk1.
          unfold mapSet, a1. simpl. rewrite length_app. simpl.
          apply Forall_set; [simpl; fold r1; lia|].
          change (mapAt a1 keys) with (mapAt h1 keys).
          eapply Forall_impl; [|exact Hwf]. simpl. intros. lia. }
    assert (Hr : r1 < List.length (sets (mapSet keys cid r1 a1))).
    { unfold mapSet, a1. simpl. rewrite length_app. simpl. fold r1. lia. }
    destruct (storeShift_setAdd n g keys _ _ r1 key Hb Hr) as [Hhas Hadd].
    rewrite <- Hr12 in Hhas, Hadd. rewrite Hhas.
    destruct (setHas (mapSet keys cid r1 a1) r1 key); simpl; auto.
Qed.

Lemma filterApplicable_shift (n g keys : nat) (batch : list CheckDefinition)
  (context : RuntimeContext) :
  forall h1 h2,
    storeShift n g keys h1 h2 ->
    fst (filterApplicable batch context keys h1)
    = fst (filterApplicable batch context keys h2)
    /\ storeShift n g keys (snd (filterApplicable batch context keys h1))
         (snd (filterApplicable batch context keys h2)).
Proof.
  induction batch as [|c rest IH]; intros h1 h2 Hrel; simpl; auto.
  destruct (isCheckApplicable_shift n g keys c context h1 h2 Hrel)
    as [Hb Hrel1].
  destruct (isCheckApplicable c context keys h1) as [b1 h1'].
  destruct (isCheckApplicable c context keys h2) as [b2 h2'].
  simpl in Hb, Hrel1. subst b2.
  destruct (IH h1' h2' Hrel1) as [Hsel Hrel2].
  destruct (filterApplicable rest context keys h1') as [sel1 h1''].
  destruct (filterApplicable rest context keys h2') as [sel2 h2''].
  simpl in *. subst sel2. auto.
Qed.

Lemma claimed_shift (n g keys : nat) (h1 h2 : Store) (c k : string) :
  storeShift n g keys h1 h2 ->
  claimed h2 keys c k = claimed h1 keys c k.
Proof.
  intros (Hn & Hlen & Hsets & Hk2 & Hmap & Hk1 & Hwf).
  unfold claimed. rewrite Hmap, get_map_refs.
  destruct (JsMap.get c (mapAt h1 keys)) as [r|] eqn:Hget; simpl; auto.
  unfold setHas. rewrite Hsets; auto.
  apply get_In in Hget. rewrite Forall_forall in Hwf. apply (Hwf _ Hget).
Qed.

(** *** A run after an estimate *)

Lemma simState_fields (n g : nat) (s1 s2 : State) :
  simState n g s1 s2 ->
  findings s1 = findings s2
  /\ dependencies s1 = dependencies s2
  /\ dedupeKeys s1 = dedupeKeys s2
  /\ interruptReason s1 = interruptReason s2
  /\ hasRun s1 = hasRun s2
  /\ executionHistory s1 = executionHistory s2
  /\ activeCheckRecords s1 = activeCheckRecords s2
  /\ events s1 = events s2
  /\ clock s1 = clock s2
  /\ forall h, setStore h s1 = setStore h s2.
Proof.
  intros [Heq _]. repeat split; rewrite <- Heq; reflexivity.
Qed.

Lemma simRes_withStore {A} (n g keys : nat) (h1 h2 : Store) (r : Res A) :
  storeShift n g keys h1 h2 ->
  holds (fun s' => dedupeKeys s' = keys) r ->
  simRes n g (withStore h1 r) (withStore h2 r).
Proof.
  intros Hrel Hk.
  assert (Hs : forall s, dedupeKeys s = keys ->
                         simState n g (setStore h1 s) (setStore h2 s)).
  { intros s <-. split; [reflexivity | exact Hrel]. }
  destruct r; simpl in *; auto.
Qed.

Lemma simRes_bind {A B} (n g : nat) (m1 m2 : Res A)
  (k : A -> State -> Res B) :
  simRes n g m1 m2 ->
  (forall a s1 s2, simState n g s1 s2 -> simRes n g (k a s1) (k a s2)) ->
  simRes n g (bind m1 k) (bind m2 k).
Proof.
  intros Hm Hk.
  destruct m1, m2; simpl in *; try tauto.
  destruct Hm as [<- Hs]. now apply Hk.
Qed.

Lemma simState_update (n g : nat) (f : State -> State) (s1 s2 : State) :
  (forall h s, f (setStore h s) = setStore h (f s)) ->
  (forall s, store (f s) = store s /\ dedupeKeys (f s) = dedupeKeys s) ->
  simState n g s1 s2 -> simState n g (f s1) (f s2).
Proof.
  intros Hcomm Hkeep [Heq Hrel].
  destruct (Hkeep s1) as [H1 H2]. destruct (Hkeep s2) as [H3 H4].
  split.
  - rewrite H1, <- Hcomm, Heq. reflexivity.
  - now rewrite H1, H2, H3.
Qed.

Section Simulation.

Variable sdk : SDK.
Variable cfg : ScanConfig.
Variable batches : list (list CheckDefinition).
Variable world : World.
Variables n g : nat.

Lemma suspend_index (s : State) :
  holds (fun s' => store s' = store s /\ dedupeKeys s' = dedupeKeys s)
    (suspend cfg world s).
Proof.
  unfold suspend.
  destruct (resume_frame world s) as (_ & _ & Hst & Hdk & _).
  destruct (_ && _); simpl; auto.
  destruct (interruptReason (resume world s)); simpl; auto.
Qed.

Lemma suspend_sim (s1 s2 : State) :
  simState n g s1 s2 ->
  simRes n g (suspend cfg world s1) (suspend cfg world s2).
Proof.
  intros [Heq Hrel].
  assert (E1 : suspend cfg world s1
               = withStore (store s1) (suspend cfg world s2)).
  { rewrite <- suspend_setStore, Heq. reflexivity. }
  assert (E2 : suspend cfg world s2
               = withStore (store s2) (suspend cfg world s2)).
  { rewrite <- suspend_setStore, setStore_same. reflexivity. }
  assert (Hk : dedupeKeys s1 = dedupeKeys s2)
    by (rewrite <- Heq; reflexivity).
  rewrite E1. rewrite E2 at 2.
  eapply simRes_withStore; [exact Hrel|].
  eapply holds_weaken; [|apply suspend_index].
  simpl. intros s' [_ ->]. auto.
Qed.

Lemma processBatch_sim (fuel : nat) (batch : list CheckDefinition)
  (context : RuntimeContext) (s1 s2 : State) :
  simState n g s1 s2 ->
  simRes n g (processBatch cfg world fuel batch context s1)
    (processBatch cfg world fuel batch context s2).
Proof.
  intros Hsim. pose proof Hsim as [Heq Hrel].
  destruct (simState_fields _ _ _ _ Hsim)
    as (_ & _ & Hk & _ & _ & _ & _ & _ & _ & Hset).
  unfold processBatch. rewrite <- Hk.
  destruct (filterApplicable_shift n g (dedupeKeys s1) batch context
              (store s1) (store s2) Hrel) as [Hsel Hrel'].
  destruct (filterApplicable batch context (dedupeKeys s1) (store s1))
    as [sel1 h1'].
  destruct (filterApplicable batch context (dedupeKeys s1) (store s2))
    as [sel2 h2'].
  simpl in Hsel, Hrel'. subst sel2.
  rewrite Hset, !poolTasks_setStore.
  eapply simRes_withStore; [exact Hrel'|].
  eapply holds_weaken;
    [|apply poolTasks_index; apply Forall_forall; intros t Ht;
      apply in_map_iff in Ht; destruct Ht as (c & <- & _); reflexivity].
  simpl. intros s' [_ ->]. auto.
Qed.

Lemma processBatches_sim (fuel : nat) (bs : list (list CheckDefinition))
  (context : RuntimeContext) :
  forall s1 s2,
    simState n g s1 s2 ->
    simRes n g (processBatches cfg world fuel bs context s1)
      (processBatches cfg world fuel bs context s2).
Proof.
  induction bs as [|batch rest IH]; intros s1 s2 Hsim; simpl.
  - now split.
  - destruct (simState_fields _ _ _ _ Hsim) as (_ & _ & _ & Hi & _).
    rewrite <- Hi.
    destruct (interruptReason s1); simpl; [now split|].
    apply simRes_bind; [now apply processBatch_sim|].
    intros _ s1' s2' H. now apply IH.
Qed.

Lemma processTarget_sim (fuel : nat) (requestID : string) (s1 s2 : State) :
  simState n g s1 s2 ->
  simRes n g (processTarget sdk cfg batches world fuel requestID s1)
    (processTarget sdk cfg batches world fuel requestID s2).
Proof.
  intros Hsim. unfold processTarget.
  apply simRes_bind; [now apply suspend_sim|].
  intros _ s1' s2' H.
  destruct (requests_get sdk requestID); simpl; [|now split].
  now apply processBatches_sim.
Qed.

Lemma poolTargets_sim (fuel : nat) (requestIDs : list string) :
  forall s1 s2,
    simState n g s1 s2 ->
    simRes n g (poolTargets sdk cfg batches world fuel requestIDs s1)
      (poolTargets sdk cfg batches world fuel requestIDs s2).
Proof.
  induction requestIDs as [|requestID rest IH]; intros s1 s2 Hsim; simpl.
  - now split.
  - pose proof (processTarget_sim fuel requestID s1 s2 Hsim) as Ht.
    destruct (processTarget sdk cfg batches world fuel requestID s1),
             (processTarget sdk cfg batches world fuel requestID s2);
      simpl in Ht; try tauto.
    + destruct Ht as [_ Ht]. now apply IH.
    + destruct Ht as [<- Ht]. destruct e; simpl; auto.
Qed.

Lemma simState_emit (e : ScanEvent) (s1 s2 : State) :
  simState n g s1 s2 -> simState n g (emit e s1) (emit e s2).
Proof.
  intros Hsim.
  destruct (simState_fields _ _ _ _ Hsim)
    as (_ & _ & _ & _ & _ & _ & _ & He & _).
  apply (simState_update n g (emit e)); auto.
Qed.

Lemma allFindings_sim (s1 s2 : State) :
  simState n g s1 s2 -> allFindings s1 = allFindings s2.
Proof.
  intros Hsim. unfold allFindings.
  destruct (simState_fields _ _ _ _ Hsim) as (-> & _). reflexivity.
Qed.

Lemma runScan_sim (fuel : nat) (requestIDs : list string) (s1 s2 : State) :
  simState n g s1 s2 ->
  simRes n g (runScan sdk cfg batches world fuel requestIDs s1)
    (runScan sdk cfg batches world fuel requestIDs s2).
Proof.
  intros Hsim. unfold runScan.
  assert (H0 : simState n g (emit scan_started (setHasRun true s1))
                 (emit scan_started (setHasRun true s2))).
  { apply simState_emit.
    apply (simState_update n g (setHasRun true)); auto. }
  pose proof (poolTargets_sim fuel requestIDs _ _ H0) as Hp.
  destruct (poolTargets sdk cfg batches world fuel requestIDs
              (emit scan_started (setHasRun true s1))),
           (poolTargets sdk cfg batches world fuel requestIDs
              (emit scan_started (setHasRun true s2)));
    simpl in Hp; try tauto.
  - destruct Hp as [_ Hp]. simpl.
    rewrite (allFindings_sim _ _ Hp). split; auto.
    now apply simState_emit.
  - destruct Hp as [<- Hp].
    destruct e; simpl.
    + split; auto. now apply simState_emit.
    + split; auto. now apply simState_emit.
    + pose proof (simState_emit (scan_interrupted reason) _ _ Hp) as Hi.
      rewrite (allFindings_sim _ _ Hi). split; auto.
      now apply simState_emit.
Qed.

Lemma run_sim (fuel : nat) (requestIDs : list string) (s1 s2 : State) :
  simState n g s1 s2 ->
  simRes n g (run sdk cfg batches world fuel requestIDs s1)
    (run sdk cfg batches world fuel requestIDs s2).
Proof.
  intros Hsim. unfold run.
  destruct (simState_fields _ _ _ _ Hsim) as (_ & _ & _ & _ & Hh & _).
  rewrite <- Hh.
  destruct (hasRun s1); [now split|].
  pose proof (runScan_sim fuel requestIDs s1 s2 Hsim) as Hr.
  destruct (0 <? scanTimeout cfg)%Z; [|exact Hr].
  destruct (runScan sdk cfg batches world fuel requestIDs s1),
           (runScan sdk cfg batches world fuel requestIDs s2);
    simpl in Hr; try tauto; simpl; auto.
  rewrite (allFindings_sim _ _ Hr). auto.
Qed.

End Simulation.

Lemma simState_alike (n g : nat) (s1 s2 : State) :
  simState n g s1 s2 -> alike s1 s2.
Proof.
  intros Hsim.
  destruct (simState_fields _ _ _ _ Hsim)
    as (Hf & Hd & Hk & _ & _ & Hh & _ & He & _).
  destruct Hsim as [_ Hrel].
  repeat split; auto.
  intros c k. rewrite <- Hk. symmetry. now apply claimed_shift with n g.
Qed.

Lemma map_refs_below (n g : nat) (m : JsMap.t nat) :
  Forall (fun kv => snd kv < n) m ->
  map (fun kv => (fst kv, shiftRef n g (snd kv))) m = m.
Proof.
  induction 1 as [|[k r] l Hr Hl IH]; simpl; auto.
  rewrite IH. unfold shiftRef. simpl in Hr.
  destruct (Nat.ltb_spec r n); [reflexivity | lia].
Qed.

(** A store with more objects at the end is a shifted store. *)
Lemma extends_shift (keys : nat) (h h' : Store) :
  wfIndex h keys ->
  extends h h' ->
  storeShift (List.length (sets h))
    (List.length (sets h') - List.length (sets h)) keys h h'.
Proof.
  intros [Hk Hwf] (ms & ss & Hm & Hs).
  split; [|split; [|split; [|split; [|split]]]].
  - lia.
  - rewrite Hs, length_app. lia.
  - intros r Hr. unfold shiftRef.
    destruct (Nat.ltb_spec r (List.length (sets h))); [|lia].
    unfold setAt. rewrite Hs. now apply app_nth1.
  - rewrite Hm, length_app. lia.
  - rewrite map_refs_below by exact Hwf.
    unfold mapAt. rewrite Hm. now apply app_nth1.
  - now split.
Qed.

(** The frame of [estimate].  It changes nothing in the runner but the
    store of objects, where it only makes new ones: the map and the sets of
    the index are not written, so every claim is as it was.  A run that
    follows selects the same checks as it would have without the estimate:
    it ends with the same result, the same events (those of the checks
    started among them), the same history and the same claims. *)
Lemma estimate_writes_no_index (sdk : SDK) (cfg : ScanConfig)
  (batches : list (list CheckDefinition)) (world : World)
  (requestIDs : list string) (s : State) :
  wfIndex (store s) (dedupeKeys s) ->
  let s' := snd (estimate sdk cfg batches requestIDs s) in
  setStore (store s) s' = s
  /\ dedupeKeys s' = dedupeKeys s
  /\ extends (store s) (store s')
  /\ mapAt (store s') (dedupeKeys s') = mapAt (store s) (dedupeKeys s)
  /\ (forall r, r < List.length (sets (store s)) ->
                setAt (store s') r = setAt (store s) r)
  /\ (forall c k,
         claimed (store s') (dedupeKeys s') c k
         = claimed (store s) (dedupeKeys s) c k)
  /\ forall fuel ids,
      sameRun (run sdk cfg batches world fuel ids s)
        (run sdk cfg batches world fuel ids s').
Proof.
  intros Hwf s'.
  destruct (estimate_frame sdk cfg batches requestIDs s) as [Heq Hext].
  fold s' in Heq, Hext.
  assert (Hk : dedupeKeys s' = dedupeKeys s)
    by (rewrite <- Heq; reflexivity).
  pose proof (extends_shift (dedupeKeys s) _ _ Hwf Hext) as Hrel.
  set (n := List.length (sets (store s))) in *.
  set (g := List.length (sets (store s')) - n) in *.
  assert (Hsim : simState n g s s') by (split; assumption).
  split; [exact Heq|]. split; [exact Hk|]. split; [exact Hext|].
  destruct Hext as (ms & ss & Hm & Hs). destruct Hwf as [Hka Hrefs].
  split; [|split; [|split]].
  - rewrite Hk. unfold mapAt. rewrite Hm. now apply app_nth1.
  - intros r Hr. unfold setAt. rewrite Hs. now apply app_nth1.
  - intros c k. rewrite Hk. now apply claimed_shift with n g.
  - intros fuel ids.
    pose proof (run_sim sdk cfg batches world n g fuel ids s s' Hsim) as Hr.
    destruct (run sdk cfg batches world fuel ids s),
             (run sdk cfg batches world fuel ids s');
      simpl in *; try tauto.
    + destruct Hr as [-> Hr]. split; auto. now apply simState_alike with n g.
    + destruct Hr as [-> Hr]. split; auto. now apply simState_alike with n g.
    + now apply simState_alike with n g.
Qed.

(** ** A check that is done after one step *)

Section OneStep.

Variable cfg : ScanConfig.
Variable world : World.

Lemma runTask_one_step (fuel : nat) (task task' : CheckTask)
  (context : RuntimeContext) (s : State) (fs : option (list Finding)) :
  task_context task = context ->
  skipsTask task s = false ->
  interruptReason s = None ->
  timerQuiet cfg world (clock s) ->
  taskTick (dependenciesGet s) task
  = (TickReturned {| sr_status := StatusDone; sr_findings := fs |}, task') ->
  exists s',
    runTask cfg world (S fuel) task context s
    = Ret (Some (resultOk StatusDone (Some (orEmpty fs)) (taskOutput task')))
        s'
    /\ findings s'
       = JsMap.set (id (task_metadata task))
           (orEmpty (JsMap.get (id (task_metadata task)) (findings s))
            ++ orEmpty fs)
           (findings s)
    /\ executionHistory s'
       = executionHistory s
         ++ [ {| checkId := id (task_metadata task);
                 targetRequestId := getId (request (target context));
                 recSteps :=
                   [ stepRecordOf task
                       {| sr_status := StatusDone; sr_findings := fs |}
                       task' ];
                 status := completed (taskOutput task') |} ].
Proof.
  intros Hctx Hskip Hint Hquiet Htick.
  destruct (taskTick_same _ _ _ _ Htick) as (Hm & Hx & _).
  set (res := {| sr_status := StatusDone; sr_findings := fs |}) in *.
  set (s0 := onTaskStarted task context s).
  set (cid := id (task_metadata task)).
  set (tid := getId (request (target context))).
  assert (Hid : id (task_metadata task') = cid) by (unfold cid; congruence).
  assert (Htid : getId (request (getTarget task')) = tid).
  { unfold getTarget, tid. congruence. }
  assert (Htk : tick cfg world task s0
                = Ret (resultOk StatusDone fs (taskOutput task'), task')
                    (recordStepExecution cid tid (stepRecordOf task res task')
                       (emitFindings tid cid (orEmpty fs)
                          (resume world s0)))).
  { unfold tick.
    change (interruptReason s0) with (interruptReason s). rewrite Hint.
    change (dependenciesGet s0) with (dependenciesGet s). rewrite Htick.
    rewrite suspend_quiet by exact Hquiet. simpl bind.
    unfold tickReturned. rewrite Hid, Htid. reflexivity. }
  set (s2 := emitFindings tid cid (orEmpty fs) (resume world s0)) in *.
  set (ar1 := {| ar_checkId := cid; ar_targetRequestId := tid;
                 ar_steps := [stepRecordOf task res task'] |}).
  assert (Hact2 : activeCheckRecords s2
                  = JsMap.set (recordKey cid tid)
                      {| ar_checkId := cid; ar_targetRequestId := tid;
                         ar_steps := [] |}
                      (activeCheckRecords s)).
  { unfold s2. rewrite emitFindings_active.
    destruct (resume_frame world s0) as (_ & _ & _ & _ & _ & _ & Ha & _).
    rewrite Ha. reflexivity. }
  assert (Hrec : recordStepExecution cid tid (stepRecordOf task res task') s2
                 = setActiveCheckRecords
                     (JsMap.set (recordKey cid tid) ar1
                        (activeCheckRecords s2)) s2).
  { unfold recordStepExecution. rewrite Hact2 at 1.
    now rewrite get_set_same. }
  rewrite Hrec in Htk.
  assert (Hsame : sameData s s2).
  { eapply sameData_trans; [apply (sameData_started task context)|].
    eapply sameData_trans; [apply sameData_resume|].
    apply sameData_emitFindings. }
  destruct Hsame as [Hf _ _ _ _ Hh].
  eexists. split; [|split].
  - unfold runTask, processTask. rewrite skipsTask_started, Hskip.
    unfold tickUntilDone. cbn [tickLoop]. fold s0. rewrite Htk.
    simpl. reflexivity.
  - unfold storeResult, closeRecord. simpl resultFindings. cbv iota.
    rewrite Hid. fold tid. simpl activeCheckRecords.
    rewrite get_set_same. simpl. now rewrite Hf.
  - unfold storeResult, closeRecord. simpl resultFindings. cbv iota.
    rewrite Hid. fold tid. simpl activeCheckRecords.
    rewrite get_set_same. simpl. now rewrite Hh.
Qed.

End OneStep.
(** C8. A target whose response has a content type that contains
    [text/html] and the single policy header [script-src *]: the step of
    the [csp-untrusted-script] check returns [done] with exactly one
    finding, of severity critical, whatever the state and the dependencies;
    the run of the check on the target completes with that finding, which
    is stored under the check and recorded in the history. *)
Theorem csp_untrusted_script_wildcard
  (cfg : ScanConfig) (world : World) (key : ScanTarget -> string)
  (fuel : nat) (t : ScanTarget) (res : Response) (ct : string)
  (cts : list string) (s : State) :
  response t = Some res ->
  getHeader res "content-type" = Some (ct :: cts) ->
  JsStr.includes ct "text/html" = true ->
  getHeader res "content-security-policy" = Some ["script-src *"] ->
  interruptReason s = None ->
  timerQuiet cfg world (clock s) ->
  let context := createRuntimeContext cfg t in
  let task := create (CspUntrustedScript.check key) context in
  exists f s',
    severity f = CRITICAL
    /\ (forall state deps,
         CspUntrustedScript.checkCspUntrustedScript state
           {| sc_target := t; sc_config := cfg; sc_dependencies := deps |}
         = Returns (done (Some state) (Some [f]) None))
    /\ runTask cfg world (S fuel) task context s
       = Ret (Some (resultOk StatusDone (Some [f]) None)) s'
    /\ JsMap.get "csp-untrusted-script" (findings s')
       = Some (orEmpty (JsMap.get "csp-untrusted-script" (findings s))
               ++ [f])
    /\ executionHistory s'
       = executionHistory s
         ++ [ {| checkId := "csp-untrusted-script";
                 targetRequestId := getId (request t);
                 recSteps :=
                   [ {| stepName := "checkCspUntrustedScript";
                        stateBefore := JObject [];
                        stateAfter := JObject [];
                        stepFindings := [f];
                        result := ResultDone |} ];
                 status := completed None |} ].
Proof.
  intros Hres Hct Hinc Hcsp Hint Hquiet context task.
  destruct (wildcard_step (JObject [])
              {| sc_target := t; sc_config := cfg;
                 sc_dependencies := dependenciesGet s |}
              res ct cts Hres Hct Hinc Hcsp)
    as (f & Hstep & Hsev & _ & _).
  exists f.
  assert (Hall : forall state deps,
             CspUntrustedScript.checkCspUntrustedScript state
               {| sc_target := t; sc_config := cfg;
                  sc_dependencies := deps |}
             = Returns (done (Some state) (Some [f]) None)).
  { intros state deps. revert Hstep.
    unfold CspUntrustedScript.checkCspUntrustedScript.
    cbn [sc_target]. rewrite Hres, Hct, Hinc, Hcsp.
    intros Hstep. injection Hstep as <-. reflexivity. }
  assert (Htick : taskTick (dependenciesGet s) task
                  = (TickReturned {| sr_status := StatusDone;
                                     sr_findings := Some [f] |},
                     {| task_metadata := task_metadata task;
                        task_context := context;
                        task_steps := task_steps task;
                        currentStepName := Some "checkCspUntrustedScript";
                        currentState := JObject [];
                        taskOutput := None |})).
  { unfold taskTick, task. cbn [create currentStepName task_steps steps
      CspUntrustedScript.check JsMap.get currentState initState].
    rewrite String.eqb_refl.
    unfold getTarget.
    change (task_context (create (CspUntrustedScript.check key) context))
      with context.
    change (target context) with t. change (config context) with cfg.
    now rewrite Hstep. }
  destruct (runTask_one_step cfg world fuel task _ context s (Some [f])
              eq_refl eq_refl Hint Hquiet Htick)
    as (s' & Hrun & Hf & Hh).
  exists s'. split; [exact Hsev|]. split; [exact Hall|].
  split; [exact Hrun|]. split.
  - rewrite Hf. apply get_set_same.
  - rewrite Hh. reflexivity.
Qed.

(** ** The statements at sample inputs *)

(** The plan of two checks of which the second depends on the first. *)
Example plan_of_two :
  match getCheckBatches [Sample.plain "a" None; Sample.plain "b" (Some ["a"])]
  with
  | inr batches => map (map checkIdOf) batches = [["a"]; ["b"]]
  | inl _ => False
  end.
Proof. reflexivity. Qed.

(** A cycle makes the plan fail. *)
Example plan_of_cycle :
  match getCheckBatches
          [Sample.plain "a" (Some ["b"]); Sample.plain "b" (Some ["a"])]
  with
  | inr _ => False
  | inl e => errorCodeOf e = Some CYCLIC_DEPENDENCIES
  end.
Proof. reflexivity. Qed.

(** Two targets with the same key and a check with a dedupe key: the check
    runs once, the history has one record and there is one finding. *)
Example dedupe_across_targets :
  match run Sample.sdk Sample.config
          [[Sample.reports "c" None None (Some Sample.hostKey)]]
          Sample.world 2 ["1"; "2"] initialState
  with
  | Ret (Finished fs) s =>
      List.length fs = 1
      /\ map targetRequestId (getExecutionHistory s) = ["1"]
  | _ => False
  end.
Proof. vm_compute. auto. Qed.

(** A [cancel] that arrives during the first tick: the second target is not
    processed. *)
Example cancelled_run :
  match run Sample.sdk Sample.config
          [[Sample.reports "c" None None None]]
          {| elapsedMs := fun n => Z.of_nat n;
             cancelCall := fun n => if Nat.eqb n 1 then Some Cancelled
                                    else None |}
          2 ["1"; "2"] initialState
  with
  | Ret _ s =>
      interruptReason s = Some Cancelled
      /\ map targetRequestId (getExecutionHistory s) = ["1"]
  | _ => False
  end.
Proof. vm_compute. auto. Qed.

Lemma ranked_acyclic (checks : list CheckDefinition) (rank : string -> nat) :
  (forall d c, dependsDirectly checks d c -> rank d < rank c) ->
  acyclicDependencies checks.
Proof.
  intros Hrank x Hx.
  assert (H : forall a b,
             clos_trans string (dependsDirectly checks) a b ->
             rank a < rank b).
  { intros a b Hab. induction Hab as [a b H|a b c _ IH1 _ IH2]; auto. lia. }
  specialize (H x x Hx). lia.
Qed.




Lemma skipIfFoundBy_own_findings_witness :
  let context := createRuntimeContext Sample.config Sample.target1 in
  let task := create (Sample.reports "c" None (Some "d") None) context in
  let s :=
    setFindings [("c", [Sample.aFinding "c" Sample.target2])] initialState in
  truthy (skipIfFoundBy (task_metadata task)) = true
  /\ (skipsExecution Sample.config Sample.world 1 task context s
      <-> orEmpty (JsMap.get (id (task_metadata task)) (findings s)) <> []).
Proof.
  intros context task s. split; [reflexivity|].
  apply (skipIfFoundBy_own_findings Sample.config Sample.world 1 task
           context s).
  reflexivity.
Defined.

Lemma dedupe_at_most_once_witness :
  let check := Sample.reports "c" None None (Some Sample.hostKey) in
  let context1 := createRuntimeContext Sample.config Sample.target1 in
  let context2 := createRuntimeContext Sample.config Sample.target2 in
  let tests := [(check, context1); (check, context2)] in
  let outcome := applicabilityTests tests 0 (store initialState) in
  wfIndex (store initialState) 0
  /\ nth 0 (fst outcome) false = true
  /\ nth 1 (fst outcome) true = false.
Proof.
  intros check context1 context2 tests outcome.
  assert (Hwf : wfIndex (store initialState) 0).
  { split; [simpl; lia | constructor]. }
  split; [exact Hwf|].
  destruct (dedupe_at_most_once 0 tests (store initialState) 0 check
              context1 "example.com" Hwf eq_refl eq_refl eq_refl eq_refl)
    as (H1 & _ & _ & H4).
  split; [exact H1|].
  apply (H4 1 check context2); [lia | reflexivity..].
Defined.

Lemma unknown_dependency_fails_witness :
  let check := Sample.plain "a" (Some ["zz"]) in
  In check [check]
  /\ In "zz" (dependenciesOf check)
  /\ ~ In "zz" (checkIds [check])
  /\ exists check' d',
      getCheckBatches [check]
      = inl (JsError (unknownDependencyMessage (checkIdOf check') d')).
Proof.
  intros check.
  assert (H1 : In check [check]) by (now left).
  assert (H2 : In "zz" (dependenciesOf check)) by (now left).
  assert (H3 : ~ In "zz" (checkIds [check])).
  { simpl. intros [H|[]]. discriminate. }
  repeat split; auto.
  destruct (unknown_dependency_fails Sample.sdk Sample.config [check] check
              "zz" H1 H2 H3)
    as (check' & d' & _ & _ & _ & Hb & _).
  exists check', d'. exact Hb.
Defined.

Lemma csp_untrusted_script_wildcard_witness :
  let context := createRuntimeContext Sample.config Sample.wildcardTarget in
  let task := create (CspUntrustedScript.check Sample.hostKey) context in
  exists f s',
    severity f = CRITICAL
    /\ runTask Sample.config Sample.world 1 task context initialState
       = Ret (Some (resultOk StatusDone (Some [f]) None)) s'.
Proof.
  intros context task.
  destruct (csp_untrusted_script_wildcard Sample.config Sample.world
              Sample.hostKey 0 Sample.wildcardTarget
              (Sample.htmlResponse (Some ["script-src *"])) "text/html" []
              initialState eq_refl eq_refl eq_refl eq_refl eq_refl eq_refl)
    as (f & s' & Hsev & _ & Hrun & _).
  exists f, s'. split; [exact Hsev | exact Hrun].
Defined.

Lemma dependencies_keyed_by_check_id_witness :
  let context := createRuntimeContext Sample.config Sample.target1 in
  let task := create (Sample.reports "c" None None None) context in
  exists r s',
    runTask Sample.config Sample.world 1 task context initialState = Ret r s'
    /\ dependenciesGet s' "c" = Some (JString "1").
Proof.
  intros context task.
  do 2 eexists. split; [vm_compute; reflexivity|].
  exact (proj2 (proj1 (dependencies_keyed_by_check_id Sample.config
                         Sample.world 1 task context initialState _
                         (Some (resultOk StatusDone _ _)) eq_refl eq_refl))).
Defined.

Lemma skipped_check_frame_witness :
  let context := createRuntimeContext Sample.config Sample.target1 in
  let check := Sample.reports "c" None (Some "c") None in
  let s :=
    setFindings [("c", [Sample.aFinding "c" Sample.target2])] initialState in
  truthy (skipIfFoundBy (metadata check)) = true
  /\ orEmpty (JsMap.get (id (metadata check)) (findings s)) <> []
  /\ exists s',
      runTask Sample.config Sample.world 1 (create check context) context s
      = Ret None s'
      /\ executionHistory s' = executionHistory s
      /\ findings s' = findings s.
Proof.
  intros context check s.
  assert (H1 : truthy (skipIfFoundBy (metadata check)) = true)
    by reflexivity.
  assert (H2 : orEmpty (JsMap.get (id (metadata check)) (findings s)) <> [])
    by (vm_compute; discriminate).
  split; [exact H1|]. split; [exact H2|].
  destruct (skipped_check_frame Sample.config Sample.world 1 check context s
              H1 H2)
    as [(s' & Hrun & _ & Hh & Hf & _) _].
  exists s'. repeat split; assumption.
Defined.

(* ===================================================================== *)
(** * Further properties *)
(* ===================================================================== *)

(** ** The parser: what a header is cut into *)

Lemma dropWhile_nil_iff {A} (p : A -> bool) (l : list A) :
  JsStr.dropWhile p l = [] <-> forallb p l = true.
Proof.
  induction l as [|x r IH]; simpl; [tauto|].
  destruct (p x); simpl; [exact IH|]. split; discriminate.
Qed.

Lemma dropWhile_head {A} (p : A -> bool) (l : list A) (x : A) (r : list A) :
  JsStr.dropWhile p l = x :: r -> p x = false.
Proof.
  induction l as [|y l IH]; simpl; [discriminate|].
  destruct (p y) eqn:E; [exact IH|]. intros H. injection H as <- _. exact E.
Qed.

Lemma dropWhile_stop {A} (p : A -> bool) (x : A) (r : list A) :
  p x = false -> JsStr.dropWhile p (x :: r) = x :: r.
Proof. intros H. simpl. now rewrite H. Qed.

Lemma dropWhile_snoc {A} (p : A -> bool) (l : list A) (x : A) :
  p x = false ->
  JsStr.dropWhile p (l ++ [x]) = JsStr.dropWhile p l ++ [x].
Proof.
  intros H. induction l as [|y l IH]; simpl.
  - now rewrite H.
  - destruct (p y); [exact IH | reflexivity].
Qed.

Lemma dropWhile_Forall {A} (p : A -> bool) (P : A -> Prop) (l : list A) :
  Forall P l -> Forall P (JsStr.dropWhile p l).
Proof.
  induction 1 as [|x l Hx Hl IH]; simpl; [constructor|].
  destruct (p x); [exact IH | now constructor].
Qed.

Lemma string_list_inv (s : string) :
  string_of_list_ascii (list_ascii_of_string s) = s.
Proof. apply string_of_list_ascii_of_string. Qed.

Lemma list_string_inv (l : list ascii) :
  list_ascii_of_string (string_of_list_ascii l) = l.
Proof. apply list_ascii_of_string_of_list_ascii. Qed.

Lemma list_ascii_app (a b : string) :
  list_ascii_of_string (a ++ b)
  = list_ascii_of_string a ++ list_ascii_of_string b.
Proof. induction a as [|c a IH]; simpl; [reflexivity | now rewrite IH]. Qed.

Lemma trim_list (s : string) :
  list_ascii_of_string (JsStr.trim s) = trimmed (list_ascii_of_string s).
Proof. unfold JsStr.trim, trimmed. apply list_string_inv. Qed.

Lemma trimmed_Forall (P : ascii -> Prop) (l : list ascii) :
  Forall P l -> Forall P (trimmed l).
Proof.
  intros H. unfold trimmed.
  apply Forall_rev, dropWhile_Forall, Forall_rev, dropWhile_Forall, H.
Qed.

Lemma trimmed_head (l : list ascii) (c : ascii) (r : list ascii) :
  trimmed l = c :: r -> JsStr.isWhitespace c = false.
Proof.
  unfold trimmed.
  destruct (JsStr.dropWhile JsStr.isWhitespace l) as [|x m] eqn:E.
  - simpl. discriminate.
  - pose proof (dropWhile_head _ _ _ _ E) as Hx.
    simpl rev at 2. rewrite dropWhile_snoc by exact Hx.
    rewrite rev_app_distr. simpl. intros H. injection H as <- _. exact Hx.
Qed.

Lemma trimmed_nil_iff (l : list ascii) :
  trimmed l = [] <-> forallb JsStr.isWhitespace l = true.
Proof.
  unfold trimmed. split.
  - intros H. apply (f_equal (@rev ascii)) in H. rewrite rev_involutive in H.
    simpl in H. apply dropWhile_nil_iff in H.
    destruct (JsStr.dropWhile JsStr.isWhitespace l) as [|x m] eqn:E.
    + now apply dropWhile_nil_iff.
    + pose proof (dropWhile_head _ _ _ _ E) as Hx.
      simpl in H. rewrite forallb_app in H. simpl in H.
      rewrite Hx in H. rewrite andb_false_r in H. discriminate.
  - intros H. apply dropWhile_nil_iff in H. rewrite H. reflexivity.
Qed.

(** Leading white space makes no difference to [trim]. *)
Lemma trimmed_cons_ws (c : ascii) (l : list ascii) :
  JsStr.isWhitespace c = true -> trimmed (c :: l) = trimmed l.
Proof. intros H. unfold trimmed. simpl. now rewrite H. Qed.

(** A string that neither starts nor ends with white space is its own
    trimmed form. *)
Lemma trimmed_id (l : list ascii) :
  match l with [] => True | c :: _ => JsStr.isWhitespace c = false end ->
  match rev l with [] => True | c :: _ => JsStr.isWhitespace c = false end ->
  trimmed l = l.
Proof.
  intros H1 H2. unfold trimmed.
  assert (E1 : JsStr.dropWhile JsStr.isWhitespace l = l).
  { destruct l; [reflexivity|]. now apply dropWhile_stop. }
  rewrite E1.
  assert (E2 : JsStr.dropWhile JsStr.isWhitespace (rev l) = rev l).
  { destruct (rev l); [reflexivity|]. now apply dropWhile_stop. }
  rewrite E2. apply rev_involutive.
Qed.

Lemma trimmed_wsfree (l : list ascii) :
  forallb (fun c => negb (JsStr.isWhitespace c)) l = true -> trimmed l = l.
Proof.
  intros H. apply trimmed_id.
  - destruct l as [|c r]; [exact I|]. simpl in H.
    apply andb_prop in H. destruct H as [H _].
    now apply negb_true_iff in H.
  - assert (Hr : forallb (fun c => negb (JsStr.isWhitespace c)) (rev l) = true).
    { rewrite forallb_forall in *. intros x Hx. apply H. now apply in_rev. }
    destruct (rev l) as [|c r]; [exact I|]. simpl in Hr.
    apply andb_prop in Hr. destruct Hr as [Hr _].
    now apply negb_true_iff in Hr.
Qed.

Lemma trim_wsfree (s : string) :
  allChars (fun c => negb (JsStr.isWhitespace c)) s = true ->
  JsStr.trim s = s.
Proof.
  intros H. rewrite <- (string_list_inv (JsStr.trim s)), trim_list.
  rewrite trimmed_wsfree by exact H. apply string_list_inv.
Qed.

Lemma consHead_app (c : ascii) (l1 l2 : list string) :
  l1 <> [] -> JsStr.consHead c (l1 ++ l2) = JsStr.consHead c l1 ++ l2.
Proof. destruct l1; [congruence | reflexivity]. Qed.

Lemma splitChar_not_nil (sep : ascii) (s : string) :
  JsStr.splitChar sep s <> [].
Proof.
  induction s as [|c r IH]; simpl; [discriminate|].
  destruct (Ascii.eqb c sep); [discriminate|].
  destruct (JsStr.splitChar sep r); [congruence | discriminate].
Qed.

(** Splitting distributes over a separator. *)
Lemma splitChar_app (sep : ascii) (a b : string) :
  JsStr.splitChar sep (a ++ String sep b)
  = JsStr.splitChar sep a ++ JsStr.splitChar sep b.
Proof.
  induction a as [|c a IH]; simpl.
  - now rewrite Ascii.eqb_refl.
  - destruct (Ascii.eqb c sep); rewrite IH; [reflexivity|].
    apply consHead_app, splitChar_not_nil.
Qed.

Lemma splitChar_none (sep : ascii) (s : string) :
  allChars (fun c => negb (Ascii.eqb c sep)) s = true ->
  JsStr.splitChar sep s = [s].
Proof.
  unfold allChars. induction s as [|c r IH]; simpl; [reflexivity|].
  intros H. apply andb_prop in H. destruct H as [Hc Hr].
  apply negb_true_iff in Hc. rewrite Hc, (IH Hr). reflexivity.
Qed.

Lemma splitChar_chars (P : ascii -> Prop) (sep : ascii) (s : string) :
  Forall P (list_ascii_of_string s) ->
  Forall (fun piece =>
            Forall (fun c => P c /\ c <> sep) (list_ascii_of_string piece))
         (JsStr.splitChar sep s).
Proof.
  induction s as [|c r IH]; simpl; intros H.
  - repeat constructor.
  - inversion H as [|? ? Hc Hr]; subst. specialize (IH Hr).
    destruct (Ascii.eqb c sep) eqn:E.
    + constructor; [constructor | exact IH].
    + apply Ascii.eqb_neq in E.
      destruct (JsStr.splitChar sep r) as [|p ps]; simpl.
      * repeat constructor; assumption.
      * inversion IH; subst. constructor; [|assumption].
        simpl. constructor; [split; assumption | assumption].
Qed.

Lemma splitWsFrom_chars (P : ascii -> Prop) (s : string) :
  Forall P (list_ascii_of_string s) ->
  forall b,
    Forall (fun piece =>
              Forall (fun c => P c /\ JsStr.isWhitespace c = false)
                     (list_ascii_of_string piece))
           (JsStr.splitWsFrom b s).
Proof.
  induction s as [|c r IH]; simpl; intros H b.
  - repeat constructor.
  - inversion H as [|? ? Hc Hr]; subst. specialize (IH Hr).
    destruct (JsStr.isWhitespace c) eqn:E.
    + destruct b; [apply IH|]. constructor; [constructor | apply IH].
    + specialize (IH false).
      destruct (JsStr.splitWsFrom false r) as [|p ps]; simpl.
      * repeat constructor; assumption.
      * inversion IH; subst. constructor; [|assumption].
        simpl. constructor; [split; assumption | assumption].
Qed.

Lemma splitWsFrom_head (c : ascii) (r : string) (b : bool) :
  JsStr.isWhitespace c = false ->
  exists p ps, JsStr.splitWsFrom b (String c r) = String c p :: ps.
Proof.
  intros H. simpl. rewrite H.
  destruct (JsStr.splitWsFrom false r) as [|p ps]; simpl; eauto.
Qed.

Lemma nonEmpty_true (s : string) : JsStr.nonEmpty s = true <-> s <> "".
Proof.
  unfold JsStr.nonEmpty. rewrite negb_true_iff. apply String.eqb_neq.
Qed.

Lemma trim_head (s : string) (c : ascii) (r : string) :
  JsStr.trim s = String c r -> JsStr.isWhitespace c = false.
Proof.
  intros H. apply (f_equal list_ascii_of_string) in H.
  rewrite trim_list in H. simpl in H. eapply trimmed_head, H.
Qed.

Lemma trim_chars (P : ascii -> Prop) (s : string) :
  Forall P (list_ascii_of_string s) ->
  Forall P (list_ascii_of_string (JsStr.trim s)).
Proof. intros H. rewrite trim_list. now apply trimmed_Forall. Qed.

Lemma tokenChar_spec (c : ascii) :
  tokenChar c = true <-> (c <> ";"%char /\ JsStr.isWhitespace c = false).
Proof.
  unfold tokenChar. rewrite andb_true_iff, !negb_true_iff, Ascii.eqb_neq.
  tauto.
Qed.

Lemma wsfree_of_token (s : string) :
  allChars tokenChar s = true ->
  allChars (fun c => negb (JsStr.isWhitespace c)) s = true.
Proof.
  unfold allChars. rewrite !forallb_forall. intros H x Hx.
  apply H in Hx. apply tokenChar_spec in Hx. destruct Hx as [_ Hx].
  now rewrite Hx.
Qed.

Lemma allChars_Forall (s : string) :
  Forall (fun c => (True /\ c <> ";"%char) /\ JsStr.isWhitespace c = false)
         (list_ascii_of_string s) ->
  allChars tokenChar s = true.
Proof.
  intros H. unfold allChars. apply forallb_forall. intros x Hx.
  rewrite Forall_forall in H. apply H in Hx. apply tokenChar_spec. tauto.
Qed.

(** The directive of a directive string that is trimmed, not empty and
    without semicolon consists of tokens. *)
Lemma parseDirective_tokens (d : string) (dir : CSPParser.CSPDirective) :
  Forall (fun c => True /\ c <> ";"%char) (list_ascii_of_string d) ->
  (forall c r, d = String c r -> JsStr.isWhitespace c = false) ->
  d <> "" ->
  CSPParser.parseDirective d = Some dir ->
  tokensOnly dir = true.
Proof.
  intros Hsemi Hhead Hne. unfold CSPParser.parseDirective, JsStr.splitWhitespace.
  pose proof (splitWsFrom_chars _ d Hsemi false) as Hpieces.
  destruct d as [|c r]; [congruence|].
  destruct (splitWsFrom_head c r false (Hhead c r eq_refl)) as (p & ps & E).
  rewrite E in *. intros H. injection H as <-.
  inversion Hpieces as [|? ? Hp Hps]; subst.
  unfold tokensOnly. cbn [CSPParser.dname CSPParser.values].
  assert (Htok : forall x,
             Forall (fun c => (True /\ c <> ";"%char)
                              /\ JsStr.isWhitespace c = false)
                    (list_ascii_of_string x) ->
             JsStr.trim x = x /\ allChars tokenChar x = true).
  { intros x Hx. pose proof (allChars_Forall x Hx) as Ha. split; [|exact Ha].
    apply trim_wsfree, wsfree_of_token, Ha. }
  apply andb_true_iff. split.
  - destruct (Htok _ Hp) as [Et Ha]. rewrite Et. unfold isToken.
    now rewrite Ha.
  - apply forallb_forall. intros v Hv. apply filter_In in Hv.
    destruct Hv as [Hv Hn]. apply in_map_iff in Hv.
    destruct Hv as (x & <- & Hx). rewrite Forall_forall in Hps.
    destruct (Htok _ (Hps x Hx)) as [Et Ha]. rewrite Et in *.
    unfold isToken. now rewrite Hn, Ha.
Qed.

Lemma parseDirective_some (d : string) :
  exists dir, CSPParser.parseDirective d = Some dir.
Proof.
  unfold CSPParser.parseDirective, JsStr.splitWhitespace.
  destruct (JsStr.splitWsFrom false d) as [|p ps] eqn:E; eauto.
  exfalso. revert E. generalize false.
  induction d as [|c r IH]; simpl; intros b; [discriminate|].
  destruct (JsStr.isWhitespace c).
  - destruct b; [apply IH | discriminate].
  - destruct (JsStr.splitWsFrom false r); discriminate.
Qed.

Lemma trim_nil_iff (s : string) :
  JsStr.trim s = "" <-> allChars JsStr.isWhitespace s = true.
Proof.
  unfold allChars. rewrite <- trimmed_nil_iff, <- trim_list. split.
  - now intros ->.
  - intros H. rewrite <- (string_list_inv (JsStr.trim s)), H. reflexivity.
Qed.

(** The early return of [parse] changes nothing: a blank header has no
    directive string that is not empty. *)
Lemma parse_directives (h : string) :
  CSPParser.directives (CSPParser.parse h) = directivesOf h.
Proof.
  unfold CSPParser.parse, directivesOf.
  destruct (String.eqb h "" || String.eqb (JsStr.trim h) "") eqn:E;
    [|reflexivity].
  cbn [CSPParser.directives].
  assert (Hb : JsStr.trim h = "").
  { apply orb_true_iff in E. destruct E as [E|E]; apply String.eqb_eq in E.
    - now subst h.
    - exact E. }
  rewrite splitChar_none.
  - simpl. rewrite Hb. reflexivity.
  - apply trim_nil_iff in Hb. unfold allChars in *.
    rewrite forallb_forall in *. intros c Hc. apply Hb in Hc.
    destruct (Ascii.eqb c ";"%char) eqn:Ec; [|reflexivity].
    apply Ascii.eqb_eq in Ec. subst c. discriminate.
Qed.

Lemma collectDirectives_app (l1 l2 : list string) :
  CSPParser.collectDirectives (l1 ++ l2)
  = CSPParser.collectDirectives l1 ++ CSPParser.collectDirectives l2.
Proof.
  induction l1 as [|d l1 IH]; simpl; [reflexivity|].
  destruct (CSPParser.parseDirective d); rewrite IH; reflexivity.
Qed.

Lemma directivesOf_app (h1 h2 : string) :
  directivesOf (h1 ++ String ";"%char h2)
  = directivesOf h1 ++ directivesOf h2.
Proof.
  unfold directivesOf.
  now rewrite splitChar_app, map_app, filter_app, collectDirectives_app.
Qed.

Lemma directivesOf_tokens (h : string) :
  forallb tokensOnly (directivesOf h) = true.
Proof.
  unfold directivesOf.
  pose proof (splitChar_chars (fun _ => True) ";"%char h) as Hp.
  assert (Hall : Forall (fun _ => True) (list_ascii_of_string h))
    by (apply Forall_forall; auto).
  specialize (Hp Hall). clear Hall.
  induction (JsStr.splitChar ";"%char h) as [|x l IH]; [reflexivity|].
  inversion Hp as [|? ? Hx Hl]; subst. specialize (IH Hl).
  cbn [map filter].
  destruct (JsStr.nonEmpty (JsStr.trim x)) eqn:En; [|exact IH].
  cbn [CSPParser.collectDirectives].
  destruct (CSPParser.parseDirective (JsStr.trim x)) as [dir|] eqn:Ed;
    [|exact IH].
  cbn [forallb]. rewrite IH, andb_true_r.
  eapply parseDirective_tokens; [| | |exact Ed].
  - now apply trim_chars.
  - intros c r E. eapply trim_head, E.
  - now apply nonEmpty_true.
Qed.

Lemma isToken_spec (s : string) :
  isToken s = true ->
  s <> "" /\ allChars tokenChar s = true.
Proof.
  unfold isToken. intros H. apply andb_prop in H. destruct H as [H1 H2].
  split; [now apply nonEmpty_true | exact H2].
Qed.

Lemma token_head (s : string) :
  isToken s = true ->
  exists c r, s = String c r /\ tokenChar c = true
              /\ allChars tokenChar r = true.
Proof.
  intros H. apply isToken_spec in H. destruct H as [Hne Ha].
  destruct s as [|c r]; [congruence|]. unfold allChars in *. simpl in Ha.
  apply andb_prop in Ha. destruct Ha. eauto.
Qed.

(** Splitting a token followed by a space and more text at white space. *)
Lemma splitWsFrom_token (t rest : string) (b : bool) :
  allChars tokenChar t = true -> t <> "" ->
  JsStr.splitWsFrom b (t ++ String " "%char rest)
  = t :: JsStr.splitWsFrom true rest.
Proof.
  unfold allChars. revert b.
  induction t as [|c r IH]; intros b Ha Hne; [congruence|].
  simpl in Ha. apply andb_prop in Ha. destruct Ha as [Hc Hr].
  apply tokenChar_spec in Hc. destruct Hc as [_ Hc].
  cbn [append JsStr.splitWsFrom]. rewrite Hc.
  destruct r as [|c' r'].
  - cbn [append JsStr.splitWsFrom].
    change (JsStr.isWhitespace " "%char) with true. cbn iota. reflexivity.
  - rewrite IH by (assumption || discriminate). reflexivity.
Qed.

Lemma splitWsFrom_single (t : string) (b : bool) :
  allChars tokenChar t = true -> t <> "" ->
  JsStr.splitWsFrom b t = [t].
Proof.
  unfold allChars. revert b.
  induction t as [|c r IH]; intros b Ha Hne; [congruence|].
  simpl in Ha. apply andb_prop in Ha. destruct Ha as [Hc Hr].
  apply tokenChar_spec in Hc. destruct Hc as [_ Hc].
  cbn [JsStr.splitWsFrom]. rewrite Hc.
  destruct r as [|c' r']; [reflexivity|].
  rewrite IH by (assumption || discriminate). reflexivity.
Qed.

Lemma concat_cons2 (sep x y : string) (l : list string) :
  String.concat sep (x :: y :: l)
  = (x ++ sep ++ String.concat sep (y :: l))%string.
Proof. reflexivity. Qed.

Lemma splitWsFrom_tokens (ts : list string) :
  ts <> [] -> forallb isToken ts = true ->
  forall b, JsStr.splitWsFrom b (JsStr.join " " ts) = ts.
Proof.
  induction ts as [|t ts IH]; [congruence|]. intros _ Ha b.
  cbn [forallb] in Ha. apply andb_prop in Ha. destruct Ha as [Ht Hts].
  apply isToken_spec in Ht. destruct Ht as [Hne Hc].
  unfold JsStr.join in *. destruct ts as [|t' ts'].
  - simpl. now apply splitWsFrom_single.
  - rewrite concat_cons2.
    change (" " ++ String.concat " " (t' :: ts'))%string
      with (String " "%char (String.concat " " (t' :: ts'))).
    rewrite splitWsFrom_token by assumption.
    f_equal. apply IH; [discriminate | exact Hts].
Qed.

Lemma join_tokens_chars (ts : list string) :
  forallb isToken ts = true ->
  Forall (fun c => c <> ";"%char) (list_ascii_of_string (JsStr.join " " ts)).
Proof.
  unfold JsStr.join. induction ts as [|t ts IH]; intros Ha.
  - constructor.
  - cbn [forallb] in Ha. apply andb_prop in Ha. destruct Ha as [Ht Hts].
    apply isToken_spec in Ht. destruct Ht as [_ Hc].
    assert (Htc : Forall (fun c => c <> ";"%char) (list_ascii_of_string t)).
    { apply Forall_forall. intros c Hin. unfold allChars in Hc.
      rewrite forallb_forall in Hc. apply Hc in Hin.
      now apply tokenChar_spec in Hin. }
    destruct ts as [|t' ts']; [exact Htc|].
    rewrite concat_cons2, !list_ascii_app. apply Forall_app.
    split; [exact Htc|]. apply Forall_app. split.
    + repeat constructor. discriminate.
    + apply IH, Hts.
Qed.

Lemma rev_head_last {A} (l : list A) (x : A) :
  rev (l ++ [x]) = x :: rev l.
Proof. now rewrite rev_app_distr. Qed.

(** The first and the last character of a line of tokens. *)
Lemma join_tokens_edges (ts : list string) :
  ts <> [] -> forallb isToken ts = true ->
  let l := list_ascii_of_string (JsStr.join " " ts) in
  match l with [] => False | c :: _ => JsStr.isWhitespace c = false end
  /\ match rev l with [] => False | c :: _ => JsStr.isWhitespace c = false end.
Proof.
  unfold JsStr.join.
  induction ts as [|t ts IH]; [congruence|]. intros _ Ha.
  cbn [forallb] in Ha. apply andb_prop in Ha. destruct Ha as [Ht Hts].
  pose proof Ht as Ht'. apply token_head in Ht.
  destruct Ht as (c & r & -> & Hc & Hr).
  apply tokenChar_spec in Hc. destruct Hc as [_ Hc].
  assert (Hlast : match rev (list_ascii_of_string (String c r)) with
                  | [] => False
                  | x :: _ => JsStr.isWhitespace x = false
                  end).
  { assert (Hall : Forall (fun x => JsStr.isWhitespace x = false)
                     (rev (list_ascii_of_string (String c r)))).
    { apply Forall_rev. apply Forall_forall. intros x Hx.
      apply isToken_spec in Ht'. destruct Ht' as [_ Ht'].
      unfold allChars in Ht'. rewrite forallb_forall in Ht'.
      apply Ht' in Hx. now apply tokenChar_spec in Hx. }
    destruct (rev (list_ascii_of_string (String c r))) eqn:E.
    - apply (f_equal (@List.length ascii)) in E. rewrite length_rev in E.
      simpl in E. discriminate.
    - now inversion Hall. }
  destruct ts as [|t' ts'].
  - cbn [String.concat]. split; [exact Hc | exact Hlast].
  - rewrite concat_cons2. split; [exact Hc|].
    destruct (IH ltac:(discriminate) Hts) as [_ IH2].
    rewrite !list_ascii_app, !rev_app_distr.
    destruct (rev (list_ascii_of_string (String.concat " " (t' :: ts'))));
      [contradiction|].
    exact IH2.
Qed.

Lemma trim_line (ts : list string) :
  ts <> [] -> forallb isToken ts = true ->
  JsStr.trim (JsStr.join " " ts) = JsStr.join " " ts
  /\ JsStr.join " " ts <> "".
Proof.
  intros Hne Ha. destruct (join_tokens_edges ts Hne Ha) as [H1 H2].
  split.
  - rewrite <- (string_list_inv (JsStr.trim _)), trim_list.
    rewrite trimmed_id.
    + apply string_list_inv.
    + destruct (list_ascii_of_string (JsStr.join " " ts)); tauto.
    + destruct (rev (list_ascii_of_string (JsStr.join " " ts))); tauto.
  - intros E. rewrite E in H1. exact H1.
Qed.

Lemma directivesOf_line (d : CSPParser.CSPDirective) :
  tokensOnly d = true ->
  directivesOf (renderDirective d) = [d].
Proof.
  intros Hd. unfold tokensOnly in Hd. apply andb_prop in Hd.
  destruct Hd as [Hn Hv].
  assert (Hts : forallb isToken (CSPParser.dname d :: CSPParser.values d)
                = true) by (cbn [forallb]; now rewrite Hn, Hv).
  assert (Hne : CSPParser.dname d :: CSPParser.values d <> [])
    by discriminate.
  destruct (trim_line _ Hne Hts) as [Etrim Hnonempty].
  unfold directivesOf, renderDirective.
  rewrite splitChar_none.
  - cbn [map filter]. rewrite Etrim.
    apply nonEmpty_true in Hnonempty. rewrite Hnonempty.
    cbn [CSPParser.collectDirectives].
    unfold CSPParser.parseDirective, JsStr.splitWhitespace.
    rewrite splitWsFrom_tokens by assumption.
    assert (En : JsStr.trim (CSPParser.dname d) = CSPParser.dname d).
    { apply trim_wsfree, wsfree_of_token.
      now apply isToken_spec in Hn. }
    assert (Ev : filter JsStr.nonEmpty (map JsStr.trim (CSPParser.values d))
                 = CSPParser.values d).
    { clear - Hv. induction (CSPParser.values d) as [|v vs IH];
        [reflexivity|].
      cbn [forallb] in Hv. apply andb_prop in Hv. destruct Hv as [H1 H2].
      cbn [map filter]. apply isToken_spec in H1. destruct H1 as [Hne Hc].
      rewrite (trim_wsfree v) by now apply wsfree_of_token.
      apply nonEmpty_true in Hne. rewrite Hne. now rewrite IH. }
    rewrite En, Ev. destruct d; reflexivity.
  - unfold allChars. apply forallb_forall. intros c Hc.
    pose proof (join_tokens_chars _ Hts) as Hs.
    rewrite Forall_forall in Hs. apply Hs in Hc.
    apply negb_true_iff. now apply Ascii.eqb_neq.
Qed.

Lemma splitChar_cons (sep c : ascii) (s : string) :
  Ascii.eqb c sep = false ->
  exists p ps,
    JsStr.splitChar sep s = p :: ps
    /\ JsStr.splitChar sep (String c s) = String c p :: ps.
Proof.
  intros H. simpl. rewrite H.
  destruct (JsStr.splitChar sep s) as [|p ps] eqn:E.
  - now apply splitChar_not_nil in E.
  - exists p, ps. split; reflexivity.
Qed.

Lemma trim_cons_ws (c : ascii) (s : string) :
  JsStr.isWhitespace c = true -> JsStr.trim (String c s) = JsStr.trim s.
Proof.
  intros H. rewrite <- (string_list_inv (JsStr.trim (String c s))), trim_list.
  simpl list_ascii_of_string. rewrite trimmed_cons_ws by exact H.
  rewrite <- trim_list. apply string_list_inv.
Qed.

(** White space in front of a header makes no difference. *)
Lemma directivesOf_cons_ws (c : ascii) (h : string) :
  JsStr.isWhitespace c = true ->
  directivesOf (String c h) = directivesOf h.
Proof.
  intros H. unfold directivesOf.
  assert (Hsep : Ascii.eqb c ";"%char = false).
  { destruct (Ascii.eqb c ";"%char) eqn:E; [|reflexivity].
    apply Ascii.eqb_eq in E. subst c. discriminate. }
  destruct (splitChar_cons ";"%char c h Hsep) as (p & ps & E1 & E2).
  rewrite E1, E2. cbn [map]. now rewrite trim_cons_ws.
Qed.

Lemma directivesOf_render (ds : list CSPParser.CSPDirective) :
  forallb tokensOnly ds = true ->
  directivesOf (renderPolicy ds) = ds.
Proof.
  unfold renderPolicy, JsStr.join.
  induction ds as [|d ds IH]; intros Ha; [reflexivity|].
  cbn [forallb] in Ha. apply andb_prop in Ha. destruct Ha as [Hd Hds].
  destruct ds as [|d' ds'].
  - cbn [map String.concat]. now apply directivesOf_line.
  - cbn [map]. rewrite concat_cons2.
    change (renderDirective d ++ "; "
            ++ String.concat "; "
                 (renderDirective d' :: map renderDirective ds'))%string
      with (renderDirective d
            ++ String ";"%char
                 (String " "%char
                    (String.concat "; "
                       (renderDirective d' :: map renderDirective ds'))))%string.
    rewrite directivesOf_app, directivesOf_cons_ws by reflexivity.
    rewrite directivesOf_line by exact Hd.
    specialize (IH Hds). cbn [map] in IH. rewrite IH. reflexivity.
Qed.

(** X1. Whatever the header, every directive that [CSPParser.parse] returns
    has a name that is not empty and free of white space and semicolons,
    and so is each of its values. *)
Theorem parse_gives_tokens (cspHeader : string) :
  forallb tokensOnly (CSPParser.directives (CSPParser.parse cspHeader))
  = true.
Proof. rewrite parse_directives. apply directivesOf_tokens. Qed.

(** X2. The directives of two headers joined by a semicolon are those of
    the first followed by those of the second: empty parts and blank parts
    between semicolons give nothing. *)
Theorem parse_distributes_over_semicolon (h1 h2 : string) :
  CSPParser.directives (CSPParser.parse (h1 ++ ";" ++ h2))
  = CSPParser.directives (CSPParser.parse h1)
    ++ CSPParser.directives (CSPParser.parse h2).
Proof.
  rewrite !parse_directives. apply directivesOf_app.
Qed.

(** X3. Writing a list of directives out and parsing the text gives the
    list back, when the names and the values are tokens; the raw text is
    kept as it is. *)
Theorem parse_render_round_trip (ds : list CSPParser.CSPDirective) :
  forallb tokensOnly ds = true ->
  CSPParser.parse (renderPolicy ds)
  = {| CSPParser.directives := ds; CSPParser.raw := renderPolicy ds |}.
Proof.
  intros H.
  assert (Hraw : CSPParser.raw (CSPParser.parse (renderPolicy ds))
                 = renderPolicy ds).
  { unfold CSPParser.parse.
    destruct (String.eqb (renderPolicy ds) ""
              || String.eqb (JsStr.trim (renderPolicy ds)) "");
      reflexivity. }
  pose proof (parse_directives (renderPolicy ds)) as Hd.
  rewrite directivesOf_render in Hd by exact H.
  destruct (CSPParser.parse (renderPolicy ds)); simpl in *. now subst.
Qed.

Lemma parse_render_round_trip_witness :
  let ds := [ {| CSPParser.dname := "default-src";
                 CSPParser.values := ["'self'"] |};
              {| CSPParser.dname := "script-src";
                 CSPParser.values := ["'self'"; "https://example.com"] |};
              {| CSPParser.dname := "object-src"; CSPParser.values := [] |} ] in
  renderPolicy ds
  = "default-src 'self'; script-src 'self' https://example.com; object-src"
  /\ CSPParser.directives (CSPParser.parse (renderPolicy ds)) = ds.
Proof.
  intros ds. split; [reflexivity|].
  rewrite (parse_render_round_trip ds); reflexivity.
Defined.

(** ** The checks of the policy header *)

Lemma pushIf_length (c : bool) (f : Finding) :
  List.length (CspUntrustedScript.pushIf c f) <= 1.
Proof. destruct c; simpl; lia. Qed.

Lemma pushIf_Forall (P : Finding -> Prop) (c : bool) (f : Finding) :
  P f -> Forall P (CspUntrustedScript.pushIf c f).
Proof. destruct c; simpl; intros; repeat constructor; assumption. Qed.

Lemma pushIf_nil (c : bool) (f : Finding) :
  CspUntrustedScript.pushIf c f = [] <-> c = false.
Proof. destruct c; simpl; split; congruence. Qed.

Lemma app_nil_iff {A} (l1 l2 : list A) :
  l1 ++ l2 = [] <-> l1 = [] /\ l2 = [].
Proof.
  split; [apply app_eq_nil | intros [-> ->]; reflexivity].
Qed.

Lemma https_not_http (v : string) :
  JsStr.startsWith v "http:" && negb (JsStr.startsWith v "https:")
  = JsStr.startsWith v "http:".
Proof.
  unfold JsStr.startsWith.
  destruct (String.prefix "http:" v) eqn:E; [|reflexivity].
  destruct v as [|a [|b [|c [|d [|e v]]]]]; simpl in E; try discriminate.
  all: repeat match type of E with
              | (if ?x then _ else _) = true =>
                  destruct x as [<-|]; [|discriminate]
              end.
  all: try discriminate.
  reflexivity.
Qed.

Lemma filter_nil_iff {A} (p : A -> bool) (l : list A) :
  filter p l = [] <-> forallb (fun x => negb (p x)) l = true.
Proof.
  induction l as [|x l IH]; simpl; [tauto|].
  destruct (p x); simpl; [|exact IH]. split; discriminate.
Qed.

Lemma length_zero_iff {A} (l : list A) :
  negb (Nat.eqb (List.length l) 0) = false <-> l = [].
Proof. destruct l; simpl; split; congruence. Qed.

Lemma arrayIncludes_false (vals : list string) (x : string) :
  JsStr.arrayIncludes vals x = false
  <-> forallb (fun v => negb (String.eqb v x)) vals = true.
Proof.
  unfold JsStr.arrayIncludes. induction vals as [|v vs IH]; simpl; [tauto|].
  rewrite (String.eqb_sym x v).
  destruct (String.eqb v x); simpl; [|exact IH]. split; discriminate.
Qed.

(** The shape of the result of the step on a policy. *)
Lemma untrustedScript_cases (state : JSONValue) (context : StepContext) :
  match policyOf (sc_target context) with
  | None =>
      CspUntrustedScript.checkCspUntrustedScript state context
      = Returns (done (Some state) None None)
  | Some cspValue =>
      match scriptDirective (CSPParser.parse cspValue) with
      | None =>
          CspUntrustedScript.checkCspUntrustedScript state context
          = Returns (done (Some state) None None)
      | Some eff =>
          exists f1 f2 f3 f4 f5,
            let vals := CSPParser.values eff in
            CspUntrustedScript.checkCspUntrustedScript state context
            = Returns
                (done (Some state)
                   (Some
                      (CspUntrustedScript.pushIf
                         (JsStr.arrayIncludes vals "'unsafe-inline'") f1
                       ++ CspUntrustedScript.pushIf
                            (JsStr.arrayIncludes vals "'unsafe-eval'") f2
                       ++ CspUntrustedScript.pushIf
                            (JsStr.arrayIncludes vals "*") f3
                       ++ CspUntrustedScript.pushIf
                            (negb (Nat.eqb
                               (List.length
                                  (filter
                                     (fun v => JsStr.startsWith v "data:"
                                               || JsStr.startsWith v "blob:")
                                     vals)) 0)) f4
                       ++ CspUntrustedScript.pushIf
                            (negb (Nat.eqb
                               (List.length
                                  (filter
                                     (fun v =>
                                        JsStr.startsWith v "http:"
                                        && negb (JsStr.startsWith v "https:"))
                                     vals)) 0)) f5))
                   None)
            /\ severity f1 = HIGH /\ severity f2 = HIGH
            /\ severity f3 = CRITICAL /\ severity f4 = HIGH
            /\ severity f5 = MEDIUM
            /\ Forall (fun f =>
                         name f = CspUntrustedScript.findingName
                         /\ correlation f
                            = {| requestID :=
                                   getId (request (sc_target context));
                                 locations := [] |})
                      [f1; f2; f3; f4; f5]
      end
  end.
Proof.
  unfold policyOf, contentTypeOf, scriptDirective, directiveNamed,
    CspUntrustedScript.checkCspUntrustedScript.
  destruct (response (sc_target context)) as [res|]; [|reflexivity].
  destruct (JsStr.includes
              match getHeader res "content-type" with
              | Some (h :: _) => h
              | _ => ""
              end "text/html"); [|reflexivity].
  cbn [negb].
  destruct (getHeader res "content-security-policy") as [[|cspValue rest]|];
    [reflexivity| |reflexivity].
  cbv zeta.
  destruct (find (fun d => String.eqb (CSPParser.dname d) "script-src")
              (CSPParser.directives (CSPParser.parse cspValue))) as [d|].
  - do 5 eexists. split; [reflexivity|]. repeat split.
    repeat constructor.
  - destruct (find (fun d => String.eqb (CSPParser.dname d) "default-src")
                (CSPParser.directives (CSPParser.parse cspValue))) as [d|];
      [|reflexivity].
    do 5 eexists. split; [reflexivity|]. repeat split.
    repeat constructor.
Qed.

Lemma untrustedScriptSource_false (v : string) :
  untrustedScriptSource v = false
  <-> (String.eqb v "'unsafe-inline'" = false
       /\ String.eqb v "'unsafe-eval'" = false
       /\ String.eqb v "*" = false
       /\ JsStr.startsWith v "data:" || JsStr.startsWith v "blob:" = false
       /\ JsStr.startsWith v "http:" = false).
Proof.
  unfold untrustedScriptSource, looseSource.
  destruct (String.eqb v "'unsafe-inline'"), (String.eqb v "'unsafe-eval'"),
    (String.eqb v "*"), (JsStr.startsWith v "data:"),
    (JsStr.startsWith v "blob:"), (JsStr.startsWith v "http:");
    simpl; intuition congruence.
Qed.

Lemma sources_clean (vals : list string) :
  (JsStr.arrayIncludes vals "'unsafe-inline'" = false
   /\ JsStr.arrayIncludes vals "'unsafe-eval'" = false
   /\ JsStr.arrayIncludes vals "*" = false
   /\ filter (fun v => JsStr.startsWith v "data:"
                       || JsStr.startsWith v "blob:") vals = []
   /\ filter (fun v => JsStr.startsWith v "http:"
                       && negb (JsStr.startsWith v "https:")) vals = [])
  <-> forallb (fun v => negb (untrustedScriptSource v)) vals = true.
Proof.
  rewrite !arrayIncludes_false, !filter_nil_iff, !forallb_forall.
  split.
  - intros (H1 & H2 & H3 & H4 & H5) v Hv.
    specialize (H1 v Hv). specialize (H2 v Hv). specialize (H3 v Hv).
    specialize (H4 v Hv). specialize (H5 v Hv).
    rewrite https_not_http in H5.
    apply negb_true_iff in H1, H2, H3, H4, H5.
    apply negb_true_iff, untrustedScriptSource_false. tauto.
  - intros H.
    assert (H' : forall v, In v vals ->
               String.eqb v "'unsafe-inline'" = false
               /\ String.eqb v "'unsafe-eval'" = false
               /\ String.eqb v "*" = false
               /\ JsStr.startsWith v "data:" || JsStr.startsWith v "blob:"
                  = false
               /\ JsStr.startsWith v "http:" = false).
    { intros v Hv. apply untrustedScriptSource_false, negb_true_iff, H, Hv. }
    repeat split; intros v Hv; destruct (H' v Hv) as (A & B & C & D & E);
      rewrite ?https_not_http; apply negb_true_iff; assumption.
Qed.

(** X4. The step of [csp-untrusted-script] always ends the check at once,
    with the state it was given and no output, and reports at most five
    findings; each is named as the check, is about the request of the
    target, has no location, and has a severity that the metadata of the
    check declares. *)
Theorem untrusted_script_findings_declared (key : ScanTarget -> string)
  (state : JSONValue) (context : StepContext) :
  let o := CspUntrustedScript.checkCspUntrustedScript state context in
  endsWith o state
  /\ List.length (findingsOf o) <= 5
  /\ Forall (findingOf (CspUntrustedScript.check key) (sc_target context))
       (findingsOf o).
Proof.
  intros o. subst o. unfold endsWith.
  pose proof (untrustedScript_cases state context) as H.
  destruct (policyOf (sc_target context)) as [cspValue|].
  2:{ rewrite H. split; [eauto|]. simpl. split; [lia | constructor]. }
  destruct (scriptDirective (CSPParser.parse cspValue)) as [eff|].
  2:{ rewrite H. split; [eauto|]. simpl. split; [lia | constructor]. }
  destruct H as (f1 & f2 & f3 & f4 & f5 & H & S1 & S2 & S3 & S4 & S5 & Hall).
  cbv zeta in H. rewrite H. split; [eauto|].
  cbn [findingsOf orEmpty]. split.
  - rewrite !length_app.
    repeat match goal with
           | |- context [List.length (CspUntrustedScript.pushIf ?c ?f)] =>
               let L := fresh "L" in
               pose proof (pushIf_length c f) as L;
               generalize dependent (List.length
                                       (CspUntrustedScript.pushIf c f));
               intros
           end.
    lia.
  - assert (Hf : Forall (findingOf (CspUntrustedScript.check key)
                           (sc_target context)) [f1; f2; f3; f4; f5]).
    { assert (Hs : Forall (fun f => In (severity f) [MEDIUM; HIGH; CRITICAL])
                     [f1; f2; f3; f4; f5]).
      { repeat constructor; rewrite ?S1, ?S2, ?S3, ?S4, ?S5; simpl; tauto. }
      rewrite Forall_forall in *. intros f Hin.
      destruct (Hall f Hin) as [Hn Hc]. unfold findingOf.
      split; [exact Hn|]. split; [apply Hs, Hin | exact Hc]. }
    inversion Hf as [|? ? F1 Hf1]; subst.
    inversion Hf1 as [|? ? F2 Hf2]; subst.
    inversion Hf2 as [|? ? F3 Hf3]; subst.
    inversion Hf3 as [|? ? F4 Hf4]; subst.
    inversion Hf4 as [|? ? F5 _]; subst.
    repeat (apply Forall_app; split); now apply pushIf_Forall.
Qed.

(** X5. A target that the [when] predicate of [csp-untrusted-script]
    rejects (no response, or a content type without [text/html]) gets no
    finding from the step either: the step returns [done] with the state
    and nothing else. *)
Theorem untrusted_script_when_guards_step (key : ScanTarget -> string)
  (state : JSONValue) (context : StepContext) :
  accepts (CspUntrustedScript.check key) (sc_target context) = false ->
  CspUntrustedScript.checkCspUntrustedScript state context
  = Returns (done (Some state) None None).
Proof.
  unfold accepts. cbn [when CspUntrustedScript.check]. intros Hw.
  pose proof (untrustedScript_cases state context) as H.
  unfold policyOf, contentTypeOf in H.
  destruct (response (sc_target context)) as [res|]; [|exact H].
  rewrite Hw in H. exact H.
Qed.

Lemma untrusted_script_when_guards_step_witness :
  let context :=
    {| sc_target := {| request := Sample.request1; response := None |};
       sc_config := Sample.config;
       sc_dependencies := fun _ => None |} in
  CspUntrustedScript.checkCspUntrustedScript JNull context
  = Returns (done (Some JNull) None None).
Proof.
  intros context.
  apply (untrusted_script_when_guards_step Sample.hostKey JNull context).
  reflexivity.
Defined.

(** X6. The step of [csp-untrusted-script] reports nothing exactly when the
    directive that governs scripts ([script-src], or [default-src] when
    there is no [script-src]) has none of the values ['unsafe-inline'],
    ['unsafe-eval'] and [*] and no value that starts with [data:], [blob:]
    or [http:], or when there is no such directive or no policy to read. *)
Theorem untrusted_script_silent_iff_trusted (state : JSONValue)
  (context : StepContext) :
  findingsOf (CspUntrustedScript.checkCspUntrustedScript state context) = []
  <-> trustedScripts (sc_target context) = true.
Proof.
  unfold trustedScripts.
  pose proof (untrustedScript_cases state context) as H.
  destruct (policyOf (sc_target context)) as [cspValue|].
  2:{ rewrite H. simpl. tauto. }
  destruct (scriptDirective (CSPParser.parse cspValue)) as [eff|].
  2:{ rewrite H. simpl. tauto. }
  destruct H as (f1 & f2 & f3 & f4 & f5 & H & _).
  cbv zeta in H. rewrite H. cbn [findingsOf orEmpty].
  rewrite <- sources_clean, !app_nil_iff, !pushIf_nil, !length_zero_iff.
  tauto.
Qed.

Lemma clickjacking_cases (state : JSONValue) (context : StepContext) :
  match policyOf (sc_target context) with
  | None =>
      CspClickjacking.checkCspClickjacking state context
      = Returns (done (Some state) None None)
  | Some cspValue =>
      match directiveNamed "frame-ancestors" (CSPParser.parse cspValue) with
      | None =>
          exists f,
            CspClickjacking.checkCspClickjacking state context
            = Returns (done (Some state) (Some [f]) None)
            /\ severity f = MEDIUM
            /\ findingAbout CspClickjacking.findingName context f
      | Some d =>
          exists f1 f2 f3,
            let vals := CSPParser.values d in
            CspClickjacking.checkCspClickjacking state context
            = Returns
                (done (Some state)
                   (Some
                      (CspUntrustedScript.pushIf
                         (JsStr.arrayIncludes vals "*") f1
                       ++ CspUntrustedScript.pushIf
                            (negb (Nat.eqb
                               (List.length
                                  (filter
                                     (fun v => JsStr.startsWith v "data:"
                                               || JsStr.startsWith v "blob:")
                                     vals)) 0)) f2
                       ++ CspUntrustedScript.pushIf
                            (negb (Nat.eqb
                               (List.length
                                  (filter
                                     (fun v =>
                                        JsStr.startsWith v "http:"
                                        && negb (JsStr.startsWith v "https:"))
                                     vals)) 0)) f3))
                   None)
            /\ severity f1 = HIGH /\ severity f2 = MEDIUM
            /\ severity f3 = LOW
            /\ Forall (findingAbout CspClickjacking.findingName context)
                 [f1; f2; f3]
      end
  end.
Proof.
  unfold policyOf, contentTypeOf, directiveNamed,
    CspClickjacking.checkCspClickjacking.
  destruct (response (sc_target context)) as [res|]; [|reflexivity].
  destruct (JsStr.includes
              match getHeader res "content-type" with
              | Some (h :: _) => h
              | _ => ""
              end "text/html"); [|reflexivity].
  cbn [negb].
  destruct (getHeader res "content-security-policy") as [[|cspValue rest]|];
    [reflexivity| |reflexivity].
  cbv zeta.
  destruct (find (fun d => String.eqb (CSPParser.dname d) "frame-ancestors")
              (CSPParser.directives (CSPParser.parse cspValue))) as [d|].
  - do 3 eexists. split; [reflexivity|]. repeat split.
    repeat constructor; split; reflexivity.
  - eexists. split; [reflexivity|]. repeat split.
Qed.

Lemma formHijacking_cases (state : JSONValue) (context : StepContext) :
  match policyOf (sc_target context) with
  | None =>
      CspFormHijacking.checkCspFormHijacking state context
      = Returns (done (Some state) None None)
  | Some cspValue =>
      match directiveNamed "form-action" (CSPParser.parse cspValue) with
      | None =>
          exists f,
            CspFormHijacking.checkCspFormHijacking state context
            = Returns (done (Some state) (Some [f]) None)
            /\ severity f = MEDIUM
            /\ findingAbout CspFormHijacking.findingName context f
      | Some d =>
          exists f1 f2 f3,
            let vals := CSPParser.values d in
            CspFormHijacking.checkCspFormHijacking state context
            = Returns
                (done (Some state)
                   (Some
                      (CspUntrustedScript.pushIf
                         (JsStr.arrayIncludes vals "*") f1
                       ++ CspUntrustedScript.pushIf
                            (negb (Nat.eqb
                               (List.length
                                  (filter
                                     (fun v => JsStr.startsWith v "data:"
                                               || JsStr.startsWith v "blob:")
                                     vals)) 0)) f2
                       ++ CspUntrustedScript.pushIf
                            (negb (Nat.eqb
                               (List.length
                                  (filter
                                     (fun v =>
                                        JsStr.startsWith v "http:"
                                        && negb (JsStr.startsWith v "https:"))
                                     vals)) 0)) f3))
                   None)
            /\ severity f1 = HIGH /\ severity f2 = MEDIUM
            /\ severity f3 = LOW
            /\ Forall (findingAbout CspFormHijacking.findingName context)
                 [f1; f2; f3]
      end
  end.
Proof.
  unfold policyOf, contentTypeOf, directiveNamed,
    CspFormHijacking.checkCspFormHijacking.
  destruct (response (sc_target context)) as [res|]; [|reflexivity].
  destruct (JsStr.includes
              match getHeader res "content-type" with
              | Some (h :: _) => h
              | _ => ""
              end "text/html"); [|reflexivity].
  cbn [negb].
  destruct (getHeader res "content-security-policy") as [[|cspValue rest]|];
    [reflexivity| |reflexivity].
  cbv zeta.
  destruct (find (fun d => String.eqb (CSPParser.dname d) "form-action")
              (CSPParser.directives (CSPParser.parse cspValue))) as [d|].
  - do 3 eexists. split; [reflexivity|]. repeat split.
    repeat constructor; split; reflexivity.
  - eexists. split; [reflexivity|]. repeat split.
Qed.

Lemma malformedSyntax_cases (state : JSONValue) (context : StepContext) :
  match policyOf (sc_target context) with
  | None =>
      CspMalformedSyntax.checkCspMalformedSyntax state context
      = Returns (done (Some state) None None)
  | Some cspValue =>
      let directives := CSPParser.directives (CSPParser.parse cspValue) in
      let names := map CSPParser.dname directives in
      exists f1 f2 f3,
        CspMalformedSyntax.checkCspMalformedSyntax state context
        = Returns
            (done (Some state)
               (Some
                  (CspUntrustedScript.pushIf
                     (existsb
                        (fun d =>
                           String.eqb (CSPParser.dname d) ""
                           || String.eqb (JsStr.trim (CSPParser.dname d)) "")
                        directives) f1
                   ++ match find (fun d =>
                                    negb (JsStr.arrayIncludes
                                            CspMalformedSyntax.validDirectives
                                            (CSPParser.dname d)))
                                 directives with
                      | Some d => [f2 d]
                      | None => []
                      end
                   ++ CspUntrustedScript.pushIf
                        (negb (Nat.eqb
                           (List.length
                              (CspMalformedSyntax.filterFrom
                                 (fun name index =>
                                    negb (Z.eqb
                                            (CspMalformedSyntax.indexOf names
                                               name) index))
                                 0%Z names)) 0)) f3))
               None)
        /\ severity f1 = MEDIUM /\ (forall d, severity (f2 d) = MEDIUM)
        /\ severity f3 = LOW
        /\ findingAbout CspMalformedSyntax.findingName context f1
        /\ (forall d, findingAbout CspMalformedSyntax.findingName context
                        (f2 d))
        /\ findingAbout CspMalformedSyntax.findingName context f3
  end.
Proof.
  unfold policyOf, contentTypeOf,
    CspMalformedSyntax.checkCspMalformedSyntax.
  destruct (response (sc_target context)) as [res|]; [|reflexivity].
  destruct (JsStr.includes
              match getHeader res "content-type" with
              | Some (h :: _) => h
              | _ => ""
              end "text/html"); [|reflexivity].
  cbn [negb].
  destruct (getHeader res "content-security-policy") as [[|cspValue rest]|];
    [reflexivity| |reflexivity].
  cbv zeta.
  do 3 eexists.
  split; [reflexivity|]. repeat split.
Qed.

Lemma prefix_trans (a b c : string) :
  String.prefix a b = true -> String.prefix b c = true ->
  String.prefix a c = true.
Proof.
  revert b c. induction a as [|x a IH]; intros b c Hab Hbc;
    [destruct c; reflexivity|].
  destruct b as [|y b]; [discriminate|].
  destruct c as [|z c]; [discriminate|].
  simpl in *. destruct (ascii_dec x y) as [->|]; [|discriminate].
  destruct (ascii_dec y z) as [->|]; [|discriminate].
  destruct (ascii_dec z z); [|congruence]. eapply IH; eassumption.
Qed.

Lemma includes_nil (sub : string) :
  JsStr.includes "" sub = String.prefix sub "" || false.
Proof. reflexivity. Qed.

Lemma includes_cons (c : ascii) (s sub : string) :
  JsStr.includes (String c s) sub
  = String.prefix sub (String c s) || JsStr.includes s sub.
Proof. reflexivity. Qed.

(** Tests that agree on every element agree on every list. *)
Lemma forallb_agree {A} (f g : A -> bool) (l : list A) :
  (forall x, f x = g x) -> forallb f l = forallb g l.
Proof.
  intros H. induction l as [|x r IH]; [reflexivity|]. simpl.
  now rewrite H, IH.
Qed.

(** A string that includes a text includes the beginnings of that text. *)
Lemma includes_prefix (s sub p : string) :
  String.prefix p sub = true ->
  JsStr.includes s sub = true -> JsStr.includes s p = true.
Proof.
  intros Hp. induction s as [|c s IH]; intros H.
  - rewrite includes_nil in *. apply orb_true_iff in H.
    destruct H as [H|H]; [|discriminate].
    now rewrite (prefix_trans _ _ _ Hp H).
  - rewrite includes_cons in *. apply orb_true_iff in H.
    destruct H as [H|H].
    + now rewrite (prefix_trans _ _ _ Hp H).
    + rewrite (IH H). apply orb_true_r.
Qed.

Lemma https_not_http_slashes (v : string) :
  JsStr.startsWith v "http://" && negb (JsStr.startsWith v "https://")
  = JsStr.startsWith v "http://".
Proof.
  unfold JsStr.startsWith.
  destruct (String.prefix "http://" v) eqn:E; [|reflexivity].
  destruct v as [|a [|b [|c [|d [|e v]]]]]; simpl in E; try discriminate.
  all: repeat match type of E with
              | (if ?x then _ else _) = true =>
                  destruct x as [<-|]; [|discriminate]
              end.
  all: try discriminate.
  reflexivity.
Qed.

Lemma ltb_zero_length {A} (l : list A) :
  (0 <? List.length l)%nat = false <-> l = [].
Proof. destruct l; unfold Nat.ltb; simpl; split; congruence. Qed.

Lemma allowlistedScripts_cases (state : JSONValue) (context : StepContext) :
  match policyOf (sc_target context) with
  | None =>
      CspAllowlistedScripts.checkCspAllowlistedScripts state context
      = Returns (done (Some state) None None)
  | Some cspValue =>
      match scriptDirective (CSPParser.parse cspValue) with
      | None =>
          CspAllowlistedScripts.checkCspAllowlistedScripts state context
          = Returns (done (Some state) None None)
      | Some eff =>
          exists f1 f2 f3 f4 f5,
            let sources := CSPParser.values eff in
            CspAllowlistedScripts.checkCspAllowlistedScripts state context
            = Returns
                (done (Some state)
                   (Some
                      (CspUntrustedScript.pushIf
                         (5 <? List.length (filter externalSource sources))%nat
                         f1
                       ++ CspUntrustedScript.pushIf
                            (3 <? List.length (filter cdnSource sources))%nat
                            f2
                       ++ CspUntrustedScript.pushIf
                            (0 <? List.length
                                    (filter
                                       (fun source =>
                                          JsStr.includes source "*."
                                          || JsStr.includes source "*.com"
                                          || JsStr.includes source "*.org")
                                       sources))%nat f3
                       ++ CspUntrustedScript.pushIf
                            (0 <? List.length
                                    (filter
                                       (fun source =>
                                          JsStr.startsWith source "http://"
                                          && negb (JsStr.startsWith source
                                                     "https://"))
                                       sources))%nat f4
                       ++ CspUntrustedScript.pushIf
                            (0 <? List.length
                                    (filter
                                       (fun source =>
                                          JsStr.includes source "*.google.com"
                                          || JsStr.includes source
                                               "*.microsoft.com"
                                          || JsStr.includes source
                                               "*.amazon.com"
                                          || JsStr.includes source
                                               "*.cloudflare.com")
                                       sources))%nat f5))
                   None)
            /\ severity f1 = MEDIUM /\ severity f2 = LOW
            /\ severity f3 = MEDIUM /\ severity f4 = LOW
            /\ severity f5 = LOW
            /\ Forall (findingAbout CspAllowlistedScripts.findingName context)
                 [f1; f2; f3; f4; f5]
      end
  end.
Proof.
  unfold policyOf, contentTypeOf, scriptDirective, directiveNamed,
    CspAllowlistedScripts.checkCspAllowlistedScripts.
  destruct (response (sc_target context)) as [res|]; [|reflexivity].
  destruct (JsStr.includes
              match getHeader res "content-type" with
              | Some (h :: _) => h
              | _ => ""
              end "text/html"); [|reflexivity].
  cbn [negb].
  destruct (getHeader res "content-security-policy") as [[|cspValue rest]|];
    [reflexivity| |reflexivity].
  cbv zeta.
  destruct (find (fun d => String.eqb (CSPParser.dname d) "script-src")
              (CSPParser.directives (CSPParser.parse cspValue))) as [d|].
  - do 5 eexists. split; [reflexivity|]. repeat split.
    repeat constructor; split; reflexivity.
  - destruct (find (fun d => String.eqb (CSPParser.dname d) "default-src")
                (CSPParser.directives (CSPParser.parse cspValue))) as [d|];
      [|reflexivity].
    do 5 eexists. split; [reflexivity|]. repeat split.
    repeat constructor; split; reflexivity.
Qed.

(** The first position of a name. *)
Lemma indexOf_nonneg (names : list string) (x : string) :
  In x names -> (0 <= CspMalformedSyntax.indexOf names x)%Z.
Proof.
  induction names as [|n rest IH]; simpl; [tauto|]. intros [->|H].
  - rewrite String.eqb_refl. lia.
  - destruct (String.eqb n x); [lia|]. specialize (IH H).
    destruct (CspMalformedSyntax.indexOf rest x <? 0)%Z eqn:E; lia.
Qed.

Lemma indexOf_first (pre suf : list string) (x : string) :
  CspMalformedSyntax.indexOf (pre ++ x :: suf) x
  = Z.of_nat (List.length pre)
  <-> ~ In x pre.
Proof.
  induction pre as [|a pre IH]; cbn [app CspMalformedSyntax.indexOf].
  - rewrite String.eqb_refl. simpl. tauto.
  - destruct (String.eqb a x) eqn:E.
    + apply String.eqb_eq in E. subst a. simpl List.length.
      split; [lia | intros H; exfalso; apply H; now left].
    + apply String.eqb_neq in E.
      assert (Hin : In x (pre ++ x :: suf))
        by (apply in_or_app; right; now left).
      pose proof (indexOf_nonneg _ _ Hin) as Hn.
      destruct (CspMalformedSyntax.indexOf (pre ++ x :: suf) x <? 0)%Z
        eqn:El; [lia|].
      simpl List.length. rewrite Nat2Z.inj_succ. split.
      * intros H [Ha|Hp]; [congruence|]. apply IH; [lia | exact Hp].
      * intros H. assert (H' : ~ In x pre) by (intros Hp; apply H; now right).
        apply IH in H'. lia.
Qed.

Lemma duplicates_nil (names : list string) :
  forall suf pre,
    names = pre ++ suf ->
    CspMalformedSyntax.filterFrom
      (fun name index =>
         negb (Z.eqb (CspMalformedSyntax.indexOf names name) index))
      (Z.of_nat (List.length pre)) suf = []
    <-> (NoDup suf /\ forall x, In x suf -> ~ In x pre).
Proof.
  induction suf as [|x suf IH]; intros pre E.
  - simpl. split; [intros _; split; [constructor | tauto] | reflexivity].
  - cbn [CspMalformedSyntax.filterFrom].
    assert (E' : names = (pre ++ [x]) ++ suf)
      by (rewrite <- app_assoc; exact E).
    specialize (IH (pre ++ [x]) E').
    replace (Z.of_nat (List.length (pre ++ [x])))
      with (Z.of_nat (List.length pre) + 1)%Z in IH
      by (rewrite length_app; simpl; lia).
    pose proof (indexOf_first pre suf x) as Hf. rewrite <- E in Hf.
    destruct (Z.eqb (CspMalformedSyntax.indexOf names x)
                (Z.of_nat (List.length pre))) eqn:Ez; cbn [negb].
    + apply Z.eqb_eq in Ez. apply Hf in Ez. rewrite IH. split.
      * intros [Hn Hp]. split.
        -- constructor; [|exact Hn]. intros Hx. apply (Hp x Hx).
           apply in_or_app. right. now left.
        -- intros y [<-|Hy]; [exact Ez|]. intros Hpre. apply (Hp y Hy).
           apply in_or_app. now left.
      * intros [Hn Hp]. inversion Hn as [|? ? Hx Hn']; subst. split;
          [exact Hn'|].
        intros y Hy Hin. apply in_app_or in Hin. destruct Hin as [Hin|[<-|[]]].
        -- apply (Hp y (or_intror Hy) Hin).
        -- contradiction.
    + split; [discriminate|]. intros [_ Hp]. exfalso.
      apply Z.eqb_neq in Ez. apply Ez, Hf, Hp. now left.
Qed.

Lemma parse_no_empty_name (cspValue : string) :
  existsb emptyName (CSPParser.directives (CSPParser.parse cspValue)) = false.
Proof.
  rewrite parse_directives.
  pose proof (directivesOf_tokens cspValue) as H.
  induction (directivesOf cspValue) as [|d ds IH]; [reflexivity|].
  cbn [forallb existsb] in *. apply andb_prop in H. destruct H as [Hd Hds].
  rewrite (IH Hds), orb_false_r.
  unfold tokensOnly in Hd. apply andb_prop in Hd. destruct Hd as [Hn _].
  unfold isToken in Hn. apply andb_prop in Hn. destruct Hn as [Hne Hc].
  unfold emptyName. rewrite (trim_wsfree _ (wsfree_of_token _ Hc)).
  unfold JsStr.nonEmpty in Hne. apply negb_true_iff in Hne.
  now rewrite Hne.
Qed.

Lemma loose_clean (vals : list string) :
  (JsStr.arrayIncludes vals "*" = false
   /\ filter (fun v => JsStr.startsWith v "data:"
                       || JsStr.startsWith v "blob:") vals = []
   /\ filter (fun v => JsStr.startsWith v "http:"
                       && negb (JsStr.startsWith v "https:")) vals = [])
  <-> forallb (fun v => negb (looseSource v)) vals = true.
Proof.
  rewrite !arrayIncludes_false, !filter_nil_iff, !forallb_forall.
  assert (Hp : forall v,
             looseSource v = false
             <-> (String.eqb v "*" = false
                  /\ JsStr.startsWith v "data:" || JsStr.startsWith v "blob:"
                     = false
                  /\ JsStr.startsWith v "http:" = false)).
  { intros v. unfold looseSource.
    destruct (String.eqb v "*"), (JsStr.startsWith v "data:"),
      (JsStr.startsWith v "blob:"), (JsStr.startsWith v "http:");
      simpl; intuition congruence. }
  split.
  - intros (H1 & H2 & H3) v Hv.
    specialize (H1 v Hv). specialize (H2 v Hv). specialize (H3 v Hv).
    rewrite https_not_http in H3. apply negb_true_iff in H1, H2, H3.
    apply negb_true_iff, Hp. tauto.
  - intros H.
    assert (H' : forall v, In v vals ->
               String.eqb v "*" = false
               /\ JsStr.startsWith v "data:" || JsStr.startsWith v "blob:"
                  = false
               /\ JsStr.startsWith v "http:" = false).
    { intros v Hv. apply Hp, negb_true_iff, H, Hv. }
    repeat split; intros v Hv; destruct (H' v Hv) as (A & B & C);
      rewrite ?https_not_http; apply negb_true_iff; assumption.
Qed.

Lemma findingOf_intro (check : CheckDefinition) (context : StepContext)
  (f : Finding) :
  findingAbout (md_name (metadata check)) context f ->
  In (severity f) (md_severities (metadata check)) ->
  findingOf check (sc_target context) f.
Proof. intros [Hn Hc] Hs. repeat split; assumption. Qed.

(** X7. Each of the checks [csp-clickjacking], [csp-form-hijacking],
    [csp-malformed-syntax] and [csp-allowlisted-scripts] has one step, which
    ends the check at once with the state it was given and no output; every
    finding it reports is named as the check, is about the request of the
    target, has no location and has a severity that the metadata of the
    check declares. *)
Theorem policy_checks_findings_declared (key : ScanTarget -> string)
  (check : CheckDefinition) (stepName : string) (step : StepHandler)
  (state : JSONValue) (context : StepContext) :
  In check (policyChecks key) ->
  In (stepName, step) (steps check) ->
  endsWith (step state context) state
  /\ Forall (findingOf check (sc_target context))
       (findingsOf (step state context)).
Proof.
  unfold policyChecks, endsWith.
  intros [<-|[<-|[<-|[<-|[]]]]] [E|[]]; injection E as _ <-.
  - pose proof (clickjacking_cases state context) as H.
    destruct (policyOf (sc_target context)) as [cspValue|].
    2:{ rewrite H. split; [eauto | constructor]. }
    destruct (directiveNamed "frame-ancestors" (CSPParser.parse cspValue)).
    + destruct H as (f1 & f2 & f3 & H & S1 & S2 & S3 & Hall).
      cbv zeta in H. rewrite H. split; [eauto|]. cbn [findingsOf orEmpty].
      inversion Hall as [|? ? F1 Hall1]; subst.
      inversion Hall1 as [|? ? F2 Hall2]; subst.
      inversion Hall2 as [|? ? F3 _]; subst.
      repeat (apply Forall_app; split); apply pushIf_Forall;
        apply findingOf_intro; try assumption;
        rewrite ?S1, ?S2, ?S3; simpl; tauto.
    + destruct H as (f & H & S1 & F1). rewrite H. split; [eauto|].
      cbn [findingsOf orEmpty]. constructor; [|constructor].
      apply findingOf_intro; [exact F1|]. rewrite S1. simpl. tauto.
  - pose proof (formHijacking_cases state context) as H.
    destruct (policyOf (sc_target context)) as [cspValue|].
    2:{ rewrite H. split; [eauto | constructor]. }
    destruct (directiveNamed "form-action" (CSPParser.parse cspValue)).
    + destruct H as (f1 & f2 & f3 & H & S1 & S2 & S3 & Hall).
      cbv zeta in H. rewrite H. split; [eauto|]. cbn [findingsOf orEmpty].
      inversion Hall as [|? ? F1 Hall1]; subst.
      inversion Hall1 as [|? ? F2 Hall2]; subst.
      inversion Hall2 as [|? ? F3 _]; subst.
      repeat (apply Forall_app; split); apply pushIf_Forall;
        apply findingOf_intro; try assumption;
        rewrite ?S1, ?S2, ?S3; simpl; tauto.
    + destruct H as (f & H & S1 & F1). rewrite H. split; [eauto|].
      cbn [findingsOf orEmpty]. constructor; [|constructor].
      apply findingOf_intro; [exact F1|]. rewrite S1. simpl. tauto.
  - pose proof (malformedSyntax_cases state context) as H.
    destruct (policyOf (sc_target context)) as [cspValue|].
    2:{ rewrite H. split; [eauto | constructor]. }
    cbv zeta in H.
    destruct H as (f1 & f2 & f3 & H & S1 & S2 & S3 & F1 & F2 & F3).
    rewrite H. split; [eauto|]. cbn [findingsOf orEmpty].
    repeat (apply Forall_app; split).
    + apply pushIf_Forall, findingOf_intro; [exact F1|].
      rewrite S1. simpl. tauto.
    + destruct (find _ _) as [d|]; [|constructor].
      constructor; [|constructor]. apply findingOf_intro; [apply F2|].
      rewrite S2. simpl. tauto.
    + apply pushIf_Forall, findingOf_intro; [exact F3|].
      rewrite S3. simpl. tauto.
  - pose proof (allowlistedScripts_cases state context) as H.
    destruct (policyOf (sc_target context)) as [cspValue|].
    2:{ rewrite H. split; [eauto | constructor]. }
    destruct (scriptDirective (CSPParser.parse cspValue)).
    2:{ rewrite H. split; [eauto | constructor]. }
    destruct H as (f1 & f2 & f3 & f4 & f5 & H & S1 & S2 & S3 & S4 & S5 & Hall).
    cbv zeta in H. rewrite H. split; [eauto|]. cbn [findingsOf orEmpty].
    inversion Hall as [|? ? F1 Hall1]; subst.
    inversion Hall1 as [|? ? F2 Hall2]; subst.
    inversion Hall2 as [|? ? F3 Hall3]; subst.
    inversion Hall3 as [|? ? F4 Hall4]; subst.
    inversion Hall4 as [|? ? F5 _]; subst.
    repeat (apply Forall_app; split); apply pushIf_Forall;
      apply findingOf_intro; try assumption;
      rewrite ?S1, ?S2, ?S3, ?S4, ?S5; simpl; tauto.
Qed.

(** X8. A target that the [when] predicate of one of these checks rejects
    (no response, or a content type without [text/html]) gets no finding
    from its step either. *)
Theorem policy_checks_when_guards_step (key : ScanTarget -> string)
  (check : CheckDefinition) (stepName : string) (step : StepHandler)
  (state : JSONValue) (context : StepContext) :
  In check (policyChecks key) ->
  In (stepName, step) (steps check) ->
  accepts check (sc_target context) = false ->
  step state context = Returns (done (Some state) None None).
Proof.
  unfold policyChecks, accepts.
  intros [<-|[<-|[<-|[<-|[]]]]] [E|[]] Hw; injection E as _ <-;
    cbn [when CspClickjacking.check CspFormHijacking.check
           CspMalformedSyntax.check CspAllowlistedScripts.check] in Hw.
  - pose proof (clickjacking_cases state context) as H.
    unfold policyOf, contentTypeOf in H.
    destruct (response (sc_target context)) as [res|]; [|exact H].
    rewrite Hw in H. exact H.
  - pose proof (formHijacking_cases state context) as H.
    unfold policyOf, contentTypeOf in H.
    destruct (response (sc_target context)) as [res|]; [|exact H].
    rewrite Hw in H. exact H.
  - pose proof (malformedSyntax_cases state context) as H.
    unfold policyOf, contentTypeOf in H.
    destruct (response (sc_target context)) as [res|]; [|exact H].
    rewrite Hw in H. exact H.
  - pose proof (allowlistedScripts_cases state context) as H.
    unfold policyOf, contentTypeOf in H.
    destruct (response (sc_target context)) as [res|]; [|exact H].
    rewrite Hw in H. exact H.
Qed.

(** X9. [csp-clickjacking] on a policy without [frame-ancestors] reports
    exactly one finding, of severity medium, whatever the other directives
    ([default-src] is no substitute); and it reports nothing exactly when
    there is no policy to read or the policy has a [frame-ancestors]
    directive without [*] and without a value that starts with [data:],
    [blob:] or [http:]. *)
Theorem clickjacking_reports (state : JSONValue) (context : StepContext) :
  let fs :=
    findingsOf (CspClickjacking.checkCspClickjacking state context) in
  (lacks "frame-ancestors" (sc_target context) ->
   exists f, fs = [f] /\ severity f = MEDIUM)
  /\ (fs = [] <-> restricts "frame-ancestors" (sc_target context)).
Proof.
  intros fs. subst fs. unfold lacks, restricts.
  pose proof (clickjacking_cases state context) as H.
  destruct (policyOf (sc_target context)) as [cspValue|].
  2:{ rewrite H. split; [intros (c & Hc & _); discriminate | simpl; tauto]. }
  destruct (directiveNamed "frame-ancestors" (CSPParser.parse cspValue))
    as [d|] eqn:Ed.
  - destruct H as (f1 & f2 & f3 & H & _). cbv zeta in H. rewrite H.
    split.
    + intros (c & Hc & Hn). injection Hc as <-. congruence.
    + cbn [findingsOf orEmpty].
      rewrite <- loose_clean, !app_nil_iff, !pushIf_nil, !length_zero_iff.
      tauto.
  - destruct H as (f & H & S1 & _). rewrite H. cbn [findingsOf orEmpty].
    split; [eauto|]. split; [discriminate | tauto].
Qed.

Lemma clickjacking_reports_witness :
  let context :=
    {| sc_target :=
         {| request := Sample.request1;
            response :=
              Some (Sample.htmlResponse (Some ["default-src 'none'"])) |};
       sc_config := Sample.config;
       sc_dependencies := fun _ => None |} in
  exists f,
    findingsOf (CspClickjacking.checkCspClickjacking JNull context) = [f]
    /\ severity f = MEDIUM.
Proof.
  intros context.
  pose proof (clickjacking_reports JNull context) as H. cbv zeta in H.
  destruct H as [H _]. apply H.
  exists "default-src 'none'". split; vm_compute; reflexivity.
Defined.

(** X10. [csp-form-hijacking] on a policy without [form-action] reports
    exactly one finding, of severity medium, whatever the other directives;
    and it reports nothing exactly when there is no policy to read or the
    policy has a [form-action] directive without [*] and without a value
    that starts with [data:], [blob:] or [http:]. *)
Theorem form_hijacking_reports (state : JSONValue) (context : StepContext) :
  let fs :=
    findingsOf (CspFormHijacking.checkCspFormHijacking state context) in
  (lacks "form-action" (sc_target context) ->
   exists f, fs = [f] /\ severity f = MEDIUM)
  /\ (fs = [] <-> restricts "form-action" (sc_target context)).
Proof.
  intros fs. subst fs. unfold lacks, restricts.
  pose proof (formHijacking_cases state context) as H.
  destruct (policyOf (sc_target context)) as [cspValue|].
  2:{ rewrite H. split; [intros (c & Hc & _); discriminate | simpl; tauto]. }
  destruct (directiveNamed "form-action" (CSPParser.parse cspValue))
    as [d|] eqn:Ed.
  - destruct H as (f1 & f2 & f3 & H & _). cbv zeta in H. rewrite H.
    split.
    + intros (c & Hc & Hn). injection Hc as <-. congruence.
    + cbn [findingsOf orEmpty].
      rewrite <- loose_clean, !app_nil_iff, !pushIf_nil, !length_zero_iff.
      tauto.
  - destruct H as (f & H & S1 & _). rewrite H. cbn [findingsOf orEmpty].
    split; [eauto|]. split; [discriminate | tauto].
Qed.

Lemma form_hijacking_reports_witness :
  let context :=
    {| sc_target :=
         {| request := Sample.request1;
            response :=
              Some (Sample.htmlResponse (Some ["default-src 'self'"])) |};
       sc_config := Sample.config;
       sc_dependencies := fun _ => None |} in
  exists f,
    findingsOf (CspFormHijacking.checkCspFormHijacking JNull context) = [f]
    /\ severity f = MEDIUM.
Proof.
  intros context.
  pose proof (form_hijacking_reports JNull context) as H. cbv zeta in H.
  destruct H as [H _]. apply H.
  exists "default-src 'self'". split; vm_compute; reflexivity.
Defined.

(** X11. The first test of [csp-malformed-syntax], for a directive with an
    empty or blank name, never succeeds on what [CSPParser.parse] returns:
    the finding about empty directive names is never reported, and the step
    reports at most two findings. *)
Theorem malformed_syntax_never_empty_name (cspValue : string)
  (state : JSONValue) (context : StepContext) :
  existsb emptyName (CSPParser.directives (CSPParser.parse cspValue)) = false
  /\ List.length
       (findingsOf
          (CspMalformedSyntax.checkCspMalformedSyntax state context)) <= 2.
Proof.
  split; [apply parse_no_empty_name|].
  pose proof (malformedSyntax_cases state context) as H.
  destruct (policyOf (sc_target context)) as [csp|].
  2:{ rewrite H. simpl. lia. }
  cbv zeta in H. destruct H as (f1 & f2 & f3 & H & _). rewrite H.
  cbn [findingsOf orEmpty].
  change (fun d : CSPParser.CSPDirective =>
            String.eqb (CSPParser.dname d) ""
            || String.eqb (JsStr.trim (CSPParser.dname d)) "")
    with emptyName.
  rewrite parse_no_empty_name. cbn [CspUntrustedScript.pushIf app].
  rewrite length_app.
  match goal with
  | |- context [List.length (CspUntrustedScript.pushIf ?c ?f)] =>
      pose proof (pushIf_length c f)
  end.
  destruct (find _ _); simpl List.length at 1; lia.
Qed.

(** X12. [csp-malformed-syntax] reports nothing exactly when there is no
    policy to read or every directive of the policy has a name of the list
    of valid names and no name comes twice. *)
Theorem malformed_syntax_silent_iff_well_formed (state : JSONValue)
  (context : StepContext) :
  findingsOf (CspMalformedSyntax.checkCspMalformedSyntax state context) = []
  <-> wellFormedPolicy (sc_target context).
Proof.
  unfold wellFormedPolicy.
  pose proof (malformedSyntax_cases state context) as H.
  destruct (policyOf (sc_target context)) as [csp|].
  2:{ rewrite H. simpl. tauto. }
  cbv zeta in *. destruct H as (f1 & f2 & f3 & H & _). rewrite H.
  cbn [findingsOf orEmpty].
  change (fun d : CSPParser.CSPDirective =>
            String.eqb (CSPParser.dname d) ""
            || String.eqb (JsStr.trim (CSPParser.dname d)) "")
    with emptyName.
  rewrite parse_no_empty_name. cbn [CspUntrustedScript.pushIf app].
  rewrite app_nil_iff, pushIf_nil, length_zero_iff.
  pose proof (duplicates_nil
                (map CSPParser.dname
                   (CSPParser.directives (CSPParser.parse csp)))
                (map CSPParser.dname
                   (CSPParser.directives (CSPParser.parse csp)))
                [] eq_refl) as Hd.
  simpl List.length in Hd. simpl Z.of_nat in Hd. rewrite Hd.
  assert (Hv : forall l,
             match find
                     (fun d =>
                        negb (JsStr.arrayIncludes
                                CspMalformedSyntax.validDirectives
                                (CSPParser.dname d)))
                     l with
             | Some d => [f2 d]
             | None => []
             end = []
             <-> forallb
                   (JsStr.arrayIncludes CspMalformedSyntax.validDirectives)
                   (map CSPParser.dname l)
                 = true).
  { intros l. induction l as [|d ds IH].
    - simpl. tauto.
    - cbn [find map forallb].
      destruct (JsStr.arrayIncludes CspMalformedSyntax.validDirectives
                  (CSPParser.dname d)); cbn [negb andb].
      + exact IH.
      + split; discriminate. }
  rewrite Hv. simpl. tauto.
Qed.

(** X13. [csp-allowlisted-scripts] reports nothing exactly when there is no
    policy or no directive that governs scripts, or that directive has at
    most five external sources, at most three sources from a CDN, no source
    that includes [*.] and none that starts with [http://]: the tests for
    [*.com], [*.org] and for the broad domains add nothing to these. *)
Theorem allowlisted_scripts_silent_iff_within (state : JSONValue)
  (context : StepContext) :
  findingsOf (CspAllowlistedScripts.checkCspAllowlistedScripts state context)
  = []
  <-> withinAllowlist (sc_target context).
Proof.
  unfold withinAllowlist.
  pose proof (allowlistedScripts_cases state context) as H.
  destruct (policyOf (sc_target context)) as [csp|].
  2:{ rewrite H. simpl. tauto. }
  destruct (scriptDirective (CSPParser.parse csp)) as [eff|].
  2:{ rewrite H. simpl. tauto. }
  destruct H as (f1 & f2 & f3 & f4 & f5 & H & _). cbv zeta in *. rewrite H.
  cbn [findingsOf orEmpty].
  rewrite !app_nil_iff, !pushIf_nil, !ltb_zero_length, !Nat.ltb_ge,
    !filter_nil_iff.
  assert (Hw : forall v,
             negb (JsStr.includes v "*." || JsStr.includes v "*.com"
                   || JsStr.includes v "*.org")
             = negb (JsStr.includes v "*.")).
  { intros v. destruct (JsStr.includes v "*.") eqn:E1; [reflexivity|].
    destruct (JsStr.includes v "*.com") eqn:E2.
    - apply (includes_prefix v "*.com" "*.") in E2; [congruence|reflexivity].
    - destruct (JsStr.includes v "*.org") eqn:E3; [|reflexivity].
      apply (includes_prefix v "*.org" "*.") in E3; [congruence|reflexivity]. }
  rewrite (forallb_agree _ _ _ Hw).
  assert (Hh : forall v,
             negb (JsStr.startsWith v "http://"
                   && negb (JsStr.startsWith v "https://"))
             = negb (JsStr.startsWith v "http://")).
  { intros v. now rewrite https_not_http_slashes. }
  rewrite (forallb_agree _ _ _ Hh).
  split; [tauto|]. intros (A & B & C & D). repeat split; try assumption.
  rewrite forallb_forall in *. intros v Hv. specialize (C v Hv).
  apply negb_true_iff in C. apply negb_true_iff.
  destruct (JsStr.includes v "*.google.com") eqn:E1.
  { apply (includes_prefix v _ "*.") in E1; [congruence|reflexivity]. }
  destruct (JsStr.includes v "*.microsoft.com") eqn:E2.
  { apply (includes_prefix v _ "*.") in E2; [congruence|reflexivity]. }
  destruct (JsStr.includes v "*.amazon.com") eqn:E3.
  { apply (includes_prefix v _ "*.") in E3; [congruence|reflexivity]. }
  destruct (JsStr.includes v "*.cloudflare.com") eqn:E4.
  { apply (includes_prefix v _ "*.") in E4; [congruence|reflexivity]. }
  reflexivity.
Qed.

Lemma policy_checks_findings_declared_witness :
  let context :=
    {| sc_target :=
         {| request := Sample.request1;
            response :=
              Some (Sample.htmlResponse
                      (Some ["invalid-directive 'self'; script-src 'self'"]))
         |};
       sc_config := Sample.config;
       sc_dependencies := fun _ => None |} in
  let o := CspMalformedSyntax.checkCspMalformedSyntax JNull context in
  map severity (findingsOf o) = [MEDIUM]
  /\ Forall (findingOf (CspMalformedSyntax.check Sample.hostKey)
               (sc_target context)) (findingsOf o).
Proof.
  intros context o. split; [vm_compute; reflexivity|].
  apply (policy_checks_findings_declared Sample.hostKey
           (CspMalformedSyntax.check Sample.hostKey)
           "checkCspMalformedSyntax"
           CspMalformedSyntax.checkCspMalformedSyntax JNull context).
  - unfold policyChecks. right. right. left. reflexivity.
  - left. reflexivity.
Defined.

Lemma policy_checks_when_guards_step_witness :
  let context :=
    {| sc_target := {| request := Sample.request1; response := None |};
       sc_config := Sample.config;
       sc_dependencies := fun _ => None |} in
  CspAllowlistedScripts.checkCspAllowlistedScripts JNull context
  = Returns (done (Some JNull) None None).
Proof.
  intros context.
  apply (policy_checks_when_guards_step Sample.hostKey
           (CspAllowlistedScripts.check Sample.hostKey)
           "checkCspAllowlistedScripts"
           CspAllowlistedScripts.checkCspAllowlistedScripts JNull context).
  - unfold policyChecks. right. right. right. left. reflexivity.
  - left. reflexivity.
  - reflexivity.
Defined.

(** The cases of the tests of the repository for these checks. *)
Example clickjacking_tests :
  severitiesOn CspClickjacking.checkCspClickjacking
    "default-src 'self'; script-src 'self'" = [MEDIUM]
  /\ severitiesOn CspClickjacking.checkCspClickjacking "frame-ancestors *"
     = [HIGH]
  /\ severitiesOn CspClickjacking.checkCspClickjacking
       "frame-ancestors 'self' data: blob:" = [MEDIUM]
  /\ severitiesOn CspClickjacking.checkCspClickjacking
       "frame-ancestors 'self' http://example.com" = [LOW]
  /\ severitiesOn CspClickjacking.checkCspClickjacking
       "frame-ancestors 'none'" = []
  /\ severitiesOn CspClickjacking.checkCspClickjacking
       "frame-ancestors 'self' https://trusted.com" = []
  /\ findingsOf
       (CspClickjacking.checkCspClickjacking JNull (htmlContext None)) = [].
Proof. repeat split; vm_compute; reflexivity. Qed.

Example malformed_syntax_tests :
  severitiesOn CspMalformedSyntax.checkCspMalformedSyntax
    "invalid-directive 'self'; script-src 'self'" = [MEDIUM]
  /\ severitiesOn CspMalformedSyntax.checkCspMalformedSyntax
       "script-src 'self'; script-src 'unsafe-inline'" = [LOW]
  /\ severitiesOn CspMalformedSyntax.checkCspMalformedSyntax
       "default-src 'self'; script-src 'self'" = []
  /\ findingsOf
       (CspMalformedSyntax.checkCspMalformedSyntax JNull (htmlContext None))
     = [].
Proof. repeat split; vm_compute; reflexivity. Qed.

Example allowlisted_scripts_tests :
  severitiesOn CspAllowlistedScripts.checkCspAllowlistedScripts
    "script-src 'self' https://cdn1.com https://cdn2.com https://cdn3.com https://cdn4.com https://cdn5.com https://cdn6.com"
  = [MEDIUM; LOW]
  /\ severitiesOn CspAllowlistedScripts.checkCspAllowlistedScripts
       "script-src 'self' https://cdnjs.cloudflare.com https://cdn.jsdelivr.net https://unpkg.com https://cdn.example.com"
     = [LOW]
  /\ severitiesOn CspAllowlistedScripts.checkCspAllowlistedScripts
       "script-src 'self' *.google.com *.microsoft.com" = [MEDIUM; LOW]
  /\ severitiesOn CspAllowlistedScripts.checkCspAllowlistedScripts
       "script-src 'self' http://insecure.com" = [LOW]
  /\ severitiesOn CspAllowlistedScripts.checkCspAllowlistedScripts
       "script-src 'self' https://trusted-cdn.com" = []
  /\ findingsOf
       (CspAllowlistedScripts.checkCspAllowlistedScripts JNull
          (htmlContext None)) = [].
Proof. repeat split; vm_compute; reflexivity. Qed.

(** ** The runner: what a run keeps *)

(** ** Invariants of a run *)
Section Invariant.

Variable sdk : SDK.

Variable cfg : ScanConfig.

Variable batches : list (list CheckDefinition).

Variable world : World.

Variable P : State -> Prop.

Hypothesis P_suspend : forall s, P s -> holds P (suspend cfg world s).

Hypothesis P_returned :
  forall task res task' s, P s -> P (snd (tickReturned task res task' s)).

Hypothesis P_store :
  forall task context res s, P s -> P (storeResult task context res s).

Hypothesis P_started :
  forall task context s, P s -> P (onTaskStarted task context s).

Hypothesis P_finished :
  forall task context s, P s -> P (onTaskFinished task context s).

Hypothesis P_index : forall h s, P s -> P (setStore h s).

Lemma tick_keeps (task : CheckTask) (s : State) :
  P s -> holds P (tick cfg world task s).
Proof.
  intros H. unfold tick.
  destruct (interruptReason s); [exact H|].
  destruct (taskTick (dependenciesGet s) task) as [outcome task'].
  apply holds_bind; [now apply P_suspend|].
  intros [] s1 H1. destruct outcome as [res|e]; [|exact H1].
  pose proof (P_returned task res task' s1 H1) as H2.
  destruct (tickReturned task res task' s1) as [r s2]. exact H2.
Qed.

Lemma tickLoop_keeps (fuel : nat) :
  forall task acc s, P s -> holds P (tickLoop cfg world fuel task acc s).
Proof.
  induction fuel as [|fuel IH]; intros task acc s H; [exact I|].
  cbn [tickLoop]. apply holds_bind; [now apply tick_keeps|].
  intros [res task'] s1 H1.
  destruct res as [[| ] fs out|fs c m]; try exact H1. now apply IH.
Qed.

Lemma runTask_keeps (fuel : nat) (task : CheckTask)
  (context : RuntimeContext) (s : State) :
  P s -> holds P (runTask cfg world fuel task context s).
Proof.
  intros H. unfold runTask, processTask.
  pose proof (P_started task context s H) as H0.
  destruct (skipsTask task (onTaskStarted task context s)).
  - simpl. now apply P_finished.
  - unfold tickUntilDone.
    pose proof (tickLoop_keeps fuel task [] _ H0) as H1.
    destruct (tickLoop cfg world fuel task [] (onTaskStarted task context s))
      as [[res task'] s1|e s1|s1|]; simpl in *; auto.
Qed.

Lemma poolTasks_keeps (fuel : nat) (tasks : list CheckTask)
  (context : RuntimeContext) :
  forall s, P s -> holds P (poolTasks cfg world fuel tasks context s).
Proof.
  induction tasks as [|task rest IH]; intros s H; [exact H|].
  cbn [poolTasks]. pose proof (runTask_keeps fuel task context s H) as H1.
  destruct (runTask cfg world fuel task context s) as [r s1|e s1|s1|];
    simpl in *; auto.
  destruct e; exact H1.
Qed.

Lemma processBatch_keeps (fuel : nat) (batch : list CheckDefinition)
  (context : RuntimeContext) (s : State) :
  P s -> holds P (processBatch cfg world fuel batch context s).
Proof.
  intros H. unfold processBatch.
  destruct (filterApplicable batch context (dedupeKeys s) (store s))
    as [selected h].
  apply poolTasks_keeps, P_index, H.
Qed.

Lemma processBatches_keeps (fuel : nat) (bs : list (list CheckDefinition))
  (context : RuntimeContext) :
  forall s, P s -> holds P (processBatches cfg world fuel bs context s).
Proof.
  induction bs as [|batch rest IH]; intros s H; [exact H|].
  cbn [processBatches]. destruct (interruptReason s); [exact H|].
  apply holds_bind; [now apply processBatch_keeps|]. intros _ s1 H1.
  now apply IH.
Qed.

Lemma processTarget_keeps (fuel : nat) (requestID : string) (s : State) :
  P s -> holds P (processTarget sdk cfg batches world fuel requestID s).
Proof.
  intros H. unfold processTarget.
  apply holds_bind; [now apply P_suspend|]. intros _ s1 H1.
  destruct (requests_get sdk requestID); [|exact H1].
  now apply processBatches_keeps.
Qed.

Lemma poolTargets_keeps (fuel : nat) (requestIDs : list string) :
  forall s,
    P s -> holds P (poolTargets sdk cfg batches world fuel requestIDs s).
Proof.
  induction requestIDs as [|requestID rest IH]; intros s H; [exact H|].
  cbn [poolTargets].
  pose proof (processTarget_keeps fuel requestID s H) as H1.
  destruct (processTarget sdk cfg batches world fuel requestID s)
    as [r s1|e s1|s1|]; simpl in *; auto.
  destruct e; exact H1.
Qed.

End Invariant.

Section Frames.

Variable cfg : ScanConfig.

Variable world : World.

Lemma closeRecord_fields (key : string) (st : RecordStatus) (s : State) :
  let s' := closeRecord key st s in
  findings s' = findings s
  /\ dependencies s' = dependencies s
  /\ interruptReason s' = interruptReason s
  /\ hasRun s' = hasRun s
  /\ events s' = events s
  /\ clock s' = clock s
  /\ exists l, executionHistory s' = executionHistory s ++ l.
Proof.
  unfold closeRecord. destruct (JsMap.get key (activeCheckRecords s)).
  - simpl. repeat split. eauto.
  - repeat split. exists []. now rewrite app_nil_r.
Qed.

Lemma get_set_orEmpty {V} (k i : string) (l : list V)
  (m : JsMap.t (list V)) :
  orEmpty (JsMap.get i (JsMap.set k (orEmpty (JsMap.get k m) ++ l) m))
  = orEmpty (JsMap.get i m) ++ (if String.eqb i k then l else []).
Proof.
  destruct (String.eqb i k) eqn:E.
  - apply String.eqb_eq in E. subst i. now rewrite get_set_same.
  - apply String.eqb_neq in E. rewrite get_set_other by congruence.
    now rewrite app_nil_r.
Qed.

Lemma storeResult_fields (task : CheckTask) (context : RuntimeContext)
  (res : TaskExecutionResult) (s : State) :
  let s' := storeResult task context res s in
  interruptReason s' = interruptReason s
  /\ hasRun s' = hasRun s
  /\ clock s' = clock s
  /\ (exists l, events s' = events s ++ l /\ forallb checkEvent l = true)
  /\ (exists l, executionHistory s' = executionHistory s ++ l)
  /\ (forall i, exists l,
         orEmpty (JsMap.get i (findings s'))
         = orEmpty (JsMap.get i (findings s)) ++ l).
Proof.
  unfold storeResult.
  set (s1 := match resultFindings res with
             | Some fs =>
                 setFindings
                   (JsMap.set (id (task_metadata task))
                      (orEmpty (JsMap.get (id (task_metadata task))
                                  (findings s)) ++ fs)
                      (findings s)) s
             | None => s
             end).
  assert (H1 : interruptReason s1 = interruptReason s
               /\ hasRun s1 = hasRun s /\ clock s1 = clock s
               /\ events s1 = events s
               /\ executionHistory s1 = executionHistory s
               /\ forall i, exists l,
                   orEmpty (JsMap.get i (findings s1))
                   = orEmpty (JsMap.get i (findings s)) ++ l).
  { subst s1. destruct (resultFindings res) as [fs|].
    - simpl. repeat split. intros i. rewrite get_set_orEmpty. eauto.
    - repeat split. intros i. exists []. now rewrite app_nil_r. }
  destruct H1 as (A & B & C & D & E & F).
  destruct res as [[| ] fs out|fs c m].
  - pose proof (closeRecord_fields
                  (recordKey (id (task_metadata task))
                     (getId (request (target context))))
                  (completed out)
                  (setDependencies
                     (JsMap.set (id (task_metadata task)) out
                        (dependencies s1)) s1)) as H.
    cbv zeta in H. destruct H as (a & _ & c & d & e & f & l & g).
    simpl in a, c, d, e, f, g.
    rewrite c, d, e, f, a. repeat split; try assumption.
    + exists []. now rewrite app_nil_r, D.
    + exists l. now rewrite g, E.
  - repeat split; try assumption.
    + exists []. now rewrite app_nil_r, D.
    + exists []. now rewrite app_nil_r, E.
  - pose proof (closeRecord_fields
                  (recordKey (id (task_metadata task))
                     (getId (request (target context))))
                  (failed c m) s1) as H.
    cbv zeta in H. destruct H as (a & _ & c' & d & e & f & l & g).
    simpl. rewrite c', d, e, f, a. repeat split; try assumption.
    + eexists. rewrite D. split; reflexivity.
    + exists l. now rewrite g, E.
Qed.

Lemma recordStepExecution_fields (c t : string) (r : StepExecutionRecord)
  (s : State) :
  let s' := recordStepExecution c t r s in
  findings s' = findings s
  /\ interruptReason s' = interruptReason s
  /\ hasRun s' = hasRun s
  /\ clock s' = clock s
  /\ events s' = events s
  /\ executionHistory s' = executionHistory s.
Proof.
  unfold recordStepExecution.
  destruct (JsMap.get (recordKey c t) (activeCheckRecords s));
    repeat split.
Qed.

Lemma emitFindings_fields (t c : string) (fs : list Finding) (s : State) :
  let s' := emitFindings t c fs s in
  findings s' = findings s
  /\ interruptReason s' = interruptReason s
  /\ hasRun s' = hasRun s
  /\ clock s' = clock s
  /\ executionHistory s' = executionHistory s
  /\ events s' = events s ++ map (scan_finding t c) fs.
Proof.
  unfold emitFindings. revert s.
  induction fs as [|f fs IH]; intros s; simpl.
  - repeat split. now rewrite app_nil_r.
  - destruct (IH (emit (scan_finding t c f) s)) as (A & B & C & D & E & F).
    rewrite A, B, C, D, E, F. simpl. repeat split.
    now rewrite <- app_assoc.
Qed.

Lemma findings_checkEvents (t c : string) (fs : list Finding) :
  forallb checkEvent (map (scan_finding t c) fs) = true.
Proof. induction fs; simpl; auto. Qed.

Lemma tickReturned_fields (task : CheckTask) (res : StepResult)
  (task' : CheckTask) (s : State) :
  let s' := snd (tickReturned task res task' s) in
  findings s' = findings s
  /\ interruptReason s' = interruptReason s
  /\ hasRun s' = hasRun s
  /\ clock s' = clock s
  /\ executionHistory s' = executionHistory s
  /\ exists l, events s' = events s ++ l /\ forallb checkEvent l = true.
Proof.
  unfold tickReturned. cbn [snd].
  set (t := getId (request (getTarget task'))).
  set (c := id (task_metadata task')).
  set (fs := orEmpty (sr_findings res)).
  pose proof (emitFindings_fields t c fs s) as H1. cbv zeta in H1.
  pose proof (recordStepExecution_fields c t (stepRecordOf task res task')
                (emitFindings t c fs s)) as H2. cbv zeta in H2.
  destruct H1 as (A' & B' & C' & D' & E' & F').
  destruct H2 as (A & B & C & D & E & F).
  cbv zeta. rewrite A, B, C, D, E, F, A', B', C', D', E', F'.
  repeat split. exists (map (scan_finding t c) fs). split; [reflexivity|].
  apply findings_checkEvents.
Qed.

Lemma suspend_fields (s : State) :
  holds (fun s' =>
           findings s' = findings s
           /\ hasRun s' = hasRun s
           /\ events s' = events s
           /\ executionHistory s' = executionHistory s
           /\ (forall r, interruptReason s = Some r ->
                         interruptReason s' = Some r))
    (suspend cfg world s).
Proof.
  destruct (resume_frame world s) as (A & B & C & D & E & F & G & H).
  assert (Hi : forall r, interruptReason s = Some r ->
                         interruptReason (resume world s) = Some r).
  { intros r Hr. unfold resume.
    destruct (cancelCall world (clock s)); [|exact Hr].
    unfold cancel. simpl. now rewrite Hr. }
  unfold suspend.
  destruct ((0 <? scanTimeout cfg)%Z
            && (scanTimeout cfg * 1000 <=? elapsedMs world (clock s))%Z).
  - simpl. destruct (interruptReason (resume world s)) eqn:Ei.
    + repeat split; try assumption. intros r Hr. rewrite Ei. now apply Hi.
    + simpl. repeat split; try assumption. intros r Hr.
      apply Hi in Hr. congruence.
  - simpl. repeat split; assumption.
Qed.

End Frames.

Lemma onlyAdds_refl (s : State) : onlyAdds s s.
Proof.
  split; [exists []; now rewrite app_nil_r|].
  split; [exists []; now rewrite app_nil_r|].
  split; [|auto]. intros i. exists []. now rewrite app_nil_r.
Qed.

Lemma onlyAdds_trans (s1 s2 s3 : State) :
  onlyAdds s1 s2 -> onlyAdds s2 s3 -> onlyAdds s1 s3.
Proof.
  intros ((l1 & A1) & (m1 & B1) & C1 & D1) ((l2 & A2) & (m2 & B2) & C2 & D2).
  repeat split.
  - exists (l1 ++ l2). now rewrite A2, A1, app_assoc.
  - exists (m1 ++ m2). now rewrite B2, B1, app_assoc.
  - intros i. destruct (C1 i) as (a & Ha). destruct (C2 i) as (b & Hb).
    exists (a ++ b). now rewrite Hb, Ha, app_assoc.
  - auto.
Qed.

Lemma addsCheckEvents_refl (s : State) : addsCheckEvents s s.
Proof. exists []. now rewrite app_nil_r. Qed.

Lemma addsCheckEvents_trans (s1 s2 s3 : State) :
  addsCheckEvents s1 s2 -> addsCheckEvents s2 s3 -> addsCheckEvents s1 s3.
Proof.
  intros (l1 & A1 & B1) (l2 & A2 & B2). exists (l1 ++ l2).
  rewrite A2, A1, app_assoc, forallb_app, B1, B2. now split.
Qed.

Section RunFacts.

Variable sdk : SDK.

Variable cfg : ScanConfig.

Variable batches : list (list CheckDefinition).

Variable world : World.

Lemma runKeeps_refl (s : State) : runKeeps s s.
Proof.
  split; [apply onlyAdds_refl|]. split; [apply addsCheckEvents_refl | auto].
Qed.

Lemma runKeeps_step (s0 s s' : State) :
  runKeeps s0 s -> runKeeps s s' -> runKeeps s0 s'.
Proof.
  intros (A & B & C) (A' & B' & C'). split; [|split].
  - eapply onlyAdds_trans; eassumption.
  - eapply addsCheckEvents_trans; eassumption.
  - auto.
Qed.

Lemma runKeeps_fields (s s' : State) :
  (exists l, events s' = events s ++ l /\ forallb checkEvent l = true) ->
  (exists l, executionHistory s' = executionHistory s ++ l) ->
  (forall i, exists l,
      orEmpty (JsMap.get i (findings s'))
      = orEmpty (JsMap.get i (findings s)) ++ l) ->
  hasRun s' = hasRun s ->
  (forall r, interruptReason s = Some r -> interruptReason s' = Some r) ->
  runKeeps s s'.
Proof.
  intros (l & A & B) Hh Hf Hr Hi. split; [|split].
  - split; [eauto|]. split; [exact Hh|]. split; [exact Hf|].
    intros H. congruence.
  - exists l. now split.
  - exact Hi.
Qed.

Lemma suspend_runKeeps (s0 s : State) :
  runKeeps s0 s -> holds (runKeeps s0) (suspend cfg world s).
Proof.
  intros H. pose proof (suspend_fields cfg world s) as Hs.
  eapply holds_weaken; [|exact Hs]. cbv beta.
  intros s' (A & B & C & D & E). eapply runKeeps_step; [exact H|].
  apply runKeeps_fields; auto.
  - exists []. now rewrite app_nil_r, C.
  - exists []. now rewrite app_nil_r, D.
  - intros i. exists []. now rewrite app_nil_r, A.
Qed.

Lemma returned_runKeeps (s0 : State) (task : CheckTask) (res : StepResult)
  (task' : CheckTask) (s : State) :
  runKeeps s0 s -> runKeeps s0 (snd (tickReturned task res task' s)).
Proof.
  intros H. eapply runKeeps_step; [exact H|].
  destruct (tickReturned_fields task res task' s) as (A & B & C & D & E & F).
  apply runKeeps_fields; auto.
  - exists []. now rewrite app_nil_r, E.
  - intros i. exists []. now rewrite app_nil_r, A.
  - intros r Hr. congruence.
Qed.

Lemma store_runKeeps (s0 : State) (task : CheckTask)
  (context : RuntimeContext) (res : TaskExecutionResult) (s : State) :
  runKeeps s0 s -> runKeeps s0 (storeResult task context res s).
Proof.
  intros H. eapply runKeeps_step; [exact H|].
  destruct (storeResult_fields task context res s)
    as (A & B & C & D & E & F).
  apply runKeeps_fields; auto. intros r Hr. congruence.
Qed.

Lemma started_runKeeps (s0 : State) (task : CheckTask)
  (context : RuntimeContext) (s : State) :
  runKeeps s0 s -> runKeeps s0 (onTaskStarted task context s).
Proof.
  intros H. eapply runKeeps_step; [exact H|].
  apply runKeeps_fields; auto.
  - eexists. split; reflexivity.
  - exists []. now rewrite app_nil_r.
  - intros i. exists []. now rewrite app_nil_r.
Qed.

Lemma finished_runKeeps (s0 : State) (task : CheckTask)
  (context : RuntimeContext) (s : State) :
  runKeeps s0 s -> runKeeps s0 (onTaskFinished task context s).
Proof.
  intros H. eapply runKeeps_step; [exact H|].
  apply runKeeps_fields; auto.
  - eexists. split; reflexivity.
  - exists []. now rewrite app_nil_r.
  - intros i. exists []. now rewrite app_nil_r.
Qed.

Lemma index_runKeeps (s0 : State) (h : Store) (s : State) :
  runKeeps s0 s -> runKeeps s0 (setStore h s).
Proof.
  intros H. eapply runKeeps_step; [exact H|].
  apply runKeeps_fields; auto.
  - exists []. now rewrite app_nil_r.
  - exists []. now rewrite app_nil_r.
  - intros i. exists []. now rewrite app_nil_r.
Qed.

Lemma poolTargets_runKeeps (fuel : nat) (requestIDs : list string)
  (s : State) :
  holds (runKeeps s) (poolTargets sdk cfg batches world fuel requestIDs s).
Proof.
  apply (poolTargets_keeps sdk cfg batches world (runKeeps s)).
  - apply suspend_runKeeps.
  - apply returned_runKeeps.
  - apply store_runKeeps.
  - apply started_runKeeps.
  - apply finished_runKeeps.
  - apply index_runKeeps.
  - apply runKeeps_refl.
Qed.

Lemma poolTasks_runKeeps (fuel : nat) (tasks : list CheckTask)
  (context : RuntimeContext) (s : State) :
  holds (runKeeps s) (poolTasks cfg world fuel tasks context s).
Proof.
  apply (poolTasks_keeps cfg world (runKeeps s)).
  - apply suspend_runKeeps.
  - apply returned_runKeeps.
  - apply store_runKeeps.
  - apply started_runKeeps.
  - apply finished_runKeeps.
  - apply runKeeps_refl.
Qed.

(** An interruption never leaves the pool of [run]: its error handler stops
    the pool. *)
Lemma poolTargets_no_interruption (fuel : nat) (requestIDs : list string) :
  forall s reason s',
    poolTargets sdk cfg batches world fuel requestIDs s
    <> Raise (ScanRunnableInterruptedError reason) s'.
Proof.
  induction requestIDs as [|requestID rest IH]; intros s reason s';
    [discriminate|].
  cbn [poolTargets].
  destruct (processTarget sdk cfg batches world fuel requestID s)
    as [r s1|e s1|s1|]; try discriminate; [apply IH|].
  destruct e; discriminate.
Qed.

(** The outcomes of [runScan]. *)
Lemma runScan_cases (fuel : nat) (requestIDs : list string) (s : State) :
  match runScan sdk cfg batches world fuel requestIDs s with
  | Ret r s' =>
      ((exists fs, r = Finished fs) \/ (exists m, r = Error m))
      /\ hasRun s' = true
      /\ (exists inner,
             forallb checkEvent inner = true
             /\ events s' = events s ++ scan_started :: inner
                                      ++ [scan_finished])
      /\ (exists l, executionHistory s' = executionHistory s ++ l)
      /\ (forall i, exists l,
             orEmpty (JsMap.get i (findings s'))
             = orEmpty (JsMap.get i (findings s)) ++ l)
  | Raise _ _ => False
  | TimerFired s' =>
      hasRun s' = true
      /\ (exists inner,
             forallb checkEvent inner = true
             /\ events s' = events s ++ scan_started :: inner)
      /\ (exists l, executionHistory s' = executionHistory s ++ l)
      /\ (forall i, exists l,
             orEmpty (JsMap.get i (findings s'))
             = orEmpty (JsMap.get i (findings s)) ++ l)
  | OutOfFuel => True
  end.
Proof.
  unfold runScan.
  set (s1 := emit scan_started (setHasRun true s)).
  pose proof (poolTargets_runKeeps fuel requestIDs s1) as H.
  pose proof (poolTargets_no_interruption fuel requestIDs s1) as Hn.
  assert (Hk : forall s2,
             runKeeps s1 s2 ->
             hasRun s2 = true
             /\ (exists inner,
                    forallb checkEvent inner = true
                    /\ events s2 = events s ++ scan_started :: inner)
             /\ (exists l, executionHistory s2 = executionHistory s ++ l)
             /\ (forall i, exists l,
                    orEmpty (JsMap.get i (findings s2))
                    = orEmpty (JsMap.get i (findings s)) ++ l)).
  { intros s2 (((l & A) & B & C & D) & (l' & A' & B') & _).
    split; [now apply D|]. split; [|split; [exact B | exact C]].
    exists l'. split; [exact B'|]. rewrite A'. subst s1. simpl.
    now rewrite <- app_assoc. }
  destruct (poolTargets sdk cfg batches world fuel requestIDs s1)
    as [r s2|e s2|s2|]; simpl in H.
  - destruct (Hk s2 H) as (A & (inner & B & C) & D & E).
    split; [left; eauto|]. split; [exact A|]. split; [|split; assumption].
    exists inner. split; [exact B|]. simpl. rewrite C.
    now rewrite <- app_assoc.
  - destruct (Hk s2 H) as (A & (inner & B & C) & D & E).
    destruct e as [m|m c|reason]; [| |exfalso; eapply Hn; reflexivity].
    + split; [right; eauto|]. split; [exact A|]. split; [|split; assumption].
      exists inner. split; [exact B|]. simpl. rewrite C.
      now rewrite <- app_assoc.
    + split; [right; eauto|]. split; [exact A|]. split; [|split; assumption].
      exists inner. split; [exact B|]. simpl. rewrite C.
      now rewrite <- app_assoc.
  - exact (Hk s2 H).
  - exact I.
Qed.

End RunFacts.

(** ** The runner: the results of a run *)

Section RunProperties.

Variable sdk : SDK.

Variable cfg : ScanConfig.

Variable batches : list (list CheckDefinition).

Variable world : World.

Lemma run_cases (fuel : nat) (requestIDs : list string) (s : State) :
  hasRun s = false ->
  match run sdk cfg batches world fuel requestIDs s with
  | Ret r s' =>
      hasRun s' = true
      /\ (exists l, executionHistory s' = executionHistory s ++ l)
      /\ (forall i, exists l,
             orEmpty (JsMap.get i (findings s'))
             = orEmpty (JsMap.get i (findings s)) ++ l)
      /\ exists inner,
          forallb checkEvent inner = true
          /\ match r with
             | Interrupted reason _ =>
                 reason = Timeout /\ (0 < scanTimeout cfg)%Z
                 /\ events s' = events s ++ scan_started :: inner
             | _ =>
                 events s' = events s ++ scan_started :: inner
                                      ++ [scan_finished]
             end
  | Raise _ _ => False
  | TimerFired _ => (scanTimeout cfg <= 0)%Z
  | OutOfFuel => True
  end.
Proof.
  intros Hr. unfold run. rewrite Hr.
  pose proof (runScan_cases sdk cfg batches world fuel requestIDs s) as H.
  destruct (0 <? scanTimeout cfg)%Z eqn:Et.
  - apply Z.ltb_lt in Et.
    destruct (runScan sdk cfg batches world fuel requestIDs s)
      as [r s'|e s'|s'|]; auto.
    + destruct H as (Hk & A & (inner & B & C) & D & E).
      repeat (split; [assumption|]). exists inner. split; [exact B|].
      destruct Hk as [(fs & ->)|(m & ->)]; exact C.
    + destruct H as (A & (inner & B & C) & D & E).
      repeat (split; [assumption|]). exists inner. split; [exact B|].
      repeat split; assumption.
  - apply Z.ltb_ge in Et.
    destruct (runScan sdk cfg batches world fuel requestIDs s)
      as [r s'|e s'|s'|]; auto.
    destruct H as (Hk & A & (inner & B & C) & D & E).
    repeat (split; [assumption|]). exists inner. split; [exact B|].
    destruct Hk as [(fs & ->)|(m & ->)]; exact C.
Qed.

(** X14. A runner runs once.  When a call of [run] has returned, whatever
    its result, the scan has started for good: another call of [run]
    returns the error [Scan is already running] and changes nothing, and
    [externalDedupeKeys] throws a [ScanRunnableError] with the code
    [SCAN_ALREADY_RUNNING]. *)
Theorem runner_runs_once (fuel : nat) (requestIDs : list string)
  (s s' : State) (r : ScanResult) :
  run sdk cfg batches world fuel requestIDs s = Ret r s' ->
  hasRun s' = true
  /\ (forall fuel' requestIDs',
         run sdk cfg batches world fuel' requestIDs' s'
         = Ret (Error "Scan is already running") s')
  /\ (forall external,
         externalDedupeKeys external s'
         = inl (ScanRunnableError
                  "Cannot set dedupe keys after scan has started"
                  SCAN_ALREADY_RUNNING)).
Proof.
  intros H.
  assert (Hr : hasRun s' = true).
  { destruct (hasRun s) eqn:E.
    - unfold run in H. rewrite E in H. injection H as _ <-. exact E.
    - pose proof (run_cases fuel requestIDs s E) as Hc. rewrite H in Hc.
      tauto. }
  split; [exact Hr|]. split.
  - intros fuel' requestIDs'. unfold run. now rewrite Hr.
  - intros external. unfold externalDedupeKeys. now rewrite Hr.
Qed.


(** X16. A run only adds to what the runner has recorded: the events and
    the execution history of the state it leaves extend those it found, and
    so does the list of findings stored under every check id. *)
Theorem run_only_adds (fuel : nat) (requestIDs : list string) (s s' : State)
  (r : ScanResult) :
  run sdk cfg batches world fuel requestIDs s = Ret r s' ->
  onlyAdds s s'.
Proof.
  intros H. destruct (hasRun s) eqn:E.
  - unfold run in H. rewrite E in H. injection H as _ <-.
    apply onlyAdds_refl.
  - pose proof (run_cases fuel requestIDs s E) as Hc. rewrite H in Hc.
    destruct Hc as (A & B & C & inner & _ & D).
    split; [|split; [exact B|split; [exact C|auto]]].
    destruct r as [fs|reason fs|m].
    + eexists; exact D.
    + destruct D as (_ & _ & D). eexists; exact D.
    + eexists; exact D.
Qed.

(** X17. With one target in flight at a time, a request id that the host
    does not know, first in the list: the run returns the error
    [Request <id> not found], having emitted [scan:started] and
    [scan:finished] and nothing else; the other request ids are not looked
    at, and the history, the findings and the dedupe index are as before. *)
Theorem run_unknown_request (fuel : nat) (requestID : string)
  (rest : list string) (s : State) :
  concurrentTargets cfg = 1 ->
  hasRun s = false ->
  requests_get sdk requestID = None ->
  timerQuiet cfg world (clock s) ->
  exists s',
    run sdk cfg batches world fuel (requestID :: rest) s
    = Ret (Error (requestNotFound requestID)) s'
    /\ events s' = events s ++ [scan_started; scan_finished]
    /\ executionHistory s' = executionHistory s
    /\ findings s' = findings s
    /\ store s' = store s /\ dedupeKeys s' = dedupeKeys s.
Proof.
  intros _ Hr Hg Hq.
  set (s1 := emit scan_started (setHasRun true s)).
  assert (Hq1 : timerQuiet cfg world (clock s1)) by exact Hq.
  assert (Hp : poolTargets sdk cfg batches world fuel (requestID :: rest) s1
               = Raise (ScanRunnableError (requestNotFound requestID)
                          REQUEST_NOT_FOUND) (resume world s1)).
  { cbn [poolTargets]. unfold processTarget.
    rewrite (suspend_quiet cfg world s1 Hq1). cbn [bind]. rewrite Hg.
    reflexivity. }
  destruct (resume_frame world s1) as (A & B & C & D & E & F & G & H).
  exists (emit scan_finished (resume world s1)). split.
  - unfold run. rewrite Hr. unfold runScan. fold s1. rewrite Hp.
    destruct (0 <? scanTimeout cfg)%Z; reflexivity.
  - simpl. rewrite H, F, A, C, D. subst s1. simpl.
    rewrite <- app_assoc. repeat split.
Qed.

End RunProperties.

Lemma runner_runs_once_witness :
  exists r s',
    run Sample.sdk Sample.config [[Sample.reports "c" None None None]]
      Sample.world 2 ["1"] initialState = Ret r s'
    /\ run Sample.sdk Sample.config [[Sample.reports "c" None None None]]
         Sample.world 2 ["2"] s'
       = Ret (Error "Scan is already running") s'.
Proof.
  do 2 eexists. split; [vm_compute; reflexivity|].
  eapply (runner_runs_once Sample.sdk Sample.config
            [[Sample.reports "c" None None None]] Sample.world 2 ["1"]
            initialState).
  vm_compute. reflexivity.
Defined.


Lemma run_only_adds_witness :
  exists r s',
    run Sample.sdk Sample.config [[Sample.reports "c" None None None]]
      Sample.world 2 ["1"] initialState = Ret r s'
    /\ onlyAdds initialState s'.
Proof.
  do 2 eexists. split; [vm_compute; reflexivity|].
  eapply (run_only_adds Sample.sdk Sample.config
            [[Sample.reports "c" None None None]] Sample.world 2 ["1"]).
  vm_compute. reflexivity.
Defined.

Lemma run_unknown_request_witness :
  exists s',
    run Sample.sdk Calm.config [[Sample.reports "c" None None None]]
      Calm.world 2 ["9"; "1"] initialState
    = Ret (Error "Request 9 not found") s'
    /\ events s' = [scan_started; scan_finished].
Proof.
  destruct (run_unknown_request Sample.sdk Calm.config
              [[Sample.reports "c" None None None]] Calm.world 2 "9" ["1"]
              initialState eq_refl eq_refl eq_refl eq_refl)
    as (s' & H & E & _).
  exists s'. split; [exact H | exact E].
Defined.

(** ** The runner: interruption, estimation *)

Section Interrupted.

Variable sdk : SDK.

Variable cfg : ScanConfig.

Variable batches : list (list CheckDefinition).

Variable world : World.

Variable reason : InterruptReason.

Lemma nothingRan_started (task : CheckTask) (context : RuntimeContext)
  (s0 s : State) :
  nothingRan reason s0 s -> nothingRan reason s0 (onTaskStarted task context s).
Proof.
  intros [A B]. split; [|exact B].
  eapply sameData_trans; [exact A | apply sameData_started].
Qed.

Lemma nothingRan_finished (task : CheckTask) (context : RuntimeContext)
  (s0 s : State) :
  nothingRan reason s0 s ->
  nothingRan reason s0 (onTaskFinished task context s).
Proof.
  intros [A B]. split; [|exact B].
  eapply sameData_trans; [exact A | apply sameData_finished].
Qed.

Lemma runTask_interrupted (fuel : nat) (task : CheckTask)
  (context : RuntimeContext) (s0 s : State) :
  nothingRan reason s0 s ->
  holds (nothingRan reason s0) (runTask cfg world (S fuel) task context s)
  /\ runTask cfg world (S fuel) task context s <> OutOfFuel.
Proof.
  intros H. unfold runTask, processTask.
  pose proof (nothingRan_started task context s0 s H) as H1.
  destruct (skipsTask task (onTaskStarted task context s)).
  - split; [|discriminate]. simpl. now apply nothingRan_finished.
  - unfold tickUntilDone. cbn [tickLoop]. unfold tick.
    destruct H1 as [A B]. rewrite B. cbn [bind]. split; [|discriminate].
    simpl. apply nothingRan_finished. now split.
Qed.

Lemma poolTasks_interrupted (fuel : nat) (tasks : list CheckTask)
  (context : RuntimeContext) (s0 : State) :
  forall s,
    nothingRan reason s0 s ->
    holds (nothingRan reason s0)
      (poolTasks cfg world (S fuel) tasks context s)
    /\ poolTasks cfg world (S fuel) tasks context s <> OutOfFuel.
Proof.
  induction tasks as [|task rest IH]; intros s H.
  - split; [exact H | discriminate].
  - cbn [poolTasks].
    destruct (runTask_interrupted fuel task context s0 s H) as [H1 H2].
    destruct (runTask cfg world (S fuel) task context s)
      as [r s1|e s1|s1|]; simpl in H1.
    + now apply IH.
    + destruct e; (split; [exact H1 | discriminate]).
    + split; [exact H1 | discriminate].
    + congruence.
Qed.

Lemma suspend_sameData (s : State) :
  holds (sameData s) (suspend cfg world s).
Proof.
  pose proof (sameData_resume world s) as H. unfold suspend.
  destruct ((0 <? scanTimeout cfg)%Z
            && (scanTimeout cfg * 1000 <=? elapsedMs world (clock s))%Z);
    [|exact H].
  simpl. destruct (interruptReason (resume world s)); [exact H|].
  destruct H. constructor; assumption.
Qed.

Lemma suspend_interrupted (s0 s : State) :
  nothingRan reason s0 s ->
  holds (nothingRan reason s0) (suspend cfg world s).
Proof.
  intros [A B]. pose proof (suspend_fields cfg world s) as H.
  pose proof (suspend_sameData s) as Hd.
  destruct (suspend cfg world s) as [r s1|e s1|s1|]; simpl in *; auto;
    destruct H as (_ & _ & _ & _ & e');
    (split; [eapply sameData_trans; eassumption | now apply e']).
Qed.

Lemma poolTargets_interrupted (fuel : nat) (requestIDs : list string)
  (s0 : State) :
  forall s,
    nothingRan reason s0 s ->
    holds (nothingRan reason s0)
      (poolTargets sdk cfg batches world (S fuel) requestIDs s)
    /\ poolTargets sdk cfg batches world (S fuel) requestIDs s <> OutOfFuel.
Proof.
  induction requestIDs as [|requestID rest IH]; intros s H.
  - split; [exact H | discriminate].
  - cbn [poolTargets]. unfold processTarget.
    pose proof (suspend_interrupted s0 s H) as Hs.
    destruct (suspend cfg world s) as [[] s1|e s1|s1|] eqn:Es;
      simpl in Hs; cbn [bind].
    + destruct (requests_get sdk requestID) as [t|].
      * destruct batches as [|batch bs]; cbn [processBatches].
        -- now apply IH.
        -- destruct Hs as [A B]. rewrite B.
           split; [now split | discriminate].
      * split; [exact Hs | discriminate].
    + destruct e; (split; [exact Hs | discriminate]).
    + split; [exact Hs | discriminate].
    + unfold suspend in Es.
      destruct ((0 <? scanTimeout cfg)%Z
                && (scanTimeout cfg * 1000 <=? elapsedMs world (clock s))%Z);
        discriminate.
Qed.

(** X18. Once an interruption is pending, the pools run no step.  The pool
    of a batch and the pool of the targets, entered with [interruptReason]
    set, end without a tick: the findings, the dependencies, the history
    and the dedupe index are left as they are, and the reason stays; a
    later [cancel] does not replace it. *)
Theorem interrupted_pools_run_no_step (fuel : nat) (s : State) :
  interruptReason s = Some reason ->
  (forall reason', cancel reason' s = s)
  /\ (forall tasks context,
      holds (nothingRan reason s)
        (poolTasks cfg world (S fuel) tasks context s)
      /\ poolTasks cfg world (S fuel) tasks context s <> OutOfFuel)
  /\ (forall requestIDs,
         holds (nothingRan reason s)
           (poolTargets sdk cfg batches world (S fuel) requestIDs s)
         /\ poolTargets sdk cfg batches world (S fuel) requestIDs s
            <> OutOfFuel).
Proof.
  intros H.
  assert (H0 : nothingRan reason s s) by (split; [apply sameData_refl|exact H]).
  split; [|split].
  - intros reason'. unfold cancel. now rewrite H.
  - intros tasks context. now apply poolTasks_interrupted.
  - intros requestIDs. now apply poolTargets_interrupted.
Qed.

End Interrupted.

Section EstimateFacts.

Variable sdk : SDK.

Variable cfg : ScanConfig.

Variable batches : list (list CheckDefinition).

Lemma filterApplicable_length (batch : list CheckDefinition)
  (context : RuntimeContext) (keys : nat) :
  forall h,
    List.length (fst (filterApplicable batch context keys h))
    <= List.length batch.
Proof.
  induction batch as [|check rest IH]; intros h; [simpl; lia|].
  cbn [filterApplicable].
  destruct (isCheckApplicable check context keys h) as [b h1].
  specialize (IH h1).
  destruct (filterApplicable rest context keys h1) as [sel h2].
  destruct b; simpl in *; lia.
Qed.

Lemma filterBatches_length (bs : list (list CheckDefinition))
  (context : RuntimeContext) (keys : nat) :
  forall h,
    List.length (List.concat (fst (filterBatches bs context keys h)))
    <= planSize bs.
Proof.
  unfold planSize.
  induction bs as [|batch rest IH]; intros h; [simpl; lia|].
  cbn [filterBatches].
  pose proof (filterApplicable_length batch context keys h) as H1.
  destruct (filterApplicable batch context keys h) as [sel h1].
  specialize (IH h1).
  destruct (filterBatches rest context keys h1) as [sels h2].
  simpl in *. rewrite !length_app. lia.
Qed.

Lemma estimateLoop_known (requestIDs : list string) (snapshot : nat) :
  allKnown sdk requestIDs ->
  forall total h,
    exists n,
      fst (estimateLoop sdk cfg batches requestIDs snapshot total h)
      = EstimateSuccess n
      /\ total <= n
      /\ n <= total + List.length requestIDs * planSize batches.
Proof.
  induction 1 as [|requestID rest Hk Hrest IH]; intros total h.
  - exists total. simpl. split; [reflexivity | lia].
  - cbn [estimateLoop].
    destruct (requests_get sdk requestID) as [t|]; [|congruence].
    pose proof (filterBatches_length batches
                  (createRuntimeContext cfg
                     {| request := request t; response := response t |})
                  snapshot h) as Hl.
    destruct (filterBatches batches _ snapshot h) as [tasks h1].
    destruct (IH (total + List.length (List.concat tasks)) h1)
      as (n & E & L1 & L2).
    exists n. split; [exact E|]. simpl in *. lia.
Qed.

Lemma estimateLoop_unknown (found : list string) (requestID : string)
  (rest : list string) (snapshot : nat) :
  allKnown sdk found ->
  requests_get sdk requestID = None ->
  forall total h,
    fst (estimateLoop sdk cfg batches (found ++ requestID :: rest) snapshot
           total h)
    = EstimateError (requestNotFound requestID).
Proof.
  intros Hk Hn. induction Hk as [|i l Hi Hl IH]; intros total h.
  - cbn [app estimateLoop]. now rewrite Hn.
  - cbn [app estimateLoop].
    destruct (requests_get sdk i) as [t|]; [|congruence].
    destruct (filterBatches batches _ snapshot h) as [tasks h1].
    apply IH.
Qed.

(** X19. The result of [estimate].  When the host knows every request id,
    the estimate succeeds, with a total of at most the number of checks of
    the plan for each target; an empty list gives 0.  When it does not, the
    estimate is the error [Request <id> not found] for the first id that is
    not known. *)
Theorem estimate_result (requestIDs : list string) (s : State) :
  (allKnown sdk requestIDs ->
   exists n,
     fst (estimate sdk cfg batches requestIDs s) = EstimateSuccess n
     /\ n <= List.length requestIDs * planSize batches)
  /\ (forall found requestID rest,
         requestIDs = found ++ requestID :: rest ->
         allKnown sdk found ->
         requests_get sdk requestID = None ->
         fst (estimate sdk cfg batches requestIDs s)
         = EstimateError (requestNotFound requestID)).
Proof.
  unfold estimate.
  destruct (createDedupeKeysSnapshot s) as [snapshot h]. split.
  - intros Hk.
    destruct (estimateLoop_known requestIDs snapshot Hk 0 h)
      as (n & E & _ & L).
    destruct (estimateLoop sdk cfg batches requestIDs snapshot 0 h)
      as [r h1]. simpl in *. exists n. split; [exact E | lia].
  - intros found requestID rest -> Hk Hn.
    pose proof (estimateLoop_unknown found requestID rest snapshot Hk Hn 0 h)
      as E.
    destruct (estimateLoop sdk cfg batches (found ++ requestID :: rest)
                snapshot 0 h) as [r h1]. exact E.
Qed.

End EstimateFacts.

Lemma interrupted_pools_run_no_step_witness :
  let s := setInterruptReason (Some Cancelled) initialState in
  let context := createRuntimeContext Sample.config Sample.target1 in
  holds (nothingRan Cancelled s)
    (poolTasks Sample.config Sample.world 1
       [create (Sample.reports "c" None None None) context] context s).
Proof.
  intros s context.
  apply (interrupted_pools_run_no_step Sample.sdk Sample.config
           [[Sample.reports "c" None None None]] Sample.world Cancelled 0 s
           eq_refl).
Defined.

Lemma estimate_result_witness :
  exists n,
    fst (estimate Sample.sdk Sample.config
           [[Sample.reports "c" None None None]] ["1"; "2"] initialState)
    = EstimateSuccess n
    /\ n <= 2 * 1.
Proof.
  apply (estimate_result Sample.sdk Sample.config
           [[Sample.reports "c" None None None]] ["1"; "2"] initialState).
  repeat constructor; discriminate.
Defined.

(** ** The runner: an estimate tells what a run starts *)

Lemma NoDup_snd_inj {V} (m : JsMap.t V) (c c' : string) (r : V) :
  NoDup (map snd m) -> In (c, r) m -> In (c', r) m -> c = c'.
Proof.
  induction m as [|[k v] m IH]; simpl; [tauto|].
  intros Hnd [E1|H1] [E2|H2]; inversion Hnd as [|? ? Hn Hnd']; subst.
  - congruence.
  - injection E1 as -> ->. exfalso. apply Hn.
    apply (in_map snd) in H2. exact H2.
  - injection E2 as -> ->. exfalso. apply Hn.
    apply (in_map snd) in H1. exact H1.
  - now apply IH.
Qed.

Lemma get_none_keys {V} (k : string) (m : JsMap.t V) :
  JsMap.get k m = None <-> ~ In k (JsMap.keys m).
Proof.
  induction m as [|[k' v] m IH]; simpl; [tauto|].
  destruct (String.eqb k k') eqn:E.
  - apply String.eqb_eq in E. subst. split; [discriminate | tauto].
  - apply String.eqb_neq in E. rewrite IH. split.
    + intros H [E'|H']; [congruence | tauto].
    + tauto.
Qed.

Lemma set_new_key {V} (k : string) (v : V) (m : JsMap.t V) :
  JsMap.get k m = None -> JsMap.set k v m = m ++ [(k, v)].
Proof.
  induction m as [|[k' v'] m IH]; simpl; [reflexivity|].
  destruct (String.eqb k k'); [discriminate|]. intros H. now rewrite IH.
Qed.

Lemma isCheckApplicable_exact (check : CheckDefinition)
  (context : RuntimeContext) (keys : nat) (h h' : Store) (b : bool) :
  separateSets h keys ->
  isCheckApplicable check context keys h = (b, h') ->
  separateSets h' keys
  /\ b = applicableIn (claimed h keys) check context
  /\ forall c k,
      claimed h' keys c k
      = claimed h keys c k || newClaim check context c k.
Proof.
  intros (Hw & Hk & Hs) Happ.
  pose proof Hw as [Ha Hwf].
  unfold applicableIn, newClaim.
  destruct (passesFilters check context) eqn:Hp.
  2:{ rewrite isCheckApplicable_filters in Happ by exact Hp.
      injection Happ as <- <-. split; [repeat split; assumption|].
      split; [reflexivity|]. intros c k. now rewrite orb_false_r. }
  rewrite isCheckApplicable_passes in Happ by exact Hp.
  unfold keyFor. cbn [andb].
  destruct (dedupeKey check) as [keyOf|].
  2:{ injection Happ as <- <-. split; [repeat split; assumption|].
      split; [reflexivity|]. intros c k. now rewrite orb_false_r. }
  cbv zeta in Happ.
  set (cid := id (metadata check)) in *.
  set (key := keyOf (target context)) in *.
  unfold claimed at 1.
  destruct (JsMap.get cid (mapAt h keys)) as [r|] eqn:Hget.
  - assert (Hr : r < List.length (sets h)).
    { apply get_In in Hget. rewrite Forall_forall in Hwf.
      apply (Hwf _ Hget). }
    destruct (setHas h r key) eqn:Hhas.
    + injection Happ as <- <-. split; [repeat split; assumption|].
      split; [reflexivity|]. intros c k.
      destruct (String.eqb c cid && String.eqb k key) eqn:E;
        [|now rewrite orb_false_r].
      apply andb_prop in E. destruct E as [E1 E2].
      apply String.eqb_eq in E1, E2. subst c k.
      unfold claimed. now rewrite Hget, Hhas.
    + injection Happ as <- <-. unfold setAdd. rewrite Hhas.
      assert (Hset : forall r2,
                 setAt {| maps := maps h;
                          sets := replaceNth r (setAt h r ++ [key]) (sets h) |}
                       r2
                 = if Nat.eqb r2 r then setAt h r ++ [key] else setAt h r2).
      { intros r2. unfold setAt at 1. simpl.
        destruct (Nat.eqb r2 r) eqn:E.
        - apply Nat.eqb_eq in E. subst r2. now apply nth_replaceNth_same.
        - apply Nat.eqb_neq in E. apply nth_replaceNth_other. congruence. }
      split; [|split; [reflexivity|]].
      * split; [|split; assumption].
        split; simpl; [exact Ha|]. rewrite length_replaceNth. exact Hwf.
      * intros c k. unfold claimed, mapAt. simpl. fold (mapAt h keys).
        destruct (JsMap.get c (mapAt h keys)) as [r2|] eqn:Hg2.
        -- unfold setHas. rewrite Hset.
           destruct (Nat.eqb r2 r) eqn:E.
           ++ apply Nat.eqb_eq in E. subst r2.
              assert (c = cid).
              { apply get_In in Hg2, Hget.
                eapply NoDup_snd_inj; eassumption. }
              subst c. rewrite String.eqb_refl. cbn [andb].
              rewrite existsb_app. simpl. now rewrite orb_false_r.
           ++ destruct (String.eqb c cid) eqn:Ec.
              ** apply String.eqb_eq in Ec. subst c.
                 rewrite Hget in Hg2. injection Hg2 as <-.
                 now rewrite Nat.eqb_refl in E.
              ** cbn [andb]. now rewrite orb_false_r.
        -- destruct (String.eqb c cid) eqn:Ec.
           ++ apply String.eqb_eq in Ec. subst c. congruence.
           ++ reflexivity.
  - unfold newSet in Happ.
    set (r := List.length (sets h)) in *.
    set (h1 := mapSet keys cid r
                 {| maps := maps h; sets := sets h ++ [[]] |}) in *.
    assert (Hm1 : mapAt h1 keys = JsMap.set cid r (mapAt h keys)).
    { unfold h1, mapSet, mapAt. simpl. now apply nth_replaceNth_same. }
    assert (Hs1 : forall r2, r2 < r -> setAt h1 r2 = setAt h r2).
    { intros r2 Hlt. unfold h1, mapSet, setAt. simpl. now rewrite app_nth1. }
    assert (Hsr : setAt h1 r = []).
    { unfold h1, mapSet, setAt. simpl. subst r.
      rewrite app_nth2 by lia. now rewrite Nat.sub_diag. }
    assert (Hhas : setHas h1 r key = false).
    { unfold setHas. now rewrite Hsr. }
    rewrite Hhas in Happ. injection Happ as <- <-.
    unfold setAdd. rewrite Hhas.
    assert (Hset : forall r2,
               setAt {| maps := maps h1;
                        sets := replaceNth r (setAt h1 r ++ [key])
                                  (sets h1) |} r2
               = if Nat.eqb r2 r then [key] else setAt h1 r2).
    { intros r2. unfold setAt at 1. simpl.
      destruct (Nat.eqb r2 r) eqn:E.
      - apply Nat.eqb_eq in E. subst r2. rewrite Hsr. simpl.
        apply nth_replaceNth_same. unfold h1, mapSet. simpl.
        rewrite length_app. simpl. lia.
      - apply Nat.eqb_neq in E. apply nth_replaceNth_other. congruence. }
    assert (Hlen : List.length (sets h1) = S r).
    { unfold h1, mapSet. simpl. rewrite length_app. simpl. lia. }
    assert (Hbelow : forall c r2, JsMap.get c (mapAt h keys) = Some r2 ->
                                  r2 < r).
    { intros c r2 Hg2. apply get_In in Hg2. rewrite Forall_forall in Hwf.
      apply (Hwf _ Hg2). }
    split; [|split; [reflexivity|]].
    + unfold separateSets.
      change (mapAt {| maps := maps h1; sets := _ |} keys)
        with (mapAt h1 keys).
      rewrite Hm1. split; [|split].
      * unfold wfIndex. split; cbn [maps sets].
        -- unfold h1, mapSet. simpl. now rewrite length_replaceNth.
        -- rewrite length_replaceNth, Hlen.
           change (mapAt {| maps := maps h1; sets := _ |} keys)
             with (mapAt h1 keys).
           rewrite Hm1. apply Forall_set; [simpl; lia|].
           eapply Forall_impl; [|exact Hwf]. simpl. intros. lia.
      * now apply NoDup_keys_set.
      * rewrite set_new_key by exact Hget. rewrite map_app. simpl.
        apply NoDup_app; [exact Hs | repeat constructor; simpl; tauto |].
        intros x Hx [<-|[]]. apply in_map_iff in Hx.
        destruct Hx as ([c r2] & E & Hin). simpl in E. subst r2.
        rewrite Forall_forall in Hwf. specialize (Hwf _ Hin). simpl in Hwf.
        lia.
    + intros c k. unfold claimed.
      change (mapAt {| maps := maps h1; sets := _ |} keys)
        with (mapAt h1 keys).
      rewrite Hm1.
      destruct (String.eqb c cid) eqn:E.
      * apply String.eqb_eq in E. subst c. rewrite get_set_same, Hget.
        unfold setHas. rewrite Hset, Nat.eqb_refl. simpl.
        now rewrite orb_false_r.
      * apply String.eqb_neq in E.
        rewrite get_set_other by congruence. cbn [andb].
        rewrite orb_false_r.
        destruct (JsMap.get c (mapAt h keys)) as [r2|] eqn:Hg2; auto.
        pose proof (Hbelow _ _ Hg2) as Hr2.
        unfold setHas. rewrite Hset.
        destruct (Nat.eqb r2 r) eqn:E2.
        -- apply Nat.eqb_eq in E2. lia.
        -- now rewrite Hs1.
Qed.

Lemma applicableIn_ext (C1 C2 : string -> string -> bool)
  (check : CheckDefinition) (context : RuntimeContext) :
  (forall c k, C1 c k = C2 c k) ->
  applicableIn C1 check context = applicableIn C2 check context.
Proof.
  intros H. unfold applicableIn.
  destruct (keyFor check context); [now rewrite H | reflexivity].
Qed.

Lemma isCheckApplicable_sameClaims (check : CheckDefinition)
  (context : RuntimeContext) (k1 k2 : nat) (h1 h2 : Store) :
  separateSets h1 k1 -> separateSets h2 k2 ->
  sameClaims h1 k1 h2 k2 ->
  fst (isCheckApplicable check context k1 h1)
  = fst (isCheckApplicable check context k2 h2)
  /\ separateSets (snd (isCheckApplicable check context k1 h1)) k1
  /\ separateSets (snd (isCheckApplicable check context k2 h2)) k2
  /\ sameClaims (snd (isCheckApplicable check context k1 h1)) k1
       (snd (isCheckApplicable check context k2 h2)) k2.
Proof.
  intros S1 S2 Hc.
  destruct (isCheckApplicable check context k1 h1) as [b1 h1'] eqn:E1.
  destruct (isCheckApplicable check context k2 h2) as [b2 h2'] eqn:E2.
  destruct (isCheckApplicable_exact _ _ _ _ _ _ S1 E1) as (A1 & B1 & C1).
  destruct (isCheckApplicable_exact _ _ _ _ _ _ S2 E2) as (A2 & B2 & C2).
  cbn [fst snd]. split; [|split; [exact A1|split; [exact A2|]]].
  - rewrite B1, B2. now apply applicableIn_ext.
  - intros c k. now rewrite C1, C2, Hc.
Qed.

Lemma filterApplicable_sameClaims (batch : list CheckDefinition)
  (context : RuntimeContext) (k1 k2 : nat) :
  forall h1 h2,
    separateSets h1 k1 -> separateSets h2 k2 ->
    sameClaims h1 k1 h2 k2 ->
    fst (filterApplicable batch context k1 h1)
    = fst (filterApplicable batch context k2 h2)
    /\ separateSets (snd (filterApplicable batch context k1 h1)) k1
    /\ separateSets (snd (filterApplicable batch context k2 h2)) k2
    /\ sameClaims (snd (filterApplicable batch context k1 h1)) k1
         (snd (filterApplicable batch context k2 h2)) k2.
Proof.
  induction batch as [|check rest IH]; intros h1 h2 S1 S2 Hc.
  - simpl. auto.
  - cbn [filterApplicable].
    destruct (isCheckApplicable_sameClaims check context k1 k2 h1 h2 S1 S2 Hc)
      as (A & B & C & D).
    destruct (isCheckApplicable check context k1 h1) as [b1 h1'].
    destruct (isCheckApplicable check context k2 h2) as [b2 h2'].
    cbn [fst snd] in *. subst b2.
    destruct (IH h1' h2' B C D) as (A' & B' & C' & D').
    destruct (filterApplicable rest context k1 h1') as [sel1 h1''].
    destruct (filterApplicable rest context k2 h2') as [sel2 h2''].
    cbn [fst snd] in *. subst sel2. auto.
Qed.

Lemma filterBatches_sameClaims (bs : list (list CheckDefinition))
  (context : RuntimeContext) (k1 k2 : nat) :
  forall h1 h2,
    separateSets h1 k1 -> separateSets h2 k2 ->
    sameClaims h1 k1 h2 k2 ->
    fst (filterBatches bs context k1 h1)
    = fst (filterBatches bs context k2 h2)
    /\ separateSets (snd (filterBatches bs context k1 h1)) k1
    /\ separateSets (snd (filterBatches bs context k2 h2)) k2
    /\ sameClaims (snd (filterBatches bs context k1 h1)) k1
         (snd (filterBatches bs context k2 h2)) k2.
Proof.
  induction bs as [|batch rest IH]; intros h1 h2 S1 S2 Hc.
  - simpl. auto.
  - cbn [filterBatches].
    destruct (filterApplicable_sameClaims batch context k1 k2 h1 h2 S1 S2 Hc)
      as (A & B & C & D).
    destruct (filterApplicable batch context k1 h1) as [sel1 h1'].
    destruct (filterApplicable batch context k2 h2) as [sel2 h2'].
    cbn [fst snd] in *. subst sel2.
    destruct (IH h1' h2' B C D) as (A' & B' & C' & D').
    destruct (filterBatches rest context k1 h1') as [sels1 h1''].
    destruct (filterBatches rest context k2 h2') as [sels2 h2''].
    cbn [fst snd] in *. subst sels2. auto.
Qed.

Lemma estimateLoop_sameClaims (sdk : SDK) (cfg : ScanConfig)
  (batches : list (list CheckDefinition)) (requestIDs : list string)
  (k1 k2 : nat) :
  forall total h1 h2,
    separateSets h1 k1 -> separateSets h2 k2 ->
    sameClaims h1 k1 h2 k2 ->
    fst (estimateLoop sdk cfg batches requestIDs k1 total h1)
    = fst (estimateLoop sdk cfg batches requestIDs k2 total h2).
Proof.
  induction requestIDs as [|requestID rest IH]; intros total h1 h2 S1 S2 Hc.
  - reflexivity.
  - cbn [estimateLoop].
    destruct (requests_get sdk requestID) as [t|]; [|reflexivity].
    destruct (filterBatches_sameClaims batches
                (createRuntimeContext cfg
                   {| request := request t; response := response t |})
                k1 k2 h1 h2 S1 S2 Hc) as (A & B & C & D).
    destruct (filterBatches batches _ k1 h1) as [t1 h1'].
    destruct (filterBatches batches _ k2 h2) as [t2 h2'].
    cbn [fst snd] in *. subst t2. now apply IH.
Qed.

Lemma get_app {V} (k : string) (m1 m2 : JsMap.t V) :
  JsMap.get k (m1 ++ m2)
  = match JsMap.get k m1 with
    | Some v => Some v
    | None => JsMap.get k m2
    end.
Proof.
  induction m1 as [|[k' v] m1 IH]; simpl; [reflexivity|].
  destruct (String.eqb k k'); [reflexivity | exact IH].
Qed.

Lemma copyEntries_mirrors (h0 : Store) (snapshot : nat) :
  forall rest copied h,
    NoDup (map fst (copied ++ rest)) ->
    Forall (fun kv => snd kv < List.length (sets h0)) rest ->
    snapshot < List.length (maps h) ->
    List.length (sets h0) <= List.length (sets h) ->
    (forall r, r < List.length (sets h0) -> setAt h r = setAt h0 r) ->
    JsMap.keys (mapAt h snapshot) = map fst copied ->
    Forall (fun kv => snd kv < List.length (sets h)) (mapAt h snapshot) ->
    NoDup (map snd (mapAt h snapshot)) ->
    mirrors h0 copied h snapshot ->
    separateSets (copyEntries rest snapshot h) snapshot
    /\ mirrors h0 (copied ++ rest) (copyEntries rest snapshot h) snapshot.
Proof.
  induction rest as [|[c0 r0] rest IH];
    intros copied h Hnd Hrest Hsnap Hlen Hold Hkeys Hrefs Hnds Hmir.
  - cbn [copyEntries]. rewrite app_nil_r in *. split; [|exact Hmir].
    split; [split; assumption|]. split; [|exact Hnds].
    rewrite Hkeys. exact Hnd.
  - cbn [copyEntries]. unfold newSet.
    set (r' := List.length (sets h)).
    set (h1 := {| maps := maps h; sets := sets h ++ [setAt h r0] |}).
    set (h2 := mapSet snapshot c0 r' h1).
    inversion Hrest as [|? ? Hr0 Hrest']; subst. simpl in Hr0.
    assert (Hc0 : JsMap.get c0 (mapAt h snapshot) = None).
    { apply get_none_keys. rewrite Hkeys. intros Hin.
      rewrite map_app in Hnd. simpl in Hnd.
      apply NoDup_remove_2 in Hnd. apply Hnd. apply in_or_app. now left. }
    assert (Hm2 : mapAt h2 snapshot = mapAt h snapshot ++ [(c0, r')]).
    { unfold h2, mapSet, mapAt. cbn [maps].
      rewrite nth_replaceNth_same by exact Hsnap.
      apply set_new_key. exact Hc0. }
    assert (Hs2 : forall r, r < r' -> setAt h2 r = setAt h r).
    { intros r Hlt. unfold h2, mapSet, setAt. cbn [sets h1].
      now rewrite app_nth1. }
    assert (Hs2' : setAt h2 r' = setAt h0 r0).
    { unfold h2, mapSet, setAt. cbn [sets h1]. subst r'.
      rewrite app_nth2 by lia. rewrite Nat.sub_diag. simpl.
      apply Hold. exact Hr0. }
    assert (Hlen2 : List.length (sets h2) = S r').
    { unfold h2, mapSet. cbn [sets h1]. rewrite length_app. simpl. lia. }
    replace (copied ++ (c0, r0) :: rest)
      with ((copied ++ [(c0, r0)]) ++ rest) in *
      by (now rewrite <- app_assoc).
    apply IH; try assumption.
    + unfold h2, mapSet. cbn [maps h1]. now rewrite length_replaceNth.
    + rewrite Hlen2. subst r'. lia.
    + intros r Hr. rewrite Hs2 by (subst r'; lia). now apply Hold.
    + rewrite Hm2. unfold JsMap.keys in *. rewrite !map_app, Hkeys.
      reflexivity.
    + rewrite Hm2, Hlen2. apply Forall_app. split.
      * eapply Forall_impl; [|exact Hrefs]. simpl. intros. fold r'. lia.
      * constructor; [simpl; lia | constructor].
    + rewrite Hm2, map_app. simpl.
      apply NoDup_app; [exact Hnds | repeat constructor; simpl; tauto |].
      intros x Hx [<-|[]]. apply in_map_iff in Hx.
      destruct Hx as ([c r2] & E & Hin). simpl in E. subst r2.
      rewrite Forall_forall in Hrefs. specialize (Hrefs _ Hin).
      simpl in Hrefs. fold r' in Hrefs. lia.
    + intros c. specialize (Hmir c). rewrite get_app, Hm2, get_app.
      destruct (JsMap.get c copied) as [r|] eqn:Eg.
      * destruct Hmir as (r1 & Hg & Hset). rewrite Hg. exists r1.
        split; [reflexivity|]. rewrite Hs2; [exact Hset|].
        apply get_In in Hg. rewrite Forall_forall in Hrefs.
        apply (Hrefs _ Hg).
      * rewrite Hmir. simpl.
        destruct (String.eqb c c0); [|reflexivity].
        exists r'. split; [reflexivity | exact Hs2'].
Qed.

Lemma snapshot_sameClaims (s : State) :
  separateSets (store s) (dedupeKeys s) ->
  separateSets (snd (createDedupeKeysSnapshot s))
    (fst (createDedupeKeysSnapshot s))
  /\ sameClaims (snd (createDedupeKeysSnapshot s))
       (fst (createDedupeKeysSnapshot s)) (store s) (dedupeKeys s).
Proof.
  intros ((Ha & Hwf) & Hk & Hs).
  unfold createDedupeKeysSnapshot, newMap. cbn [fst snd].
  set (snapshot := List.length (maps (store s))).
  set (h1 := {| maps := maps (store s) ++ [[]]; sets := sets (store s) |}).
  assert (Hm1 : mapAt h1 snapshot = []).
  { unfold h1, mapAt. cbn [maps]. subst snapshot.
    rewrite app_nth2 by lia. now rewrite Nat.sub_diag. }
  destruct (copyEntries_mirrors (store s) snapshot
              (mapAt (store s) (dedupeKeys s)) [] h1) as [A B].
  - exact Hk.
  - exact Hwf.
  - unfold h1. cbn [maps]. rewrite length_app. simpl. subst snapshot. lia.
  - unfold h1. cbn [sets]. lia.
  - intros r _. reflexivity.
  - now rewrite Hm1.
  - rewrite Hm1. constructor.
  - rewrite Hm1. constructor.
  - intros c. simpl. now rewrite Hm1.
  - split; [exact A|]. intros c k. specialize (B c). cbn [app] in B.
    unfold claimed.
    destruct (JsMap.get c (mapAt (store s) (dedupeKeys s))) as [r|].
    + destruct B as (r' & Hg & Hset). rewrite Hg. unfold setHas.
      now rewrite Hset.
    + now rewrite B.
Qed.

Lemma startedCount_app (l1 l2 : list ScanEvent) :
  startedCount (l1 ++ l2) = startedCount l1 + startedCount l2.
Proof. unfold startedCount. now rewrite filter_app, length_app. Qed.

Lemma startedCount_snoc (l : list ScanEvent) (e : ScanEvent) :
  startedCount (l ++ [e])
  = startedCount l + (if isStarted e then 1 else 0).
Proof. rewrite startedCount_app. unfold startedCount. simpl.
  destruct (isStarted e); reflexivity. Qed.

Lemma startedCount_findings (t c : string) (fs : list Finding) :
  startedCount (map (scan_finding t c) fs) = 0.
Proof. induction fs; simpl; auto. Qed.

Section Counting.

Variable sdk : SDK.

Variable cfg : ScanConfig.

Variable batches : list (list CheckDefinition).

Variable world : World.

Lemma noStart_refl (s : State) : noStart s s.
Proof. repeat split. Qed.

Lemma suspend_noStart (s0 s : State) :
  noStart s0 s -> holds (noStart s0) (suspend cfg world s).
Proof.
  intros (A & B & C).
  pose proof (suspend_fields cfg world s) as Hf.
  pose proof (suspend_index cfg world s) as Hi.
  destruct (suspend cfg world s) as [r s1|e s1|s1|]; simpl in *; auto;
    destruct Hf as (_ & _ & Ev & _); destruct Hi as [Hs Hd];
    (split; [now rewrite Ev | split; congruence]).
Qed.

Lemma returned_noStart (s0 : State) (task : CheckTask) (res : StepResult)
  (task' : CheckTask) (s : State) :
  noStart s0 s -> noStart s0 (snd (tickReturned task res task' s)).
Proof.
  intros (A & B & C).
  destruct (tickReturned task res task' s) as [r s'] eqn:E.
  symmetry in E.
  destruct (tickReturned_spec task task' res s s' r E)
    as (Hd & _).
  assert (Hev : startedCount (events s') = startedCount (events s)).
  { unfold tickReturned in E. injection E as _ ->.
    set (t := getId (request (getTarget task'))).
    set (c := id (task_metadata task')).
    destruct (recordStepExecution_fields c t (stepRecordOf task res task')
                (emitFindings t c (orEmpty (sr_findings res)) s))
      as (_ & _ & _ & _ & Ev & _).
    rewrite Ev, emitFindings_events, startedCount_app,
      startedCount_findings. lia. }
  cbn [snd]. destruct Hd. split; [congruence | split; congruence].
Qed.

Lemma tickLoop_noStart (fuel : nat) (task : CheckTask) (acc : list Finding)
  (s : State) :
  holds (noStart s) (tickLoop cfg world fuel task acc s).
Proof.
  apply (tickLoop_keeps cfg world (noStart s)).
  - apply suspend_noStart.
  - apply returned_noStart.
  - apply noStart_refl.
Qed.

Lemma storeResult_noStart (task : CheckTask) (context : RuntimeContext)
  (res : TaskExecutionResult) (s : State) :
  noStart s (storeResult task context res s).
Proof.
  destruct (storeResult_index task context res s) as [Hs Hd].
  split; [|split; assumption].
  unfold storeResult.
  set (s1 := match resultFindings res with
             | Some fs => setFindings _ s
             | None => s
             end).
  assert (E1 : events s1 = events s).
  { subst s1. destruct (resultFindings res); reflexivity. }
  destruct res as [[| ] fs out|fs c m].
  - match goal with
    | |- context [closeRecord ?k ?st ?x] =>
        destruct (closeRecord_fields k st x) as (_ & _ & _ & _ & Ev & _)
    end.
    rewrite Ev. cbn [events setDependencies]. now rewrite E1.
  - now rewrite E1.
  - match goal with
    | |- context [closeRecord ?k ?st ?x] =>
        destruct (closeRecord_fields k st x) as (_ & _ & _ & _ & Ev & _)
    end.
    unfold emit, setEvents. cbn [events].
    rewrite startedCount_snoc, Ev, E1. cbn [isStarted]. lia.
Qed.

(** An error of a tick is an interruption that was pending. *)
Lemma tickLoop_raises (fuel : nat) :
  forall task acc s e s',
    tickLoop cfg world fuel task acc s = Raise e s' ->
    interruptReason s' <> None.
Proof.
  induction fuel as [|fuel IH]; intros task acc s e s' H; [discriminate|].
  cbn [tickLoop] in H.
  pose proof (tick_cases cfg world task s) as Hc.
  destruct (tick cfg world task s) as [[res task'] s1|e1 s1|s1|];
    cbn [bind] in H; try discriminate.
  - destruct res as [[| ] fs out|fs c m]; try discriminate.
    eapply IH, H.
  - injection H as <- <-. destruct Hc as (-> & reason & Hr & _).
    congruence.
Qed.

Lemma runTask_counts (fuel : nat) (task : CheckTask)
  (context : RuntimeContext) (s : State) :
  holds (startedMore 1 s) (runTask cfg world fuel task context s)
  /\ forall e s',
      runTask cfg world fuel task context s = Raise e s' ->
      interruptReason s' <> None.
Proof.
  unfold runTask, processTask.
  set (s0 := onTaskStarted task context s).
  assert (H0 : startedMore 1 s s0).
  { subst s0. unfold startedMore, onTaskStarted, emit, setEvents.
    cbn [events store dedupeKeys setActiveCheckRecords].
    rewrite startedCount_snoc. cbn [isStarted]. repeat split. }
  assert (Hfin : forall x, startedMore 1 s x ->
                           startedMore 1 s (onTaskFinished task context x)).
  { intros x (A & B & C). unfold startedMore, onTaskFinished, emit, setEvents.
    cbn [events store dedupeKeys]. rewrite startedCount_snoc.
    cbn [isStarted]. repeat split; try assumption. lia. }
  assert (Hstep : forall x, noStart s0 x -> startedMore 1 s x).
  { intros x (A & B & C). destruct H0 as (A0 & B0 & C0).
    split; [congruence | split; congruence]. }
  destruct (skipsTask task s0).
  - split; [|discriminate]. simpl. now apply Hfin.
  - unfold tickUntilDone.
    pose proof (tickLoop_noStart fuel task [] s0) as H1.
    pose proof (tickLoop_raises fuel task [] s0) as H2.
    destruct (tickLoop cfg world fuel task [] s0)
      as [[res task'] s1|e s1|s1|]; simpl in *.
    + split; [|discriminate]. apply Hfin, Hstep.
      destruct (storeResult_noStart task' context res s1) as (A & B & C).
      destruct H1 as (A1 & B1 & C1).
      split; [congruence | split; congruence].
    + split; [now apply Hfin, Hstep|].
      intros e' s' E. injection E as _ <-. simpl. eapply H2. reflexivity.
    + split; [now apply Hstep | discriminate].
    + split; [exact I | discriminate].
Qed.

Lemma poolTasks_no_interruption (fuel : nat) (tasks : list CheckTask)
  (context : RuntimeContext) :
  forall s reason s',
    poolTasks cfg world fuel tasks context s
    <> Raise (ScanRunnableInterruptedError reason) s'.
Proof.
  induction tasks as [|task rest IH]; intros s reason s'; [discriminate|].
  cbn [poolTasks].
  destruct (runTask cfg world fuel task context s)
    as [r s1|e s1|s1|]; try discriminate; [apply IH|].
  destruct e; discriminate.
Qed.

Ltac keeps :=
  first [ apply suspend_runKeeps | apply returned_runKeeps
        | apply store_runKeeps | apply started_runKeeps
        | apply finished_runKeeps | apply index_runKeeps
        | apply runKeeps_refl ].

Lemma sticky {A} (s : State) (m : Res A) (a : A) (s' : State) :
  holds (runKeeps s) m -> m = Ret a s' ->
  interruptReason s' = None -> interruptReason s = None.
Proof.
  intros H -> Hn. simpl in H. destruct H as (_ & _ & Hi).
  destruct (interruptReason s) as [r|]; [|reflexivity].
  rewrite (Hi r eq_refl) in Hn. discriminate.
Qed.

Lemma poolTasks_counts (fuel : nat) (tasks : list CheckTask)
  (context : RuntimeContext) :
  forall s s',
    poolTasks cfg world fuel tasks context s = Ret tt s' ->
    interruptReason s' = None ->
    startedMore (List.length tasks) s s'.
Proof.
  induction tasks as [|task rest IH]; intros s s' H Hn.
  - injection H as <-. unfold startedMore. repeat split. simpl. lia.
  - cbn [poolTasks] in H.
    destruct (runTask_counts fuel task context s) as [Hc Hr].
    destruct (runTask cfg world fuel task context s)
      as [r s1|e s1|s1|] eqn:E; try discriminate.
    + simpl in Hc. destruct (IH s1 s' H Hn) as (A & B & C).
      destruct Hc as (A1 & B1 & C1). unfold startedMore. simpl.
      split; [lia | split; congruence].
    + destruct e; try discriminate. injection H as <-.
      exfalso. eapply Hr; [reflexivity | exact Hn].
Qed.

Lemma processBatch_counts (fuel : nat) (batch : list CheckDefinition)
  (context : RuntimeContext) (s s' : State) :
  processBatch cfg world fuel batch context s = Ret tt s' ->
  interruptReason s' = None ->
  let r := filterApplicable batch context (dedupeKeys s) (store s) in
  startedCount (events s')
  = startedCount (events s) + List.length (fst r)
  /\ store s' = snd r /\ dedupeKeys s' = dedupeKeys s.
Proof.
  unfold processBatch. intros H Hn.
  destruct (filterApplicable batch context (dedupeKeys s) (store s))
    as [selected h].
  destruct (poolTasks_counts fuel _ context _ s' H Hn) as (A & B & C).
  rewrite length_map in A. cbn [fst snd]. simpl in *. auto.
Qed.

Lemma processBatches_runKeeps (fuel : nat) (bs : list (list CheckDefinition))
  (context : RuntimeContext) (s : State) :
  holds (runKeeps s) (processBatches cfg world fuel bs context s).
Proof. apply (processBatches_keeps cfg world (runKeeps s)); keeps. Qed.

Lemma processBatches_counts (fuel : nat) (bs : list (list CheckDefinition))
  (context : RuntimeContext) :
  forall s s',
    processBatches cfg world fuel bs context s = Ret tt s' ->
    interruptReason s' = None ->
    let r := filterBatches bs context (dedupeKeys s) (store s) in
    startedCount (events s')
    = startedCount (events s) + List.length (List.concat (fst r))
    /\ store s' = snd r /\ dedupeKeys s' = dedupeKeys s.
Proof.
  induction bs as [|batch rest IH]; intros s s' H Hn.
  - injection H as <-. simpl. repeat split. lia.
  - cbn [processBatches] in H.
    destruct (interruptReason s); [discriminate|].
    destruct (processBatch cfg world fuel batch context s)
      as [[] s1|e s1|s1|] eqn:E; cbn [bind] in H; try discriminate.
    assert (Hn1 : interruptReason s1 = None).
    { eapply sticky; [apply processBatches_runKeeps | exact H | exact Hn]. }
    destruct (processBatch_counts fuel batch context s s1 E Hn1)
      as (A & B & C).
    destruct (IH s1 s' H Hn) as (A' & B' & C').
    cbn [filterBatches].
    destruct (filterApplicable batch context (dedupeKeys s) (store s))
      as [sel h1].
    cbn [fst snd] in *. rewrite C, B in *.
    destruct (filterBatches rest context (dedupeKeys s) h1) as [sels h2].
    cbn [fst snd List.concat] in *. rewrite length_app.
    split; [lia | split; congruence].
Qed.

Lemma processBatches_raises (fuel : nat) (bs : list (list CheckDefinition))
  (context : RuntimeContext) :
  forall s reason s',
    processBatches cfg world fuel bs context s
    = Raise (ScanRunnableInterruptedError reason) s' ->
    interruptReason s' <> None.
Proof.
  induction bs as [|batch rest IH]; intros s reason s' H; [discriminate|].
  cbn [processBatches] in H.
  destruct (interruptReason s) eqn:Ei.
  - injection H as _ <-. congruence.
  - unfold processBatch in H.
    destruct (filterApplicable batch context (dedupeKeys s) (store s))
      as [sel h].
    pose proof (poolTasks_no_interruption fuel
                  (map (fun check => create check context) sel) context
                  (setStore h s)) as Hp.
    destruct (poolTasks cfg world fuel
                (map (fun check => create check context) sel) context
                (setStore h s))
      as [[] s1|e s1|s1|]; cbn [bind] in H; try discriminate.
    + eapply IH, H.
    + exfalso. eapply Hp. exact H.
Qed.

Lemma suspend_no_raise (s : State) (e : Thrown) (s' : State) :
  suspend cfg world s <> Raise e s'.
Proof.
  unfold suspend.
  destruct ((0 <? scanTimeout cfg)%Z
            && (scanTimeout cfg * 1000 <=? elapsedMs world (clock s))%Z);
    discriminate.
Qed.

Lemma poolTargets_counts (fuel : nat) (requestIDs : list string) :
  forall total s s',
    poolTargets sdk cfg batches world fuel requestIDs s = Ret tt s' ->
    interruptReason s' = None ->
    exists n,
      estimateLoop sdk cfg batches requestIDs (dedupeKeys s) total (store s)
      = (EstimateSuccess (total + n), store s')
      /\ startedCount (events s') = startedCount (events s) + n
      /\ dedupeKeys s' = dedupeKeys s.
Proof.
  induction requestIDs as [|requestID rest IH]; intros total s s' H Hn.
  - injection H as <-. exists 0. simpl. rewrite Nat.add_0_r.
    repeat split. lia.
  - cbn [poolTargets] in H. cbn [estimateLoop].
    unfold processTarget in H.
    pose proof (suspend_noStart s s (noStart_refl s)) as Hs.
    pose proof (suspend_no_raise s) as Hnr.
    destruct (suspend cfg world s) as [[] s1|e s1|s1|];
      cbn [bind] in H; try discriminate.
    2:{ exfalso. eapply Hnr. reflexivity. }
    simpl in Hs. destruct Hs as (A0 & B0 & C0).
    destruct (requests_get sdk requestID) as [t|]; [|discriminate].
    set (context := createRuntimeContext cfg
                      {| request := request t; response := response t |})
      in *.
    pose proof (processBatches_raises fuel batches context s1) as Hr.
    destruct (processBatches cfg world fuel batches context s1)
      as [[] s2|e s2|s2|] eqn:E; try discriminate.
    + assert (Hn2 : interruptReason s2 = None).
      { eapply sticky; [|exact H|exact Hn].
        apply (poolTargets_keeps sdk cfg batches world (runKeeps s2));
          keeps. }
      destruct (processBatches_counts fuel batches context s1 s2 E Hn2)
        as (A & B & C).
      rewrite C0, B0 in *.
      destruct (filterBatches batches context (dedupeKeys s) (store s))
        as [tasks h1].
      cbn [fst snd] in *.
      destruct (IH (total + List.length (List.concat tasks)) s2 s' H Hn)
        as (n & E1 & E2 & E3).
      exists (List.length (List.concat tasks) + n).
      rewrite C, B in E1. rewrite E1.
      split; [f_equal; f_equal; lia|]. split; [lia | congruence].
    + destruct e; try discriminate. injection H as <-.
      exfalso. eapply Hr; [reflexivity | exact Hn].
Qed.

End Counting.

(** X20. An estimate predicts the run.  On a runner that has not run, whose
    dedupe index shares no set between checks, [estimate] gives the number
    of checks that a run on the same request ids starts, when that run
    finishes without an interruption: the total is the number of
    [scan:check-started] events that the run emits. *)
Theorem estimate_predicts_run (sdk : SDK) (cfg : ScanConfig)
  (batches : list (list CheckDefinition)) (world : World) (fuel : nat)
  (requestIDs : list string) (s s' : State) (fs : list Finding) :
  hasRun s = false ->
  separateSets (store s) (dedupeKeys s) ->
  run sdk cfg batches world fuel requestIDs s = Ret (Finished fs) s' ->
  interruptReason s' = None ->
  exists n,
    fst (estimate sdk cfg batches requestIDs s) = EstimateSuccess n
    /\ startedCount (events s') = startedCount (events s) + n.
Proof.
  intros Hr Hsep Hrun Hn.
  assert (Hscan : runScan sdk cfg batches world fuel requestIDs s
                  = Ret (Finished fs) s').
  { unfold run in Hrun. rewrite Hr in Hrun.
    destruct (0 <? scanTimeout cfg)%Z; [|exact Hrun].
    destruct (runScan sdk cfg batches world fuel requestIDs s);
      congruence. }
  unfold runScan in Hscan.
  set (s1 := emit scan_started (setHasRun true s)) in *.
  destruct (poolTargets sdk cfg batches world fuel requestIDs s1)
    as [[] s2|e s2|s2|] eqn:E; try discriminate.
  2:{ destruct e; discriminate. }
  injection Hscan as _ <-.
  destruct (poolTargets_counts sdk cfg batches world fuel requestIDs 0 s1 s2
              E Hn) as (n & E1 & E2 & _).
  exists n. split.
  - unfold estimate.
    destruct (snapshot_sameClaims s Hsep) as [Hs Hc].
    destruct (createDedupeKeysSnapshot s) as [snapshot h]. cbn [fst snd] in *.
    pose proof (estimateLoop_sameClaims sdk cfg batches requestIDs snapshot
                  (dedupeKeys s) 0 h (store s) Hs Hsep Hc) as Heq.
    change (dedupeKeys s1) with (dedupeKeys s) in E1.
    change (store s1) with (store s) in E1.
    rewrite E1 in Heq. cbn [fst] in Heq.
    destruct (estimateLoop sdk cfg batches requestIDs snapshot 0 h)
      as [r h1]. cbn [fst] in *. exact Heq.
  - unfold emit, setEvents. cbn [events]. rewrite startedCount_snoc, E2.
    subst s1. unfold emit, setEvents. cbn [events setHasRun].
    rewrite startedCount_snoc. cbn [isStarted]. lia.
Qed.

Lemma estimate_predicts_run_witness :
  exists n,
    fst (estimate Sample.sdk Sample.config
           [[Sample.reports "c" None None (Some Sample.hostKey)]]
           ["1"; "2"] initialState) = EstimateSuccess n
    /\ n = 1.
Proof.
  assert (H : exists fs s',
             run Sample.sdk Sample.config
               [[Sample.reports "c" None None (Some Sample.hostKey)]]
               Sample.world 2 ["1"; "2"] initialState = Ret (Finished fs) s'
             /\ interruptReason s' = None
             /\ startedCount (events s') = 1).
  { do 2 eexists. vm_compute. repeat split. }
  destruct H as (fs & s' & Hrun & Hn & Hc).
  assert (Hsep : separateSets (store initialState) (dedupeKeys initialState)).
  { unfold separateSets, wfIndex. simpl.
    repeat split; constructor. }
  destruct (estimate_predicts_run Sample.sdk Sample.config
              [[Sample.reports "c" None None (Some Sample.hostKey)]]
              Sample.world 2 ["1"; "2"] initialState s' fs eq_refl Hsep
              Hrun Hn) as (n & E & C).
  exists n. split; [exact E|]. rewrite Hc in C. simpl in C. lia.
Defined.

Lemma isCheckApplicable_claimed (check : CheckDefinition)
  (context : RuntimeContext) (keys : nat) (h : Store) (key : string) :
  keyFor check context = Some key ->
  claimed h keys (id (metadata check)) key = true ->
  isCheckApplicable check context keys h = (false, h).
Proof.
  intros Hk Hc.
  destruct (passesFilters check context) eqn:Hp.
  2:{ now apply isCheckApplicable_filters. }
  rewrite isCheckApplicable_passes by exact Hp.
  unfold keyFor in Hk. unfold claimed in Hc.
  destruct (dedupeKey check) as [keyOf|]; [|discriminate].
  injection Hk as Hk. cbv zeta. rewrite Hk.
  destruct (JsMap.get (id (metadata check)) (mapAt h keys)) as [r|];
    [|discriminate].
  now rewrite Hc.
Qed.

(** X21. An index installed from outside is the one the runner uses.
    Before the run has started, [externalDedupeKeys] makes the caller's map
    the dedupe index of the runner, whatever the index was.  A check whose
    key for the target is already claimed in that map is then not selected:
    its batch ends at once, without an event, and the state is as it was. *)
Theorem external_index_is_used (cfg : ScanConfig) (world : World)
  (fuel : nat) (external : nat) (s : State) :
  hasRun s = false ->
  exists s1,
    externalDedupeKeys external s = inr s1
    /\ dedupeKeys s1 = external
    /\ setDedupeKeys (dedupeKeys s) s1 = s
    /\ forall check context key,
        keyFor check context = Some key ->
        claimed (store s1) external (id (metadata check)) key = true ->
        processBatch cfg world fuel [check] context s1 = Ret tt s1.
Proof.
  intros Hr. exists (setDedupeKeys external s).
  unfold externalDedupeKeys. rewrite Hr.
  split; [reflexivity|]. split; [reflexivity|].
  split; [destruct s; reflexivity|].
  intros check context key Hk Hc. unfold processBatch.
  cbn [filterApplicable]. cbn [dedupeKeys setDedupeKeys].
  rewrite (isCheckApplicable_claimed check context external _ key Hk Hc).
  reflexivity.
Qed.

Lemma external_index_is_used_witness :
  let s :=
    setStore {| maps := [[]; [("c", 0)]]; sets := [["example.com"]] |}
      initialState in
  let check := Sample.reports "c" None None (Some Sample.hostKey) in
  let context := createRuntimeContext Sample.config Sample.target1 in
  exists s1,
    externalDedupeKeys 1 s = inr s1
    /\ processBatch Sample.config Sample.world 1 [check] context s1
       = Ret tt s1.
Proof.
  intros s check context.
  destruct (external_index_is_used Sample.config Sample.world 1 1 s eq_refl)
    as (s1 & H1 & H2 & H3 & H4).
  exists s1. split; [exact H1|].
  apply (H4 check context "example.com"); [reflexivity|].
  unfold externalDedupeKeys in H1. simpl in H1. injection H1 as <-.
  reflexivity.
Defined.

Example estimate_with_a_shared_set :
  let s :=
    setStore {| maps := [[("a", 0); ("b", 0)]]; sets := [[]] |}
      initialState in
  let plan := [[Sample.reports "a" None None (Some Sample.hostKey);
                Sample.reports "b" None None (Some Sample.hostKey)]] in
  fst (estimate Sample.sdk Sample.config plan ["1"] s) = EstimateSuccess 2
  /\ match run Sample.sdk Sample.config plan Sample.world 3 ["1"] s with
     | Ret (Finished _) s' => startedCount (events s') = 1
     | _ => False
     end.
Proof. vm_compute. split; reflexivity. Qed.

(** ** The planner: several checks under one id *)

Lemma find_app {A} (p : A -> bool) (l1 l2 : list A) :
  find p (l1 ++ l2)
  = match find p l1 with
    | Some x => Some x
    | None => find p l2
    end.
Proof.
  induction l1 as [|x l1 IH]; simpl; [reflexivity|].
  destruct (p x); [reflexivity | exact IH].
Qed.

Lemma get_set {V} (k k' : string) (v : V) (m : JsMap.t V) :
  JsMap.get k (JsMap.set k' v m)
  = if String.eqb k' k then Some v else JsMap.get k m.
Proof.
  destruct (String.eqb k' k) eqn:E.
  - apply String.eqb_eq in E. subst. apply get_set_same.
  - apply String.eqb_neq in E. now apply get_set_other.
Qed.

(** A map built from entries holds, for a key, the value of the last entry
    with that key. *)
Lemma get_fold_set {V} (entries : list (string * V)) (k : string) :
  forall acc : JsMap.t V,
    JsMap.get k
      (fold_left (fun m kv => JsMap.set (fst kv) (snd kv) m) entries acc)
    = match find (fun kv => String.eqb (fst kv) k) (rev entries) with
      | Some kv => Some (snd kv)
      | None => JsMap.get k acc
      end.
Proof.
  induction entries as [|e es IH]; intros acc; [reflexivity|].
  cbn [fold_left rev]. rewrite IH, find_app.
  destruct (find (fun kv => String.eqb (fst kv) k) (rev es));
    [reflexivity|].
  cbn [find]. rewrite get_set.
  destruct (String.eqb (fst e) k); reflexivity.
Qed.

Lemma checkMap_last (checks : list CheckDefinition) (i : string) :
  JsMap.get i (buildCheckMap checks) = lastRegistered checks i.
Proof.
  unfold buildCheckMap, JsMap.ofEntries, lastRegistered.
  rewrite get_fold_set, <- map_rev.
  induction (rev checks) as [|c l IH]; [reflexivity|].
  cbn [map find fst snd]. destruct (String.eqb (checkIdOf c) i);
    [reflexivity | exact IH].
Qed.

Lemma lookupBatch_from_map (cm : JsMap.t CheckDefinition)
  (batch : list string) :
  forall cs,
    lookupBatch cm batch = inr cs ->
    forall c, In c cs -> exists i, JsMap.get i cm = Some c.
Proof.
  induction batch as [|i rest IH]; intros cs H c Hc.
  - injection H as <-. destruct Hc.
  - cbn [lookupBatch] in H.
    destruct (JsMap.get i cm) as [check|] eqn:E; [|discriminate].
    destruct (lookupBatch cm rest) as [e|cs']; [discriminate|].
    injection H as <-. destruct Hc as [<-|Hc]; [eauto|].
    now apply (IH cs').
Qed.

Lemma lookupBatches_from_map (cm : JsMap.t CheckDefinition)
  (bs : list (list string)) :
  forall css,
    lookupBatches cm bs = inr css ->
    forall c, In c (List.concat css) -> exists i, JsMap.get i cm = Some c.
Proof.
  induction bs as [|batch rest IH]; intros css H c Hc.
  - injection H as <-. destruct Hc.
  - cbn [lookupBatches] in H.
    destruct (lookupBatch cm batch) as [e|cs] eqn:E; [discriminate|].
    destruct (lookupBatches cm rest) as [e|css']; [discriminate|].
    injection H as <-. cbn [List.concat] in Hc.
    apply in_app_or in Hc. destruct Hc as [Hc|Hc].
    + eapply lookupBatch_from_map; eassumption.
    + now apply (IH css').
Qed.

(** X22. Two definitions registered with the same check id: the plan holds
    the one registered last.  Every check of the batches that
    [getCheckBatches] returns is the last definition of the list with its
    id. *)
Theorem plan_holds_last_registered (checks : list CheckDefinition)
  (batches : list (list CheckDefinition)) (check : CheckDefinition) :
  getCheckBatches checks = inr batches ->
  In check (List.concat batches) ->
  lastRegistered checks (checkIdOf check) = Some check.
Proof.
  unfold getCheckBatches. intros H Hin.
  destruct (buildDag checks) as [[e|] dag]; [discriminate|].
  destruct (batchingToposort dag) as [e|bs]; [discriminate|].
  destruct (lookupBatches_from_map _ _ _ H _ Hin) as (i & Hg).
  pose proof (checkMap_get checks i check Hg) as [_ Hid].
  rewrite <- checkMap_last. now rewrite Hid.
Qed.

Lemma plan_holds_last_registered_witness :
  let first := Sample.plain "a" None in
  let second := Sample.reports "a" None None None in
  exists batches,
    getCheckBatches [first; second] = inr batches
    /\ List.concat batches = [second]
    /\ lastRegistered [first; second] "a" = Some second.
Proof.
  intros first second. exists [[second]].
  split; [reflexivity|]. split; [reflexivity|].
  apply (plan_holds_last_registered [first; second] [[second]] second).
  - reflexivity.
  - now left.
Defined.

(** ** The history: the steps of a task *)



Section Steps.

Variable cfg : ScanConfig.

Variable world : World.



End Steps.


(** ** The cache of parsed documents *)

(** X24. [runtime.html.parse], for calls that do not overlap, parses a
    document once.  A call that succeeds leaves the document in the cache
    under the request id and touches no other entry, and every later call
    for that id returns the same document without asking the host, whatever
    the host then knows.  A call that fails throws a [ScanRunnableError]
    with the code [REQUEST_NOT_FOUND] and leaves the cache as it is.  Calls
    that overlap are not served by the cache: a call that has missed it
    parses the body again when it resumes, whatever the cache holds by
    then, and puts its own document there. *)
Theorem html_parse_once (ParsedHtml : Type)
  (parseHtmlFromString : string -> ParsedHtml) (sdk : SDK)
  (requestID : string) (htmlCache : JsMap.t ParsedHtml) :
  match htmlParse ParsedHtml parseHtmlFromString sdk requestID htmlCache with
  | (inr parsedHtml, htmlCache') =>
      JsMap.get requestID htmlCache' = Some parsedHtml
      /\ (forall other,
             other <> requestID ->
             JsMap.get other htmlCache' = JsMap.get other htmlCache)
      /\ (forall sdk',
             htmlParse ParsedHtml parseHtmlFromString sdk' requestID
               htmlCache'
             = (inr parsedHtml, htmlCache'))
  | (inl e, htmlCache') =>
      htmlCache' = htmlCache
      /\ errorCodeOf e = Some REQUEST_NOT_FOUND
      /\ JsMap.get requestID htmlCache = None
  end
  /\ forall filled,
      match htmlParseFetched ParsedHtml parseHtmlFromString sdk requestID
              filled with
      | (inr parsedHtml, filled') =>
          JsMap.get requestID filled' = Some parsedHtml
          /\ fst (htmlParseFetched ParsedHtml parseHtmlFromString sdk
                    requestID htmlCache) = inr parsedHtml
      | (inl e, filled') =>
          filled' = filled
          /\ fst (htmlParseFetched ParsedHtml parseHtmlFromString sdk
                    requestID htmlCache) = inl e
      end.
Proof.
  split.
  - unfold htmlParse, htmlParseFetched.
    destruct (JsMap.get requestID htmlCache) as [cached|] eqn:E.
    + split; [exact E|]. split; [reflexivity|]. intros sdk'. now rewrite E.
    + destruct (requests_get sdk requestID) as [request|];
        [|repeat split].
      destruct (response request) as [response|]; [|repeat split].
      destruct (getBody response) as [body|]; [|repeat split].
      cbv zeta. split; [apply get_set_same|]. split.
      * intros other Hne. apply get_set_other. congruence.
      * intros sdk'. now rewrite get_set_same.
  - intros filled. unfold htmlParseFetched.
    destruct (requests_get sdk requestID) as [request|]; [|now split].
    destruct (response request) as [response|]; [|now split].
    destruct (getBody response) as [body|]; [|now split].
    cbv zeta. split; [apply get_set_same | reflexivity].
Qed.

(** ** The store of the sessions *)

(** X25. An [UpdateSession] message never changes which sessions the store
    shows, nor their order: the list of the ids of the sessions is the
    same, whatever the state; an [AddSession] message adds the id of its
    session at the end when the store is in the [Success] state. *)
Theorem update_session_keeps_ids (SessionState : Type)
  (sessionId : SessionState -> string)
  (state : SessionsStore.SessionsState SessionState)
  (session : SessionState) :
  SessionsStore.shownIds SessionState sessionId
    (SessionsStore.send SessionState sessionId state
       (SessionsStore.MsgUpdateSession SessionState session))
  = SessionsStore.shownIds SessionState sessionId state
  /\ forall sessions,
      SessionsStore.shownIds SessionState sessionId
        (SessionsStore.send SessionState sessionId
           (SessionsStore.Success SessionState sessions)
           (SessionsStore.MsgAddSession SessionState session))
      = map sessionId sessions ++ [sessionId session].
Proof.
  split.
  - destruct state as [|e|sessions|]; try reflexivity. simpl.
    rewrite map_map. apply map_ext. intros x.
    destruct (String.eqb (sessionId x) (sessionId session)) eqn:E;
      [|reflexivity].
    apply String.eqb_eq in E. now rewrite E.
  - intros sessions. simpl. now rewrite map_app.
Qed.

(** X26. The store only leaves the [Idle] state by a [Start] message:
    whatever messages are sent to an idle store, as long as none is
    [Start] the store stays idle, and sessions that a [Success] message
    brings are not shown. *)
Theorem idle_until_start (SessionState : Type)
  (sessionId : SessionState -> string)
  (messages : list (SessionsStore.Message SessionState)) :
  forallb (fun m => negb (SessionsStore.isStart SessionState m)) messages
  = true ->
  fold_left (SessionsStore.send SessionState sessionId) messages
    (SessionsStore.Idle SessionState)
  = SessionsStore.Idle SessionState.
Proof.
  induction messages as [|m ms IH]; [reflexivity|]. simpl.
  intros H. apply andb_prop in H. destruct H as [Hm Hms].
  destruct m; simpl in *; try discriminate; now apply IH.
Qed.

Lemma idle_until_start_witness :
  fold_left (SessionsStore.send string (fun session => session))
    [SessionsStore.MsgSuccess string ["a"];
     SessionsStore.MsgAddSession string "b";
     SessionsStore.MsgClear string]
    (SessionsStore.Idle string)
  = SessionsStore.Idle string.
Proof.
  apply (idle_until_start string (fun session => session)
           [SessionsStore.MsgSuccess string ["a"];
            SessionsStore.MsgAddSession string "b";
            SessionsStore.MsgClear string]).
  reflexivity.
Defined.

(** ** What can be thrown out of the pieces of a run *)

Section Thrown.

Variable sdk : SDK.
Variable cfg : ScanConfig.
Variable batches : list (list CheckDefinition).
Variable world : World.










End Thrown.


(** A check that throws between two that report: the run goes on with the
    other checks, the other batch and the other target, and finishes. *)
Example throwing_check_aborts_nothing :
  let plan := [[Sample.reports "c" None None None; Sample.throws];
               [Sample.reports "d" None None None]] in
  match run Sample.sdk Calm.config plan Calm.world 2 ["1"; "2"] initialState
  with
  | Ret (Finished fs) s' =>
      List.length fs = 4
      /\ map (fun r => (checkId r, targetRequestId r, isCompleted r))
           (getExecutionHistory s')
         = [("c", "1", true); ("throws", "1", false); ("d", "1", true);
            ("c", "2", true); ("throws", "2", false); ("d", "2", true)]
  | _ => False
  end.
Proof. vm_compute. split; reflexivity. Qed.


(** ** The planner: the layers of the checks *)

(** With distinct ids a registered check is known by its id. *)
Lemma check_of_id (checks : list CheckDefinition) (c c' : CheckDefinition) :
  NoDup (checkIds checks) ->
  In c checks -> In c' checks -> checkIdOf c = checkIdOf c' -> c = c'.
Proof.
  unfold checkIds.
  induction checks as [|x r IH]; intros Hnd Hc Hc' Hid; [destruct Hc|].
  simpl in Hnd. inversion Hnd as [|? ? Hx Hr]; subst.
  destruct Hc as [<-|Hc], Hc' as [<-|Hc'].
  - reflexivity.
  - exfalso. apply Hx. rewrite Hid. now apply in_map.
  - exfalso. apply Hx. rewrite <- Hid. now apply in_map.
  - now apply IH.
Qed.

Lemma nth_ids (batches : list (list CheckDefinition)) (i : nat) :
  nth i (map (map checkIdOf) batches) []
  = map checkIdOf (nth i batches []).
Proof.
  exact (map_nth (map checkIdOf) batches [] i).
Qed.

Lemma in_nth_checks (batches : list (list CheckDefinition))
  (c : CheckDefinition) (i : nat) :
  In c (nth i batches []) -> In c (List.concat batches).
Proof.
  revert i. induction batches as [|b r IH]; intros i H.
  - destruct i; destruct H.
  - simpl. apply in_or_app. destruct i as [|i]; [now left|].
    right. eapply IH. exact H.
Qed.

(** C3, as the code has it.  For checks with distinct ids, none of them
    [__proto__], whose [dependsOn] all name registered checks and whose
    graph of dependencies has no cycle, [getCheckBatches] returns a
    partition of the checks into batches that is a layering: batch 0 holds
    exactly the checks without dependency, every check is in one batch and
    in one only, once, and a check that another one depends on is in a
    batch strictly before it. *)
Theorem getCheckBatches_layering (checks : list CheckDefinition) :
  NoDup (checkIds checks) ->
  ordinaryIds (checkIds checks) ->
  knownDependencies checks ->
  acyclicDependencies checks ->
  exists batches,
    getCheckBatches checks = inr batches
    /\ (forall check,
           In check (nth 0 batches [])
           <-> In check checks /\ dependenciesOf check = [])
    /\ Permutation (List.concat batches) checks
    /\ NoDup (List.concat batches)
    /\ (forall check, In check checks ->
                      exists i, In check (nth i batches []))
    /\ (forall check i j,
           In check (nth i batches []) -> In check (nth j batches []) ->
           i = j)
    /\ (forall d c,
           In d checks -> In c checks ->
           In (checkIdOf d) (dependenciesOf c) ->
           exists i j,
             i < j /\ In d (nth i batches []) /\ In c (nth j batches [])).
Proof.
  intros Hnd _ Hknown Hacyc.
  destruct (getCheckBatches_layers_of_ids checks Hknown Hacyc)
    as (batches & Hrun & H0 & Hndi & Hall & Huniq & Hedge & Hreg & Hperm).
  cbv zeta in *.
  exists batches. split; [exact Hrun|].
  assert (Hin : forall check i,
             In check (nth i batches []) -> In check checks).
  { intros check i H. apply Hreg. eapply in_nth_checks. exact H. }
  assert (Hlift : forall check i,
             In check checks ->
             In (checkIdOf check) (nth i (map (map checkIdOf) batches) []) ->
             In check (nth i batches [])).
  { intros check i Hc H. rewrite nth_ids in H. apply in_map_iff in H.
    destruct H as (c' & Hid & Hc').
    rewrite <- (check_of_id checks c' check Hnd (Hin _ _ Hc') Hc Hid).
    exact Hc'. }
  assert (Hdown : forall check i,
             In check (nth i batches []) ->
             In (checkIdOf check) (nth i (map (map checkIdOf) batches) [])).
  { intros check i H. rewrite nth_ids. now apply in_map. }
  split.
  { intros check. split.
    - intros H. pose proof (Hin _ _ H) as Hc. split; [exact Hc|].
      apply Hdown, H0 in H. destruct H as [_ H].
      apply H; [exact Hc | reflexivity].
    - intros [Hc Hd]. apply Hlift; [exact Hc|]. apply H0. split.
      + unfold checkIds. now apply in_map.
      + intros c' Hc' Hid.
        now rewrite (check_of_id checks c' check Hnd Hc' Hc Hid). }
  split; [now apply Hperm|].
  split.
  { rewrite <- concat_map_ids in Hndi. eapply NoDup_map_inv. exact Hndi. }
  split.
  { intros check Hc.
    assert (Hx : In (checkIdOf check)
                   (List.concat (map (map checkIdOf) batches))).
    { apply Hall. unfold checkIds. now apply in_map. }
    apply in_concat in Hx. destruct Hx as (b & Hb & Hx).
    apply In_nth with (d := []) in Hb. destruct Hb as (i & _ & <-).
    exists i. now apply Hlift. }
  split.
  { intros check i j Hi Hj.
    apply (Huniq (checkIdOf check)); now apply Hdown. }
  intros d c Hd Hc Hdep.
  destruct (Hedge (checkIdOf d) (checkIdOf c)) as (i & j & Hlt & Hi & Hj).
  { exists c. auto. }
  exists i, j. split; [exact Hlt|]. split; now apply Hlift.
Qed.

(** C3 as the specification states it fails for checks that share an id:
    of two checks with the id [a] the plan keeps the one registered last,
    so the first is in no batch; and the check kept, which has no
    dependency, is in batch 1, behind the dependency of the check it
    replaced. *)
Lemma duplicate_ids_break_layering :
  let first := Sample.plain "a" (Some ["b"]) in
  let second := Sample.plain "a" None in
  let checks := [first; second; Sample.plain "b" None] in
  knownDependencies checks
  /\ acyclicDependencies checks
  /\ getCheckBatches checks = inr [[Sample.plain "b" None]; [second]]
  /\ In first checks
  /\ ~ In first (List.concat [[Sample.plain "b" None]; [second]])
  /\ dependenciesOf second = []
  /\ ~ In second (nth 0 [[Sample.plain "b" None]; [second]] []).
Proof.
  intros first second checks.
  assert (Hedge : forall d c, dependsDirectly checks d c ->
                              d = "b" /\ c = "a").
  { intros d c (check & [<-|[<-|[<-|[]]]] & <- & Hd); simpl in Hd.
    - destruct Hd as [<-|[]]. auto.
    - destruct Hd.
    - destruct Hd. }
  split.
  { intros check d [<-|[<-|[<-|[]]]] Hd; simpl in Hd.
    - destruct Hd as [<-|[]]. simpl. auto.
    - destruct Hd.
    - destruct Hd. }
  split.
  { apply (ranked_acyclic checks
             (fun x => if String.eqb x "a" then 1 else 0)).
    intros d c Hdc. destruct (Hedge d c Hdc) as [-> ->]. simpl. lia. }
  split; [vm_compute; reflexivity|].
  split; [now left|].
  split.
  { simpl. intros [H|[H|[]]]; discriminate. }
  split; [reflexivity|].
  simpl. intros [H|[]]. discriminate.
Qed.

Lemma getCheckBatches_layering_witness :
  let a := Sample.plain "a" None in
  let b := Sample.plain "b" (Some ["a"]) in
  let checks := [b; a] in
  NoDup (checkIds checks)
  /\ ordinaryIds (checkIds checks)
  /\ knownDependencies checks
  /\ acyclicDependencies checks
  /\ getCheckBatches checks = inr [[a]; [b]]
  /\ exists batches,
      getCheckBatches checks = inr batches
      /\ Permutation (List.concat batches) checks
      /\ exists i j,
          i < j /\ In a (nth i batches []) /\ In b (nth j batches []).
Proof.
  intros a b checks.
  assert (Hedge : forall d c, dependsDirectly checks d c ->
                              d = "a" /\ c = "b").
  { intros d c (check & [<-|[<-|[]]] & <- & Hd); simpl in Hd.
    - destruct Hd as [<-|[]]. auto.
    - destruct Hd. }
  assert (Hnd : NoDup (checkIds checks)).
  { simpl. constructor; [intros [H|[]]; discriminate|].
    constructor; [intros []|constructor]. }
  assert (Hord : ordinaryIds (checkIds checks)).
  { simpl. intros [H|[H|[]]]; discriminate. }
  assert (Hknown : knownDependencies checks).
  { intros check d [<-|[<-|[]]] Hd; simpl in Hd.
    - destruct Hd as [<-|[]]. simpl. auto.
    - destruct Hd. }
  assert (Hacyc : acyclicDependencies checks).
  { apply (ranked_acyclic checks Sample.rankAB).
    intros d c Hdc. destruct (Hedge d c Hdc) as [-> ->].
    vm_compute. lia. }
  split; [exact Hnd|]. split; [exact Hord|]. split; [exact Hknown|].
  split; [exact Hacyc|]. split; [vm_compute; reflexivity|].
  destruct (getCheckBatches_layering checks Hnd Hord Hknown Hacyc)
    as (batches & Hrun & _ & Hperm & _ & _ & _ & Hlayer).
  exists batches. split; [exact Hrun|]. split; [exact Hperm|].
  apply Hlayer; simpl; auto.
Defined.

(** ** The snapshot of an estimate *)

(** The snapshot holds, for every check id of the index, a set of its own
    with the keys of the set of the index. *)
Lemma snapshot_mirrors (s : State) :
  wfIndex (store s) (dedupeKeys s) ->
  NoDup (JsMap.keys (mapAt (store s) (dedupeKeys s))) ->
  separateSets (snd (createDedupeKeysSnapshot s))
    (fst (createDedupeKeysSnapshot s))
  /\ mirrors (store s) (mapAt (store s) (dedupeKeys s))
       (snd (createDedupeKeysSnapshot s)) (fst (createDedupeKeysSnapshot s)).
Proof.
  intros (Ha & Hwf) Hk.
  unfold createDedupeKeysSnapshot, newMap. cbn [fst snd].
  set (snapshot := List.length (maps (store s))).
  set (h1 := {| maps := maps (store s) ++ [[]]; sets := sets (store s) |}).
  assert (Hm1 : mapAt h1 snapshot = []).
  { unfold h1, mapAt. cbn [maps]. subst snapshot.
    rewrite app_nth2 by lia. now rewrite Nat.sub_diag. }
  apply (copyEntries_mirrors (store s) snapshot
           (mapAt (store s) (dedupeKeys s)) [] h1).
  - exact Hk.
  - exact Hwf.
  - unfold h1. cbn [maps]. rewrite length_app. simpl. subst snapshot. lia.
  - unfold h1. cbn [sets]. lia.
  - intros r _. reflexivity.
  - now rewrite Hm1.
  - rewrite Hm1. constructor.
  - rewrite Hm1. constructor.
  - intros c. simpl. now rewrite Hm1.
Qed.

Lemma mirrors_sameClaims (h0 h : Store) (keys snapshot : nat) :
  mirrors h0 (mapAt h0 keys) h snapshot ->
  sameClaims h snapshot h0 keys.
Proof.
  intros B c k. specialize (B c). unfold claimed.
  destruct (JsMap.get c (mapAt h0 keys)) as [r|].
  - destruct B as (r' & Hg & Hset). rewrite Hg. unfold setHas.
    now rewrite Hset.
  - now rewrite B.
Qed.

(** The snapshot and its sets are objects that the estimate makes. *)
Lemma snapshot_fresh (s : State) :
  freshIndex (store s) (snd (createDedupeKeysSnapshot s))
    (fst (createDedupeKeysSnapshot s)).
Proof.
  unfold createDedupeKeysSnapshot, newMap. cbn [fst snd].
  set (snapshot := List.length (maps (store s))).
  set (h1 := {| maps := maps (store s) ++ [[]]; sets := sets (store s) |}).
  assert (H1 : freshIndex (store s) h1 snapshot).
  { split; [|split].
    - exists [[]], []. simpl. now rewrite app_nil_r.
    - unfold h1, snapshot. simpl. rewrite length_app. simpl. lia.
    - unfold h1, mapAt, snapshot. simpl.
      rewrite app_nth2, Nat.sub_diag by lia. constructor. }
  apply (copyEntries_fresh (store s) (mapAt (store s) (dedupeKeys s))
           snapshot h1 H1).
Qed.

(** C5. [estimate] leaves the dedupe keys of the runner as they are.  It
    tests the checks against a snapshot: a new map, with new sets, in which
    every check id of the index has a set of its own that holds the keys of
    its set in the index, so that the snapshot claims what the index claims
    and, when the index shares no set between check ids, the estimate
    counts what the tests on the index itself would select.  The estimate
    changes nothing in the runner but the store of objects, where it only
    makes new ones: the map and the sets of the index are not written, so
    every claim is as it was.  A run that follows selects the same checks
    as it would have without the estimate: it ends with the same result,
    the same events (those of the checks started among them), the same
    history and the same claims. *)
Theorem estimate_leaves_dedupe_keys (sdk : SDK) (cfg : ScanConfig)
  (batches : list (list CheckDefinition)) (world : World)
  (requestIDs : list string) (s : State) :
  wfIndex (store s) (dedupeKeys s) ->
  let snapshot := fst (createDedupeKeysSnapshot s) in
  let copied := snd (createDedupeKeysSnapshot s) in
  let s' := snd (estimate sdk cfg batches requestIDs s) in
  fst (estimate sdk cfg batches requestIDs s)
  = fst (estimateLoop sdk cfg batches requestIDs snapshot 0 copied)
  /\ snapshot = List.length (maps (store s))
  /\ freshIndex (store s) copied snapshot
  /\ (NoDup (JsMap.keys (mapAt (store s) (dedupeKeys s))) ->
      mirrors (store s) (mapAt (store s) (dedupeKeys s)) copied snapshot
      /\ NoDup (map snd (mapAt copied snapshot))
      /\ sameClaims copied snapshot (store s) (dedupeKeys s))
  /\ (separateSets (store s) (dedupeKeys s) ->
      fst (estimate sdk cfg batches requestIDs s)
      = fst (estimateLoop sdk cfg batches requestIDs (dedupeKeys s) 0
               (store s)))
  /\ setStore (store s) s' = s
  /\ dedupeKeys s' = dedupeKeys s
  /\ extends (store s) (store s')
  /\ mapAt (store s') (dedupeKeys s') = mapAt (store s) (dedupeKeys s)
  /\ (forall r, r < List.length (sets (store s)) ->
                setAt (store s') r = setAt (store s) r)
  /\ (forall c k,
         claimed (store s') (dedupeKeys s') c k
         = claimed (store s) (dedupeKeys s) c k)
  /\ forall fuel ids,
      sameRun (run sdk cfg batches world fuel ids s)
        (run sdk cfg batches world fuel ids s').
Proof.
  intros Hwf snapshot copied s'.
  assert (Hest : fst (estimate sdk cfg batches requestIDs s)
                 = fst (estimateLoop sdk cfg batches requestIDs snapshot 0
                          copied)).
  { unfold estimate, snapshot, copied.
    destruct (createDedupeKeysSnapshot s) as [k h]. cbn [fst snd].
    now destruct (estimateLoop sdk cfg batches requestIDs k 0 h). }
  split; [exact Hest|].
  split; [reflexivity|].
  split; [apply snapshot_fresh|].
  split.
  { intros Hk.
    destruct (snapshot_mirrors s Hwf Hk) as [(_ & _ & Hsep) Hmir].
    split; [exact Hmir|]. split; [exact Hsep|].
    now apply mirrors_sameClaims. }
  split.
  { intros Hsep. rewrite Hest.
    destruct (snapshot_sameClaims s Hsep) as [A B].
    now apply estimateLoop_sameClaims. }
  exact (estimate_writes_no_index sdk cfg batches world requestIDs s Hwf).
Qed.

Lemma estimate_leaves_dedupe_keys_witness :
  let check := Sample.reports "c" None None (Some Sample.hostKey) in
  let s :=
    setStore {| maps := [[("c", 0)]]; sets := [["example.com"]] |}
      initialState in
  let snapshot := fst (createDedupeKeysSnapshot s) in
  let copied := snd (createDedupeKeysSnapshot s) in
  let s' := snd (estimate Sample.sdk Calm.config [[check]] ["1"; "2"] s) in
  wfIndex (store s) (dedupeKeys s)
  /\ snapshot <> dedupeKeys s
  /\ claimed copied snapshot "c" "example.com" = true
  /\ fst (estimate Sample.sdk Calm.config [[check]] ["1"; "2"] s)
     = EstimateSuccess 0
  /\ dedupeKeys s' = dedupeKeys s
  /\ sameRun
       (run Sample.sdk Calm.config [[check]] Calm.world 3 ["1"; "2"] s)
       (run Sample.sdk Calm.config [[check]] Calm.world 3 ["1"; "2"] s').
Proof.
  intros check s snapshot copied s'.
  assert (Hwf : wfIndex (store s) (dedupeKeys s)).
  { split; [simpl; lia|]. repeat constructor. }
  split; [exact Hwf|].
  destruct (estimate_leaves_dedupe_keys Sample.sdk Calm.config [[check]]
              Calm.world ["1"; "2"] s Hwf)
    as (_ & Hnew & _ & Hcopy & _ & _ & Hk & _ & _ & _ & _ & Hrun).
  split; [unfold snapshot; rewrite Hnew; discriminate|].
  split.
  { destruct Hcopy as (_ & _ & Hsame).
    - repeat constructor. intros [].
    - unfold snapshot, copied. rewrite Hsame. reflexivity. }
  split; [vm_compute; reflexivity|].
  split; [exact Hk | apply Hrun].
Defined.
